(* ===== verification/_CoqProject ===== *)
-Q . S2P
Prelude.v
GoTime.v
Sql.v
Schema.v
WellFormed.v
Targets.v
Checks.v
Incidents.v
Rollup.v
Crypto.v
Sessions.v
Store.v
MonitorState.v
Runner.v
Outages.v
Concurrent.v
Restart.v
Maintenance.v
Scheduler.v
Goroutines.v
Shutdown.v
Limit.v
Text.v
Migrations.v
Texts.v
Quoted.v
Csrf.v
Password.v
Netip.v
AddrText.v
Dial.v
Validate.v
Json.v
Checker.v
FiveM.v
Fakefx.v
Config.v
Pages.v
Format.v
Lines.v
Confidential.v
Server.v
Handlers.v
Guard.v
Admission.v
Clients.v
Guessing.v
Response.v
Exposition.v
Cached.v
CacheLocks.v
View.v
Render.v
Preview.v
Mail.v
Smtp.v
TestSupport.v
Alert.v
Main.v
Commands.v
