(* ===== verification/Prelude.v ===== *)
(** * dmn-status: a verification library for the uptime service

    dmn-status checks services over HTTP, TCP and FiveM, keeps what it measured
    in SQLite, opens and closes incidents, mails about them, and shows the
    result on a public page and in an admin area.  This library models the Go
    code under src/ as executable definitions and proves what makes each part
    correct.  File names below are files of this directory; paths are paths
    under src/.

    ** The parts and how they interact

    One goroutine per target ([Runner]) performs checks ([Checker], which
    connects through the guard in [Dial]), stores each result, steps the outage
    detector ([MonitorState]) and opens or closes incidents in the store.  The
    store is a set of statements on tables ([Targets], [Checks], [Incidents],
    [Rollup], [Sessions]).  Maintenance ([Maintenance]) aggregates, prunes and
    retries mails ([Alert], which composes a message with [Mail] and sends it
    with [Smtp]).  The manager ([Scheduler]) starts and stops the goroutines
    when the web handlers ([Server], [Handlers]) change targets.  [Commands] is
    the program around all of it.

    ** Foundations

    - [Prelude]: results [res E A] for Go's (value, error), 64-bit integers
      with wrap-around, ordered rows, list lemmas, tactics, hint databases.
    - [GoTime]: time.Time as nanoseconds, Duration with saturating Sub.
    - [Sql]: the database monad.  A world carries a schedule of failing
      statements, so a theorem about all worlds covers every pattern of
      failures; [keeps I m] is the invariant rule of the monad.
    - [Text], [Netip], [AddrText], [Quoted], [Crypto]: what the code uses of
      strings, strconv, unicode/utf8, encoding/base64, net, net/netip (with
      the texts of addresses and prefixes), mime and mime/quotedprintable.
      SHA-256, argon2id and the parsers of net/url and net/mail are class
      parameters ([Crypto], [NetLib]), of which nothing is assumed beyond what
      a theorem names.
    - [Json]: what the checks use of encoding/json, reading a value from a
      body that may end early or exceed a limit, and writing one.

    ** The store (internal/store)

    [Schema] has the structs and the tables of the migrations; [WellFormed]
    the invariant [Wf]; [Targets], [Checks], [Incidents], [Rollup] and
    [Sessions] one definition per method of Store.  [Store] closes over
    arbitrary histories of operations, [Migrations] is the opening, migrating
    and backing up of the file (db.go).  Theorems: the invariant under every
    history and every failure pattern; incidents open once and close once;
    the hourly aggregation equals the abstract [summary] of the checks and
    may be repeated; uptime, hours and latency equal the figures of the raw
    checks; sessions end with their lifetime and with a password change; a
    migration that fails half-way is resumed.

    ** The monitor (internal/monitor)

    [MonitorState] is state.go, [Runner] the goroutine of scheduler.go,
    [Maintenance] maintenance.go, [Scheduler] the operations of the manager.
    [Outages] states what an outage is on the history of checks alone and
    proves that the incidents table refines it; [Concurrent] proves the same
    of runners whose store calls interleave with each other's and with those
    of handlers and maintenance, by rely and guarantee; [Restart] proves that a
    restored runner is bisimilar to one that never stopped.  [Goroutines] is
    the interleaving of goroutines and callers with the semaphore, the lock
    and the contexts as a step relation: at most eight checks at a time, one
    live goroutine per target, every stop returns, Wait is final.  [Shutdown]
    proves that after the end of the context everything stops after finitely
    many steps, with all goroutines done and all callers returned.

    ** Checks (internal/check)

    [Validate] is validate.go with the status list of http.go, [Dial] is
    dial.go, [Checker] is check.go, http.go, tcp.go and fivem.go over the class
    [Peers] (an HTTP exchange over a connection), with the answers of a game
    server decoded by [Json].  [Fakefx] is the server of fakefx.  Theorems:
    what a game server that writes JSON says is what a check stores
    ([FiveM]), and a check of fakefx sees its players; which addresses are refused, on the tables of reserved networks; that the
    addresses behind the guard cannot influence a check (noninterference);
    when an HTTP check succeeds; what passes validation.

    ** Mails (internal/alert)

    [Mail] composes a message from an outage, with the dates in Berlin and the
    MIME encodings of [Quoted], and reads it back; [Smtp] is the session of
    net/smtp as the code drives it, against a server that may answer anything,
    and the test server of smtptest as a state machine, whose goroutines are
    in [TestSupport]; [Alert] is the limit
    per hour and the whole of [send], an instance of the class [Mailer] that
    [Runner] is proved against.  Theorems: a mail program reads what was
    meant, whatever a service is called; a mail counts as sent exactly when the
    server took it for all recipients; the test server stores exactly the
    message.

    ** The web server (internal/web) and the rest

    [Limit] is the limiter of limit.go, [Csrf] the form tokens, [Password]
    internal/auth, [Pages] the data of the public pages (view.go, public.go,
    the bars of chart.go), [Texts] the tables of i18n.go, [Format] its figures
    and dates and the texts of the bars, [Lines] the latency path of chart.go,
    [View] the structures the templates are executed with, [Preview] the
    handler of preview.go.  [Server] has the request and server state,
    middleware, routes, cache and public handlers, [Handlers] the handlers of
    admin.go and [serve], the whole handler; [Response] the headers around it,
    [Render] render.go with its error page.  [Exposition] reads the metrics
    page as Prometheus does and proves that it finds every sample.
    [Confidential] proves that the public pages depend only on the public part
    of the database; [Guard] that only a signed same-origin POST changes
    anything; [Admission] where sessions come from and that stored targets stay
    valid; [Clients] whom a login attempt is counted under, [Guessing] how many
    passwords can be tried; [Cached] that cached pages are recent and never
    older than the last change, [CacheLocks] that this survives concurrent
    requests; [View] that the form for a target loses nothing.  [Config] is
    internal/config, [Main] the account and address helpers of
    cmd/dmn-status, [Commands] its command line and the order of serve.

    ** Bounds and fuel

    [itoa] writes at most 20 digits, enough for 64 bits ([parse_itoa]).  The
    loops over bytes ([trim_left], [runes_of], [cells_loop]) have the length of
    their input as fuel and consume at least one element per step
    ([trim_left_spec], [cells_loop_one]).  The decoder of [Json] has the length
    of its input as fuel and the library's limit of 10000 nested values;
    [read_write] shows that both suffice for what is written.  [v6_loop] has
    nine rounds, since each adds two of sixteen bytes.  The readers of [Quoted] and [Mail] are
    specifications: [read_message] takes the number of header fields as fuel,
    and the round trips are proved for the fuel they name.  Random bytes, clock
    readings and the outcome of a select are arguments.

    ** What is not modelled

    SQLite itself, below the statements; TLS, TCP and HTTP on the wire; the
    html/template files and the static files; the tz database (the offset of
    Berlin is a parameter); the parsing and printing of URLs and mail
    addresses; the text of the JSON the API writes (its structured data is
    modelled); logging; the constants of refused_*.go; the certificate of the
    test mail server.  Handlers are atomic in [Server] and [Handlers]; the
    interleavings that matter, of store calls, goroutines, callers and cached
    pages, are in [Concurrent], [Goroutines], [Shutdown] and [CacheLocks].  [Goroutines]
    keeps only the control flow of what [Runner] and [Scheduler] compute.  The
    sums of counters in [Rollup] and [Pages] are unbounded integers: they
    count rows of a table and stay far below 2^63. *)

From Stdlib Require Export ZArith Lia Ascii.
From stdpp Require Export base tactics decidable numbers option list gmap strings sorting.

#[export] Set Default Goal Selector "!".
#[global] Open Scope Z_scope.

(** ** Hint databases

    [dmn] holds the lemmas that close the common side conditions of the
    development; [sql] the closure rules of the database monad. *)

Create HintDb dmn.
Create Rewrite HintDb dmn_simpl.
Create HintDb sql.

(** ** Results

    A Go function that returns [(T, error)] returns [res E T]: the value of
    the error is kept, because callers compare it with [errors.Is]. *)

Inductive res (E A : Type) : Type :=
  | Ok (a : A)
  | Err (e : E).
Arguments Ok {E A} a.
Arguments Err {E A} e.

Definition is_ok {E A} (r : res E A) : bool :=
  match r with Ok _ => true | Err _ => false end.

(** ** Machine integers

    Go's [int] and [int64] are 64 bits wide; [uint64] counters wrap. *)

Definition int64_min : Z := - 2 ^ 63.
Definition int64_max : Z := 2 ^ 63 - 1.
Definition in_int64 (z : Z) : Prop := int64_min ≤ z ≤ int64_max.
Definition wrap64 (z : Z) : Z := (z + 2 ^ 63) mod 2 ^ 64 - 2 ^ 63.
Definition wrapu64 (z : Z) : Z := z mod 2 ^ 64.
Definition sat64 (z : Z) : Z := Z.max int64_min (Z.min int64_max z).

#[export] Instance in_int64_dec z : Decision (in_int64 z).
Proof. unfold in_int64. apply _. Defined.

Lemma wrap64_id z : in_int64 z → wrap64 z = z.
Proof.
  unfold in_int64, wrap64, int64_min, int64_max. intros H.
  rewrite Z.mod_small; lia.
Qed.

Lemma sat64_id z : in_int64 z → sat64 z = z.
Proof. unfold in_int64, sat64. lia. Qed.

Lemma sat64_ge a z : a ≤ int64_max → (a ≤ sat64 z ↔ (a ≤ z ∨ a ≤ int64_min)).
Proof. unfold sat64, int64_min, int64_max. lia. Qed.

Lemma sat64_lt a z : int64_min < a ≤ int64_max → (sat64 z < a ↔ z < a).
Proof. unfold sat64, int64_min, int64_max. lia. Qed.

#[export] Hint Resolve wrap64_id sat64_id : dmn.

(** ** Rows ordered by a key

    [order by a, b] over rows whose key pair is [(a, b)]; a descending
    order negates the components. *)

Section OrderBy.
Context {A : Type} (key : A → Z * Z).

Definition key_le (x y : A) : Prop :=
  (key x).1 < (key y).1 ∨ ((key x).1 = (key y).1 ∧ (key x).2 ≤ (key y).2).

#[export] Instance key_le_dec : RelDecision key_le.
Proof. intros x y. unfold key_le. apply _. Defined.

#[export] Instance key_le_trans : Transitive key_le.
Proof. intros x y z. unfold key_le. lia. Qed.

#[export] Instance key_le_total : Total key_le.
Proof. intros x y. unfold key_le. lia. Qed.

Definition order_by (l : list A) : list A := merge_sort key_le l.

Lemma order_by_Permutation l : order_by l ≡ₚ l.
Proof. apply merge_sort_Permutation. Qed.

Lemma elem_of_order_by x l : x ∈ order_by l ↔ x ∈ l.
Proof. by rewrite order_by_Permutation. Qed.

Lemma order_by_sorted l : StronglySorted key_le (order_by l).
Proof. apply (StronglySorted_merge_sort key_le). Qed.

Lemma key_le_antisym x y : key_le x y → key_le y x → key x = key y.
Proof. unfold key_le. destruct (key x), (key y); simpl. intros; f_equal; lia. Qed.

(** A sorted list is the sorted form of each of its permutations, when no
    two rows share a key. *)
Lemma order_by_unique l l' :
  NoDup (key <$> l) → StronglySorted key_le l' → l' ≡ₚ l → order_by l = l'.
Proof.
  intros Hnd Hs Hp. apply (StronglySorted_unique_strong key_le).
  - intros x y Hx Hy Hxy Hyx.
    rewrite order_by_Permutation in Hx. rewrite Hp in Hy.
    pose proof (key_le_antisym _ _ Hxy Hyx) as Hk.
    apply list_elem_of_lookup in Hx as [i Hi].
    apply list_elem_of_lookup in Hy as [j Hj].
    assert (i = j) as ->; [|by simplify_eq].
    apply (NoDup_lookup (key <$> l) i j (key x) Hnd);
      [by rewrite list_lookup_fmap, Hi | by rewrite list_lookup_fmap, Hj, Hk].
  - apply order_by_sorted.
  - done.
  - by rewrite order_by_Permutation.
Qed.

Lemma order_by_Permutation_eq l l' :
  NoDup (key <$> l) → l ≡ₚ l' → order_by l = order_by l'.
Proof.
  intros Hnd Hp. apply order_by_unique; [done|apply order_by_sorted|].
  by rewrite order_by_Permutation.
Qed.

(** A row whose key is below all others comes first. *)
Lemma order_by_cons x l :
  NoDup (key <$> x :: l) → (∀ y, y ∈ l → key_le x y) →
  order_by (x :: l) = x :: order_by l.
Proof.
  intros Hnd Hle. apply order_by_unique; [done| |].
  - constructor; [apply order_by_sorted|].
    apply list.Forall_forall. intros y Hy. rewrite elem_of_order_by in Hy. by apply Hle.
  - by rewrite order_by_Permutation.
Qed.
End OrderBy.

(** ** Lists *)

Section ListSum.
Context {A : Type}.

Definition sum_with (f : A → Z) (l : list A) : Z := foldr (λ x s, f x + s) 0 l.

Lemma sum_with_app f l1 l2 : sum_with f (l1 ++ l2) = sum_with f l1 + sum_with f l2.
Proof. induction l1; simpl; lia. Qed.

Lemma sum_with_Permutation f l1 l2 : l1 ≡ₚ l2 → sum_with f l1 = sum_with f l2.
Proof. induction 1; simpl; lia. Qed.

Lemma sum_with_le f g l :
  (∀ x, x ∈ l → f x ≤ g x) → sum_with f l ≤ sum_with g l.
Proof.
  induction l as [|x l IH]; intros H; simpl; [done|].
  specialize (H x) as Hx. assert (f x ≤ g x) by (apply Hx; left).
  assert (sum_with f l ≤ sum_with g l) by (apply IH; intros; apply H; by right). lia.
Qed.

Lemma sum_with_ext f g l : (∀ x, x ∈ l → f x = g x) → sum_with f l = sum_with g l.
Proof.
  intros H. assert (sum_with f l ≤ sum_with g l ∧ sum_with g l ≤ sum_with f l) as [? ?];
    [|lia]. split; apply sum_with_le; intros x Hx; rewrite (H x Hx); lia.
Qed.

End ListSum.

Lemma sum_with_fmap {A B} (h : B → A) f (l : list B) :
  sum_with f (h <$> l) = sum_with (λ x, f (h x)) l.
Proof. induction l as [|x l IH]; csimpl; [done|]. by rewrite IH. Qed.

(** The number of elements satisfying a boolean test. *)
Definition count {A} (p : A → bool) (l : list A) : Z := sum_with (λ x, if p x then 1 else 0) l.

Lemma count_bounds {A} (p : A → bool) (l : list A) : 0 ≤ count p l ≤ Z.of_nat (length l).
Proof. unfold count. induction l as [|x l IH]; simpl; [done|]. destruct (p x); lia. Qed.

Lemma count_app {A} (p : A → bool) l1 l2 : count p (l1 ++ l2) = count p l1 + count p l2.
Proof. apply sum_with_app. Qed.

Lemma count_Permutation {A} (p : A → bool) l1 l2 : l1 ≡ₚ l2 → count p l1 = count p l2.
Proof. apply sum_with_Permutation. Qed.

Lemma count_all {A} (p : A → bool) l : (∀ x, x ∈ l → p x = true) → count p l = Z.of_nat (length l).
Proof.
  unfold count. induction l as [|x l IH]; intros Hall; simpl; [done|].
  rewrite (Hall x) by left. rewrite IH; [lia|]. intros; apply Hall; by right.
Qed.

Lemma count_zero {A} (p : A → bool) l : count p l = 0 ↔ ∀ x, x ∈ l → p x = false.
Proof.
  unfold count. induction l as [|x l IH]; simpl.
  { split; [|done]. intros _ x Hx. by apply not_elem_of_nil in Hx. }
  pose proof (count_bounds p l) as Hb. unfold count in Hb. split.
  - intros Hz. assert (p x = false) by (destruct (p x); [lia|done]).
    intros y [->|Hy]%elem_of_cons; [done|]. apply IH; [|done]. destruct (p x); lia.
  - intros Hall. rewrite (Hall x) by left. rewrite (proj2 IH); [done|]. intros; apply Hall; by right.
Qed.

Lemma count_none {A} (p : A → bool) l : (∀ x, x ∈ l → p x = false) → count p l = 0.
Proof. apply count_zero. Qed.

(** The elements of a list whose key is [k], in order. *)
Definition group {A K} `{EqDecision K} (f : A → K) (k : K) (l : list A) : list A :=
  filter (λ x, f x = k) l.

Section Group.
Context {A K : Type} `{EqDecision K} (f : A → K).

Lemma group_nil k : group f k [] = [].
Proof. done. Qed.

Lemma group_cons k x l :
  group f k (x :: l) = if decide (f x = k) then x :: group f k l else group f k l.
Proof. unfold group. by rewrite filter_cons. Qed.

Lemma group_app k l1 l2 : group f k (l1 ++ l2) = group f k l1 ++ group f k l2.
Proof. unfold group. apply filter_app. Qed.

Lemma group_Permutation k l1 l2 : l1 ≡ₚ l2 → group f k l1 ≡ₚ group f k l2.
Proof. unfold group. by intros ->. Qed.

Lemma elem_of_group k x l : x ∈ group f k l ↔ f x = k ∧ x ∈ l.
Proof. unfold group. by rewrite list_elem_of_filter. Qed.

Lemma group_fmap {B} (h : B → A) k (l : list B) :
  group f k (h <$> l) = h <$> filter (λ x, f (h x) = k) l.
Proof.
  induction l as [|x l IH]; csimpl; [done|].
  rewrite group_cons, filter_cons, IH. by case_decide.
Qed.

(** Splitting a list by key and adding up a measure over the groups is
    adding it up over the list, when the keys cover it. *)
Lemma sum_groups (w : A → Z) (ks : list K) (l : list A) :
  NoDup ks → (∀ x, x ∈ l → f x ∈ ks) →
  sum_with (λ k, sum_with w (group f k l)) ks = sum_with w l.
Proof.
  intros Hnd. induction l as [|x l IH]; intros Hcov.
  { clear. induction ks as [|k ks IH]; [done|]. simpl in *. by rewrite IH. }
  simpl. rewrite <-IH by (intros; apply Hcov; by right).
  assert (Hx : f x ∈ ks) by (apply Hcov; left). clear -Hnd Hx.
  induction ks as [|k ks IHk]; [by apply not_elem_of_nil in Hx|].
  apply NoDup_cons in Hnd as [Hk Hnd]. simpl. rewrite group_cons.
  destruct (decide (f x = k)) as [<-|Hne].
  - simpl. assert (sum_with (λ k, sum_with w (group f k (x :: l))) ks =
      sum_with (λ k, sum_with w (group f k l)) ks) as ->; [|lia].
    apply sum_with_ext. intros k' Hk'. rewrite group_cons, decide_False; [done|].
    by intros <-.
  - apply elem_of_cons in Hx as [?|Hx]; [done|]. rewrite IHk by done. lia.
Qed.
End Group.

(** ** Tactics *)

(** [split_res H] names the cases of a computation that returned a [res]. *)
Ltac split_res H :=
  let r := fresh "r" in
  let e := fresh "e" in
  match type of H with
  | context [match ?x with Ok _ => _ | Err _ => _ end] => destruct x as [r|e] eqn:?
  end.

(** [decides] closes decidable comparisons left by [case_decide]. *)
Ltac decides := repeat case_decide; simplify_eq/=; try done; try lia.
