(* ===== verification/GoTime.v ===== *)
(** * Instants and durations

    [time.Time] is modelled as the number of nanoseconds since the Unix epoch
    and [time.Duration] as a 64-bit number of nanoseconds.  The zero instant
    (January 1, year 1) is the value [IsZero] recognises.  Subtracting two
    instants saturates at the ends of the duration range, as Go does: this is
    what makes a window whose start was never set look expired. *)

From S2P Require Import Prelude.

Abbreviation Time := Z (only parsing).
Abbreviation Duration := Z (only parsing).

Definition Nanosecond : Duration := 1.
Definition Millisecond : Duration := 1000000 * Nanosecond.
Definition Second : Duration := 1000 * Millisecond.
Definition Minute : Duration := 60 * Second.
Definition Hour : Duration := 60 * Minute.

Definition zeroTime : Time := -62135596800 * Second.

Definition IsZero (t : Time) : bool := bool_decide (t = zeroTime).

(** [t.Unix()]: whole seconds, rounded towards minus infinity. *)
Definition Unix (t : Time) : Z := t / Second.

(** [store.fromUnix]. *)
Definition fromUnix (sec : Z) : Time := sec * Second.

(** [t.Sub(u)]. *)
Definition Sub (t u : Time) : Duration := sat64 (t - u).

(** [t.Add(d)]. *)
Definition Add (t : Time) (d : Duration) : Time := t + d.

(** [t.After(u)]. *)
Definition After (t u : Time) : bool := bool_decide (u < t).

(** [t.Truncate(d)], measured from the zero instant. *)
Definition Truncate (t : Time) (d : Duration) : Time :=
  if decide (d ≤ 0) then t else t - (t - zeroTime) mod d.

Lemma Unix_fromUnix s : Unix (fromUnix s) = s.
Proof. unfold Unix, fromUnix. by apply Z.div_mul. Qed.

Lemma fromUnix_Unix_le t : fromUnix (Unix t) ≤ t.
Proof.
  unfold Unix, fromUnix, Second, Millisecond, Nanosecond.
  pose proof (Z.mul_div_le t (1000 * (1000000 * 1)) eq_refl). lia.
Qed.

Lemma Unix_mono t u : t ≤ u → Unix t ≤ Unix u.
Proof. intros. unfold Unix. by apply Z.div_le_mono. Qed.

Lemma Unix_lt t u : Unix t < Unix u → t < u.
Proof.
  intros H. destruct (decide (t < u)); [done|].
  pose proof (Unix_mono u t ltac:(lia)). lia.
Qed.

Lemma Unix_Add_seconds t n : Unix (Add t (n * Second)) = Unix t + n.
Proof. unfold Unix, Add. by apply Z.div_add. Qed.

Lemma fromUnix_inj a b : fromUnix a = fromUnix b → a = b.
Proof. unfold fromUnix, Second, Millisecond, Nanosecond. lia. Qed.

Lemma fromUnix_lt a b : fromUnix a < fromUnix b ↔ a < b.
Proof. unfold fromUnix, Second, Millisecond, Nanosecond. lia. Qed.

Lemma fromUnix_Truncate t : Truncate t Second = fromUnix (Unix t).
Proof.
  assert (0 < Second) as HS by done.
  unfold Truncate, fromUnix, Unix, zeroTime. rewrite decide_False by lia.
  replace (t - -62135596800 * Second) with (t + 62135596800 * Second) by lia.
  rewrite Z.mod_add, Z.mod_eq by lia. lia.
Qed.

(** A wait computed by [Sub] against a limit within the duration range is the
    wait computed on the instants. *)
Lemma Sub_ge (t u : Time) (d : Duration) :
  0 < d ≤ int64_max → (d ≤ Sub t u ↔ d ≤ t - u).
Proof. unfold Sub, int64_max. intros. rewrite sat64_ge; unfold int64_min, int64_max; lia. Qed.

Lemma Sub_lt (t u : Time) (d : Duration) :
  0 < d ≤ int64_max → (Sub t u < d ↔ t - u < d).
Proof. intros. pose proof (Sub_ge t u d). lia. Qed.

Lemma Sub_exact (t u : Time) : in_int64 (t - u) → Sub t u = t - u.
Proof. apply sat64_id. Qed.

#[export] Hint Rewrite Unix_fromUnix fromUnix_Truncate : dmn_simpl.
