(* ===== verification/Sql.v ===== *)
(** * The database monad

    Every statement the store sends may fail in the driver (a cancelled
    context, a full disk, a closed file).  A [World] is the database together
    with the schedule of those failures: the statement executed next fails,
    without an effect, when the schedule's head is [true]; an exhausted
    schedule means no further failure.  A computation of type [M Db A] is Go
    code that runs statements and returns [(A, error)]; [let!] is the
    [if err != nil { return err }] of the source, [catch] keeps the error for
    code that inspects it, [tx] is [BeginTx .. Rollback/Commit]. *)

From S2P Require Import Prelude.

Inductive sqlerr : Type :=
  | ErrNotFound        (** [store.ErrNotFound] *)
  | ErrIncidentOpen    (** [store.ErrIncidentOpen] *)
  | ErrConstraint      (** a CHECK, FOREIGN KEY or UNIQUE constraint *)
  | ErrDriver          (** the statement failed in the driver *)
  | ErrPanic.          (** the Go code panics; nothing catches it *)

#[export] Instance sqlerr_eq_dec : EqDecision sqlerr.
Proof. solve_decision. Defined.

Record World (Db : Type) : Type := mkWorld { w_db : Db; w_faults : list bool }.
Arguments mkWorld {Db} w_db w_faults.
Arguments w_db {Db} w.
Arguments w_faults {Db} w.

Definition M (Db A : Type) : Type := World Db → res sqlerr A * World Db.

Section Monad.
Context {Db : Type}.

Definition ret {A} (a : A) : M Db A := λ w, (Ok a, w).

Definition throw {A} (e : sqlerr) : M Db A := λ w, (Err e, w).

Definition bind {A B} (m : M Db A) (k : A → M Db B) : M Db B := λ w,
  match m w with
  | (Ok a, w') => k a w'
  | (Err e, w') => (Err e, w')
  end.

(** Run [m] and hand its error to the caller as a value; a panic is not an
    error. *)
Definition catch {A} (m : M Db A) : M Db (res sqlerr A) := λ w,
  match m w with
  | (Err ErrPanic, w') => (Err ErrPanic, w')
  | (r, w') => (Ok r, w')
  end.

(** Code that may index out of range. *)
Definition panics {A} (o : option A) : M Db A :=
  match o with Some a => ret a | None => throw ErrPanic end.

(** One step of the failure schedule: does the next statement fail? *)
Definition tick (w : World Db) : bool * World Db :=
  match w_faults w with
  | [] => (false, w)
  | b :: fs => (b, mkWorld (w_db w) fs)
  end.

(** One SQL statement: atomic, so a failure leaves the database as it was. *)
Definition stmt {A} (f : Db → res sqlerr (A * Db)) : M Db A := λ w,
  let '(b, w1) := tick w in
  if b then (Err ErrDriver, w1) else
  match f (w_db w1) with
  | Ok (a, db') => (Ok a, mkWorld db' (w_faults w1))
  | Err e => (Err e, w1)
  end.

Definition query {A} (f : Db → A) : M Db A := stmt (λ db, Ok (f db, db)).

(** A transaction: the body sees its own writes, and unless the commit
    succeeds the database is what it was before. *)
Definition tx {A} (body : M Db A) : M Db A := λ w,
  let '(b, w1) := tick w in
  if b then (Err ErrDriver, w1) else
  match body w1 with
  | (Err e, w2) => (Err e, mkWorld (w_db w) (w_faults w2))
  | (Ok a, w2) =>
      let '(c, w3) := tick w2 in
      if c then (Err ErrDriver, mkWorld (w_db w) (w_faults w3)) else (Ok a, w3)
  end.

(** [Scan] on a query that returned no row. *)
Definition found {A} (m : M Db (option A)) : M Db A :=
  bind m (λ o, match o with Some a => ret a | None => throw ErrNotFound end).

(** [store.affected]. *)
Definition affected (m : M Db Z) : M Db unit :=
  bind m (λ n, if decide (n = 0) then throw ErrNotFound else ret ()).
End Monad.

Notation "'let!' x ':=' m 'in' k" := (bind m (λ x, k))
  (at level 10, x pattern, k at level 200).
Notation "'do!' m 'in' k" := (bind m (λ _, k))
  (at level 10, k at level 200).

(** ** Invariants of the database

    [keeps I m]: whatever statements fail, [m] leaves a database satisfying
    [I] if it found one. *)

Section Keeps.
Context {Db : Type} (I : Db → Prop).

Definition keeps {A} (m : M Db A) : Prop :=
  ∀ w, I (w_db w) → I (w_db (m w).2).

Lemma tick_db (w : World Db) : w_db (tick w).2 = w_db w.
Proof. unfold tick. by destruct (w_faults w). Qed.

Lemma keeps_ret {A} (a : A) : keeps (ret a).
Proof. by intros w. Qed.

Lemma keeps_throw {A} e : keeps (throw (A := A) e).
Proof. by intros w. Qed.

Lemma keeps_bind {A B} (m : M Db A) (k : A → M Db B) :
  keeps m → (∀ a, keeps (k a)) → keeps (bind m k).
Proof.
  intros Hm Hk w Hw. unfold bind. specialize (Hm w Hw).
  destruct (m w) as [[a|e] w']; simpl in *; [by apply Hk|done].
Qed.

Lemma keeps_catch {A} (m : M Db A) : keeps m → keeps (catch m).
Proof.
  intros Hm w Hw. unfold catch. specialize (Hm w Hw).
  destruct (m w) as [[a|e] w']; [|destruct e]; exact Hm.
Qed.

Lemma keeps_panics {A} (o : option A) : keeps (panics o).
Proof. destruct o; [apply keeps_ret|apply keeps_throw]. Qed.

(** After code that may panic, only its result matters. *)
Lemma keeps_bind_panics {A B} (o : option A) (k : A → M Db B) :
  (∀ a, o = Some a → keeps (k a)) → keeps (bind (panics o) k).
Proof. destruct o; intros Hk; [by apply Hk|]. by intros w. Qed.

Lemma keeps_stmt {A} (f : Db → res sqlerr (A * Db)) :
  (∀ db a db', I db → f db = Ok (a, db') → I db') → keeps (stmt f).
Proof.
  intros Hf w Hw. unfold stmt. pose proof (tick_db w) as Ht.
  destruct (tick w) as [b w1]; simpl in *. rewrite <-Ht in Hw.
  destruct b; [done|].
  destruct (f (w_db w1)) as [[a db']|e] eqn:Hfe; simpl; [|done]. eauto.
Qed.

Lemma keeps_query {A} (f : Db → A) : keeps (query f).
Proof. apply keeps_stmt. intros. by simplify_eq. Qed.

Lemma keeps_tx {A} (body : M Db A) : keeps body → keeps (tx body).
Proof.
  intros Hb w Hw. unfold tx. pose proof (tick_db w) as Ht.
  destruct (tick w) as [b w1]; simpl in *. rewrite <-Ht in Hw.
  specialize (Hb w1 Hw). destruct b; [done|].
  destruct (body w1) as [[a|e] w2]; simpl in *; [|by rewrite Ht in Hw].
  pose proof (tick_db w2) as Ht2. destruct (tick w2) as [c w3]; simpl in *.
  destruct c; simpl; [by rewrite Ht in Hw|by rewrite Ht2].
Qed.

Lemma keeps_found {A} (m : M Db (option A)) : keeps m → keeps (found m).
Proof.
  intros. apply keeps_bind; [done|]. intros [a|]; auto using keeps_ret, keeps_throw.
Qed.

Lemma keeps_affected (m : M Db Z) : keeps m → keeps (affected m).
Proof.
  intros. apply keeps_bind; [done|]. intros n. case_decide;
  auto using keeps_ret, keeps_throw.
Qed.
End Keeps.

#[export] Hint Resolve keeps_ret keeps_throw keeps_bind keeps_catch keeps_panics keeps_query
  keeps_tx keeps_found keeps_affected : sql.

(** ** Runs without failing statements *)

Section NoFault.
Context {Db : Type}.

Definition quiet (db : Db) : World Db := mkWorld db [].

Lemma stmt_quiet {A} (f : Db → res sqlerr (A * Db)) db :
  stmt f (quiet db) =
  match f db with Ok (a, db') => (Ok a, quiet db') | Err e => (Err e, quiet db) end.
Proof. unfold stmt. simpl. by destruct (f db) as [[]|]. Qed.

Lemma query_quiet {A} (f : Db → A) db : query f (quiet db) = (Ok (f db), quiet db).
Proof. done. Qed.

Lemma bind_quiet {A B} (m : M Db A) (k : A → M Db B) db :
  bind m k (quiet db) =
  match m (quiet db) with (Ok a, w) => k a w | (Err e, w) => (Err e, w) end.
Proof. done. Qed.
End NoFault.

(** A transaction that reports an error has changed nothing. *)
Lemma tx_atomic {Db A} (body : M Db A) w e w' :
  tx body w = (Err e, w') → w_db w' = w_db w.
Proof.
  unfold tx. pose proof (tick_db w) as Ht. destruct (tick w) as [b w1]; simpl in *.
  destruct b; [by intros; simplify_eq|].
  destruct (body w1) as [[a|e2] w2]; [|by intros; simplify_eq].
  destruct (tick w2) as [c w3]. by destruct c; intros; simplify_eq.
Qed.

(** A failing statement has changed nothing. *)
Lemma stmt_atomic {Db A} (f : Db → res sqlerr (A * Db)) w e w' :
  stmt f w = (Err e, w') → w_db w' = w_db w.
Proof.
  unfold stmt. pose proof (tick_db w) as Ht. destruct (tick w) as [b w1]; simpl in *.
  destruct b; [by intros; simplify_eq|].
  destruct (f (w_db w1)) as [[a db']|e2]; by intros; simplify_eq.
Qed.

(** ** Inverting successful runs *)

Section Invert.
Context {Db : Type}.

Lemma bind_ok {A B} (m : M Db A) (k : A → M Db B) w b w' :
  bind m k w = (Ok b, w') → ∃ a w1, m w = (Ok a, w1) ∧ k a w1 = (Ok b, w').
Proof. unfold bind. destruct (m w) as [[a|e] w1]; [eauto|done]. Qed.

Lemma stmt_ok {A} (f : Db → res sqlerr (A * Db)) w a w' :
  stmt f w = (Ok a, w') → f (w_db w) = Ok (a, w_db w').
Proof.
  unfold stmt. pose proof (tick_db w) as Ht. destruct (tick w) as [b w1]; simpl in *.
  destruct b; [done|]. rewrite Ht. destruct (f (w_db w)) as [[a' db']|e]; [|done].
  by intros; simplify_eq.
Qed.

Lemma query_ok {A} (f : Db → A) w a w' :
  query f w = (Ok a, w') → a = f (w_db w) ∧ w_db w' = w_db w.
Proof. intros H%stmt_ok. by simplify_eq. Qed.

Lemma query_db {A} (f : Db → A) w : w_db (query f w).2 = w_db w.
Proof.
  unfold query, stmt. pose proof (tick_db w) as Ht. destruct (tick w) as [b w1].
  by destruct b.
Qed.

Lemma tx_ok {A} (body : M Db A) w a w' :
  tx body w = (Ok a, w') →
  ∃ w1 w2, body w1 = (Ok a, w2) ∧ w_db w1 = w_db w ∧ w_db w' = w_db w2.
Proof.
  unfold tx. pose proof (tick_db w) as Ht. destruct (tick w) as [b w1]; simpl in *.
  destruct b; [done|]. destruct (body w1) as [[a'|e] w2] eqn:Hb; [|done].
  pose proof (tick_db w2) as Ht2. destruct (tick w2) as [c w3]; simpl in *.
  destruct c; [done|]. intros; simplify_eq. eauto 10.
Qed.

Lemma panics_ok {A} (o : option A) (w w' : World Db) a :
  panics o w = (Ok a, w') → o = Some a ∧ w' = w.
Proof. unfold panics, ret, throw. destruct o; intros; by simplify_eq/=. Qed.
End Invert.

(** [inv_ok] inverts every successful run in the context. *)
Ltac inv_ok :=
  repeat match goal with
  | H : bind _ _ _ = (Ok _, _) |- _ => apply bind_ok in H as (? & ? & ? & H)
  | H : ret _ _ = (Ok _, _) |- _ => unfold ret in H; simplify_eq
  | H : throw _ _ = (Ok _, _) |- _ => done
  | H : query _ _ = (Ok _, _) |- _ => apply query_ok in H as [? ?]
  | H : panics _ _ = (Ok _, _) |- _ => apply panics_ok in H as [? ?]
  | H : tx _ _ = (Ok _, _) |- _ => apply tx_ok in H as (? & ? & H & ? & ?)
  | H : stmt _ _ = (Ok _, _) |- _ => apply stmt_ok in H
  end; subst.
