(* ===== verification/Schema.v ===== *)
(** * Data model and database schema

    [check.Target] and [check.Result] (internal/check/check.go), the structs
    the store returns, and the tables of internal/store/migrations as finite
    maps from the primary key to the row.  Times are stored in whole seconds,
    as the schema's integer columns hold them. *)

From S2P Require Import Prelude GoTime Sql.

(** ** internal/check/check.go *)

Definition KindHTTP : string := "http".
Definition KindTCP : string := "tcp".
Definition KindFiveM : string := "fivem".

Record Target : Type := mkTarget {
  ID : Z;
  Name : string;
  Kind : string;
  Address : string;
  ExpectStatus : string;
  Keyword : string;
  ConnectTo : string;
  IntervalS : Z;
  TimeoutMs : Z;
  FailThreshold : Z;
  Public : bool;
  Paused : bool;
  Sort : Z;
  CreatedAt : Time;
  UpdatedAt : Time
}.

Record Result : Type := mkResult {
  OK : bool;
  LatencyMs : Z;
  StatusCode : Z;
  ErrText : string;
  Players : option Z;
  MaxPlayers : option Z;
  Version : string
}.

(** [Result{Err: msg}], the other fields at their zero values. *)
Definition failed (msg : string) : Result :=
  mkResult false 0 0 msg None None "".

(** ** Structs returned by the store *)

(** [store.Check]: a result with the instant it was measured. *)
Record Check : Type := mkCheck { c_At : Time; c_Result : Result }.

(** [store.Incident]. *)
Record Incident : Type := mkIncident {
  i_ID : Z;
  i_TargetID : Z;
  i_TargetName : string;
  i_StartedAt : Time;
  i_EndedAt : Time;
  i_Cause : string;
  i_MailedDown : bool;
  i_MailedUp : bool
}.

(** [Incident.Open]. *)
Definition Open (i : Incident) : bool := IsZero (i_EndedAt i).

(** ** internal/store/migrations/0001_init.sql, 0002_devices.sql *)

Record CheckRow : Type := mkCheckRow {
  ck_target : Z;
  ck_at : Z;
  ck_ok : bool;
  ck_latency : Z;
  ck_status : Z;
  ck_error : string;
  ck_players : option Z;
  ck_max_players : option Z;
  ck_version : option string
}.

(** Primary key [(target_id, hour)]. *)
Record HourlyRow : Type := mkHourlyRow {
  h_total : Z;
  h_ok : Z;
  h_avg : Z;
  h_p95 : Z;
  h_max : Z
}.

Record IncidentRow : Type := mkIncidentRow {
  in_target : Z;
  in_started : Z;
  in_ended : option Z;
  in_cause : string;
  in_mailed_down : bool;
  in_mailed_up : bool
}.

Record AdminRow : Type := mkAdminRow { ad_username : string; ad_pw_hash : string; ad_updated : Z }.

(** Primary key [token_hash]. *)
Record SessionRow : Type := mkSessionRow {
  se_csrf : string;
  se_created : Z;
  se_expires : Z;
  se_last_seen : Z
}.

(** Primary key [token_hash]. *)
Record DeviceRow : Type := mkDeviceRow { de_created : Z; de_expires : Z }.

Record Db : Type := mkDb {
  targets : gmap Z Target;
  checks : gmap Z CheckRow;
  hourly : gmap (Z * Z) HourlyRow;
  incidents : gmap Z IncidentRow;
  admin : option AdminRow;
  sessions : gmap string SessionRow;
  devices : gmap string DeviceRow
}.

#[export] Instance Target_eq_dec : EqDecision Target.
Proof. solve_decision. Defined.
#[export] Instance Result_eq_dec : EqDecision Result.
Proof. solve_decision. Defined.
#[export] Instance Incident_eq_dec : EqDecision Incident.
Proof. solve_decision. Defined.
#[export] Instance CheckRow_eq_dec : EqDecision CheckRow.
Proof. solve_decision. Defined.
#[export] Instance IncidentRow_eq_dec : EqDecision IncidentRow.
Proof. solve_decision. Defined.
#[export] Instance HourlyRow_eq_dec : EqDecision HourlyRow.
Proof. solve_decision. Defined.
#[export] Instance SessionRow_eq_dec : EqDecision SessionRow.
Proof. solve_decision. Defined.
#[export] Instance DeviceRow_eq_dec : EqDecision DeviceRow.
Proof. solve_decision. Defined.

Definition empty_db : Db := mkDb ∅ ∅ ∅ ∅ None ∅ ∅.

Definition set_targets (f : gmap Z Target → gmap Z Target) (d : Db) : Db :=
  mkDb (f (targets d)) (checks d) (hourly d) (incidents d) (admin d) (sessions d) (devices d).
Definition set_checks (f : gmap Z CheckRow → gmap Z CheckRow) (d : Db) : Db :=
  mkDb (targets d) (f (checks d)) (hourly d) (incidents d) (admin d) (sessions d) (devices d).
Definition set_hourly (f : gmap (Z * Z) HourlyRow → gmap (Z * Z) HourlyRow) (d : Db) : Db :=
  mkDb (targets d) (checks d) (f (hourly d)) (incidents d) (admin d) (sessions d) (devices d).
Definition set_incidents (f : gmap Z IncidentRow → gmap Z IncidentRow) (d : Db) : Db :=
  mkDb (targets d) (checks d) (hourly d) (f (incidents d)) (admin d) (sessions d) (devices d).
Definition set_admin (f : option AdminRow → option AdminRow) (d : Db) : Db :=
  mkDb (targets d) (checks d) (hourly d) (incidents d) (f (admin d)) (sessions d) (devices d).
Definition set_sessions (f : gmap string SessionRow → gmap string SessionRow) (d : Db) : Db :=
  mkDb (targets d) (checks d) (hourly d) (incidents d) (admin d) (f (sessions d)) (devices d).
Definition set_devices (f : gmap string DeviceRow → gmap string DeviceRow) (d : Db) : Db :=
  mkDb (targets d) (checks d) (hourly d) (incidents d) (admin d) (sessions d) (f (devices d)).

(** ** Row identifiers

    An [integer primary key] left out of an insert becomes one more than the
    largest identifier in use, 1 in an empty table. *)

Section RowId.
Context {A : Type}.

Definition max_id (m : gmap Z A) : Z := map_fold (λ k _ acc, Z.max k acc) 0 m.

Definition next_id (m : gmap Z A) : Z := max_id m + 1.

Lemma max_id_spec (m : gmap Z A) :
  0 ≤ max_id m ∧ ∀ k a, m !! k = Some a → k ≤ max_id m.
Proof.
  apply (map_fold_weak_ind (λ r (m : gmap Z A), 0 ≤ r ∧ ∀ k a, m !! k = Some a → k ≤ r)).
  - split; [done|]. intros k a H. by rewrite lookup_empty in H.
  - intros k a m' r Hk [Hr IH]. split; [lia|]. intros j b.
    rewrite lookup_insert. case_decide; [intros; subst; lia|].
    intros Hj%IH. lia.
Qed.

Lemma next_id_pos (m : gmap Z A) : 0 < next_id m.
Proof. unfold next_id. pose proof (max_id_spec m). lia. Qed.

Lemma next_id_fresh (m : gmap Z A) : m !! next_id m = None.
Proof.
  destruct (m !! next_id m) as [a|] eqn:H; [|done].
  apply max_id_spec in H. unfold next_id in H. lia.
Qed.

Lemma lookup_lt_next_id (m : gmap Z A) k a : m !! k = Some a → k < next_id m.
Proof. intros H%max_id_spec. unfold next_id. lia. Qed.
End RowId.
#[export] Hint Resolve next_id_pos next_id_fresh : dmn.

(** ** Rows selected by a condition *)

Section Rows.
Context {A : Type}.

(** [select .. from t where P], in no particular order. *)
Definition rows (P : Z * A → Prop) `{∀ x, Decision (P x)} (m : gmap Z A) : list (Z * A) :=
  map_to_list (filter P m).

Lemma elem_of_rows P `{∀ x, Decision (P x)} (m : gmap Z A) k a :
  (k, a) ∈ rows P m ↔ m !! k = Some a ∧ P (k, a).
Proof. unfold rows. by rewrite elem_of_map_to_list, map_lookup_filter_Some. Qed.

Lemma rows_NoDup P `{∀ x, Decision (P x)} (m : gmap Z A) : NoDup ((rows P m).*1).
Proof. apply NoDup_fst_map_to_list. Qed.

Lemma rows_insert P `{∀ x, Decision (P x)} (m : gmap Z A) k a :
  m !! k = None → P (k, a) → rows P (<[k:=a]> m) ≡ₚ (k, a) :: rows P m.
Proof.
  intros Hk HP. unfold rows. rewrite map_filter_insert_True by done.
  apply map_to_list_insert. apply map_lookup_filter_None. auto.
Qed.

Lemma rows_insert_not P `{∀ x, Decision (P x)} (m : gmap Z A) k a :
  m !! k = None → ¬ P (k, a) → rows P (<[k:=a]> m) = rows P m.
Proof.
  intros Hk HP. unfold rows. f_equal. apply map_filter_insert_not'; [done|].
  intros y. by rewrite Hk.
Qed.

Lemma rows_NoDup_rows P `{∀ x, Decision (P x)} (m : gmap Z A) : NoDup (rows P m).
Proof. apply NoDup_map_to_list. Qed.

(** The rows of a disjoint union of two conditions. *)
Lemma rows_split P `{∀ x, Decision (P x)} Q `{∀ x, Decision (Q x)} R `{∀ x, Decision (R x)}
    (m : gmap Z A) :
  (∀ x, P x ↔ Q x ∨ R x) → (∀ x, Q x → R x → False) →
  rows P m ≡ₚ rows Q m ++ rows R m.
Proof.
  intros HP HQR. apply NoDup_Permutation; [apply rows_NoDup_rows| |].
  - apply NoDup_app. split_and!; try apply rows_NoDup_rows.
    intros [k a] [_ HQ]%elem_of_rows [_ HR]%elem_of_rows. by eapply HQR.
  - intros [k a]. rewrite elem_of_app, !elem_of_rows, HP. tauto.
Qed.

Lemma rows_ext P `{∀ x, Decision (P x)} Q `{∀ x, Decision (Q x)} (m : gmap Z A) :
  (∀ k a, m !! k = Some a → P (k, a) ↔ Q (k, a)) → rows P m = rows Q m.
Proof. intros HPQ. unfold rows. f_equal. by apply map_filter_ext. Qed.

Lemma rows_nil P `{∀ x, Decision (P x)} (m : gmap Z A) :
  (∀ k a, m !! k = Some a → ¬ P (k, a)) → rows P m = [].
Proof.
  intros Hno. destruct (rows P m) as [|[k a] l] eqn:E; [done|].
  assert ((k, a) ∈ rows P m) as [Hk HP]%elem_of_rows by (rewrite E; left).
  by destruct (Hno k a).
Qed.
End Rows.
