(* ===== verification/WellFormed.v ===== *)
(** * The store's invariant

    What the tables hold between two statements, whatever the callers did:
    the schema's constraints (primary and foreign keys, CHECK clauses) and the
    rules the queries maintain on top of them, above all that a target has at
    most one open incident.  Each component file proves that its statements
    keep [Wf]. *)

From S2P Require Import Prelude GoTime Sql Schema.

(** ** CHECK clauses of the table [targets] *)

Definition target_row_ok (t : Target) : bool :=
  bool_decide (Kind t ∈ [KindHTTP; KindTCP; KindFiveM]) &&
  bool_decide (30 ≤ IntervalS t) && bool_decide (500 ≤ TimeoutMs t) &&
  bool_decide (1 ≤ FailThreshold t ≤ 20).

Lemma target_row_ok_spec t :
  target_row_ok t = true ↔
  Kind t ∈ [KindHTTP; KindTCP; KindFiveM] ∧ 30 ≤ IntervalS t ∧
  500 ≤ TimeoutMs t ∧ 1 ≤ FailThreshold t ≤ 20.
Proof. unfold target_row_ok. rewrite !andb_true_iff, !bool_decide_eq_true. tauto. Qed.

(** ** Lifetimes of sessions and devices, in seconds *)

Definition SessionIdle : Duration := 12 * Hour.
Definition SessionMax : Duration := 7 * 24 * Hour.
Definition DeviceMax : Duration := 90 * 24 * Hour.

(** [int64(d.Seconds())] for a whole number of seconds. *)
Definition seconds (d : Duration) : Z := d / Second.

(** ** The parts of the invariant *)

Definition targets_ok (db : Db) : Prop :=
  ∀ id t, targets db !! id = Some t → ID t = id ∧ 0 < id ∧ target_row_ok t = true.

(** Every row of a dependent table refers to a target. *)
Definition fk_ok (db : Db) : Prop :=
  (∀ k c, checks db !! k = Some c → is_Some (targets db !! ck_target c)) ∧
  (∀ k h, hourly db !! k = Some h → is_Some (targets db !! k.1)) ∧
  (∀ k i, incidents db !! k = Some i → is_Some (targets db !! in_target i)).

(** At most one open incident per target. *)
Definition one_open (inc : gmap Z IncidentRow) : Prop :=
  ∀ k1 k2 i1 i2,
    inc !! k1 = Some i1 → inc !! k2 = Some i2 →
    in_ended i1 = None → in_ended i2 = None → in_target i1 = in_target i2 → k1 = k2.

(** A recovery mail is only recorded on an incident that has ended; row
    identifiers are positive. *)
Definition incidents_ok (inc : gmap Z IncidentRow) : Prop :=
  ∀ k i, inc !! k = Some i → 0 < k ∧ (in_mailed_up i = true → is_Some (in_ended i)).

(** An hourly row starts on the hour and counts at least one check. *)
Definition hour_row_ok (k : Z * Z) (h : HourlyRow) : Prop :=
  0 ≤ h_ok h ≤ h_total h ∧ 0 < h_total h ∧ Z.rem k.2 3600 = 0.

Definition hourly_ok (m : gmap (Z * Z) HourlyRow) : Prop :=
  ∀ k h, m !! k = Some h → hour_row_ok k h.

(** A session never outlives seven days, nor twelve hours without use. *)
Definition session_ok (s : SessionRow) : Prop :=
  se_expires s ≤ se_created s + seconds SessionMax ∧
  se_expires s ≤ se_last_seen s + seconds SessionIdle.

Definition sessions_ok (m : gmap string SessionRow) : Prop :=
  ∀ k s, m !! k = Some s → session_ok s.

Record Wf (db : Db) : Prop := mkWf {
  wf_targets : targets_ok db;
  wf_fk : fk_ok db;
  wf_one_open : one_open (incidents db);
  wf_incidents : incidents_ok (incidents db);
  wf_hourly : hourly_ok (hourly db);
  wf_sessions : sessions_ok (sessions db)
}.

(** ** Updates that do not touch the invariant *)

Lemma Wf_empty : Wf empty_db.
Proof.
  split; [|split_and!|..]; repeat intros ?; simpl in *;
    by match goal with H : _ = Some _ |- _ => rewrite lookup_empty in H end.
Qed.

(** Replacing checks by rows of known targets keeps the invariant. *)
Lemma Wf_set_checks db f :
  (∀ k c, f (checks db) !! k = Some c → is_Some (targets db !! ck_target c)) →
  Wf db → Wf (set_checks f db).
Proof. intros Hf [? [? [? ?]] ? ? ? ?]. by split. Qed.

Lemma Wf_set_hourly db f :
  (∀ k h, f (hourly db) !! k = Some h → is_Some (targets db !! k.1) ∧ hour_row_ok k h) →
  Wf db → Wf (set_hourly f db).
Proof.
  intros Hf [? [? [? ?]] ? ? ? ?]. split; try done.
  - split_and!; [done| |done]. intros k h Hk. by apply Hf in Hk as [? _].
  - intros k h Hk. by apply Hf in Hk as [_ ?].
Qed.

Lemma Wf_set_sessions db f :
  sessions_ok (f (sessions db)) → Wf db → Wf (set_sessions f db).
Proof. intros Hf [? [? [? ?]] ? ? ? ?]. by split. Qed.

Lemma Wf_set_devices db f : Wf db → Wf (set_devices f db).
Proof. intros [? [? [? ?]] ? ? ? ?]. by split. Qed.

Lemma Wf_set_admin db f : Wf db → Wf (set_admin f db).
Proof. intros [? [? [? ?]] ? ? ? ?]. by split. Qed.

Lemma Wf_set_incidents db f :
  (∀ k i, f (incidents db) !! k = Some i → is_Some (targets db !! in_target i)) →
  one_open (f (incidents db)) → incidents_ok (f (incidents db)) →
  Wf db → Wf (set_incidents f db).
Proof. intros Hf ? ? [? [? [? ?]] ? ? ? ?]. by split. Qed.

(** Deleting rows keeps what holds of every row. *)
Section FilterRows.
Context {K A : Type} `{Countable K} (P : K * A → Prop) `{∀ x, Decision (P x)}.

Lemma lookup_filter_inv (m : gmap K A) k a :
  filter P m !! k = Some a → m !! k = Some a.
Proof. rewrite map_lookup_filter_Some. tauto. Qed.
End FilterRows.

Lemma one_open_sub (m m' : gmap Z IncidentRow) :
  (∀ k i, m' !! k = Some i → m !! k = Some i) → one_open m → one_open m'.
Proof. intros Hs Ho k1 k2 i1 i2 ?%Hs ?%Hs. by apply Ho. Qed.

#[export] Hint Resolve Wf_set_devices Wf_set_admin lookup_filter_inv : dmn.
#[export] Hint Resolve wf_targets wf_fk wf_one_open wf_incidents wf_hourly wf_sessions : dmn.
