(* ===== verification/Targets.v ===== *)
(** * Targets (internal/store/targets.go)

    Creating, changing, pausing, deleting and listing the monitored targets.
    Deleting a target removes its checks, hourly rows and incidents, as the
    schema's [on delete cascade] clauses say. *)

From S2P Require Import Prelude GoTime Sql Schema WellFormed.

(** ** Operations *)

(** The row [CreateTarget] inserts: the fields of [t] under a fresh id. *)
Definition new_row (id : Z) (now : Time) (t : Target) : Target :=
  mkTarget id (Name t) (Kind t) (Address t) (ExpectStatus t) (Keyword t) (ConnectTo t)
    (IntervalS t) (TimeoutMs t) (FailThreshold t) (Public t) (Paused t) (Sort t)
    (fromUnix (Unix now)) (fromUnix (Unix now)).

Definition CreateTarget (now : Time) (t : Target) : M Db Z :=
  stmt (λ db,
    let id := next_id (targets db) in
    let row := new_row id now t in
    if target_row_ok row then Ok (id, set_targets <[id := row]> db) else Err ErrConstraint).

(** The row [UpdateTarget] writes over [old]: everything but the identifier
    and the creation time. *)
Definition updated_row (old : Target) (now : Time) (t : Target) : Target :=
  mkTarget (ID old) (Name t) (Kind t) (Address t) (ExpectStatus t) (Keyword t) (ConnectTo t)
    (IntervalS t) (TimeoutMs t) (FailThreshold t) (Public t) (Paused t) (Sort t)
    (CreatedAt old) (fromUnix (Unix now)).

Definition UpdateTarget (now : Time) (t : Target) : M Db unit :=
  affected (stmt (λ db,
    match targets db !! ID t with
    | None => Ok (0, db)
    | Some old =>
        let row := updated_row old now t in
        if target_row_ok row then Ok (1, set_targets <[ID t := row]> db)
        else Err ErrConstraint
    end)).

(** Foreign keys are on: the dependent rows go with the target. *)
Definition delete_cascade (id : Z) (db : Db) : Db :=
  set_targets (delete id)
    (set_checks (filter (λ r, ck_target r.2 ≠ id))
      (set_hourly (filter (λ r, r.1.1 ≠ id))
        (set_incidents (filter (λ r, in_target r.2 ≠ id)) db))).

Definition DeleteTarget (id : Z) : M Db unit :=
  affected (stmt (λ db,
    match targets db !! id with
    | None => Ok (0, db)
    | Some _ => Ok (1, delete_cascade id db)
    end)).

Definition paused_row (old : Target) (now : Time) (paused : bool) : Target :=
  mkTarget (ID old) (Name old) (Kind old) (Address old) (ExpectStatus old) (Keyword old)
    (ConnectTo old) (IntervalS old) (TimeoutMs old) (FailThreshold old) (Public old) paused
    (Sort old) (CreatedAt old) (fromUnix (Unix now)).

Definition SetPaused (now : Time) (id : Z) (paused : bool) : M Db unit :=
  affected (stmt (λ db,
    match targets db !! id with
    | None => Ok (0, db)
    | Some old => Ok (1, set_targets <[id := paused_row old now paused]> db)
    end)).

(** [Store.Target]. *)
Definition TargetByID (id : Z) : M Db Target :=
  found (query (λ db, targets db !! id)).

(** [order by sort, id]. *)
Definition by_sort (ts : list (Z * Target)) : list Target :=
  (order_by (λ r, (Sort r.2, r.1)) ts).*2.

Definition Targets : M Db (list Target) :=
  query (λ db, by_sort (rows (λ _, True) (targets db))).

Definition PublicTargets : M Db (list Target) :=
  query (λ db, by_sort (rows (λ r, Public r.2 = true) (targets db))).

(** ** The operations keep the invariant *)

Lemma Wf_insert_target db id t :
  ID t = id → 0 < id → target_row_ok t = true → Wf db →
  Wf (set_targets <[id := t]> db).
Proof.
  intros Hid Hpos Hok [Ht (Hc & Hh & Hi) ? ? ? ?].
  assert (Hsub : ∀ j, is_Some (targets db !! j) → is_Some (<[id := t]> (targets db) !! j)).
  { intros j Hj. rewrite lookup_insert. case_decide; [done|done]. }
  split; try done.
  - intros j u. simpl. rewrite lookup_insert. case_decide; [|by apply Ht].
    intros; simplify_eq. done.
  - split_and!; intros; simpl; apply Hsub; eauto.
Qed.

Lemma Wf_delete_cascade db id : Wf db → Wf (delete_cascade id db).
Proof.
  intros [Ht (Hc & Hh & Hi) Ho Hin Hho ?].
  assert (Hsub : ∀ j, j ≠ id → is_Some (targets db !! j) →
    is_Some (delete id (targets db) !! j)).
  { intros j Hj. by rewrite lookup_delete_ne by done. }
  split; try done.
  - intros j u. simpl. rewrite lookup_delete_Some. intros [_ Hj]. by apply Ht.
  - split_and!; intros k r; simpl; rewrite map_lookup_filter_Some; intros [Hk Hne];
      apply Hsub; eauto.
  - eapply one_open_sub; [|exact Ho]. simpl. eauto with dmn.
  - intros k r Hk. apply Hin. simpl in Hk. eauto with dmn.
  - intros k r Hk. apply Hho. simpl in Hk. eauto with dmn.
Qed.

Lemma keeps_CreateTarget now t : keeps Wf (CreateTarget now t).
Proof.
  apply keeps_stmt. intros db id db' Hwf.
  simpl. case_match eqn:Hok; intros ?; simplify_eq.
  apply Wf_insert_target; auto with dmn.
Qed.

Lemma keeps_UpdateTarget now t : keeps Wf (UpdateTarget now t).
Proof.
  apply keeps_affected, keeps_stmt. intros db n db' Hwf.
  destruct (targets db !! ID t) as [old|] eqn:Hold; [|by intros; simplify_eq].
  simpl. case_match eqn:Hok; intros ?; simplify_eq.
  apply (wf_targets _ Hwf) in Hold as (? & ? & ?). by apply Wf_insert_target.
Qed.

Lemma keeps_DeleteTarget id : keeps Wf (DeleteTarget id).
Proof.
  apply keeps_affected, keeps_stmt. intros db n db' Hwf.
  destruct (targets db !! id); intros; simplify_eq; auto using Wf_delete_cascade.
Qed.

Lemma keeps_SetPaused now id p : keeps Wf (SetPaused now id p).
Proof.
  apply keeps_affected, keeps_stmt. intros db n db' Hwf.
  destruct (targets db !! id) as [old|] eqn:Hold; [|by intros; simplify_eq].
  intros; simplify_eq. apply (wf_targets _ Hwf) in Hold as (? & ? & Hok).
  by apply Wf_insert_target.
Qed.

#[export] Hint Resolve keeps_CreateTarget keeps_UpdateTarget keeps_DeleteTarget
  keeps_SetPaused : sql.

(** ** What the listings return *)

Lemma by_sort_elem (m : gmap Z Target) P `{∀ x, Decision (P x)} t :
  t ∈ by_sort (rows P m) ↔ ∃ id, m !! id = Some t ∧ P (id, t).
Proof.
  unfold by_sort. rewrite list_elem_of_fmap. split.
  - intros ([id u] & -> & Hin). exists id.
    by rewrite elem_of_order_by, elem_of_rows in Hin.
  - intros (id & ? & ?). exists (id, t). split; [done|].
    by rewrite elem_of_order_by, elem_of_rows.
Qed.

(** ** Properties *)

(** Deleting a target either reports that there was
    none (or that the statement failed) without any effect, or removes the
    target with all its checks, hourly rows and incidents and nothing else. *)
Theorem delete_target_complete id w :
  match DeleteTarget id w with
  | (Ok _, w') =>
      is_Some (targets (w_db w) !! id) ∧
      (∀ k t, targets (w_db w') !! k = Some t ↔ targets (w_db w) !! k = Some t ∧ k ≠ id) ∧
      (∀ k c, checks (w_db w') !! k = Some c ↔ checks (w_db w) !! k = Some c ∧ ck_target c ≠ id) ∧
      (∀ k h, hourly (w_db w') !! k = Some h ↔ hourly (w_db w) !! k = Some h ∧ k.1 ≠ id) ∧
      (∀ k i, incidents (w_db w') !! k = Some i ↔
              incidents (w_db w) !! k = Some i ∧ in_target i ≠ id) ∧
      sessions (w_db w') = sessions (w_db w) ∧ devices (w_db w') = devices (w_db w) ∧
      admin (w_db w') = admin (w_db w)
  | (Err e, w') =>
      w_db w' = w_db w ∧ (e = ErrNotFound ∧ targets (w_db w) !! id = None ∨ e = ErrDriver)
  end.
Proof.
  unfold DeleteTarget, affected, bind, stmt. pose proof (tick_db w) as Ht.
  destruct (tick w) as [b w1]; simpl in Ht. destruct b; [by auto|]. rewrite Ht.
  destruct (targets (w_db w) !! id) as [t|] eqn:Hid; simpl; [|by auto].
  split; [done|]. split_and!; try done; intros k r;
    rewrite ?lookup_delete_Some, ?map_lookup_filter_Some; simpl; naive_solver.
Qed.
