(* ===== verification/Checks.v ===== *)
(** * Check results (internal/store/checks.go) and retention (retention.go)

    Storing a measured result, reading back the newest ones or those of the
    running hour, and deleting what is older than the retention period. *)

From S2P Require Import Prelude GoTime Sql Schema WellFormed.

(** [limit n]: SQLite reads a negative limit as none. *)
Definition sql_limit {A} (n : Z) (l : list A) : list A :=
  if decide (n < 0) then l else take (Z.to_nat n) l.

(** ** Operations *)

(** The row [InsertCheck] writes; an empty version is stored as NULL. *)
Definition check_row (targetID : Z) (at_ : Time) (r : Result) : CheckRow :=
  mkCheckRow targetID (Unix at_) (OK r) (LatencyMs r) (StatusCode r) (ErrText r)
    (Players r) (MaxPlayers r)
    (if decide (Version r = "") then None else Some (Version r)).

Definition InsertCheck (targetID : Z) (at_ : Time) (r : Result) : M Db unit :=
  stmt (λ db,
    match targets db !! targetID with
    | None => Err ErrConstraint
    | Some _ =>
        Ok ((), set_checks <[next_id (checks db) := check_row targetID at_ r]> db)
    end).

(** The loop body of [Store.checks]: one scanned row. *)
Definition scanCheck (c : CheckRow) : Check :=
  mkCheck (fromUnix (ck_at c))
    (mkResult (ck_ok c) (ck_latency c) (ck_status c) (ck_error c) (ck_players c)
      (ck_max_players c) (default "" (ck_version c))).

(** [where target_id = ? order by at desc, id desc]. *)
Definition newest_first (targetID : Z) (m : gmap Z CheckRow) : list CheckRow :=
  (order_by (λ r, (- ck_at r.2, - r.1)) (rows (λ r, ck_target r.2 = targetID) m)).*2.

Definition LastChecks (targetID : Z) (n : Z) : M Db (list Check) :=
  query (λ db, scanCheck <$> sql_limit n (newest_first targetID (checks db))).

Definition hourStart (t : Time) : Z := let u := Unix t in u - Z.rem u 3600.

(** [where target_id = ? and at >= ? order by at, id]. *)
Definition HourChecks (now : Time) (targetID : Z) : M Db (list Check) :=
  query (λ db, scanCheck <$>
    (order_by (λ r, (ck_at r.2, r.1))
      (rows (λ r, ck_target r.2 = targetID ∧ hourStart now ≤ ck_at r.2) (checks db))).*2).

Definition hourlyKeep : Duration := 400 * 24 * Hour.

(** [not (ended_at is not null and ended_at < before)]. *)
Definition kept_incident (before : Z) (i : IncidentRow) : Prop :=
  match in_ended i with Some e => ¬ e < before | None => True end.

#[export] Instance kept_incident_dec before i : Decision (kept_incident before i).
Proof. unfold kept_incident. destruct (in_ended i); apply _. Defined.

Definition Prune (now : Time) (days : Z) : M Db unit :=
  let checksBefore := Unix (Add now (wrap64 (- days * 24 * Hour))) in
  do! stmt (λ db, Ok ((), set_checks (filter (λ r, ¬ ck_at r.2 < checksBefore)) db)) in
  let keepBefore := Unix (Add now (- hourlyKeep)) in
  do! stmt (λ db, Ok ((), set_hourly (filter (λ r, ¬ r.1.2 < keepBefore)) db)) in
  stmt (λ db, Ok ((), set_incidents (filter (λ r, kept_incident keepBefore r.2)) db)).

(** ** They keep the invariant *)

Lemma keeps_InsertCheck id at_ r : keeps Wf (InsertCheck id at_ r).
Proof.
  apply keeps_stmt. intros db u db' Hwf. case_match eqn:Ht; intros; simplify_eq.
  apply Wf_set_checks; [|done]. intros k c. rewrite lookup_insert.
  case_decide; intros; simplify_eq/=; [by rewrite Ht|]. by eapply (wf_fk _ Hwf).
Qed.

Lemma keeps_Prune now days : keeps Wf (Prune now days).
Proof.
  apply keeps_bind; [|intros _; apply keeps_bind; [|intros _]];
    apply keeps_stmt; intros db u db' Hwf ?; simplify_eq; destruct (Hwf) as [Ht (Hc & Hh & Hi) Ho Hin Hho Hse].
  - apply Wf_set_checks; [|done]. eauto with dmn.
  - apply Wf_set_hourly; [|done]. intros k h Hk%lookup_filter_inv. eauto.
  - apply Wf_set_incidents; [eauto with dmn| | |done].
    + eapply one_open_sub; [|exact Ho]. eauto with dmn.
    + intros k i Hk%lookup_filter_inv. eauto.
Qed.

#[export] Hint Resolve keeps_InsertCheck keeps_Prune : sql.

(** ** Reading back *)

Lemma scanCheck_row id at_ r :
  scanCheck (check_row id at_ r) = mkCheck (fromUnix (Unix at_)) r.
Proof.
  unfold scanCheck, check_row; simpl. rewrite <-Unix_fromUnix with (s := Unix at_) at 1.
  f_equal; [by rewrite Unix_fromUnix|]. destruct r as [? ? ? ? ? ? v]; simpl.
  by case_decide; subst.
Qed.

(** A check whose time is not before the stored ones is read back first. *)
Lemma newest_first_insert id at_ r (m : gmap Z CheckRow) :
  (∀ k c, m !! k = Some c → ck_target c = id → ck_at c ≤ Unix at_) →
  newest_first id (<[next_id m := check_row id at_ r]> m) =
  check_row id at_ r :: newest_first id m.
Proof.
  intros Hle. unfold newest_first.
  set (key := λ r : Z * CheckRow, (- ck_at r.2, - r.1)).
  assert (Hnd : ∀ m' : gmap Z CheckRow,
    NoDup (key <$> rows (λ r, ck_target r.2 = id) m')).
  { intros m'. pose proof (rows_NoDup (λ r, ck_target r.2 = id) m') as Hnd.
    eapply (NoDup_fmap_1 (λ p : Z * Z, - p.2)). rewrite <-list_fmap_compose.
    erewrite list_fmap_ext; [exact Hnd|]. intros i [k c] _. simpl. lia. }
  assert (Hins : rows (λ r, ck_target r.2 = id) (<[next_id m := check_row id at_ r]> m)
    ≡ₚ (next_id m, check_row id at_ r) :: rows (λ r, ck_target r.2 = id) m).
  { apply rows_insert; [apply next_id_fresh|done]. }
  rewrite (order_by_Permutation_eq key _ _ (Hnd _) Hins).
  rewrite order_by_cons; [done| |].
  - rewrite <-Hins. apply Hnd.
  - intros [k c] Hkc%elem_of_rows. simpl in Hkc. destruct Hkc as [Hk Ht].
    pose proof (lookup_lt_next_id _ _ _ Hk). specialize (Hle k c Hk Ht).
    unfold key_le, key; simpl. lia.
Qed.
