(* ===== verification/Incidents.v ===== *)
(** * Incidents (internal/store/incidents.go)

    Opening, closing and listing incidents, and recording which mails went
    out.  [OpenIncident] inserts only where the target has no open incident,
    which is what makes [one_open] an invariant of the table. *)

From S2P Require Import Prelude GoTime Sql Schema WellFormed Checks.

(** ** Operations *)

(** [where target_id = ? and ended_at is null]. *)
Definition open_for (targetID : Z) (r : Z * IncidentRow) : Prop :=
  in_target r.2 = targetID ∧ in_ended r.2 = None.

#[export] Instance open_for_dec targetID r : Decision (open_for targetID r).
Proof. unfold open_for. apply _. Defined.

Definition opened (targetID : Z) (at_ : Time) (cause : string) : IncidentRow :=
  mkIncidentRow targetID (Unix at_) None cause false false.

Definition OpenIncident (targetID : Z) (at_ : Time) (cause : string) : M Db Z :=
  let! id := stmt (λ db,
    match rows (open_for targetID) (incidents db) with
    | _ :: _ => Ok (None, db)
    | [] =>
        match targets db !! targetID with
        | None => Err ErrConstraint
        | Some _ =>
            let id := next_id (incidents db) in
            Ok (Some id, set_incidents <[id := opened targetID at_ cause]> db)
        end
    end) in
  match id with Some id => ret id | None => throw ErrIncidentOpen end.

Definition ended (i : IncidentRow) (at_ : Z) : IncidentRow :=
  mkIncidentRow (in_target i) (in_started i) (Some at_) (in_cause i)
    (in_mailed_down i) (in_mailed_up i).

Definition CloseIncident (id : Z) (at_ : Time) : M Db unit :=
  affected (stmt (λ db,
    match incidents db !! id with
    | Some i =>
        if decide (in_ended i = None) then Ok (1, set_incidents <[id := ended i (Unix at_)]> db)
        else Ok (0, db)
    | None => Ok (0, db)
    end)).

Definition ended_paused (i : IncidentRow) (at_ : Z) : IncidentRow :=
  mkIncidentRow (in_target i) (in_started i) (Some at_) (in_cause i) true true.

Definition ClosePausedIncident (now : Time) (targetID : Z) : M Db unit :=
  stmt (λ db, Ok ((), set_incidents (λ inc,
    (λ i, if decide (in_target i = targetID ∧ in_ended i = None)
          then ended_paused i (Unix now) else i) <$> inc) db)).

(** [select max(ended_at)]: NULL, and so the zero instant, without one. *)
Definition max_ended (l : list (Z * IncidentRow)) : option Z :=
  foldr (λ r acc, match in_ended r.2, acc with
                  | Some e, Some a => Some (Z.max e a)
                  | Some e, None => Some e
                  | None, _ => acc
                  end) None l.

Definition LastIncidentEnd (targetID : Z) : M Db Time :=
  query (λ db,
    match max_ended (rows (λ r, in_target r.2 = targetID) (incidents db)) with
    | Some e => fromUnix e
    | None => zeroTime
    end).

(** [scanIncident] on a row joined with its target's name. *)
Definition scanIncident (id : Z) (i : IncidentRow) (name : string) : Incident :=
  mkIncident id (in_target i) name (fromUnix (in_started i))
    (match in_ended i with Some e => fromUnix e | None => zeroTime end)
    (in_cause i) (in_mailed_down i) (in_mailed_up i).

(** [from incidents i join targets t on t.id = i.target_id]. *)
Definition join_target (db : Db) (r : Z * IncidentRow) : option Incident :=
  (λ t, scanIncident r.1 r.2 (Name t)) <$> targets db !! in_target r.2.

Definition OpenIncidentFor (targetID : Z) : M Db Incident :=
  found (query (λ db,
    head (omap (join_target db) (rows (open_for targetID) (incidents db))))).

Definition is_public (db : Db) (id : Z) : Prop :=
  match targets db !! id with Some t => Public t = true | None => False end.

#[export] Instance is_public_dec db id : Decision (is_public db id).
Proof. unfold is_public. destruct (targets db !! id); apply _. Defined.

(** [i.ended_at is null or i.ended_at >= since]. *)
Definition ended_since (since : Z) (i : IncidentRow) : Prop :=
  match in_ended i with None => True | Some e => since ≤ e end.

#[export] Instance ended_since_dec since i : Decision (ended_since since i).
Proof. unfold ended_since. destruct (in_ended i); apply _. Defined.

(** [order by i.started_at desc, i.id desc limit ?]. *)
Definition latest (db : Db) (limit : Z) (l : list (Z * IncidentRow)) : list Incident :=
  sql_limit limit (omap (join_target db)
    (order_by (λ r, (- in_started r.2, - r.1)) l)).

Definition RecentIncidents (limit : Z) (since : Time) (publicOnly : bool) : M Db (list Incident) :=
  query (λ db, latest db limit
    (rows (λ r, ended_since (Unix since) r.2 ∧
                (publicOnly = true → is_public db (in_target r.2))) (incidents db))).

Definition TargetIncidents (targetID : Z) (limit : Z) (since : Time) : M Db (list Incident) :=
  query (λ db, latest db limit
    (rows (λ r, in_target r.2 = targetID ∧ ended_since (Unix since) r.2) (incidents db))).

Definition marked (i : IncidentRow) (up : bool) : IncidentRow :=
  mkIncidentRow (in_target i) (in_started i) (in_ended i) (in_cause i)
    (if up then in_mailed_down i else true) (if up then true else in_mailed_up i).

Definition MarkMailed (id : Z) (up : bool) : M Db unit :=
  affected (stmt (λ db,
    match incidents db !! id with
    | Some i =>
        if decide (up = true ∧ in_ended i = None) then Ok (0, db)
        else Ok (1, set_incidents <[id := marked i up]> db)
    | None => Ok (0, db)
    end)).

(** The condition of [UnmailedIncidents]: a mail is missing and its event is
    not older than [since]. *)
Definition unmailed (since : Z) (i : IncidentRow) : Prop :=
  (in_mailed_down i = false ∧ since ≤ in_started i) ∨
  (in_mailed_up i = false ∧ match in_ended i with Some e => since ≤ e | None => False end).

#[export] Instance unmailed_dec since i : Decision (unmailed since i).
Proof. unfold unmailed. destruct (in_ended i); apply _. Defined.

Definition UnmailedIncidents (since : Time) : M Db (list Incident) :=
  query (λ db, omap (join_target db)
    (order_by (λ r, (in_started r.2, r.1)) (rows (λ r, unmailed (Unix since) r.2) (incidents db)))).

(** ** They keep the invariant *)

Section Update.
(** Updating one incident without reopening it or moving it to another
    target keeps the table well formed. *)
Lemma Wf_update_incident db id i i' :
  incidents db !! id = Some i → in_target i' = in_target i →
  (in_ended i' = None → in_ended i = None) →
  (in_mailed_up i' = true → is_Some (in_ended i')) →
  Wf db → Wf (set_incidents <[id := i']> db).
Proof.
  intros Hi Ht He Hm Hwf. destruct (Hwf) as [? (? & ? & Hfk) Ho Hin ? ?].
  apply Wf_set_incidents; [| | |done].
  - intros k j. rewrite lookup_insert. case_decide; intros; simplify_eq; [|by eapply Hfk].
    rewrite Ht. by eapply Hfk.
  - intros k1 k2 j1 j2. rewrite !lookup_insert.
    repeat case_decide; intros; simplify_eq; try done;
      (eapply Ho; [eassumption| eassumption|..]); by rewrite <-?Ht; auto.
  - intros k j. rewrite lookup_insert. case_decide; intros; simplify_eq; [|by eapply Hin].
    split; [by apply (Hin _ _ Hi)|done].
Qed.
End Update.

Lemma rows_open_nil id (inc : gmap Z IncidentRow) k i :
  rows (open_for id) inc = [] → inc !! k = Some i → in_ended i = None → in_target i ≠ id.
Proof.
  intros Hr Hk He ?. assert ((k, i) ∈ rows (open_for id) inc) as Hin.
  { apply elem_of_rows. done. }
  rewrite Hr in Hin. by apply not_elem_of_nil in Hin.
Qed.

Lemma keeps_OpenIncident id at_ cause : keeps Wf (OpenIncident id at_ cause).
Proof.
  apply keeps_bind; [|intros [?|]; auto with sql].
  apply keeps_stmt. intros db o db' Hwf.
  case_match eqn:Hr; [|by intros; simplify_eq].
  case_match eqn:Ht; intros; simplify_eq/=. destruct (Hwf) as [? (? & ? & Hfk) Ho Hin ? ?].
  apply Wf_set_incidents; [| | |done].
  - intros k j. rewrite lookup_insert. case_decide; intros; simplify_eq/=; [by rewrite Ht|].
    by eapply Hfk.
  - intros k1 k2 j1 j2. rewrite !lookup_insert.
    repeat case_decide; intros; simplify_eq/=; try done; [..|by eapply Ho];
      exfalso; eapply rows_open_nil; eauto.
  - intros k j. rewrite lookup_insert. case_decide; intros; simplify_eq/=; [|by eapply Hin].
    split; [apply next_id_pos|done].
Qed.

Lemma keeps_CloseIncident id at_ : keeps Wf (CloseIncident id at_).
Proof.
  apply keeps_affected, keeps_stmt. intros db n db' Hwf.
  case_match eqn:Hi; [case_decide|]; intros; simplify_eq; try done.
  eapply Wf_update_incident; eauto; done.
Qed.

Lemma keeps_MarkMailed id up : keeps Wf (MarkMailed id up).
Proof.
  apply keeps_affected, keeps_stmt. intros db n db' Hwf.
  case_match eqn:Hi; [case_decide as Hd|]; intros; simplify_eq; try done.
  eapply Wf_update_incident; eauto; simpl.
  destruct up; [|by apply (wf_incidents _ Hwf) in Hi as [_ ?]].
  destruct (in_ended _) eqn:He; [done|]. naive_solver.
Qed.

Lemma keeps_ClosePausedIncident now id : keeps Wf (ClosePausedIncident now id).
Proof.
  apply keeps_stmt. intros db n db' Hwf ?; simplify_eq.
  destruct (Hwf) as [? (? & ? & Hfk) Ho Hin ? ?].
  apply Wf_set_incidents; [| | |done].
  - intros k j. rewrite lookup_fmap_Some. intros (i & <- & Hi).
    case_decide; simpl; by eapply Hfk.
  - intros k1 k2 j1 j2. rewrite !lookup_fmap_Some. intros (i1 & <- & Hi1) (i2 & <- & Hi2).
    repeat case_decide; simpl; try done. by eapply Ho.
  - intros k j. rewrite lookup_fmap_Some. intros (i & <- & Hi).
    apply Hin in Hi as [? ?]. by case_decide.
Qed.

#[export] Hint Resolve keeps_OpenIncident keeps_CloseIncident keeps_MarkMailed
  keeps_ClosePausedIncident : sql.

(** ** Effects on the table *)

Lemma OpenIncident_Ok id at_ cause w k w' :
  OpenIncident id at_ cause w = (Ok k, w') →
  rows (open_for id) (incidents (w_db w)) = [] ∧ is_Some (targets (w_db w) !! id) ∧
  k = next_id (incidents (w_db w)) ∧
  w_db w' = set_incidents <[k := opened id at_ cause]> (w_db w).
Proof.
  unfold OpenIncident. intros (o & w1 & Hs%stmt_ok & Ho)%bind_ok.
  destruct o as [j|]; [|done]. unfold ret in Ho. simplify_eq.
  destruct (rows (open_for id) (incidents (w_db w))); [|by simplify_eq].
  destruct (targets (w_db w) !! id) eqn:Ht; [|done]. by simplify_eq.
Qed.

Lemma OpenIncident_Err id at_ cause w e w' :
  OpenIncident id at_ cause w = (Err e, w') → w_db w' = w_db w.
Proof.
  unfold OpenIncident, bind, stmt. pose proof (tick_db w) as Ht.
  destruct (tick w) as [b w1]; simpl in Ht. destruct b; [by intros; simplify_eq|]. rewrite Ht.
  repeat case_match; unfold ret, throw in *; by intros; simplify_eq.
Qed.

Lemma OpenIncidentFor_Ok id w i w' :
  OpenIncidentFor id w = (Ok i, w') →
  w_db w' = w_db w ∧ ∃ r, incidents (w_db w) !! i_ID i = Some r ∧ open_for id (i_ID i, r) ∧
    i_StartedAt i = fromUnix (in_started r).
Proof.
  unfold OpenIncidentFor, found. intros (o & w1 & Hq%query_ok & Ho)%bind_ok.
  destruct Hq as [-> Hw].
  destruct (head _) as [j|] eqn:Hh; [|done]. unfold ret in Ho. simplify_eq. split; [done|].
  apply head_Some_elem_of, list_elem_of_omap in Hh as ([k r] & Hin & Hj).
  apply elem_of_rows in Hin as [Hk Hop]. unfold join_target in Hj.
  apply fmap_Some in Hj as (t & _ & ->). by exists r.
Qed.

Lemma OpenIncidentFor_Err id w e w' :
  OpenIncidentFor id w = (Err e, w') → w_db w' = w_db w.
Proof.
  unfold OpenIncidentFor, found, bind.
  pose proof (query_db (λ db, head (omap (join_target db) (rows (open_for id) (incidents db)))) w).
  destruct (query _ w) as [[[i|]|e'] w1]; unfold ret, throw; intros; by simplify_eq/=.
Qed.

Lemma CloseIncident_Ok id at_ w u w' :
  CloseIncident id at_ w = (Ok u, w') →
  ∃ i, incidents (w_db w) !! id = Some i ∧ in_ended i = None ∧
    w_db w' = set_incidents <[id := ended i (Unix at_)]> (w_db w).
Proof.
  unfold CloseIncident, affected. intros (n & w1 & Hs%stmt_ok & Hn)%bind_ok.
  case_decide; [done|]. unfold ret in Hn. simplify_eq.
  destruct (incidents (w_db w) !! id) as [i|]; [|by simplify_eq].
  case_decide; [|by simplify_eq]. injection Hs as _ Hdb. eauto.
Qed.

Lemma CloseIncident_Err id at_ w e w' :
  CloseIncident id at_ w = (Err e, w') → w_db w' = w_db w.
Proof.
  unfold CloseIncident, affected, bind, stmt. pose proof (tick_db w) as Ht.
  destruct (tick w) as [b w1]; simpl in Ht. destruct b; [by intros; simplify_eq|]. rewrite Ht.
  repeat case_match; unfold ret, throw in *; by intros; simplify_eq.
Qed.

(** Recording a mail touches at most the two flags of that incident. *)
Lemma MarkMailed_effect id up w r w' :
  MarkMailed id up w = (r, w') →
  w_db w' = w_db w ∨
  ∃ i, incidents (w_db w) !! id = Some i ∧
    w_db w' = set_incidents <[id := marked i up]> (w_db w).
Proof.
  unfold MarkMailed, affected, bind, stmt. pose proof (tick_db w) as Ht.
  destruct (tick w) as [b w1]; simpl in Ht.
  destruct b; [intros; simplify_eq; by left|]. rewrite Ht.
  repeat case_match; unfold ret, throw in *; intros; simplify_eq/=; eauto.
Qed.

(** ** Properties *)

(** Opening an incident succeeds exactly when the target
    exists and has none open, and then adds the one open incident under a
    fresh identifier; it reports an incident already open exactly when there is
    one; on every error the database is unchanged. *)
Theorem open_incident_spec id at_ cause w :
  match OpenIncident id at_ cause w with
  | (Ok k, w') =>
      (∀ j i, incidents (w_db w) !! j = Some i → ¬ open_for id (j, i)) ∧
      is_Some (targets (w_db w) !! id) ∧ incidents (w_db w) !! k = None ∧ 0 < k ∧
      w_db w' = set_incidents <[k := opened id at_ cause]> (w_db w)
  | (Err e, w') =>
      w_db w' = w_db w ∧
      match e with
      | ErrIncidentOpen => ∃ j i, incidents (w_db w) !! j = Some i ∧ open_for id (j, i)
      | ErrConstraint => targets (w_db w) !! id = None
      | e => e = ErrDriver
      end
  end.
Proof.
  unfold OpenIncident, bind, stmt. pose proof (tick_db w) as Ht.
  destruct (tick w) as [b w1]; simpl in Ht. destruct b; [done|]. rewrite Ht.
  destruct (rows (open_for id) (incidents (w_db w))) as [|[j i] l] eqn:Hr.
  - destruct (targets (w_db w) !! id) as [t|] eqn:Hid; simpl; [|done].
    split_and!; auto with dmn. intros j i Hj Ho.
    assert ((j, i) ∈ rows (open_for id) (incidents (w_db w))) as Hin by by apply elem_of_rows.
    rewrite Hr in Hin. by apply not_elem_of_nil in Hin.
  - simpl. split; [done|]. exists j, i. rewrite <-(elem_of_rows (open_for id)), Hr. left.
Qed.

(** An incident is closed at most once: success means it
    was open and now ends at the given second, a second attempt finds no row. *)
Theorem close_incident_once id at_ w w' :
  CloseIncident id at_ w = (Ok (), w') →
  (∃ i, incidents (w_db w) !! id = Some i ∧ in_ended i = None ∧
    w_db w' = set_incidents <[id := ended i (Unix at_)]> (w_db w)) ∧
  ∀ at2 fs, CloseIncident id at2 (mkWorld (w_db w') (false :: fs)) =
    (Err ErrNotFound, mkWorld (w_db w') fs).
Proof.
  intros (i & Hi & He & Hdb)%CloseIncident_Ok. split; [eauto|]. intros at2 fs.
  unfold CloseIncident, affected, bind, stmt. rewrite Hdb. simpl. by rewrite lookup_insert_eq.
Qed.

Lemma close_incident_once_witness :
  let db := set_incidents <[1 := opened 5 0 "timeout"]> empty_db in
  let w' := (CloseIncident 1 (9 * Second) (quiet db)).2 in
  CloseIncident 1 (9 * Second) (quiet db) = (Ok (), w') ∧
  ∀ at2 fs, CloseIncident 1 at2 (mkWorld (w_db w') (false :: fs)) =
    (Err ErrNotFound, mkWorld (w_db w') fs).
Proof.
  intros db w'. assert (CloseIncident 1 (9 * Second) (quiet db) = (Ok (), w')) as H by done.
  split; [exact H|]. apply (close_incident_once 1 (9 * Second) (quiet db) w' H).
Defined.
