(* ===== verification/Rollup.v ===== *)
(** * Hourly aggregates, uptime and latency (internal/store/rollup.go)

    [Rollup] condenses the checks of the two previous full hours into one row
    per target and hour; [Uptime], [Hours] and [Latency] read those rows plus
    the raw checks of the running hour.  The abstract view of the component is
    [summary]: the aggregate of a set of checks, whatever their order. *)

From Stdlib Require Import SpecFloat.
From S2P Require Import Prelude GoTime Sql Schema WellFormed Checks.

(** ** Operations *)

Definition hour : Z := 3600.

(** [struct stats]. *)
Record stats : Type := mkStats { st_total : Z; st_ok : Z; st_lat : list Z }.

Definition no_stats : stats := mkStats 0 0 [].

Definition stats_add (st : stats) (ok : bool) (latency : Z) : stats :=
  if ok then mkStats (st_total st + 1) (st_ok st + 1) (st_lat st ++ [latency])
  else mkStats (st_total st + 1) (st_ok st) (st_lat st).

(** [slices.Sort]. *)
Definition sort_ints (l : list Z) : list Z := merge_sort Z.le l.

(** [stats.latency]; [None] is an index out of range. *)
Definition stats_latency (st : stats) : option (Z * Z * Z) :=
  let n := Z.of_nat (length (st_lat st)) in
  if decide (n = 0) then Some (0, 0, 0) else
  let lat := sort_ints (st_lat st) in
  let sum := foldl Z.add 0 lat in
  p95 ← lat !! Z.to_nat (Z.quot (95 * n + 99) 100 - 1);
  maxMs ← lat !! Z.to_nat (n - 1);
  Some (Z.quot sum n, p95, maxMs).

(** The start of the hour a check belongs to. *)
Definition bucket (at_ : Z) : Z := at_ - Z.rem at_ hour.

Definition check_key (c : CheckRow) : Z * Z := (ck_target c, bucket (ck_at c)).

(** One turn of the loop over the selected checks: the keys in the order of
    their first appearance, and the statistics of each. *)
Definition collect (acc : list (Z * Z) * gmap (Z * Z) stats) (c : CheckRow) :
    list (Z * Z) * gmap (Z * Z) stats :=
  let k := check_key c in
  match acc.2 !! k with
  | None => (acc.1 ++ [k], <[k := stats_add no_stats (ck_ok c) (ck_latency c)]> acc.2)
  | Some st => (acc.1, <[k := stats_add st (ck_ok c) (ck_latency c)]> acc.2)
  end.

(** The row written for a bucket. *)
Definition hourly_row (st : stats) : option HourlyRow :=
  '(avg, p95, maxMs) ← stats_latency st;
  Some (mkHourlyRow (st_total st) (st_ok st) avg p95 maxMs).

(** [insert or replace into hourly]. *)
Definition replace_hourly (k : Z * Z) (row : HourlyRow) : M Db unit :=
  stmt (λ db, match targets db !! k.1 with
              | None => Err ErrConstraint
              | Some _ => Ok ((), set_hourly <[k := row]> db)
              end).

Fixpoint write_buckets (keys : list (Z * Z)) (buckets : gmap (Z * Z) stats) : M Db unit :=
  match keys with
  | [] => ret ()
  | k :: keys =>
      let! row := panics (st ← buckets !! k; hourly_row st) in
      do! replace_hourly k row in
      write_buckets keys buckets
  end.

(** [where at >= ? and at < ? order by target_id, at]. *)
Definition window (from cur : Z) (m : gmap Z CheckRow) : list CheckRow :=
  (order_by (λ r, (ck_target r.2, ck_at r.2))
    (rows (λ r, from ≤ ck_at r.2 < cur) m)).*2.

Definition Rollup (now : Time) : M Db unit :=
  let cur := hourStart now in
  let from := cur - 2 * hour in
  tx (let! rs := query (λ db, window from cur (checks db)) in
      let '(keys, buckets) := foldl collect ([], ∅) rs in
      write_buckets keys buckets).

(** [float64(z)] for an integer. *)
Definition float64 (z : Z) : spec_float := binary_normalize 53 1024 z 0 false.

(** [ratio]: the quotient of two [float64], -1 without a check. *)
Definition ratio (ok total : Z) : spec_float :=
  if decide (total = 0) then float64 (-1) else SFdiv 53 1024 (float64 ok) (float64 total).

Record UptimeT : Type := mkUptime { Day : spec_float; Week : spec_float; Month : spec_float }.

(** [count] and [sum(ok)] of the raw checks from [start] on. *)
Definition rawHour (targetID start : Z) : M Db (Z * Z) :=
  query (λ db,
    let l := (rows (λ r, ck_target r.2 = targetID ∧ start ≤ ck_at r.2) (checks db)).*2 in
    (Z.of_nat (length l), count ck_ok l)).

(** The hourly rows of a target with [lo <= hour < cur]. *)
Definition hour_range (targetID lo cur : Z) (m : gmap (Z * Z) HourlyRow) :
    list ((Z * Z) * HourlyRow) :=
  map_to_list (filter (λ r, r.1.1 = targetID ∧ r.1.2 < cur ∧ lo ≤ r.1.2) m).

(** [coalesce(sum(case when hour >= lo then v end), 0)] over rows of the last
    30 days. *)
Definition sum_since (lo : Z) (v : HourlyRow → Z) (l : list ((Z * Z) * HourlyRow)) : Z :=
  sum_with (λ r, if decide (lo ≤ r.1.2) then v r.2 else 0) l.

(** The six counters of the query, with the running hour added. *)
Definition uptime_counts (now : Time) (targetID : Z) : M Db ((Z * Z) * (Z * Z) * (Z * Z)) :=
  let cur := hourStart now in
  let! s := query (λ db,
    let l := hour_range targetID (cur - 719 * hour) cur (hourly db) in
    let span lo := (sum_since lo h_ok l, sum_since lo h_total l) in
    (span (cur - 23 * hour), span (cur - 167 * hour),
     (sum_with (λ r, h_ok r.2) l, sum_with (λ r, h_total r.2) l))) in
  let! raw := rawHour targetID cur in
  let '(d, w, m) := s in
  let plus p := (p.1 + raw.2, p.2 + raw.1) in
  ret (plus d, plus w, plus m).

Definition Uptime (now : Time) (targetID : Z) : M Db UptimeT :=
  let! c := uptime_counts now targetID in
  let '(d, w, m) := c in
  ret (mkUptime (ratio d.1 d.2) (ratio w.1 w.2) (ratio m.1 m.2)).

(** [store.Hour]. *)
Record HourT : Type := mkHour { hr_Start : Time; hr_Total : Z; hr_OK : Z }.

(** [cells[i].Total, cells[i].OK = total, ok]; [None] is an index panic. *)
Definition set_cell (cells : list HourT) (i total ok : Z) : option (list HourT) :=
  if decide (i < 0) then None else
  c ← cells !! Z.to_nat i;
  Some (<[Z.to_nat i := mkHour (hr_Start c) total ok]> cells).

Fixpoint fill_cells (first : Z) (cells : list HourT) (l : list ((Z * Z) * HourlyRow)) :
    option (list HourT) :=
  match l with
  | [] => Some cells
  | (k, h) :: l =>
      cells' ← set_cell cells (Z.quot (k.2 - first) hour) (h_total h) (h_ok h);
      fill_cells first cells' l
  end.

(** [make([]Hour, n)] with the start of each cell; [None] for a negative
    length. *)
Definition new_cells (first n : Z) : option (list HourT) :=
  if decide (n < 0) then None else
  Some ((λ i, mkHour (fromUnix (first + Z.of_nat i * hour)) 0 0) <$> seq 0 (Z.to_nat n)).

(** [Store.Hours]. *)
Definition Hours (now : Time) (targetID n : Z) : M Db (list HourT) :=
  let cur := hourStart now in
  let first := cur - (n - 1) * hour in
  let! cells := panics (new_cells first n) in
  let! l := query (λ db, hour_range targetID first cur (hourly db)) in
  let! cells := panics (fill_cells first cells l) in
  do! panics (if decide (n - 1 < 0) then None else Some ()) in
  let! raw := rawHour targetID cur in
  panics (set_cell cells (n - 1) raw.1 raw.2).

(** [store.Point]. *)
Record Point : Type := mkPoint { p_At : Time; p_Avg : Z; p_P95 : Z; p_Max : Z }.

Definition step : Z := 600.

Definition slot (at_ : Z) : Z := at_ - Z.rem at_ step.

(** The loop of [Latency]: the points written, the open slot (-1 before the
    first row) and its statistics. *)
Record lat_state : Type := mkLat { l_out : list Point; l_bucket : Z; l_st : stats }.

Definition flush (s : lat_state) : option lat_state :=
  '(avg, p95, maxMs) ← stats_latency (l_st s);
  Some (mkLat (l_out s ++ [mkPoint (fromUnix (l_bucket s)) avg p95 maxMs]) (l_bucket s) no_stats).

Definition lat_step (s : lat_state) (r : Z * Z) : option lat_state :=
  let b := slot r.1 in
  s' ← (if decide (b = l_bucket s) then Some s else
        s1 ← (if decide (0 ≤ l_bucket s) then flush s else Some s);
        Some (mkLat (l_out s1) b (l_st s1)));
  Some (mkLat (l_out s') (l_bucket s') (stats_add (l_st s') true r.2)).

Fixpoint lat_loop (s : lat_state) (l : list (Z * Z)) : option lat_state :=
  match l with
  | [] => Some s
  | r :: l => s' ← lat_step s r; lat_loop s' l
  end.

Definition lat_points (l : list (Z * Z)) : option (list Point) :=
  s ← lat_loop (mkLat [] (-1) no_stats) l;
  if decide (0 ≤ l_bucket s) then l_out <$> flush s else Some (l_out s).

(** [where target_id = ? and ok = 1 and at >= ? order by at]. *)
Definition ok_rows (targetID since : Z) (m : gmap Z CheckRow) : list (Z * Z) :=
  (λ r, (ck_at r.2, ck_latency r.2)) <$>
  order_by (λ r, (ck_at r.2, r.1))
    (rows (λ r, ck_target r.2 = targetID ∧ ck_ok r.2 = true ∧ since ≤ ck_at r.2) m).

Definition hourlyLatency (targetID since : Z) : M Db (list Point) :=
  query (λ db,
    (λ r, mkPoint (fromUnix r.1.2) (h_avg r.2) (h_p95 r.2) (h_max r.2)) <$>
    order_by (λ r, (r.1.2, r.1.1)) (map_to_list
      (filter (λ r, r.1.1 = targetID ∧ since ≤ r.1.2 ∧ 0 < h_ok r.2) (hourly db)))).

(** [Store.Latency]. *)
Definition Latency (now : Time) (targetID : Z) (span : Duration) : M Db (list Point) :=
  let since := Unix (Add now (- span)) in
  if decide (24 * Hour < span) then
    hourlyLatency targetID (since - Z.rem since hour)
  else
    let! rs := query (λ db, ok_rows targetID since (checks db)) in
    panics (lat_points rs).

(** ** Latency figures *)

(** The number of elements up to, and strictly below, a value. *)
Definition at_most (v : Z) (l : list Z) : Z := count (λ x, bool_decide (x ≤ v)) l.
Definition below (v : Z) (l : list Z) : Z := count (λ x, bool_decide (x < v)) l.

Lemma sort_ints_Permutation l : sort_ints l ≡ₚ l.
Proof. apply merge_sort_Permutation. Qed.

Lemma sort_ints_sorted l : StronglySorted Z.le (sort_ints l).
Proof. apply (StronglySorted_merge_sort Z.le). Qed.

Lemma sort_ints_proper l l' : l ≡ₚ l' → sort_ints l = sort_ints l'.
Proof.
  intros Hp. apply (StronglySorted_unique Z.le); [apply sort_ints_sorted..|].
  by rewrite !sort_ints_Permutation.
Qed.

Lemma foldl_add_sum l a : foldl Z.add a l = a + sum_with id l.
Proof. revert a. induction l as [|x l IH]; intros a; simpl; [lia|]. rewrite IH. unfold id. lia. Qed.

(** In a sorted list at least [i + 1] elements are at most the one at index
    [i], and at most [i] are below it. *)
Lemma sorted_rank (l : list Z) i v :
  StronglySorted Z.le l → l !! i = Some v →
  Z.of_nat i < at_most v l ∧ below v l ≤ Z.of_nat i.
Proof.
  intros Hs Hi. rewrite <-(take_drop_middle l i v Hi) in Hs |- *.
  pose proof (lookup_lt_Some _ _ _ Hi) as Hlt.
  assert (Hlen : length (take i l) = i) by (rewrite length_take; lia).
  assert (Hle : ∀ x, x ∈ take i l → x ≤ v).
  { intros x Hx. eapply (StronglySorted_app_1_elem_of Z.le); [exact Hs|done|left]. }
  apply StronglySorted_app_1_r, StronglySorted_inv in Hs as [_ Hge].
  rewrite list.Forall_forall in Hge.
  unfold at_most, below. rewrite !count_app. split.
  - rewrite (count_all _ (take i l)) by (intros; rewrite bool_decide_eq_true; auto).
    unfold count at 1. simpl. rewrite bool_decide_true by lia.
    pose proof (count_bounds (λ x, bool_decide (x ≤ v)) (drop (S i) l)). unfold count in *. lia.
  - rewrite (count_none _ (v :: drop (S i) l)).
    + pose proof (count_bounds (λ x, bool_decide (x < v)) (take i l)). lia.
    + intros x [->|Hx]%elem_of_cons; rewrite bool_decide_eq_false; [lia|].
      specialize (Hge x Hx). lia.
Qed.

Lemma sorted_last (l : list Z) v x :
  StronglySorted Z.le l → l !! (length l - 1)%nat = Some v → x ∈ l → x ≤ v.
Proof.
  intros Hs Hv Hx. apply list_elem_of_lookup in Hx as [i Hi].
  pose proof (lookup_lt_Some _ _ _ Hi).
  destruct (decide (i = length l - 1)%nat) as [->|Hne]; [by simplify_eq|].
  rewrite <-(take_drop_middle l _ v Hv) in Hs.
  eapply (StronglySorted_app_1_elem_of Z.le); [exact Hs| |left].
  apply list_elem_of_lookup. exists i. rewrite lookup_take_lt by lia. done.
Qed.

(** [stats.latency] never indexes out of range and depends on the latencies
    only, not on their order. *)
Lemma stats_latency_total st : is_Some (stats_latency st).
Proof.
  unfold stats_latency. case_decide as Hn; [done|].
  pose proof (Permutation_length (sort_ints_Permutation (st_lat st))) as Hlen.
  destruct (lookup_lt_is_Some_2 (sort_ints (st_lat st))
    (Z.to_nat (Z.quot (95 * Z.of_nat (length (st_lat st)) + 99) 100 - 1))) as [p Hp].
  { pose proof (Z.div_lt_upper_bound (95 * Z.of_nat (length (st_lat st)) + 99) 100
      (Z.of_nat (length (st_lat st)) + 1)).
    rewrite Hlen, Z.quot_div_nonneg by lia. lia. }
  rewrite Hp; simpl.
  destruct (lookup_lt_is_Some_2 (sort_ints (st_lat st))
    (Z.to_nat (Z.of_nat (length (st_lat st)) - 1))) as [q Hq]; [lia|].
  by rewrite Hq.
Qed.

Lemma stats_latency_proper st st' :
  st_lat st ≡ₚ st_lat st' → stats_latency st = stats_latency st'.
Proof.
  intros Hp. unfold stats_latency.
  by rewrite (sort_ints_proper _ _ Hp), (Permutation_length Hp).
Qed.

(** The figures as order statistics of the latencies. *)
Lemma stats_latency_figures st avg p95 mx :
  stats_latency st = Some (avg, p95, mx) → st_lat st ≠ [] →
  let l := st_lat st in
  let n := Z.of_nat (length l) in
  avg = Z.quot (sum_with id l) n ∧ p95 ∈ l ∧ mx ∈ l ∧ (∀ x, x ∈ l → x ≤ mx) ∧
  95 * n ≤ 100 * at_most p95 l ∧ 100 * below p95 l < 95 * n.
Proof.
  intros Hst Hne. simpl. set (n := Z.of_nat (length (st_lat st))).
  assert (0 < n) by (destruct (st_lat st); simpl in *; [done|lia]).
  pose proof (sort_ints_Permutation (st_lat st)) as HP.
  pose proof (sort_ints_sorted (st_lat st)) as Hs.
  unfold stats_latency in Hst. fold n in Hst. rewrite decide_False in Hst by lia.
  destruct (_ !! Z.to_nat (Z.quot _ _ - 1)) as [p|] eqn:Hp; [|done]. simpl in Hst.
  destruct (_ !! Z.to_nat (n - 1)) as [q|] eqn:Hq; [|done]. simplify_eq/=.
  pose proof (sorted_rank _ _ _ Hs Hp) as [Hr1 Hr2].
  unfold at_most, below in *. rewrite !(count_Permutation _ _ _ HP) in *.
  rewrite Z.quot_div_nonneg in Hr1, Hr2 by lia.
  pose proof (Z.div_mod (95 * n + 99) 100 ltac:(lia)) as Hdm.
  pose proof (Z.mod_pos_bound (95 * n + 99) 100 ltac:(lia)).
  set (r := (95 * n + 99) `div` 100) in *. set (m := (95 * n + 99) `mod` 100) in *.
  clearbody r m. rewrite Z2Nat.id in Hr1, Hr2 by lia.
  split_and!.
  - by rewrite foldl_add_sum, (sum_with_Permutation _ _ _ HP), Z.add_0_l.
  - rewrite <-HP. apply list_elem_of_lookup. eauto.
  - rewrite <-HP. apply list_elem_of_lookup. eauto.
  - intros x Hx. rewrite <-HP in Hx. eapply sorted_last; [done| |done].
    rewrite (Permutation_length HP), <-Hq. f_equal. lia.
  - lia.
  - lia.
Qed.

(** ** The reference aggregate *)

(** The statistics of a list of checks, added one by one. *)
Definition stats_of (l : list CheckRow) : stats :=
  foldl (λ st c, stats_add st (ck_ok c) (ck_latency c)) no_stats l.

(** The hourly row for the checks of an hour; none for an empty hour. *)
Definition summary (l : list CheckRow) : option HourlyRow :=
  if decide (l = []) then None else hourly_row (stats_of l).

(** The stored checks of a bucket. *)
Definition bucket_checks (k : Z * Z) (m : gmap Z CheckRow) : list CheckRow :=
  (rows (λ r, check_key r.2 = k) m).*2.

Lemma stats_of_spec l :
  st_total (stats_of l) = Z.of_nat (length l) ∧ st_ok (stats_of l) = count ck_ok l ∧
  st_lat (stats_of l) = ck_latency <$> filter (λ c, ck_ok c = true) l.
Proof.
  unfold stats_of. induction l as [|c l (IH1 & IH2 & IH3)] using rev_ind; [done|].
  rewrite foldl_snoc, filter_app, fmap_app, length_app, count_app.
  rewrite filter_cons, filter_nil. set (st := foldl _ _ _) in *.
  assert (Hcnt : count ck_ok [c] = if ck_ok c then 1 else 0).
  { unfold count. simpl. lia. }
  rewrite Hcnt. unfold stats_add. simpl.
  destruct (ck_ok c); simpl; rewrite IH1, IH2, IH3, ?app_nil_r; split_and!; try done; lia.
Qed.

Lemma hourly_row_total st : is_Some (hourly_row st).
Proof.
  unfold hourly_row. destruct (stats_latency_total st) as [[[a p] m] ->]. eauto.
Qed.

Lemma hourly_row_fields st row :
  hourly_row st = Some row → h_total row = st_total st ∧ h_ok row = st_ok st.
Proof.
  unfold hourly_row. destruct (stats_latency_total st) as [[[a p] m] ->].
  intros; by simplify_eq/=.
Qed.

(** The aggregate does not depend on the order of the checks. *)
Lemma summary_proper l l' : l ≡ₚ l' → summary l = summary l'.
Proof.
  intros Hp. unfold summary.
  assert (Hnil : l = [] ↔ l' = []).
  { split; intros ->; [by apply Permutation_nil_l in Hp|by apply Permutation_nil_r in Hp]. }
  destruct (decide (l = [])), (decide (l' = [])); try tauto.
  unfold hourly_row.
  pose proof (stats_of_spec l) as (H1 & H2 & H3).
  pose proof (stats_of_spec l') as (H1' & H2' & H3').
  rewrite (stats_latency_proper (stats_of l) (stats_of l')).
  - by rewrite H1, H1', H2, H2', (Permutation_length Hp), (count_Permutation _ _ _ Hp).
  - by rewrite H3, H3', Hp.
Qed.

Lemma summary_row l row :
  summary l = Some row → h_total row = Z.of_nat (length l) ∧ h_ok row = count ck_ok l ∧
    0 < h_total row ∧ 0 ≤ h_ok row ≤ h_total row.
Proof.
  unfold summary. case_decide as Hl; [done|]. intros [Ht Ho]%hourly_row_fields.
  pose proof (stats_of_spec l) as (H1 & H2 & _). pose proof (count_bounds ck_ok l).
  destruct l; simpl in *; [done|]. lia.
Qed.

Lemma summary_nonempty l : l ≠ [] → is_Some (summary l).
Proof. intros. unfold summary. rewrite decide_False by done. apply hourly_row_total. Qed.

(** ** The loop of [Rollup] computes the reference aggregate *)

Lemma collect_snoc l c :
  foldl collect ([], ∅) (l ++ [c]) = collect (foldl collect ([], ∅) l) c.
Proof. apply foldl_snoc. Qed.

Lemma collect_spec l :
  let kb := foldl collect ([], ∅) l in
  NoDup kb.1 ∧ (∀ k, k ∈ kb.1 ↔ is_Some (kb.2 !! k)) ∧
  ∀ k, kb.2 !! k =
    let g := group check_key k l in if decide (g = []) then None else Some (stats_of g).
Proof.
  induction l as [|c l IH] using rev_ind; simpl.
  { split_and!; [constructor| |by intros; rewrite lookup_empty].
    intros k. rewrite lookup_empty, elem_of_nil. split; [done|by intros [? ?]]. }
  rewrite collect_snoc. simpl in IH. destruct (foldl collect ([], ∅) l) as [keys b].
  destruct IH as (Hnd & Hdom & Hb). simpl in *. unfold collect. simpl.
  assert (Hg : ∀ k, group check_key k (l ++ [c]) =
    if decide (check_key c = k) then group check_key k l ++ [c] else group check_key k l).
  { intros k. rewrite group_app, group_cons, group_nil. case_decide; by rewrite ?app_nil_r. }
  destruct (b !! check_key c) as [st|] eqn:Hc; simpl.
  - split_and!; [done| |].
    + intros k. rewrite Hdom, lookup_insert. case_decide; subst; [|done].
      rewrite Hc. split; eauto.
    + intros k. rewrite lookup_insert, Hg. case_decide as Hk; subst; [|apply Hb].
      rewrite Hb in Hc. case_decide; simplify_eq.
      rewrite decide_False by (by intros [? ?]%app_nil). unfold stats_of. by rewrite foldl_snoc.
  - split_and!.
    + apply NoDup_app. split_and!; [done| |apply NoDup_singleton].
      intros k Hk ->%list_elem_of_singleton. apply Hdom in Hk as [? ?]. congruence.
    + intros k. rewrite elem_of_app, list_elem_of_singleton, Hdom, lookup_insert.
      case_decide as Hk; subst; [split; eauto|].
      split; [intros [?|Heq]; [done|by destruct Hk]|by left].
    + intros k. rewrite lookup_insert, Hg. case_decide as Hk; subst; [|apply Hb].
      rewrite Hb in Hc. case_decide as Hn; [|done]. by rewrite Hn.
Qed.

(** What a completed write loop leaves in the table. *)
Lemma write_buckets_ok keys b w w' :
  write_buckets keys b w = (Ok (), w') →
  w_db w' = set_hourly (λ _, hourly (w_db w')) (w_db w) ∧
  ∀ k, hourly (w_db w') !! k =
    if decide (k ∈ keys) then b !! k ≫= hourly_row else hourly (w_db w) !! k.
Proof.
  revert w. induction keys as [|k keys IH]; intros w; simpl.
  { unfold ret. intros; simplify_eq. split; [by destruct (w_db w')|].
    by intros k. }
  unfold bind, panics, ret, throw.
  destruct (b !! k ≫= hourly_row) as [row|] eqn:Hrow; [|done].
  unfold replace_hourly, stmt. pose proof (tick_db w) as Ht. destruct (tick w) as [f w1].
  simpl in Ht. destruct f; [done|]. rewrite Ht.
  destruct (targets (w_db w) !! k.1) eqn:Htg; [|done].
  intros Hw. apply IH in Hw as [Hdb Hk]. simpl in *. split; [done|].
  intros j. rewrite Hk. destruct (decide (j ∈ keys)) as [Hj|Hj].
  - rewrite decide_True by (by right). done.
  - rewrite lookup_insert. destruct (decide (k = j)) as [<-|Hne].
    + by rewrite decide_True by left.
    + rewrite decide_False; [done|]. by intros [->|?]%elem_of_cons.
Qed.

Lemma window_groups from cur k (m : gmap Z CheckRow) :
  group check_key k (window from cur m) ≡ₚ
  (rows (λ r, from ≤ ck_at r.2 < cur ∧ check_key r.2 = k) m).*2.
Proof.
  unfold window. rewrite group_fmap. unfold rows. rewrite order_by_Permutation.
  apply fmap_Permutation.
  apply NoDup_Permutation.
  - apply list.NoDup_filter, NoDup_map_to_list.
  - apply NoDup_map_to_list.
  - intros [i c]. rewrite list_elem_of_filter, !elem_of_map_to_list, !map_lookup_filter_Some.
    simpl. tauto.
Qed.

(** Hours as multiples of 3600. *)
Lemma bucket_nonneg a : 0 ≤ a → bucket a = 3600 * (a / 3600) ∧ 0 ≤ a - bucket a < 3600.
Proof.
  intros Ha. unfold bucket, hour. rewrite Z.rem_mod_nonneg by lia.
  pose proof (Z.div_mod a 3600 ltac:(lia)). pose proof (Z.mod_pos_bound a 3600 ltac:(lia)). lia.
Qed.

Lemma rem_hour_0 a : Z.rem a hour = 0 → ∃ q, a = 3600 * q.
Proof. intros H. exists (Z.quot a 3600). pose proof (Z.quot_rem' a 3600). unfold hour in H. lia. Qed.

Lemma bucket_pos a : 0 < bucket a → 0 < a.
Proof.
  unfold bucket, hour. intros H. destruct (decide (0 < a)); [done|].
  pose proof (Z.rem_opp_l a 3600 ltac:(lia)).
  pose proof (Z.rem_mod_nonneg (- a) 3600 ltac:(lia) ltac:(lia)).
  pose proof (Z.div_mod (- a) 3600 ltac:(lia)).
  pose proof (Z.div_pos (- a) 3600 ltac:(lia) ltac:(lia)). lia.
Qed.

Lemma bucket_window a from cur :
  0 < from → Z.rem from hour = 0 → Z.rem cur hour = 0 →
  (from ≤ bucket a < cur ↔ from ≤ a < cur).
Proof.
  intros H0 [p ->]%rem_hour_0 [q ->]%rem_hour_0.
  split; intros Hk.
  - pose proof (bucket_pos a ltac:(lia)). pose proof (bucket_nonneg a ltac:(lia)). lia.
  - pose proof (bucket_nonneg a ltac:(lia)). lia.
Qed.

(** For buckets inside the window the window's condition says nothing. *)
Lemma window_bucket from cur k (m : gmap Z CheckRow) :
  0 < from → Z.rem from hour = 0 → Z.rem cur hour = 0 → from ≤ k.2 < cur →
  rows (λ r, from ≤ ck_at r.2 < cur ∧ check_key r.2 = k) m =
  rows (λ r, check_key r.2 = k) m.
Proof.
  intros H0 Hf Hc Hk. unfold rows. f_equal. apply map_filter_ext.
  intros i c _. simpl. split; [tauto|]. intros <-. split; [|done].
  by apply (bucket_window (ck_at c) from cur).
Qed.

(** The table [Rollup] aims for. *)
Definition rolled_up (cur : Z) (m : gmap Z CheckRow) (old : gmap (Z * Z) HourlyRow)
    (k : Z * Z) : option HourlyRow :=
  if decide (cur - 2 * hour ≤ k.2 < cur) then
    match summary (bucket_checks k m) with Some row => Some row | None => old !! k end
  else old !! k.

Lemma bucket_rem a : Z.rem (bucket a) hour = 0.
Proof.
  unfold bucket, hour. pose proof (Z.quot_rem' a 3600).
  replace (a - Z.rem a 3600) with (Z.quot a 3600 * 3600) by lia.
  by apply Z.rem_mul.
Qed.

Lemma hourStart_rem now : Z.rem (hourStart now) hour = 0.
Proof. apply bucket_rem. Qed.

Lemma hourStart_bounds now :
  0 ≤ Unix now → hourStart now ≤ Unix now < hourStart now + 3600 ∧ 0 ≤ hourStart now.
Proof.
  intros H. change (hourStart now) with (bucket (Unix now)).
  pose proof (bucket_nonneg _ H). pose proof (Z.div_pos (Unix now) 3600 H ltac:(lia)). lia.
Qed.

Lemma rem_sub_hours a n : Z.rem a hour = 0 → Z.rem (a - n * hour) hour = 0.
Proof.
  unfold hour. intros H. pose proof (Z.quot_rem' a 3600).
  replace (a - n * 3600) with ((Z.quot a 3600 - n) * 3600) by lia. by apply Z.rem_mul.
Qed.

Lemma fmap_nil_iff {A B} (f : A → B) l : f <$> l = [] ↔ l = [].
Proof. split; [apply fmap_nil_inv|by intros ->]. Qed.

(** The groups of the selected checks are the buckets of the window. *)
Lemma window_group_buckets cur k (m : gmap Z CheckRow) :
  2 * hour < cur → Z.rem cur hour = 0 →
  group check_key k (window (cur - 2 * hour) cur m) ≡ₚ
  if decide (cur - 2 * hour ≤ k.2 < cur) then bucket_checks k m else [].
Proof.
  intros Hpos Hrem. pose proof (rem_sub_hours cur 2 Hrem) as Hrem'.
  rewrite window_groups. case_decide as Hk.
  - unfold bucket_checks. rewrite window_bucket; [done|unfold hour in *; lia|done..].
  - rewrite rows_nil; [done|]. intros i c _ [Hat <-]. apply Hk. simpl.
    apply (bucket_window (ck_at c) (cur - 2 * hour) cur); [unfold hour in *; lia|done..].
Qed.

Lemma Rollup_ok now w w' :
  3 * hour ≤ Unix now → Rollup now w = (Ok (), w') →
  w_db w' = set_hourly (λ _, hourly (w_db w')) (w_db w) ∧
  ∀ k, hourly (w_db w') !! k =
    rolled_up (hourStart now) (checks (w_db w)) (hourly (w_db w)) k.
Proof.
  intros Hnow Hr. pose proof (hourStart_bounds now ltac:(unfold hour in *; lia)) as Hcur.
  pose proof (hourStart_rem now) as Hrem.
  unfold Rollup in Hr. inv_ok. set (cur := hourStart now) in *.
  rename select (w_db x = w_db w) into Hx. rename select (w_db w' = _) into Hw'.
  rename select (w_db x2 = _) into Hx2.
  rewrite Hx in Hr. set (rs := window (cur - 2 * hour) cur (checks (w_db w))) in *.
  pose proof (collect_spec rs) as (Hnd & Hdom & Hb).
  destruct (foldl collect ([], ∅) rs) as [keys b]; simpl in *.
  apply write_buckets_ok in Hr as [Hdb Hk]. rewrite Hw'. rewrite Hx2, Hx in Hdb, Hk.
  split; [done|]. intros k. rewrite Hk. unfold rolled_up.
  assert (Hlt : 2 * hour < cur) by (unfold hour in *; lia).
  pose proof (window_group_buckets cur k (checks (w_db w)) Hlt Hrem) as Hg.
  fold rs in Hg. destruct (decide (k ∈ keys)) as [Hin|Hin].
  - apply Hdom in Hin as [st Hst]. rewrite Hst. rewrite Hb in Hst. simpl in Hst.
    destruct (decide (group _ _ _ = [])) as [|Hne]; simplify_eq. simpl.
    destruct (decide (cur - 2 * hour ≤ k.2 < cur)); [|by apply Permutation_nil_r in Hg].
    rewrite <-(summary_proper _ _ Hg). unfold summary. rewrite decide_False by done.
    by destruct (hourly_row_total (stats_of (group check_key k rs))) as [row ->].
  - rewrite Hdom, Hb in Hin. simpl in Hin.
    destruct (decide (group _ _ _ = [])) as [Hnil|]; [|by destruct Hin].
    destruct (decide (cur - 2 * hour ≤ k.2 < cur)); [|done].
    by rewrite <-(summary_proper _ _ Hg), Hnil.
Qed.

(** ** [Rollup] keeps the invariant and completes *)

Definition stats_row_ok (k : Z * Z) (st : stats) : Prop :=
  0 ≤ st_ok st ≤ st_total st ∧ 0 < st_total st ∧ Z.rem k.2 hour = 0.

Lemma collect_rows_ok l k st :
  (foldl collect ([], ∅) l).2 !! k = Some st → stats_row_ok k st.
Proof.
  pose proof (collect_spec l) as (_ & _ & ->). simpl. case_decide as Hne; [done|].
  intros; simplify_eq. destruct (group check_key k l) as [|c g] eqn:Hg; [done|].
  pose proof (stats_of_spec (c :: g)) as (Ht & Ho & _). pose proof (count_bounds ck_ok (c :: g)).
  split_and!; [lia..|simpl in *; lia|].
  assert (c ∈ group check_key k l) as [<- _]%elem_of_group by (rewrite Hg; left).
  apply bucket_rem.
Qed.

Lemma keeps_replace_hourly k row : hour_row_ok k row → keeps Wf (replace_hourly k row).
Proof.
  intros Hrow. apply keeps_stmt. intros db u db' Hwf. case_match eqn:Ht; intros; simplify_eq.
  apply Wf_set_hourly; [|done]. intros j h. rewrite lookup_insert. case_decide; intros; simplify_eq.
  - by rewrite Ht.
  - split; [by eapply (wf_fk _ Hwf)|by apply (wf_hourly _ Hwf)].
Qed.

Lemma keeps_write_buckets (keys : list (Z * Z)) (b : gmap (Z * Z) stats) :
  (∀ k st, b !! k = Some st → stats_row_ok k st) → keeps Wf (write_buckets keys b).
Proof.
  intros Hb. induction keys as [|k keys IH]; simpl; [apply keeps_ret|].
  apply keeps_bind_panics. intros row Hrow. apply keeps_bind; [|done].
  destruct (b !! k) as [st|] eqn:Hk; [|done]. simpl in Hrow.
  apply hourly_row_fields in Hrow as [? ?]. apply Hb in Hk as (? & ? & ?).
  apply keeps_replace_hourly. unfold hour_row_ok. unfold hour in *. split_and!; [lia..|done].
Qed.

Lemma keeps_Rollup now : keeps Wf (Rollup now).
Proof.
  apply keeps_tx, keeps_bind; [apply keeps_query|]. intros rs.
  pose proof (collect_rows_ok rs) as Hrows.
  destruct (foldl collect ([], ∅) rs) as [keys b]. by apply keeps_write_buckets.
Qed.

#[export] Hint Resolve keeps_Rollup : sql.

Lemma write_buckets_quiet (keys : list (Z * Z)) (b : gmap (Z * Z) stats) db :
  (∀ k, k ∈ keys → is_Some (b !! k) ∧ is_Some (targets db !! k.1)) →
  ∃ db', write_buckets keys b (quiet db) = (Ok (), quiet db').
Proof.
  revert db. induction keys as [|k keys IH]; intros db Hk; simpl; [by exists db|].
  destruct (Hk k) as [[st Hst] [t Ht]]; [by left|].
  rewrite bind_quiet, Hst. simpl. destruct (hourly_row_total st) as [row ->]. simpl.
  unfold replace_hourly. rewrite bind_quiet, stmt_quiet, Ht. apply IH.
  intros j Hj. by apply Hk; right.
Qed.

(** Without a failing statement the aggregation completes. *)
Lemma Rollup_quiet now db :
  Wf db → ∃ db', Rollup now (quiet db) = (Ok (), quiet db').
Proof.
  intros Hwf. unfold Rollup, tx. simpl. change (mkWorld db []) with (quiet db).
  rewrite bind_quiet, query_quiet. set (rs := window _ _ _).
  pose proof (collect_spec rs) as (_ & Hdom & Hb).
  destruct (foldl collect ([], ∅) rs) as [keys b]; simpl in *.
  destruct (write_buckets_quiet keys b db) as [db' ->]; [|by exists db'].
  intros k Hk. apply Hdom in Hk. split; [done|]. destruct Hk as [st Hst].
  rewrite Hb in Hst. destruct (group check_key k rs) as [|c g] eqn:Hg; [done|].
  assert (c ∈ group check_key k rs) as [<- Hc]%elem_of_group by (rewrite Hg; left).
  unfold rs, window in Hc. apply list_elem_of_fmap in Hc as ([i c'] & -> & Hc).
  rewrite elem_of_order_by, elem_of_rows in Hc. destruct Hc as [Hc _].
  by apply (wf_fk _ Hwf) in Hc.
Qed.

(** No index of the aggregation is out of range, whatever the table holds. *)
Lemma Rollup_no_panic now w : (Rollup now w).1 ≠ Err ErrPanic.
Proof.
  assert (Hw : ∀ keys b w, (∀ k, k ∈ keys → is_Some (b !! k)) →
    (write_buckets keys b w).1 ≠ Err ErrPanic).
  { clear. induction keys as [|k keys IH]; intros b w Hk; simpl; [done|].
    destruct (Hk k) as [st Hst]; [left|]. rewrite Hst. simpl.
    destruct (hourly_row_total st) as [row ->].
    unfold bind, panics, ret, replace_hourly, stmt. destruct (tick w) as [[] w1]; [done|].
    destruct (targets (w_db w1) !! k.1); [|done]. apply IH. intros j Hj. apply Hk. by right. }
  unfold Rollup, tx. destruct (tick w) as [[] w1]; [done|]. unfold bind, query, stmt.
  destruct (tick w1) as [[] w2]; [done|]. simpl.
  pose proof (collect_spec (window (hourStart now - 2 * hour) (hourStart now) (checks (w_db w2))))
    as (_ & Hdom & _).
  destruct (foldl collect ([], ∅) _) as [keys b]. simpl in *.
  specialize (Hw keys b (mkWorld (w_db w2) (w_faults w2)) (λ k Hk, proj1 (Hdom k) Hk)).
  destruct (write_buckets keys b _) as [[[]|e] w3]; [|exact Hw].
  by destruct (tick w3) as [[] w4].
Qed.

(** ** Uptime *)

(** The raw checks of a target from [lo] on, and their counters. *)
Definition raw_since (id lo : Z) (m : gmap Z CheckRow) : list CheckRow :=
  (rows (λ r, ck_target r.2 = id ∧ lo ≤ ck_at r.2) m).*2.

Definition raw_counts (id lo : Z) (m : gmap Z CheckRow) : Z * Z :=
  (count ck_ok (raw_since id lo m), Z.of_nat (length (raw_since id lo m))).

(** Between [lo] and [cur] the hourly rows are the aggregates of the checks. *)
Definition rolled (id lo cur : Z) (db : Db) : Prop :=
  ∀ h, lo ≤ h < cur → Z.rem h hour = 0 →
    hourly db !! (id, h) = summary (bucket_checks (id, h) (checks db)).

Lemma length_sum {A} (l : list A) : Z.of_nat (length l) = sum_with (λ _, 1) l.
Proof. induction l; simpl; lia. Qed.

Lemma hour_range_keys id lo cur m : NoDup ((hour_range id lo cur m).*1).
Proof. apply NoDup_fst_map_to_list. Qed.

Lemma elem_of_hour_range id lo cur m k h :
  (k, h) ∈ hour_range id lo cur m ↔ m !! k = Some h ∧ k.1 = id ∧ lo ≤ k.2 < cur.
Proof.
  unfold hour_range. rewrite elem_of_map_to_list, map_lookup_filter_Some. simpl.
  split; intros; destruct_and!; split_and!; done || lia.
Qed.

Lemma sum_since_range id lo0 lo cur v m :
  lo0 ≤ lo → sum_since lo v (hour_range id lo0 cur m) =
  sum_with (λ r, v r.2) (hour_range id lo cur m).
Proof.
  intros Hlo. unfold sum_since.
  assert (Hp : hour_range id lo cur m ≡ₚ filter (λ r, lo ≤ r.1.2) (hour_range id lo0 cur m)).
  { apply NoDup_Permutation.
    - apply NoDup_map_to_list.
    - apply list.NoDup_filter, NoDup_map_to_list.
    - intros [k h]. rewrite list_elem_of_filter, !elem_of_hour_range. simpl.
      split; intros; destruct_and!; split_and!; done || lia. }
  rewrite (sum_with_Permutation _ _ _ Hp). clear Hp.
  induction (hour_range id lo0 cur m) as [|[k h] l IH]; [done|].
  rewrite filter_cons. simpl. rewrite IH. by case_decide.
Qed.

(** Adding a measure up over the hourly rows is adding it up over the checks. *)
Lemma sum_hours (w : CheckRow → Z) (v : HourlyRow → Z) id lo cur db :
  Wf db → 0 < lo → Z.rem lo hour = 0 → Z.rem cur hour = 0 → rolled id lo cur db →
  (∀ l row, summary l = Some row → v row = sum_with w l) →
  sum_with (λ r, v r.2) (hour_range id lo cur (hourly db)) =
  sum_with w (rows (λ r, ck_target r.2 = id ∧ lo ≤ ck_at r.2 < cur) (checks db)).*2.
Proof.
  intros Hwf Hlo Hlor Hcur Hr Hv. set (l := (rows _ (checks db)).*2).
  rewrite <-(sum_groups check_key w _ l (hour_range_keys id lo cur (hourly db))).
  - rewrite sum_with_fmap. apply sum_with_ext. intros [k h] Hk%elem_of_hour_range. simpl.
    destruct Hk as (Hk & Hid & Hrange).
    assert (Hk' : hourly db !! k = summary (bucket_checks k (checks db))).
    { destruct k as [i h']; simpl in *; subst. apply Hr; [done|].
      by apply (wf_hourly _ Hwf) in Hk as (_ & _ & ?). }
    rewrite Hk in Hk'. rewrite (Hv _ _ (eq_sym Hk')). apply sum_with_Permutation.
    unfold l, bucket_checks. rewrite group_fmap. apply fmap_Permutation.
    apply NoDup_Permutation; [apply rows_NoDup_rows|apply list.NoDup_filter, rows_NoDup_rows|].
    intros [i c]. rewrite list_elem_of_filter, !elem_of_rows. simpl.
    split; [|tauto]. intros [Hi <-]. simpl in *.
    pose proof (proj1 (bucket_window (ck_at c) lo cur Hlo Hlor Hcur) Hrange). done.
  - intros c Hc. unfold l in Hc. apply list_elem_of_fmap in Hc as ([i c'] & -> & Hc). simpl.
    apply elem_of_rows in Hc as [Hi [Ht Hat]]. simpl in *.
    assert (Hb : lo ≤ bucket (ck_at c') < cur) by by apply (bucket_window (ck_at c') lo cur).
    destruct (summary_nonempty (bucket_checks (check_key c') (checks db))) as [row Hrow].
    { intros Hnil. assert (c' ∈ bucket_checks (check_key c') (checks db)) as Hin.
      { apply list_elem_of_fmap. exists (i, c'). split; [done|]. by apply elem_of_rows. }
      rewrite Hnil in Hin. by apply not_elem_of_nil in Hin. }
    apply list_elem_of_fmap. exists (check_key c', row). split; [done|].
    apply elem_of_hour_range. split; [|by split].
    rewrite <-Hrow. unfold check_key. rewrite Ht. apply Hr; [done|]. apply bucket_rem.
Qed.

Lemma raw_since_split id lo cur m :
  lo ≤ cur → raw_since id lo m ≡ₚ
    (rows (λ r, ck_target r.2 = id ∧ lo ≤ ck_at r.2 < cur) m).*2 ++ raw_since id cur m.
Proof.
  intros Hlo. unfold raw_since. rewrite <-fmap_app. apply fmap_Permutation, rows_split.
  - intros [k c]; simpl. lia.
  - intros [k c]; simpl. lia.
Qed.

Lemma span_counts id lo cur db :
  Wf db → 0 < lo ≤ cur → Z.rem lo hour = 0 → Z.rem cur hour = 0 → rolled id lo cur db →
  let l := hour_range id lo cur (hourly db) in
  (sum_with (λ r, h_ok r.2) l + (raw_counts id cur (checks db)).1,
   sum_with (λ r, h_total r.2) l + (raw_counts id cur (checks db)).2) =
  raw_counts id lo (checks db).
Proof.
  intros Hwf Hlo Hlor Hcur Hr. simpl. unfold raw_counts; simpl.
  pose proof (raw_since_split id lo cur (checks db) ltac:(lia)) as Hp.
  rewrite (count_Permutation _ _ _ Hp), (Permutation_length Hp), count_app, length_app,
    Nat2Z.inj_add. f_equal; f_equal.
  - apply sum_hours; try done; [lia|]. intros l row Hrow. by apply summary_row in Hrow as (_ & ? & _).
  - rewrite (length_sum (_.*2)). apply sum_hours; try done; [lia|].
    intros l row Hrow. rewrite <-length_sum. by apply summary_row in Hrow as (? & _).
Qed.

Lemma rolled_mono id lo lo' cur db : lo ≤ lo' → rolled id lo cur db → rolled id lo' cur db.
Proof. intros ? Hr h ? ?. apply Hr; [lia|done]. Qed.

(** C24: when the hourly rows of the last 30 days aggregate
    the stored checks, the counters behind the three uptime figures are the
    number of successful checks and of all checks from 23, 167 and 719 hours
    before the running hour until now: nothing is counted twice or lost at the
    border between the hourly table and the raw checks. *)
Theorem uptime_counts_raw now id db :
  Wf db → 721 * hour ≤ Unix now → rolled id (hourStart now - 719 * hour) (hourStart now) db →
  let cur := hourStart now in
  uptime_counts now id (quiet db) =
  (Ok (raw_counts id (cur - 23 * hour) (checks db), raw_counts id (cur - 167 * hour) (checks db),
       raw_counts id (cur - 719 * hour) (checks db)), quiet db).
Proof.
  intros Hwf Hnow Hr. pose proof (hourStart_rem now) as Hrem.
  pose proof (hourStart_bounds now ltac:(unfold hour in *; lia)).
  set (cur := hourStart now) in *. unfold hour in *. simpl.
  unfold uptime_counts. rewrite bind_quiet, query_quiet.
  unfold rawHour. rewrite bind_quiet, query_quiet. unfold ret. fold cur. unfold hour.
  rewrite !sum_since_range by lia. do 2 f_equal. simpl.
  rewrite <-(span_counts id (cur - 23 * 3600) cur), <-(span_counts id (cur - 167 * 3600) cur),
    <-(span_counts id (cur - 719 * 3600) cur); try done; try lia;
    try (by apply rem_sub_hours); (eapply rolled_mono; [|exact Hr]); lia.
Qed.

(** ** Hours *)

Definition cell_index (first : Z) (k : Z * Z) : Z := Z.quot (k.2 - first) hour.

Lemma set_cell_ok cells i total ok c :
  0 ≤ i → cells !! Z.to_nat i = Some c →
  set_cell cells i total ok = Some (<[Z.to_nat i := mkHour (hr_Start c) total ok]> cells).
Proof. intros Hi Hc. unfold set_cell. rewrite decide_False by lia. by rewrite Hc. Qed.

(** With all indices in range and distinct, every row lands in its cell and
    the other cells stay. *)
Lemma fill_cells_ok first l : ∀ cells,
  (∀ r, r ∈ l → 0 ≤ cell_index first r.1 < Z.of_nat (length cells)) →
  NoDup ((λ r, cell_index first r.1) <$> l) →
  ∃ cells', fill_cells first cells l = Some cells' ∧
    (hr_Start <$> cells') = (hr_Start <$> cells) ∧
    ∀ i c', cells' !! i = Some c' →
      (∃ r, r ∈ l ∧ cell_index first r.1 = Z.of_nat i ∧
            hr_Total c' = h_total r.2 ∧ hr_OK c' = h_ok r.2) ∨
      ((∀ r, r ∈ l → cell_index first r.1 ≠ Z.of_nat i) ∧ cells !! i = Some c').
Proof.
  induction l as [|[k h] l IH]; intros cells Hin Hnd; simpl.
  { exists cells. split_and!; [done..|]. intros i c' Hc'. right.
    split; [|done]. by intros r ?%not_elem_of_nil. }
  apply NoDup_cons in Hnd as [Hk Hnd].
  destruct (Hin (k, h)) as [Hlo Hhi]; [by left|]. simpl in *. fold (cell_index first k).
  destruct (lookup_lt_is_Some_2 cells (Z.to_nat (cell_index first k))) as [c Hc]; [lia|].
  rewrite (set_cell_ok _ _ _ _ _ Hlo Hc). simpl.
  destruct (IH (<[Z.to_nat (cell_index first k) := mkHour (hr_Start c) (h_total h) (h_ok h)]> cells))
    as (cells' & Hfill & Hstart & Hcells); [|done|].
  { intros r Hr. rewrite length_insert. apply Hin. by right. }
  exists cells'. split_and!; [done| |].
  - rewrite Hstart, list_fmap_insert. simpl. apply list_insert_id.
    by rewrite list_lookup_fmap, Hc.
  - intros i c' Hc'. destruct (Hcells i c' Hc') as [(r & Hr & ? & ? & ?)|[Hno Hi]].
    + left. exists r. split; [by right|done].
    + destruct (decide (Z.to_nat (cell_index first k) = i)) as [<-|Hne].
      * left. exists (k, h). split; [left|]. simpl.
        rewrite list_lookup_insert_eq in Hi by by apply lookup_lt_Some in Hc. simplify_eq/=.
        split_and!; [lia|done..].
      * right. rewrite list_lookup_insert_ne in Hi by done. split; [|done].
        intros r [->|Hr]%elem_of_cons; simpl; [lia|by apply Hno].
Qed.

(** What cell [i] of [Hours] shows for a full hour. *)
Definition hour_cell (id first : Z) (m : gmap (Z * Z) HourlyRow) (i : Z) : HourT :=
  let start := first + i * hour in
  match m !! (id, start) with
  | Some h => mkHour (fromUnix start) (h_total h) (h_ok h)
  | None => mkHour (fromUnix start) 0 0
  end.

Lemma cell_index_aligned first k :
  Z.rem first hour = 0 → Z.rem k.2 hour = 0 → k.2 = first + cell_index first k * hour.
Proof.
  unfold cell_index. intros [p ->]%rem_hour_0 [q Hq]%rem_hour_0. rewrite Hq. unfold hour.
  replace (3600 * q - 3600 * p) with ((q - p) * 3600) by lia. rewrite Z.quot_mul by lia. lia.
Qed.

Lemma new_cells_lookup first n cells i c :
  new_cells first n = Some cells → cells !! i = Some c →
  c = mkHour (fromUnix (first + Z.of_nat i * hour)) 0 0 ∧ Z.of_nat i < n.
Proof.
  unfold new_cells. case_decide; [done|]. intros; simplify_eq.
  apply list_lookup_fmap_Some in H1 as (j & -> & Hj). apply lookup_seq in Hj as [-> ?].
  split; [done|lia].
Qed.

Lemma fill_hours id n cur db :
  Wf db → 1 ≤ n → Z.rem cur hour = 0 →
  let first := cur - (n - 1) * hour in
  ∃ cells cells', new_cells first n = Some cells ∧
    fill_cells first cells (hour_range id first cur (hourly db)) = Some cells' ∧
    length cells' = Z.to_nat n ∧ (hr_Start <$> cells') = (hr_Start <$> cells) ∧
    ∀ i, 0 ≤ i < n - 1 → cells' !! Z.to_nat i = Some (hour_cell id first (hourly db) i).
Proof.
  intros Hwf Hn Hcur first. pose proof (rem_sub_hours cur (n - 1) Hcur) as Hfirst. fold first in Hfirst.
  assert (Hrow : ∀ r, r ∈ hour_range id first cur (hourly db) →
    r.1 = (id, first + cell_index first r.1 * hour) ∧ 0 ≤ cell_index first r.1 < n - 1).
  { intros [k h] (Hk & Hid & Hr)%elem_of_hour_range. simpl.
    apply (wf_hourly _ Hwf) in Hk as (_ & _ & Hal).
    pose proof (cell_index_aligned first k Hfirst Hal) as Hix.
    split; [destruct k; simpl in *; congruence|].
    unfold first, hour in *. lia. }
  destruct (new_cells first n) as [cells|] eqn:Hnew.
  2:{ unfold new_cells in Hnew. by rewrite decide_False in Hnew by lia. }
  assert (Hlen : length cells = Z.to_nat n).
  { unfold new_cells in Hnew. rewrite decide_False in Hnew by lia. simplify_eq.
    by rewrite length_fmap, length_seq. }
  destruct (fill_cells_ok first (hour_range id first cur (hourly db)) cells)
    as (cells' & Hfill & Hstart & Hcells).
  { intros r Hr%Hrow. lia. }
  { apply NoDup_fmap_2_strong; [|apply NoDup_map_to_list].
    intros [k1 h1] [k2 h2] H1 H2 He. pose proof (Hrow _ H1) as [E1 _].
    pose proof (Hrow _ H2) as [E2 _]. simpl in *. rewrite He in E1. rewrite <-E2 in E1. subst.
    apply elem_of_hour_range in H1 as [H1 _]. apply elem_of_hour_range in H2 as [H2 _]. congruence. }
  exists cells, cells'. split_and!; try done.
  { rewrite <-Hlen, <-(length_fmap hr_Start), Hstart. by rewrite length_fmap. }
  intros i Hi. destruct (lookup_lt_is_Some_2 cells' (Z.to_nat i)) as [c Hc].
  { rewrite <-(length_fmap hr_Start), Hstart, length_fmap. lia. }
  rewrite Hc. f_equal. unfold hour_cell.
  assert (Hs : hr_Start c = fromUnix (first + i * hour)).
  { assert (Hc' : (hr_Start <$> cells') !! Z.to_nat i = Some (hr_Start c)).
    { by rewrite list_lookup_fmap, Hc. }
    rewrite Hstart, list_lookup_fmap in Hc'. apply fmap_Some in Hc' as (c0 & Hc0 & ->).
    destruct (new_cells_lookup _ _ _ _ _ Hnew Hc0) as [-> _]. simpl. by rewrite Z2Nat.id by lia. }
  destruct (Hcells _ _ Hc) as [([k h] & Hr & Hix & Ht & Ho)|[Hno Hc0]].
  - pose proof (Hrow _ Hr) as [Hk _]. apply elem_of_hour_range in Hr as [Hr _]. simpl in *.
    rewrite Hix, Z2Nat.id in Hk by lia. rewrite <-Hk, Hr. destruct c; simpl in *. congruence.
  - destruct (hourly db !! (id, first + i * hour)) as [h|] eqn:Hh.
    + exfalso. apply (Hno (id, first + i * hour, h)).
      * apply elem_of_hour_range. split; [done|]. unfold first, hour in *; simpl. lia.
      * unfold cell_index. simpl. replace (first + i * hour - first) with (i * hour) by lia.
        rewrite Z.quot_mul by done. lia.
    + destruct (new_cells_lookup _ _ _ _ _ Hnew Hc0) as [-> _]. by rewrite Z2Nat.id by lia.
Qed.

(** For a positive number of cells [Hours] never indexes out of
    range; it returns one cell per hour up to the running one, each full hour
    showing its hourly row (zero without one) and the last cell the raw checks
    of the running hour. *)
Theorem hours_cells now id n db :
  Wf db → 1 ≤ n →
  let cur := hourStart now in
  let first := cur - (n - 1) * hour in
  ∃ cells, Hours now id n (quiet db) = (Ok cells, quiet db) ∧
    length cells = Z.to_nat n ∧
    (∀ i, 0 ≤ i < n - 1 → cells !! Z.to_nat i = Some (hour_cell id first (hourly db) i)) ∧
    cells !! Z.to_nat (n - 1) =
      Some (mkHour (fromUnix cur) (raw_counts id cur (checks db)).2 (raw_counts id cur (checks db)).1).
Proof.
  intros Hwf Hn cur first. pose proof (hourStart_rem now) as Hrem.
  destruct (fill_hours id n cur db Hwf Hn Hrem) as (cells & cells' & Hnew & Hfill & Hlen & Hst & Hc).
  fold first in Hnew, Hfill, Hst, Hc.
  unfold Hours. fold cur first. rewrite Hnew. simpl. rewrite bind_quiet. simpl.
  rewrite bind_quiet, query_quiet, Hfill. simpl. rewrite bind_quiet. simpl.
  rewrite decide_False by lia. rewrite bind_quiet. simpl.
  unfold rawHour. rewrite bind_quiet, query_quiet.
  destruct (lookup_lt_is_Some_2 cells' (Z.to_nat (n - 1))) as [c Hlast]; [lia|].
  rewrite (set_cell_ok _ _ _ _ c) by (done || lia).
  eexists. split; [done|]. rewrite length_insert. split; [done|]. split.
  - intros i Hi. rewrite list_lookup_insert_ne by lia. by apply Hc.
  - rewrite list_lookup_insert_eq by lia. do 2 f_equal.
    assert (Hs : (hr_Start <$> cells') !! Z.to_nat (n - 1) = Some (hr_Start c)).
    { by rewrite list_lookup_fmap, Hlast. }
    rewrite Hst, list_lookup_fmap in Hs. apply fmap_Some in Hs as (c0 & Hc0 & ->).
    destruct (new_cells_lookup _ _ _ _ _ Hnew Hc0) as [-> _]. simpl.
    rewrite Z2Nat.id by lia. f_equal. unfold first, hour. lia.
Qed.

(** ** Latency *)

Lemma slot_mono a b : 0 ≤ a ≤ b → slot a ≤ slot b.
Proof.
  intros H. unfold slot, step. rewrite !Z.rem_mod_nonneg by lia.
  pose proof (Z.div_mod a 600 ltac:(lia)). pose proof (Z.div_mod b 600 ltac:(lia)).
  pose proof (Z.div_le_mono a b 600 ltac:(lia) ltac:(lia)). lia.
Qed.

Lemma slot_nonneg a : 0 ≤ a → 0 ≤ slot a.
Proof.
  intros H. unfold slot, step. rewrite Z.rem_mod_nonneg by lia.
  pose proof (Z.mod_le a 600 H ltac:(lia)). lia.
Qed.

(** The latencies of the rows in one slot. *)
Definition slot_lats (b : Z) (l : list (Z * Z)) : list Z :=
  (group (λ r, slot r.1) b l).*2.

(** The point drawn for a slot. *)
Definition slot_point (b : Z) (l : list (Z * Z)) (p : Point) : Prop :=
  slot_lats b l ≠ [] ∧ p_At p = fromUnix b ∧
  stats_latency (mkStats 0 0 (slot_lats b l)) = Some (p_Avg p, p_P95 p, p_Max p).

Lemma slot_lats_snoc b l r :
  slot_lats b (l ++ [r]) = if decide (slot r.1 = b) then slot_lats b l ++ [r.2] else slot_lats b l.
Proof.
  unfold slot_lats. rewrite group_app, group_cons, group_nil, fmap_app.
  case_decide; csimpl; by rewrite ?app_nil_r.
Qed.

Lemma lat_loop_snoc s l r :
  lat_loop s (l ++ [r]) = s' ← lat_loop s l; lat_step s' r.
Proof.
  revert s. induction l as [|r' l IH]; intros s; simpl.
  - by destruct (lat_step s r).
  - destruct (lat_step s r'); simpl; [apply IH|done].
Qed.

(** The state of the loop after the rows [l]. *)
Definition lat_inv (l : list (Z * Z)) (s : lat_state) : Prop :=
  st_lat (l_st s) = slot_lats (l_bucket s) l ∧
  StronglySorted (λ p q, p_At p < p_At q) (l_out s) ∧
  (∀ r, r ∈ l → slot r.1 ≤ l_bucket s) ∧
  (l ≠ [] → slot_lats (l_bucket s) l ≠ [] ∧ 0 ≤ l_bucket s) ∧
  (l = [] → l_bucket s = -1) ∧
  (∀ p, p ∈ l_out s ↔ ∃ b, b < l_bucket s ∧ slot_point b l p).

Lemma slot_lats_in b l : slot_lats b l ≠ [] ↔ ∃ r, r ∈ l ∧ slot r.1 = b.
Proof.
  unfold slot_lats. rewrite fmap_nil_iff. split.
  - destruct (group (λ r, slot r.1) b l) as [|r g] eqn:Hg; [done|]. exists r.
    assert (r ∈ group (λ r, slot r.1) b l) as [? ?]%elem_of_group by (rewrite Hg; left). done.
  - intros (r & Hr & <-) Hg. assert (r ∈ group (λ r, slot r.1) (slot r.1) l) as Hin by by apply elem_of_group.
    rewrite Hg in Hin. by apply not_elem_of_nil in Hin.
Qed.

Lemma slot_point_in b l p : slot_point b l p → ∃ r, r ∈ l ∧ slot r.1 = b.
Proof. intros [Hne _]. by apply slot_lats_in. Qed.

Lemma slot_point_snoc b l r p : slot r.1 ≠ b → slot_point b (l ++ [r]) p ↔ slot_point b l p.
Proof. intros Hne. unfold slot_point. by rewrite slot_lats_snoc, decide_False. Qed.

(** Closing the open slot completes the points of the rows read so far. *)
Lemma lat_flushed l s :
  lat_inv l s →
  ∃ s1, (if decide (0 ≤ l_bucket s) then flush s else Some s) = Some s1 ∧
    st_lat (l_st s1) = [] ∧ StronglySorted (λ p q, p_At p < p_At q) (l_out s1) ∧
    ∀ p, p ∈ l_out s1 ↔ ∃ b, slot_point b l p.
Proof.
  intros (Hst & Hs & Hb & Hne & Hnil & Hout).
  destruct (decide (l = [])) as [Hl|Hl].
  { rewrite decide_False by (rewrite Hnil by done; lia). exists s. subst.
    split_and!; try done. intros p. rewrite Hout.
    split; intros (b & Hp); exists b; try tauto.
    by destruct (slot_point_in _ _ _ Hp) as (r & ?%not_elem_of_nil & _). }
  destruct (Hne Hl) as [Hne' H0]. rewrite decide_True by done. unfold flush.
  rewrite (stats_latency_proper _ (mkStats 0 0 (slot_lats (l_bucket s) l))) by by rewrite Hst.
  destruct (stats_latency_total (mkStats 0 0 (slot_lats (l_bucket s) l))) as [[[avg p95] mx] Hlat].
  rewrite Hlat. simpl. eexists. split; [done|]. simpl. split; [done|]. split.
  - apply StronglySorted_app. split_and!; [|done|repeat constructor].
    intros p q Hp ->%list_elem_of_singleton. apply Hout in Hp as (b & Hb' & _ & -> & _).
    simpl. by apply fromUnix_lt.
  - intros p. rewrite elem_of_app, list_elem_of_singleton, Hout. split.
    + intros [(b & ? & ?)| ->]; [by exists b|]. exists (l_bucket s). by split_and!.
    + intros (b & Hp). destruct (slot_point_in _ _ _ Hp) as (r & Hr & <-).
      destruct (decide (slot r.1 = l_bucket s)) as [He|]; [right|left].
      * rewrite He in Hp. destruct Hp as (_ & Hat & Hp). destruct p; simpl in *. congruence.
      * exists (slot r.1). split; [|done]. specialize (Hb r Hr). lia.
Qed.

Lemma lat_step_inv l s r :
  (∀ r', r' ∈ l → r'.1 ≤ r.1) → (∀ r', r' ∈ l ++ [r] → 0 ≤ r'.1) →
  lat_inv l s → ∃ s', lat_step s r = Some s' ∧ lat_inv (l ++ [r]) s'.
Proof.
  intros Hle Hpos Hinv. assert (Hr0 : 0 ≤ r.1) by (apply Hpos, elem_of_app; right; left).
  assert (Hslot : ∀ r', r' ∈ l → slot r'.1 ≤ slot r.1).
  { intros r' Hr'. apply slot_mono. split; [|by apply Hle]. apply Hpos, elem_of_app; by left. }
  assert (Hnew : slot_lats (slot r.1) (l ++ [r]) ≠ []).
  { rewrite slot_lats_snoc, decide_True by done. by intros [_ ?]%app_nil. }
  assert (Hlast : ∀ r', r' ∈ l ++ [r] → slot r'.1 ≤ slot r.1).
  { intros r' [Hr'| ->%list_elem_of_singleton]%elem_of_app; [by apply Hslot|done]. }
  unfold lat_step. destruct (decide (slot r.1 = l_bucket s)) as [Heq|Hne]; simpl.
  - destruct Hinv as (Hst & Hs & Hb & Hn & Hn0 & Hout).
    eexists. split; [done|]. unfold lat_inv; simpl. rewrite <-Heq in *.
    split_and!; try done.
    + by rewrite Hst, slot_lats_snoc, decide_True.
    + intros _. split; [done|]. by apply slot_nonneg.
    + by intros [_ ?]%app_nil.
    + intros p. rewrite Hout. f_equiv. intros b. split; intros [Hb' Hp]; (split; [done|]);
        (rewrite slot_point_snoc in *; [done|lia]).
  - destruct (lat_flushed l s Hinv) as (s1 & -> & Hst & Hs & Hout). simpl.
    destruct Hinv as (_ & _ & Hb & Hn & _ & _).
    assert (Hlt : ∀ r', r' ∈ l → slot r'.1 < slot r.1).
    { intros r' Hr'. pose proof (Hb r' Hr'). assert (l ≠ []) as Hl by (intros ->; by apply not_elem_of_nil in Hr').
      destruct (Hn Hl) as [(r0 & Hr0' & He)%slot_lats_in _].
      specialize (Hslot r0 Hr0'). lia. }
    eexists. split; [done|]. unfold lat_inv; simpl. split_and!; try done.
    + rewrite Hst, slot_lats_snoc, decide_True by done.
      destruct (decide (slot_lats (slot r.1) l = [])) as [->|(r' & Hr' & He)%slot_lats_in]; [done|].
      specialize (Hlt r' Hr'). lia.
    + intros _. split; [done|]. by apply slot_nonneg.
    + by intros [_ ?]%app_nil.
    + intros p. rewrite Hout. f_equiv. intros b. split.
      * intros Hp. pose proof (slot_point_in _ _ _ Hp) as (r' & Hr' & <-).
        specialize (Hlt r' Hr'). rewrite slot_point_snoc by lia. by split.
      * intros [Hb' Hp]. by rewrite slot_point_snoc in Hp by lia.
Qed.

Lemma lat_loop_inv l :
  StronglySorted (λ r r' : Z * Z, r.1 ≤ r'.1) l → (∀ r, r ∈ l → 0 ≤ r.1) →
  ∃ s, lat_loop (mkLat [] (-1) no_stats) l = Some s ∧ lat_inv l s.
Proof.
  induction l as [|r l IH] using rev_ind; intros Hs Hpos.
  { eexists. split; [done|]. unfold lat_inv; simpl. split_and!; try done.
    - constructor.
    - by intros r ?%not_elem_of_nil.
    - intros p. split; [by intros ?%not_elem_of_nil|].
      intros (b & _ & (r & ?%not_elem_of_nil & _)%slot_point_in). done. }
  apply StronglySorted_app in Hs as (Hle & Hs & _).
  destruct IH as (s & Hl & Hinv); [done|intros; apply Hpos, elem_of_app; by left|].
  destruct (lat_step_inv l s r) as (s' & Hstep & Hinv'); [|done..|].
  { intros r' Hr'. apply Hle; [done|left]. }
  exists s'. split; [|done]. by rewrite lat_loop_snoc, Hl.
Qed.

Lemma lat_points_spec l :
  StronglySorted (λ r r' : Z * Z, r.1 ≤ r'.1) l → (∀ r, r ∈ l → 0 ≤ r.1) →
  ∃ ps, lat_points l = Some ps ∧ StronglySorted (λ p q, p_At p < p_At q) ps ∧
    ∀ p, p ∈ ps ↔ ∃ b, slot_point b l p.
Proof.
  intros Hs Hpos. destruct (lat_loop_inv l Hs Hpos) as (s & Hl & Hinv).
  destruct (lat_flushed l s Hinv) as (s1 & Hf & _ & Hsort & Hout).
  exists (l_out s1). split; [|done]. unfold lat_points. rewrite Hl. simpl.
  case_decide; by rewrite ?Hf; simplify_eq/=.
Qed.

Lemma ok_rows_sorted id since m :
  StronglySorted (λ r r' : Z * Z, r.1 ≤ r'.1) (ok_rows id since m).
Proof.
  unfold ok_rows. eapply StronglySorted_fmap; [|apply order_by_sorted].
  intros x y. unfold key_le. simpl. lia.
Qed.

Lemma elem_of_ok_rows id since m r :
  r ∈ ok_rows id since m ↔
  ∃ k c, m !! k = Some c ∧ ck_target c = id ∧ ck_ok c = true ∧ since ≤ ck_at c ∧
         r = (ck_at c, ck_latency c).
Proof.
  unfold ok_rows. rewrite list_elem_of_fmap. split.
  - intros ([k c] & -> & Hin). rewrite elem_of_order_by, elem_of_rows in Hin.
    simpl in *. destruct_and!. eauto 10.
  - intros (k & c & ? & ? & ? & ? & ->). exists (k, c). split; [done|].
    by rewrite elem_of_order_by, elem_of_rows.
Qed.

(** For a span of at most a day [Latency] never indexes out
    of range; its points have strictly increasing times, and there is exactly
    one for every ten-minute slot with a successful check in the span, holding
    the average, 95th percentile and maximum of the latencies in the slot. *)
Theorem latency_points now id span db :
  0 ≤ Unix (Add now (- span)) → span ≤ 24 * Hour →
  let l := ok_rows id (Unix (Add now (- span))) (checks db) in
  ∃ ps, Latency now id span (quiet db) = (Ok ps, quiet db) ∧
    StronglySorted (λ p q, p_At p < p_At q) ps ∧
    ∀ p, p ∈ ps ↔ ∃ b, slot_point b l p.
Proof.
  intros Hpos Hspan l. destruct (lat_points_spec l) as (ps & Hps & ?).
  - apply ok_rows_sorted.
  - intros r (k & c & _ & _ & _ & ? & ->)%elem_of_ok_rows. simpl. lia.
  - exists ps. split; [|done]. unfold Latency. rewrite decide_False by lia.
    rewrite bind_quiet, query_quiet. fold l. by rewrite Hps.
Qed.

(** With at least one successful check the three latency
    figures exist (no index is out of range); the average is the truncated
    mean, the maximum bounds every latency and is one of them, and the 95th
    percentile is one of them with at least 95 percent of the latencies at most
    it and fewer than 95 percent below it. *)
Theorem latency_figures st :
  st_lat st ≠ [] →
  let l := st_lat st in
  let n := Z.of_nat (length l) in
  ∃ avg p95 mx, stats_latency st = Some (avg, p95, mx) ∧
    avg = Z.quot (sum_with id l) n ∧ p95 ∈ l ∧ mx ∈ l ∧ (∀ x, x ∈ l → x ≤ mx) ∧
    95 * n ≤ 100 * at_most p95 l ∧ 100 * below p95 l < 95 * n.
Proof.
  intros Hne. destruct (stats_latency_total st) as [[[avg p95] mx] Hst].
  exists avg, p95, mx. split; [done|]. by apply stats_latency_figures.
Qed.

Lemma latency_figures_witness :
  ∃ avg p95 mx, stats_latency (mkStats 4 3 [30; 10; 20]) = Some (avg, p95, mx) ∧
    avg = 20 ∧ p95 ∈ [30; 10; 20] ∧ mx ∈ [30; 10; 20] ∧ (∀ x, x ∈ [30; 10; 20] → x ≤ mx) ∧
    95 * 3 ≤ 100 * at_most p95 [30; 10; 20] ∧ 100 * below p95 [30; 10; 20] < 95 * 3.
Proof. apply (latency_figures (mkStats 4 3 [30; 10; 20])). done. Defined.

(** C7: from three hours after the epoch on, a rollup
    that reports success has put into the hourly table, for each of the two
    full hours before the running one, the reference aggregate of the checks
    stored for that target and hour, has left every other row and table as
    they were, and one that reports an error has changed nothing; whatever
    statements fail. *)
Theorem rollup_refines_summary now w :
  3 * hour ≤ Unix now →
  match Rollup now w with
  | (Ok _, w') =>
      w_db w' = set_hourly (λ _, hourly (w_db w')) (w_db w) ∧
      ∀ k, hourly (w_db w') !! k =
        rolled_up (hourStart now) (checks (w_db w)) (hourly (w_db w)) k
  | (Err _, w') => w_db w' = w_db w
  end.
Proof.
  intros Hnow. destruct (Rollup now w) as [[[]|e] w'] eqn:Hr.
  - by apply Rollup_ok.
  - by eapply tx_atomic.
Qed.


(** ** A sample database *)

(** Two targets-with-checks around noon of January 1, 2024 (UTC). *)
Definition sample_noon : Z := 1704110400.

Definition sample_target : Target :=
  mkTarget 1 "web" KindHTTP "https://example.com" "200-399" "" "" 60 10000 3 true false 0
    (fromUnix sample_noon) (fromUnix sample_noon).

Definition sample_check (at_ : Z) (ok : bool) (latency : Z) : CheckRow :=
  mkCheckRow 1 at_ ok latency 200 "" None None None.

Definition sample_db : Db :=
  mkDb {[1 := sample_target]}
    {[1 := sample_check (sample_noon - 3000) true 20; 2 := sample_check (sample_noon - 2940) false 0;
      3 := sample_check (sample_noon - 2880) true 40; 4 := sample_check (sample_noon + 60) true 30]}
    ∅ ∅ None ∅ ∅.

Definition sample_now : Time := fromUnix (sample_noon + 90).

Lemma sample_db_wf : Wf sample_db.
Proof.
  assert (Hc : ∀ k c, checks sample_db !! k = Some c → ck_target c = 1).
  { intros k c. unfold sample_db; simpl. rewrite !lookup_insert_Some, lookup_singleton_Some.
    intros; naive_solver. }
  split.
  - intros id t. unfold sample_db; simpl. rewrite lookup_singleton_Some. by intros [<- <-].
  - split_and!; intros k r; [|by simpl; rewrite lookup_empty..].
    intros ->%Hc. by eexists.
  - intros k1 k2 i1 i2. simpl. by rewrite lookup_empty.
  - intros k i. simpl. by rewrite lookup_empty.
  - intros k i. simpl. by rewrite lookup_empty.
  - intros k i. simpl. by rewrite lookup_empty.
Qed.

Lemma rollup_refines_summary_witness :
  3 * hour ≤ Unix sample_now ∧
  match Rollup sample_now (quiet sample_db) with
  | (Ok _, w') =>
      w_db w' = set_hourly (λ _, hourly (w_db w')) sample_db ∧
      ∀ k, hourly (w_db w') !! k =
        rolled_up (hourStart sample_now) (checks sample_db) (hourly sample_db) k
  | (Err _, w') => w_db w' = sample_db
  end.
Proof.
  split; [vm_compute; congruence|].
  apply (rollup_refines_summary sample_now (quiet sample_db)). vm_compute. congruence.
Defined.

(** The sample's hour before noon: two of three checks succeeded. *)
Example rollup_sample :
  hourly (w_db (Rollup sample_now (quiet sample_db)).2) !! (1, sample_noon - 3600) =
  Some (mkHourlyRow 3 2 30 40 40).
Proof. vm_compute. reflexivity. Qed.

(** [rolled] as a finite test over the hours of the range. *)
Definition rolled_b (id lo : Z) (n : nat) (db : Db) : bool :=
  forallb (λ i, bool_decide (hourly db !! (id, lo + Z.of_nat i * hour) =
                 summary (bucket_checks (id, lo + Z.of_nat i * hour) (checks db)))) (seq 0 n).

Lemma rolled_b_spec id lo n db :
  Z.rem lo hour = 0 → rolled_b id lo n db = true → rolled id lo (lo + Z.of_nat n * hour) db.
Proof.
  intros [p Hp]%rem_hour_0 Hb h Hh [q ->]%rem_hour_0. unfold hour in *.
  unfold rolled_b in Hb. rewrite forallb_forall in Hb.
  specialize (Hb (Z.to_nat (q - p))). rewrite bool_decide_eq_true in Hb.
  replace (lo + Z.of_nat (Z.to_nat (q - p)) * hour) with (3600 * q) in Hb by (unfold hour; lia).
  apply Hb. apply in_seq. lia.
Qed.

(** The sample database after a rollup. *)
Definition sample_rolled : Db := w_db (Rollup sample_now (quiet sample_db)).2.

Lemma sample_rolled_wf : Wf sample_rolled.
Proof. apply (keeps_Rollup sample_now (quiet sample_db)). exact sample_db_wf. Qed.

Lemma uptime_counts_raw_witness :
  uptime_counts sample_now 1 (quiet sample_rolled) =
  (Ok ((3, 4), (3, 4), (3, 4)), quiet sample_rolled).
Proof.
  assert (Hr : rolled 1 (hourStart sample_now - 719 * hour) (hourStart sample_now) sample_rolled).
  { apply (rolled_b_spec 1 (hourStart sample_now - 719 * hour) 719); vm_compute; reflexivity. }
  assert (Hn : 721 * hour ≤ Unix sample_now) by (vm_compute; congruence).
  refine (eq_trans (uptime_counts_raw sample_now 1 sample_rolled sample_rolled_wf Hn Hr) _).
  vm_compute. reflexivity.
Defined.


Lemma hours_cells_witness :
  ∃ cells, Hours sample_now 1 3 (quiet sample_rolled) = (Ok cells, quiet sample_rolled) ∧
    length cells = 3%nat ∧
    (∀ i, 0 ≤ i < 3 - 1 → cells !! Z.to_nat i =
      Some (hour_cell 1 (hourStart sample_now - (3 - 1) * hour) (hourly sample_rolled) i)) ∧
    cells !! Z.to_nat (3 - 1) = Some (mkHour (fromUnix (hourStart sample_now)) 1 1).
Proof. apply (hours_cells sample_now 1 3 sample_rolled sample_rolled_wf). lia. Defined.

Lemma latency_points_witness :
  let l := ok_rows 1 (Unix (Add sample_now (- (24 * Hour)))) (checks sample_db) in
  ∃ ps, Latency sample_now 1 (24 * Hour) (quiet sample_db) = (Ok ps, quiet sample_db) ∧
    StronglySorted (λ p q, p_At p < p_At q) ps ∧
    ∀ p, p ∈ ps ↔ ∃ b, slot_point b l p.
Proof.
  apply (latency_points sample_now 1 (24 * Hour) sample_db); [vm_compute; congruence|lia].
Defined.
