(* ===== verification/Crypto.v ===== *)
(** * Cryptographic primitives and encodings

    The hash functions themselves are parameters of the development: the class
    [Crypto] carries SHA-256 (crypto/sha256) and argon2id
    (golang.org/x/crypto/argon2) as functions on byte strings.  Nothing is
    assumed of them but, where a property says so, the length of the key
    argon2id derives.  The encodings around them are definitions. *)

From S2P Require Import Prelude.

Class Crypto : Type := mkCrypto {
  sha256 : string → string;
  (** [argon2.IDKey password salt time memory threads keyLen] *)
  IDKey : string → string → Z → Z → Z → Z → string
}.

(** [encoding/hex]: two lower-case digits per byte. *)
Definition hex_digit (n : nat) : ascii :=
  nth n (String.list_ascii_of_string "0123456789abcdef") "0"%char.

Definition hex_byte (a : ascii) : list ascii :=
  let n := nat_of_ascii a in [hex_digit (n / 16); hex_digit (n mod 16)].

Definition hex_encode (s : string) : string :=
  String.string_of_list_ascii (String.list_ascii_of_string s ≫= hex_byte).

(** [subtle.ConstantTimeCompare(a, b) == 1]. *)
Definition ct_equal (a b : string) : bool := bool_decide (a = b).

Lemma ct_equal_true a b : ct_equal a b = true ↔ a = b.
Proof. apply bool_decide_eq_true. Qed.

(** A concrete instance for examples: the identity as the hash, and a key that
    repeats the first byte of the password. *)
Definition toy_crypto : Crypto :=
  mkCrypto (λ s, s) (λ pw salt t m p len,
    match pw with
    | EmptyString => String.string_of_list_ascii (repeat "-"%char (Z.to_nat len))
    | String a _ => String.string_of_list_ascii (repeat a (Z.to_nat len))
    end).
