(* ===== verification/Sessions.v ===== *)
(** * Admin account, sessions and devices (internal/store/admin.go,
    sessions.go, devices.go)

    Session and device rows are keyed by the hash of the random token the
    browser keeps.  Random tokens are arguments of the operations. *)

From S2P Require Import Prelude GoTime Sql Schema WellFormed Crypto.

Section Operations.
Context `{!Crypto}.

(** ** internal/store/sessions.go *)

Definition hashToken (token : string) : string := hex_encode (sha256 token).

Record Session : Type := mkSession {
  CSRF : string;
  SCreatedAt : Time;
  ExpiresAt : Time;
  LastSeen : Time
}.

(** [insert into sessions]: the primary key is unique. *)
Definition insert_session (h : string) (row : SessionRow) : M Db unit :=
  stmt (λ db, match sessions db !! h with
              | Some _ => Err ErrConstraint
              | None => Ok ((), set_sessions <[h := row]> db)
              end).

Definition CreateSession (now : Time) (token csrf : string) : M Db (string * Session) :=
  let now := Truncate now Second in
  let sess := mkSession csrf now (Add now SessionIdle) now in
  do! insert_session (hashToken token)
        (mkSessionRow (CSRF sess) (Unix now) (Unix (ExpiresAt sess)) (Unix now)) in
  ret (token, sess).

(** [Store.Session]: [where token_hash = ? and expires_at > ?]. *)
Definition SessionByToken (now : Time) (token : string) : M Db Session :=
  found (query (λ db,
    s ← sessions db !! hashToken token;
    if decide (Unix now < se_expires s) then
      Some (mkSession (se_csrf s) (fromUnix (se_created s)) (fromUnix (se_expires s))
              (fromUnix (se_last_seen s)))
    else None)).

Definition touched (s : SessionRow) (now : Z) : SessionRow :=
  mkSessionRow (se_csrf s) (se_created s)
    (Z.min (now + seconds SessionIdle) (se_created s + seconds SessionMax)) now.

Definition TouchSession (now : Time) (token : string) : M Db unit :=
  affected (stmt (λ db,
    match sessions db !! hashToken token with
    | Some s =>
        if decide (Unix now < se_expires s) then
          Ok (1, set_sessions <[hashToken token := touched s (Unix now)]> db)
        else Ok (0, db)
    | None => Ok (0, db)
    end)).

Definition DeleteSession (token : string) : M Db unit :=
  stmt (λ db, Ok ((), set_sessions (delete (hashToken token)) db)).

Definition DeleteExpiredSessions (now : Time) : M Db Z :=
  stmt (λ db,
    let kept := filter (λ r, ¬ se_expires r.2 ≤ Unix now) (sessions db) in
    Ok (Z.of_nat (size (sessions db)) - Z.of_nat (size kept), set_sessions (λ _, kept) db)).

(** ** internal/store/devices.go *)

Definition insert_device (h : string) (row : DeviceRow) : M Db unit :=
  stmt (λ db, match devices db !! h with
              | Some _ => Err ErrConstraint
              | None => Ok ((), set_devices <[h := row]> db)
              end).

Definition CreateDevice (now : Time) (token : string) : M Db string :=
  do! insert_device (hashToken token)
        (mkDeviceRow (Unix now) (Unix now + seconds DeviceMax)) in
  ret token.

Definition KnownDevice (now : Time) (token : string) : M Db bool :=
  query (λ db, match devices db !! hashToken token with
               | Some d => bool_decide (Unix now < de_expires d)
               | None => false
               end).

Definition DeleteExpiredDevices (now : Time) : M Db Z :=
  stmt (λ db,
    let kept := filter (λ r, ¬ de_expires r.2 ≤ Unix now) (devices db) in
    Ok (Z.of_nat (size (devices db)) - Z.of_nat (size kept), set_devices (λ _, kept) db)).

(** ** internal/store/admin.go *)

Definition Admin : M Db (string * string) :=
  found (query (λ db, (λ a, (ad_username a, ad_pw_hash a)) <$> admin db)).

(** One transaction: the new password ends every session and forgets every
    device. *)
Definition SetAdmin (now : Time) (username hash : string) : M Db unit :=
  tx (do! stmt (λ db, Ok ((), set_admin (λ _, Some (mkAdminRow username hash (Unix now))) db)) in
      do! stmt (λ db, Ok ((), set_sessions (λ _, ∅) db)) in
      stmt (λ db, Ok ((), set_devices (λ _, ∅) db))).
End Operations.

(** ** They keep the invariant *)

Lemma seconds_SessionIdle : seconds SessionIdle = 43200.
Proof. reflexivity. Qed.
Lemma seconds_SessionMax : seconds SessionMax = 604800.
Proof. reflexivity. Qed.
Lemma seconds_DeviceMax : seconds DeviceMax = 7776000.
Proof. reflexivity. Qed.

Lemma Unix_Truncate_Second t : Unix (Truncate t Second) = Unix t.
Proof. by rewrite fromUnix_Truncate, Unix_fromUnix. Qed.

Section Keep.
Context `{!Crypto}.

Lemma sessions_ok_insert m h s :
  sessions_ok m → session_ok s → sessions_ok (<[h := s]> m).
Proof.
  intros Hm Hs k r. rewrite lookup_insert. case_decide; intros; simplify_eq; [done|].
  by eapply Hm.
Qed.

Lemma session_ok_new now csrf :
  session_ok (mkSessionRow csrf (Unix now) (Unix (Add now SessionIdle)) (Unix now)).
Proof.
  unfold session_ok; simpl. change SessionIdle with (43200 * Second) at 1 2.
  rewrite Unix_Add_seconds, seconds_SessionIdle, seconds_SessionMax. lia.
Qed.

Lemma session_ok_touched s now : session_ok (touched s now).
Proof. unfold session_ok, touched; simpl. lia. Qed.

Lemma keeps_CreateSession now token csrf : keeps Wf (CreateSession now token csrf).
Proof.
  apply keeps_bind; [|auto with sql]. apply keeps_stmt. intros db u db' Hwf.
  case_match; intros; simplify_eq. apply Wf_set_sessions; [|done].
  apply sessions_ok_insert; [by apply wf_sessions|]. apply session_ok_new.
Qed.

Lemma keeps_TouchSession now token : keeps Wf (TouchSession now token).
Proof.
  apply keeps_affected, keeps_stmt. intros db u db' Hwf.
  case_match; [case_decide|]; intros; simplify_eq; try done.
  apply Wf_set_sessions; [|done].
  apply sessions_ok_insert; [by apply wf_sessions|]. apply session_ok_touched.
Qed.

Lemma keeps_DeleteSession token : keeps Wf (DeleteSession token).
Proof.
  apply keeps_stmt. intros db u db' Hwf ?; simplify_eq. apply Wf_set_sessions; [|done].
  intros k s [_ Hk]%lookup_delete_Some. by eapply (wf_sessions _ Hwf).
Qed.

Lemma keeps_DeleteExpiredSessions now : keeps Wf (DeleteExpiredSessions now).
Proof.
  apply keeps_stmt. intros db u db' Hwf ?; simplify_eq/=. apply Wf_set_sessions; [|done].
  intros k s Hk%lookup_filter_inv. by eapply (wf_sessions _ Hwf).
Qed.

Lemma keeps_CreateDevice now token : keeps Wf (CreateDevice now token).
Proof.
  apply keeps_bind; [|auto with sql]. apply keeps_stmt. intros db u db' Hwf.
  case_match; intros; simplify_eq. auto with dmn.
Qed.

Lemma keeps_DeleteExpiredDevices now : keeps Wf (DeleteExpiredDevices now).
Proof. apply keeps_stmt. intros db u db' Hwf ?; simplify_eq/=. auto with dmn. Qed.

Lemma keeps_SetAdmin now username hash : keeps Wf (SetAdmin now username hash).
Proof.
  apply keeps_tx, keeps_bind; [|intros _; apply keeps_bind; [|intros _]];
    apply keeps_stmt; intros db u db' Hwf ?; simplify_eq/=; auto with dmn.
  apply Wf_set_sessions; [|done]. intros k s Hk. by rewrite lookup_empty in Hk.
Qed.
End Keep.

#[export] Hint Resolve keeps_CreateSession keeps_TouchSession keeps_DeleteSession
  keeps_DeleteExpiredSessions keeps_CreateDevice keeps_DeleteExpiredDevices keeps_SetAdmin : sql.

Lemma SetAdmin_cases now username hash (w : World Db) :
  match SetAdmin now username hash w with
  | (Ok _, w') =>
      w_db w' = mkDb (targets (w_db w)) (checks (w_db w)) (hourly (w_db w)) (incidents (w_db w))
        (Some (mkAdminRow username hash (Unix now))) ∅ ∅
  | (Err _, w') => w_db w' = w_db w
  end.
Proof.
  destruct (SetAdmin now username hash w) as [[[]|e] w'] eqn:Hs; [|by eapply tx_atomic].
  unfold SetAdmin in Hs. apply tx_ok in Hs as (w1 & w2 & Hs & Hw1 & ->).
  apply bind_ok in Hs as (? & w3 & H3%stmt_ok & Hs).
  apply bind_ok in Hs as (? & w4 & H4%stmt_ok & H5%stmt_ok).
  injection H3 as _ H3. injection H4 as _ H4. injection H5 as H5.
  by rewrite <-H5, <-H4, <-H3, Hw1.
Qed.

(** ** Properties *)

Section Properties.
Context `{!Crypto}.

(** The sessions a request at time [now] may use. *)
Definition live (now : Time) (db : Db) : gmap string SessionRow :=
  filter (λ r, Unix now < se_expires r.2) (sessions db).

Definition view (s : SessionRow) : Session :=
  mkSession (se_csrf s) (fromUnix (se_created s)) (fromUnix (se_expires s))
    (fromUnix (se_last_seen s)).

Lemma SessionByToken_live now token w :
  SessionByToken now token w =
  let '(b, w1) := tick w in
  (if b then Err ErrDriver else
   match live now (w_db w) !! hashToken token with
   | Some s => Ok (view s)
   | None => Err ErrNotFound
   end, w1).
Proof.
  unfold SessionByToken, found, bind, query, stmt. pose proof (tick_db w) as Ht.
  destruct (tick w) as [[] [d fs]]; simpl in *; [done|]. subst d.
  unfold live. rewrite map_lookup_filter.
  destruct (sessions (w_db w) !! hashToken token) as [s|]; simpl; [|done].
  rewrite option_guard_decide. simpl. by case_decide.
Qed.

Lemma live_SessionRow now token w sess w' :
  SessionByToken now token w = (Ok sess, w') →
  ∃ s, sessions (w_db w) !! hashToken token = Some s ∧ Unix now < se_expires s ∧ sess = view s ∧
       w_db w' = w_db w.
Proof.
  rewrite SessionByToken_live. pose proof (tick_db w) as Ht.
  destruct (tick w) as [[] w1]; [done|]. case_match eqn:Hl; [|done].
  intros; simplify_eq. apply map_lookup_filter_Some in Hl as [? ?]. eauto 10.
Qed.
End Properties.


(** A successful extension at [now] makes the session valid
    exactly until the earlier of twelve hours after [now] and seven days after
    its creation, and touches no other session and no other table. *)
Theorem session_touch `{!Crypto} now token w w' :
  TouchSession now token w = (Ok (), w') →
  ∃ s, live now (w_db w) !! hashToken token = Some s ∧
    (∀ t, is_Some (live t (w_db w') !! hashToken token) ↔
          Unix t < Z.min (Unix now + 12 * 3600) (se_created s + 7 * 24 * 3600)) ∧
    w_db w' = set_sessions (λ _, sessions (w_db w')) (w_db w) ∧
    ∀ h, h ≠ hashToken token → sessions (w_db w') !! h = sessions (w_db w) !! h.
Proof.
  unfold TouchSession, affected. intros (n & w1 & Hs%stmt_ok & Hn)%bind_ok.
  case_decide; [done|]. unfold ret in Hn. simplify_eq.
  destruct (sessions (w_db w) !! hashToken token) as [s|] eqn:Hl; [|by simplify_eq].
  case_decide as Hlt; [|by simplify_eq]. injection Hs as Hn' Hdb. exists s. rewrite <-Hdb. split_and!.
  - unfold live. by apply map_lookup_filter_Some.
  - intros t. unfold live; simpl. rewrite map_lookup_filter, lookup_insert_eq. simpl.
    rewrite option_guard_decide, seconds_SessionIdle, seconds_SessionMax. simpl.
    case_decide; split; try done; by intros [].
  - by destruct (w_db w).
  - intros h Hne. simpl. by rewrite lookup_insert_ne.
Qed.

(** Deleting the expired sessions at [now] removes
    nothing that a lookup at [now] or later could have accepted, and deletes
    the number of rows it reports. *)
Theorem session_purge_unobservable now w n w' :
  DeleteExpiredSessions now w = (Ok n, w') →
  (∀ t, Unix now ≤ Unix t → live t (w_db w') = live t (w_db w)) ∧
  n = Z.of_nat (size (sessions (w_db w))) - Z.of_nat (size (sessions (w_db w'))) ∧
  (∀ h s, sessions (w_db w') !! h = Some s → Unix now < se_expires s).
Proof.
  unfold DeleteExpiredSessions. intros Hs%stmt_ok. injection Hs as Hn Hdb. rewrite <-Hdb. split_and!.
  - intros t Ht. unfold live; simpl. apply map_eq. intros h. rewrite !map_lookup_filter.
    destruct (sessions (w_db w) !! h) as [s|]; simpl; [|done].
    rewrite !option_guard_decide. repeat case_decide; simpl; rewrite ?option_guard_decide;
      repeat case_decide; simpl in *; try done; lia.
  - by rewrite <-Hn.
  - intros h s. simpl. rewrite map_lookup_filter_Some. simpl. lia.
Qed.

(** C26: setting the password either fails without any effect
    or replaces the account, ends every session and forgets every device, all
    other tables staying as they were; there is no state in between, whichever
    statement fails. *)
Theorem set_admin_revokes now username hash (w : World Db) :
  match SetAdmin now username hash w with
  | (Ok _, w') =>
      w_db w' = mkDb (targets (w_db w)) (checks (w_db w)) (hourly (w_db w)) (incidents (w_db w))
        (Some (mkAdminRow username hash (Unix now))) ∅ ∅
  | (Err _, w') => w_db w' = w_db w
  end.
Proof. apply SetAdmin_cases. Qed.

(** The token handed out by a successful login finds the
    session it was created for until twelve hours later and not after, and no
    existing session is replaced. *)
Theorem session_round_trip `{!Crypto} now token csrf w token' sess w' :
  CreateSession now token csrf w = (Ok (token', sess), w') →
  token' = token ∧ CSRF sess = csrf ∧ sessions (w_db w) !! hashToken token = None ∧
  ∀ t fs, SessionByToken t token (mkWorld (w_db w') (false :: fs)) =
    (if decide (Unix t < Unix now + 12 * 3600) then Ok sess else Err ErrNotFound,
     mkWorld (w_db w') fs).
Proof.
  unfold CreateSession, insert_session. rewrite !fromUnix_Truncate, Unix_fromUnix.
  intros (u & w1 & Hs%stmt_ok & Hr)%bind_ok. unfold ret in Hr. simplify_eq.
  destruct (sessions (w_db w) !! hashToken token') eqn:Hl; [done|].
  injection Hs as _ Hdb. split_and!; try done. intros t fs. rewrite SessionByToken_live. simpl.
  rewrite <-Hdb. unfold live; simpl. rewrite map_lookup_filter, lookup_insert_eq. simpl.
  rewrite option_guard_decide. simpl.
  assert (Hexp : Add (fromUnix (Unix now)) SessionIdle = fromUnix (Unix now + 43200)).
  { unfold Add, fromUnix, SessionIdle, Hour, Minute. lia. }
  rewrite Hexp, Unix_fromUnix. change (12 * 3600) with 43200. case_decide; simpl; [|done].
  unfold view; simpl. done.
Qed.

(** ** A sample session *)

Definition sample_session_db : Db :=
  set_sessions <[@hashToken toy_crypto "tok" := mkSessionRow "csrf" 1000 2000 1500]> empty_db.

Definition sample_session_at : Time := fromUnix 1800.

Lemma sample_session_wf : Wf sample_session_db.
Proof.
  apply Wf_set_sessions; [|apply Wf_empty]. apply sessions_ok_insert.
  - intros k s Hk. simpl in Hk. by rewrite lookup_empty in Hk.
  - by vm_compute.
Qed.


Lemma session_touch_witness :
  let w' := (@TouchSession toy_crypto sample_session_at "tok" (quiet sample_session_db)).2 in
  ∃ s, live sample_session_at sample_session_db !! @hashToken toy_crypto "tok" = Some s ∧
    (∀ t, is_Some (live t (w_db w') !! @hashToken toy_crypto "tok") ↔
          Unix t < Z.min (Unix sample_session_at + 12 * 3600) (se_created s + 7 * 24 * 3600)) ∧
    w_db w' = set_sessions (λ _, sessions (w_db w')) sample_session_db ∧
    ∀ h, h ≠ @hashToken toy_crypto "tok" →
      sessions (w_db w') !! h = sessions sample_session_db !! h.
Proof.
  apply (@session_touch toy_crypto sample_session_at "tok" (quiet sample_session_db)).
  vm_compute. reflexivity.
Defined.

Lemma session_purge_unobservable_witness :
  let now := fromUnix 2000 in
  let w' := (DeleteExpiredSessions now (quiet sample_session_db)).2 in
  (∀ t, Unix now ≤ Unix t → live t (w_db w') = live t sample_session_db) ∧
  1 = Z.of_nat (size (sessions sample_session_db)) - Z.of_nat (size (sessions (w_db w'))) ∧
  (∀ h s, sessions (w_db w') !! h = Some s → Unix now < se_expires s).
Proof.
  apply (session_purge_unobservable (fromUnix 2000) (quiet sample_session_db)).
  vm_compute. reflexivity.
Defined.

Lemma session_round_trip_witness :
  let r := @CreateSession toy_crypto sample_session_at "new" "c" (quiet sample_session_db) in
  let sess := mkSession "c" sample_session_at (Add sample_session_at SessionIdle) sample_session_at in
  "new" = "new" ∧ CSRF sess = "c" ∧
  sessions sample_session_db !! @hashToken toy_crypto "new" = None ∧
  ∀ t fs, @SessionByToken toy_crypto t "new" (mkWorld (w_db r.2) (false :: fs)) =
    (if decide (Unix t < Unix sample_session_at + 12 * 3600) then Ok sess else Err ErrNotFound,
     mkWorld (w_db r.2) fs).
Proof.
  apply (@session_round_trip toy_crypto sample_session_at "new" "c" (quiet sample_session_db)).
  vm_compute. reflexivity.
Defined.
