(* ===== verification/Store.v ===== *)
(** * The store as a whole

    Every operation of internal/store that changes a table, as one type, and
    the invariant over arbitrary histories: whatever the callers do and
    whichever statements fail, the database stays well formed. *)

From S2P Require Import Prelude GoTime Sql Schema WellFormed Targets Checks Incidents Rollup.
From S2P Require Import Crypto Sessions.

(** One call of a store method with its arguments and the clock reading. *)
Inductive store_op : Type :=
  | OpCreateTarget (now : Time) (t : Target)
  | OpUpdateTarget (now : Time) (t : Target)
  | OpDeleteTarget (id : Z)
  | OpSetPaused (now : Time) (id : Z) (paused : bool)
  | OpInsertCheck (id : Z) (at_ : Time) (r : Result)
  | OpOpenIncident (id : Z) (at_ : Time) (cause : string)
  | OpCloseIncident (id : Z) (at_ : Time)
  | OpClosePausedIncident (now : Time) (id : Z)
  | OpMarkMailed (id : Z) (up : bool)
  | OpRollup (now : Time)
  | OpPrune (now : Time) (days : Z)
  | OpCreateSession (now : Time) (token csrf : string)
  | OpTouchSession (now : Time) (token : string)
  | OpDeleteSession (token : string)
  | OpDeleteExpiredSessions (now : Time)
  | OpCreateDevice (now : Time) (token : string)
  | OpDeleteExpiredDevices (now : Time)
  | OpSetAdmin (now : Time) (username hash : string).

(** Run [m] for its effect; an error is the caller's business. *)
Definition discard {A} (m : M Db A) : M Db unit := do! catch m in ret ().

Section Run.
Context `{!Crypto}.

Definition run_op (o : store_op) : M Db unit :=
  match o with
  | OpCreateTarget now t => discard (CreateTarget now t)
  | OpUpdateTarget now t => discard (UpdateTarget now t)
  | OpDeleteTarget id => discard (DeleteTarget id)
  | OpSetPaused now id p => discard (SetPaused now id p)
  | OpInsertCheck id at_ r => discard (InsertCheck id at_ r)
  | OpOpenIncident id at_ cause => discard (OpenIncident id at_ cause)
  | OpCloseIncident id at_ => discard (CloseIncident id at_)
  | OpClosePausedIncident now id => discard (ClosePausedIncident now id)
  | OpMarkMailed id up => discard (MarkMailed id up)
  | OpRollup now => discard (Rollup now)
  | OpPrune now days => discard (Prune now days)
  | OpCreateSession now token csrf => discard (CreateSession now token csrf)
  | OpTouchSession now token => discard (TouchSession now token)
  | OpDeleteSession token => discard (DeleteSession token)
  | OpDeleteExpiredSessions now => discard (DeleteExpiredSessions now)
  | OpCreateDevice now token => discard (CreateDevice now token)
  | OpDeleteExpiredDevices now => discard (DeleteExpiredDevices now)
  | OpSetAdmin now username hash => discard (SetAdmin now username hash)
  end.

Definition run_ops (os : list store_op) (w : World Db) : World Db :=
  foldl (λ w o, (run_op o w).2) w os.

Lemma keeps_discard {A} (I : Db → Prop) (m : M Db A) : keeps I m → keeps I (discard m).
Proof. intros. apply keeps_bind; auto with sql. Qed.

Lemma keeps_run_op o : keeps Wf (run_op o).
Proof. destruct o; apply keeps_discard; auto with sql. Qed.
End Run.

(** C6: starting from the freshly migrated database, after any
    sequence of store calls with any arguments and clock readings and any
    schedule of failing statements, the constraints of the schema hold: unique
    targets within their CHECK limits, no dangling check, hourly row or
    incident, at most one open incident per target, recovery mails only on
    ended incidents, consistent hourly counters, and session lifetimes within
    seven days and twelve idle hours. *)
Theorem store_invariant `{!Crypto} os faults :
  Wf (w_db (run_ops os (mkWorld empty_db faults))).
Proof.
  assert (Hgen : ∀ w, Wf (w_db w) → Wf (w_db (run_ops os w))).
  { induction os as [|o os IH]; intros w Hw; simpl; [done|].
    apply IH. by apply keeps_run_op. }
  apply Hgen, Wf_empty.
Qed.
