(* ===== verification/MonitorState.v ===== *)
(** * The outage detector (internal/monitor/state.go)

    [next] turns the outcome of one check into the next state of a target and
    an event.  The specification is stated over the whole history of checks:
    how long the current run of failures is, and when it began. *)

From S2P Require Import Prelude GoTime.

(** ** State and step *)

Inductive event : Type := none | down | up.

#[export] Instance event_eq_dec : EqDecision event.
Proof. solve_decision. Defined.

Record state : Type := mkState {
  fails : Z;
  firstFail : Time;
  cause : string;
  open : bool;
  startedAt : Time;
  incident : Z
}.

(** [var st state]. *)
Definition state0 : state := mkState 0 zeroTime "" false zeroTime 0.

Definition next (s : state) (ok : bool) (cause_ : string) (at_ : Time) (threshold : Z) :
    state * event :=
  if ok then
    (mkState 0 zeroTime "" false (startedAt s) (incident s), if open s then up else none)
  else
    let first := if decide (fails s = 0) then at_ else firstFail s in
    let n := wrap64 (fails s + 1) in
    if negb (open s) && bool_decide (threshold ≤ n) then
      (mkState n first cause_ true first (incident s), down)
    else
      (mkState n first cause_ (open s) (startedAt s) (incident s), none).

(** ** Histories *)

(** One check as the detector sees it. *)
Record obs : Type := mkObs { o_ok : bool; o_cause : string; o_at : Time }.

Definition step_obs (threshold : Z) (s : state) (o : obs) : state * event :=
  next s (o_ok o) (o_cause o) (o_at o) threshold.

(** The state after a history (oldest check first), and the events emitted. *)
Fixpoint run_from (threshold : Z) (s : state) (l : list obs) : state * list event :=
  match l with
  | [] => (s, [])
  | o :: l => let '(s', e) := step_obs threshold s o in
              let '(s2, es) := run_from threshold s' l in (s2, e :: es)
  end.

(** The current run of failures: the failed checks since the last success,
    latest first. *)
Definition streak (l : list obs) : list obs :=
  foldl (λ acc o, if o_ok o then [] else o :: acc) [] l.

Definition streak_len (l : list obs) : Z := Z.of_nat (length (streak l)).

(** What the detector should hold after the history [l]. *)
Record describes (threshold : Z) (l : list obs) (s : state) : Prop := mkDescribes {
  desc_fails : fails s = streak_len l;
  desc_first : firstFail s = default zeroTime (o_at <$> last (streak l));
  desc_cause : cause s = default "" (o_cause <$> head (streak l));
  desc_open : open s = bool_decide (threshold ≤ streak_len l);
  desc_started : open s = true → startedAt s = firstFail s
}.

(** The event a check should cause after the history [l]. *)
Definition event_of (threshold : Z) (l : list obs) (o : obs) : event :=
  if o_ok o then (if bool_decide (threshold ≤ streak_len l) then up else none)
  else if bool_decide (streak_len l + 1 = threshold) then down else none.

Lemma streak_snoc l o : streak (l ++ [o]) = if o_ok o then [] else o :: streak l.
Proof. unfold streak. by rewrite foldl_app. Qed.

Lemma streak_len_snoc l o :
  streak_len (l ++ [o]) = if o_ok o then 0 else streak_len l + 1.
Proof. unfold streak_len. rewrite streak_snoc. destruct (o_ok o); simpl; lia. Qed.

Lemma streak_len_bounds l : 0 ≤ streak_len l ≤ Z.of_nat (length l).
Proof.
  induction l as [|o l IH] using rev_ind; [done|].
  rewrite streak_len_snoc, length_app. simpl. destruct (o_ok o); lia.
Qed.

Lemma describes_nil threshold : 1 ≤ threshold → describes threshold [] state0.
Proof. intros. split; try done. simpl. symmetry. apply bool_decide_eq_false. unfold streak_len. simpl. lia. Qed.

(** One check keeps the description and emits the described event. *)
Lemma next_describes threshold l s o :
  1 ≤ threshold → Z.of_nat (length l) < int64_max → describes threshold l s →
  describes threshold (l ++ [o]) (step_obs threshold s o).1 ∧
  (step_obs threshold s o).2 = event_of threshold l o.
Proof.
  intros Hth Hlen [Hf Hff Hc Ho Hs]. pose proof (streak_len_bounds l) as Hb.
  unfold step_obs, next, event_of. destruct (o_ok o) eqn:Hok.
  - split; [|by rewrite Ho]. split; simpl; rewrite ?streak_len_snoc, ?streak_snoc, ?Hok; try done.
    symmetry. apply bool_decide_eq_false. lia.
  - rewrite wrap64_id by (unfold in_int64, int64_min, int64_max in *; lia).
    assert (Hfirst : (if decide (fails s = 0) then o_at o else firstFail s) =
      default zeroTime (o_at <$> last (o :: streak l))).
    { rewrite last_cons, Hff, Hf. unfold streak_len.
      destruct (streak l) as [|x k] eqn:Hk; [done|].
      rewrite decide_False by (simpl; lia). rewrite last_cons. by destruct (last k). }
    set (first := if decide (fails s = 0) then o_at o else firstFail s) in *.
    clearbody first. rewrite Hf.
    destruct (negb (open s) && bool_decide (threshold ≤ streak_len l + 1)) eqn:Hcase;
      rewrite Ho in Hcase;
      (split; [split|]); simpl; rewrite ?streak_len_snoc, ?streak_snoc, ?Hok; try done.
    + symmetry. apply bool_decide_eq_true.
      apply andb_true_iff in Hcase as [_ H%bool_decide_eq_true]. lia.
    + apply andb_true_iff in Hcase as [Hno%negb_true_iff%bool_decide_eq_false
        Hle%bool_decide_eq_true]. by rewrite bool_decide_true by lia.
    + rewrite Ho. apply andb_false_iff in Hcase.
      rewrite negb_false_iff, bool_decide_eq_true, bool_decide_eq_false in Hcase.
      apply bool_decide_ext. lia.
    + intros Hop. rewrite (Hs Hop), Hff, Hfirst. rewrite Ho in Hop.
      apply bool_decide_eq_true in Hop. unfold streak_len in Hop.
      destruct (streak l) as [|x k]; [simpl in Hop; lia|].
      rewrite !last_cons. by destruct (last k).
    + apply andb_false_iff in Hcase.
      rewrite negb_false_iff, bool_decide_eq_true, bool_decide_eq_false in Hcase.
      by rewrite bool_decide_false by lia.
Qed.

Lemma run_from_app threshold s l1 l2 :
  run_from threshold s (l1 ++ l2) =
  let '(s1, e1) := run_from threshold s l1 in
  let '(s2, e2) := run_from threshold s1 l2 in (s2, e1 ++ e2).
Proof.
  revert s. induction l1 as [|o l1 IH]; intros s; simpl.
  - by destruct (run_from threshold s l2).
  - destruct (step_obs threshold s o) as [s' e]. rewrite IH.
    destruct (run_from threshold s' l1) as [s1 e1].
    by destruct (run_from threshold s1 l2).
Qed.

Lemma run_describes threshold l :
  1 ≤ threshold → Z.of_nat (length l) ≤ int64_max →
  describes threshold l (run_from threshold state0 l).1.
Proof.
  intros Hth. induction l as [|o l IH] using rev_ind; intros Hlen; [by apply describes_nil|].
  rewrite length_app in Hlen. simpl in Hlen.
  pose proof (IH ltac:(lia)) as Hd. rewrite run_from_app. simpl.
  destruct (run_from threshold state0 l) as [s es]; simpl in *.
  destruct (step_obs threshold s o) as [s' e] eqn:Hst. simpl.
  apply (next_describes _ _ _ o) in Hd as [Hd _]; [|done|lia]. by rewrite Hst in Hd.
Qed.

(** [down] and [up] take turns, beginning with [down]. *)
Fixpoint alternates (opened : bool) (es : list event) : bool :=
  match es with
  | [] => true
  | none :: es => alternates opened es
  | down :: es => negb opened && alternates true es
  | up :: es => opened && alternates false es
  end.

(** ** Properties *)

(** C23: after any history of checks the detector counts the
    checks failed since the last success, remembers when that run began and
    its latest cause, is open exactly when the run reached the threshold, and
    dates the outage from the run's first failure; and each check raises
    [down] exactly when it completes a run of threshold length and [up]
    exactly when it succeeds after such a run. *)
Theorem detector_history threshold l1 o l2 :
  1 ≤ threshold → Z.of_nat (length (l1 ++ o :: l2)) ≤ int64_max →
  describes threshold (l1 ++ o :: l2) (run_from threshold state0 (l1 ++ o :: l2)).1 ∧
  (run_from threshold state0 (l1 ++ o :: l2)).2 !! length l1 = Some (event_of threshold l1 o).
Proof.
  intros Hth Hlen. split; [by apply run_describes|].
  rewrite length_app in Hlen. simpl in Hlen.
  pose proof (run_describes threshold l1 Hth ltac:(lia)) as Hd.
  assert (Hes : length (run_from threshold state0 l1).2 = length l1).
  { generalize state0. clear. induction l1 as [|o l IH]; intros s; simpl; [done|].
    destruct (step_obs threshold s o) as [s' e]. specialize (IH s').
    destruct (run_from threshold s' l). simpl in *. by rewrite IH. }
  rewrite run_from_app. destruct (run_from threshold state0 l1) as [s es]; simpl in *.
  destruct (step_obs threshold s o) as [s' e] eqn:Hst.
  destruct (run_from threshold s' l2) as [s2 es2]. simpl.
  apply (next_describes _ _ _ o) in Hd as [_ He]; [|done|lia]. rewrite Hst in He; simpl in He.
  rewrite lookup_app_r by lia. by rewrite Hes, Nat.sub_diag, He.
Qed.

Lemma detector_history_witness :
  let fail := mkObs false "connection refused" in
  let l := [fail 10; fail 70] in
  describes 2 l (run_from 2 state0 l).1 ∧
  (run_from 2 state0 l).2 !! 1%nat = Some (event_of 2 [fail 10] (fail 70)).
Proof.
  intros fail l. apply (detector_history 2 [fail 10] (fail 70) []); [lia|].
  vm_compute. discriminate.
Defined.

(** Whatever state the detector starts in and whatever the
    checks report, [down] and [up] take turns: no outage is announced twice,
    and no recovery without an outage. *)
Theorem events_alternate threshold s l :
  alternates (open s) (run_from threshold s l).2 = true.
Proof.
  revert s. induction l as [|o l IH]; intros s; [done|]. simpl.
  destruct (step_obs threshold s o) as [s' e] eqn:Hst. specialize (IH s').
  destruct (run_from threshold s' l) as [s2 es]. simpl in IH |- *.
  revert Hst IH. unfold step_obs, next.
  destruct (o_ok o), (open s) eqn:Ho; simpl; repeat case_decide; repeat case_match;
    intros; simplify_eq/=; by rewrite ?Ho in *.
Qed.
