(* ===== verification/Runner.v ===== *)
(** * One monitored target (internal/monitor/scheduler.go)

    What the goroutine of a target does: [restore] reads the detector's state
    back from the database, [round] measures once, stores the check, steps the
    detector and opens or closes the incident, [notify] mails.  The memory it
    shares with the other goroutines is the record [Sys].

    The mailer is an interface, the class [Mailer], as in the source, where
    [Manager.mail] is a function and may be nil. *)

From S2P Require Import Prelude GoTime Sql Schema WellFormed Targets Checks Incidents.
From S2P Require Import MonitorState.

(** ** The mailer's interface *)

(** [ErrLimit] is the one mail error the callers tell apart. *)
Inductive mailerr : Type := ErrLimit | ErrMail.

#[export] Instance mailerr_eq_dec : EqDecision mailerr.
Proof. solve_decision. Defined.

Class Mailer (S : Type) : Type := {
  (** [Mailer.Down] and [Mailer.Up] at an instant of the mailer's clock. *)
  Down : Time → string → string → Time → S → res mailerr unit * S;
  Up : Time → string → Time → Time → S → res mailerr unit * S
}.

(** ** Shared state *)

Record Stat : Type := mkStat {
  sta_Checked : bool;
  sta_OK : bool;
  sta_LatencyMs : Z;
  sta_At : Time;
  sta_ChecksOK : Z;
  sta_ChecksFail : Z
}.

Definition stat0 : Stat := mkStat false false 0 zeroTime 0 0.

(** [mailKey]: the incident, and whether the mail reports its end. *)
Definition mailKey : Type := Z * bool.

Record Sys (S : Type) : Type := mkSys {
  s_world : World Db;
  s_stats : gmap Z Stat;
  s_pending : gmap mailKey bool;
  s_mailer : option S;
  (** an observation for the theorems: the mails attempted, latest first *)
  s_mails : list (Incident * res mailerr unit)
}.
Arguments mkSys {S}.
Arguments s_world {S} _.
Arguments s_stats {S} _.
Arguments s_pending {S} _.
Arguments s_mailer {S} _.
Arguments s_mails {S} _.

Definition s_db {S} (s : Sys S) : Db := w_db (s_world s).

(** Code that reads and writes the shared state. *)
Definition P (S A : Type) : Type := Sys S → A * Sys S.

#[export] Instance P_ret {S} : MRet (P S) := λ A a s, (a, s).
#[export] Instance P_bind {S} : MBind (P S) := λ A B k m s, let '(a, s') := m s in k a s'.

Section Monad.
Context {S : Type}.

Definition set_world (w : World Db) (s : Sys S) : Sys S :=
  mkSys w (s_stats s) (s_pending s) (s_mailer s) (s_mails s).
Definition set_stats (f : gmap Z Stat → gmap Z Stat) (s : Sys S) : Sys S :=
  mkSys (s_world s) (f (s_stats s)) (s_pending s) (s_mailer s) (s_mails s).
Definition set_pending (p : gmap mailKey bool) (s : Sys S) : Sys S :=
  mkSys (s_world s) (s_stats s) p (s_mailer s) (s_mails s).
Definition set_mailer (m : option S) (i : Incident) (r : res mailerr unit) (s : Sys S) : Sys S :=
  mkSys (s_world s) (s_stats s) (s_pending s) m ((i, r) :: s_mails s).

(** A store call; its error is a value the caller inspects. *)
Definition call {A} (m : M Db A) : P S (res sqlerr A) :=
  λ s, let '(r, w) := m (s_world s) in (r, set_world w s).

Definition modify (f : Sys S → Sys S) : P S unit := λ s, ((), f s).
End Monad.

(** ** [Manager.record] *)

Definition recorded (at_ : Time) (res : Result) (s : Stat) : Stat :=
  mkStat true (OK res) (LatencyMs res) at_
    (if OK res then wrapu64 (sta_ChecksOK s + 1) else sta_ChecksOK s)
    (if OK res then sta_ChecksFail s else wrapu64 (sta_ChecksFail s + 1)).

Definition record {S} (id : Z) (at_ : Time) (res : Result) : P S unit :=
  modify (set_stats (λ m, <[id := recorded at_ res (default stat0 (m !! id))]> m)).

(** ** [Manager.restore] *)

(** The loop over the latest checks, newest first. *)
Fixpoint count_fails (end_ : Time) (last : list Check) (st : state) : state :=
  match last with
  | [] => st
  | c :: last =>
      if OK (c_Result c) || negb (After (c_At c) end_) then st
      else count_fails end_ last
        (mkState (wrap64 (fails st + 1)) (c_At c)
          (if decide (cause st = "") then ErrText (c_Result c) else cause st)
          (open st) (startedAt st) (incident st))
  end.

Definition first_stat (c : Check) : Stat :=
  mkStat true (OK (c_Result c)) (LatencyMs (c_Result c)) (c_At c) 0 0.

Definition restore {S} (t : Target) : P S state :=
  inc ← call (OpenIncidentFor (ID t));
  let st := match inc with
            | Ok i => mkState 0 zeroTime "" true (i_StartedAt i) (i_ID i)
            | Err _ => state0
            end in
  end_ ← call (LastIncidentEnd (ID t));
  let end_ := match end_ with Ok e => e | Err _ => zeroTime end in
  last ← call (LastChecks (ID t) (FailThreshold t));
  let last := match last with Ok l => l | Err _ => [] end in
  let st := count_fails end_ last st in
  _ ← match last with
      | [] => mret ()
      | c :: _ => modify (set_stats (λ m,
          match m !! ID t with None => <[ID t := first_stat c]> m | Some _ => m end))
      end;
  mret st.

(** ** [Manager.notify] *)

Section Notify.
Context {S : Type} `{!Mailer S}.

(** The function [New] builds from the mailer. *)
Definition mail (now : Time) (i : Incident) (m : S) : res mailerr unit * S :=
  if Open i then Down now (i_TargetName i) (i_Cause i) (i_StartedAt i) m
  else Up now (i_TargetName i) (i_StartedAt i) (i_EndedAt i) m.

Definition send_mail (now : Time) (i : Incident) : P S (option (res mailerr unit)) := λ s,
  match s_mailer s with
  | None => (None, s)
  | Some m => let '(r, m') := mail now i m in (Some r, set_mailer (Some m') i r s)
  end.

Definition notify (now : Time) (i : Incident) : P S (res mailerr unit) :=
  sent ← send_mail now i;
  match sent with
  | None => mret (Ok ())
  | Some (Err e) => mret (Err e)
  | Some (Ok _) =>
      _ ← call (MarkMailed (i_ID i) (negb (Open i)));
      mret (Ok ())
  end.
End Notify.

(** ** [Manager.round] *)

(** What the environment contributes to a round: whether the semaphore was
    acquired before the context was cancelled, the clock, the measurement,
    whether the context was cancelled meanwhile, the mailer's clock. *)
Record round_in : Type := mkRound {
  ri_acquired : bool;
  ri_at : Time;
  ri_res : Result;
  ri_cancelled : bool;
  ri_mail : Time
}.

Definition set_open (b : bool) (s : state) : state :=
  mkState (fails s) (firstFail s) (cause s) b (startedAt s) (incident s).
Definition set_incident (started : Time) (id : Z) (s : state) : state :=
  mkState (fails s) (firstFail s) (cause s) (open s) started id.

Section Round.
Context {S : Type} `{!Mailer S}.

Definition on_down (t : Target) (mt : Time) (nst : state) : P S state :=
  r ← call (OpenIncident (ID t) (startedAt nst) (cause nst));
  match r with
  | Ok id =>
      _ ← notify mt (mkIncident id (ID t) (Name t) (startedAt nst) zeroTime (cause nst) false false);
      mret (set_incident (startedAt nst) id nst)
  | Err ErrIncidentOpen =>
      inc ← call (OpenIncidentFor (ID t));
      match inc with
      | Ok i => mret (set_incident (i_StartedAt i) (i_ID i) nst)
      | Err _ => mret (set_open false nst)
      end
  | Err _ => mret (set_open false nst)
  end.

Definition on_up (t : Target) (at_ mt : Time) (st nst : state) : P S state :=
  r ← call (CloseIncident (incident st) at_);
  match r with
  | Ok _ | Err ErrNotFound =>
      _ ← notify mt (mkIncident (incident st) (ID t) (Name t) (startedAt st) at_ "" false false);
      mret nst
  | Err _ => mret (set_open true nst)
  end.

(** The part of a round after the measurement. *)
Definition settle (t : Target) (st : state) (i : round_in) : P S state :=
  _ ← record (ID t) (ri_at i) (ri_res i);
  _ ← call (InsertCheck (ID t) (ri_at i) (ri_res i));
  let '(nst, ev) := next st (OK (ri_res i)) (ErrText (ri_res i)) (ri_at i) (FailThreshold t) in
  match ev with
  | none => mret nst
  | down => on_down t (ri_mail i) nst
  | up => on_up t (ri_at i) (ri_mail i) st nst
  end.

Definition round (t : Target) (st : state) (i : round_in) : P S state :=
  if negb (ri_acquired i) then mret st
  else if ri_cancelled i then mret st
  else settle t st i.

(** The loop of [Manager.run]. *)
Fixpoint rounds (t : Target) (st : state) (l : list round_in) : P S state :=
  match l with
  | [] => mret st
  | i :: l => st' ← round t st i; rounds t st' l
  end.

Definition run (t : Target) (l : list round_in) : P S state :=
  st ← restore t; rounds t st l.
End Round.

(** ** Reasoning about code on the shared state *)

Section Wp.
Context {S : Type}.

(** [wp m Q s]: run from [s], [m] ends in a result and a state satisfying [Q]. *)
Definition wp {A} (m : P S A) (Q : A → Sys S → Prop) (s : Sys S) : Prop :=
  Q (m s).1 (m s).2.

Lemma wp_ret {A} (a : A) Q s : Q a s → wp (mret a) Q s.
Proof. done. Qed.

Lemma wp_bind {A B} (m : P S A) (k : A → P S B) Q s :
  wp m (λ a s', wp (k a) Q s') s → wp (m ≫= k) Q s.
Proof. unfold wp, mbind, P_bind. by destruct (m s). Qed.

Lemma wp_modify f Q (s : Sys S) : Q () (f s) → wp (modify f) Q s.
Proof. done. Qed.

Lemma wp_call {A} (m : M Db A) Q (s : Sys S) :
  (∀ r w, m (s_world s) = (r, w) → Q r (set_world w s)) → wp (call m) Q s.
Proof. intros H. unfold wp, call. destruct (m (s_world s)) as [r w] eqn:E. by apply H. Qed.

Lemma wp_mono {A} (m : P S A) (Q Q' : A → Sys S → Prop) s :
  wp m Q s → (∀ a s', Q a s' → Q' a s') → wp m Q' s.
Proof. unfold wp. auto. Qed.
End Wp.

(** [pkeeps I m]: [m] leaves a database satisfying [I] if it found one,
    whatever statements fail. *)
Section PKeeps.
Context {S : Type} (I : Db → Prop).

Definition pkeeps {A} (m : P S A) : Prop := ∀ s, I (s_db s) → I (s_db (m s).2).

Lemma pkeeps_ret {A} (a : A) : pkeeps (mret a).
Proof. by intros s. Qed.

Lemma pkeeps_bind {A B} (m : P S A) (k : A → P S B) :
  pkeeps m → (∀ a, pkeeps (k a)) → pkeeps (m ≫= k).
Proof.
  intros Hm Hk s Hs. unfold mbind, P_bind. specialize (Hm s Hs).
  destruct (m s) as [a s']. by apply Hk.
Qed.

Lemma pkeeps_call {A} (m : M Db A) : keeps I m → pkeeps (call m).
Proof.
  intros Hm s Hs. unfold call. specialize (Hm (s_world s) Hs).
  by destruct (m (s_world s)) as [r w].
Qed.

Lemma pkeeps_modify f : (∀ s : Sys S, s_db (f s) = s_db s) → pkeeps (modify f).
Proof. intros Hf s Hs. unfold modify. simpl. by rewrite Hf. Qed.

Lemma pkeeps_notify `{!Mailer S} now i :
  (∀ id up, keeps I (MarkMailed id up)) → pkeeps (notify now i).
Proof.
  intros Hm. unfold notify. apply pkeeps_bind.
  - intros s Hs. unfold send_mail. destruct (s_mailer s); [|done].
    by destruct (mail now i _) as [r m'].
  - intros [[[]|e]|]; try apply pkeeps_ret.
    apply pkeeps_bind; [by apply pkeeps_call|]. intros; apply pkeeps_ret.
Qed.

Lemma pkeeps_on_down `{!Mailer S} t mt nst :
  (∀ id up, keeps I (MarkMailed id up)) → (∀ id at_ c, keeps I (OpenIncident id at_ c)) →
  (∀ id, keeps I (OpenIncidentFor id)) → pkeeps (on_down t mt nst).
Proof.
  intros. unfold on_down. apply pkeeps_bind; [by apply pkeeps_call|].
  intros [id|[]]; repeat first [apply pkeeps_ret | by apply pkeeps_notify
    | by apply pkeeps_call | apply pkeeps_bind; [|intros [?|?]] | apply pkeeps_bind; [|intros ?]].
Qed.

Lemma pkeeps_on_up `{!Mailer S} t at_ mt st nst :
  (∀ id up, keeps I (MarkMailed id up)) → (∀ id at_, keeps I (CloseIncident id at_)) →
  pkeeps (on_up t at_ mt st nst).
Proof.
  intros. unfold on_up. apply pkeeps_bind; [by apply pkeeps_call|].
  intros [id|[]]; repeat first [apply pkeeps_ret | by apply pkeeps_notify
    | apply pkeeps_bind; [|intros ?]].
Qed.
End PKeeps.

(** A step of the program on a [wp] goal. *)
Ltac wp_step :=
  lazymatch goal with
  | |- wp (mbind _ _) _ _ => apply wp_bind
  | |- wp (mret _) _ _ => apply wp_ret
  | |- wp (modify _) _ _ => apply wp_modify
  | |- wp (call _) _ _ =>
      let r := fresh "r" in let w := fresh "w" in let H := fresh "Hcall" in
      apply wp_call; intros r w H
  end.

Section NotifyEffect.
Context {S : Type} `{!Mailer S}.

(** Notifying touches at most the mail flags of that incident. *)
Lemma wp_notify now i Q (s : Sys S) :
  (∀ r s', s_stats s' = s_stats s → s_pending s' = s_pending s →
    (s_db s' = s_db s ∨ ∃ x, incidents (s_db s) !! i_ID i = Some x ∧
       s_db s' = set_incidents <[i_ID i := marked x (negb (Open i))]> (s_db s)) →
    (Wf (s_db s) → Wf (s_db s')) → Q r s') →
  wp (notify now i) Q s.
Proof.
  intros HQ. unfold notify. wp_step. unfold wp at 1, send_mail.
  destruct (s_mailer s) as [m|] eqn:Hm; cbn [fst snd].
  2: { wp_step. apply HQ; auto. }
  destruct (mail now i m) as [[[]|e] m']; cbn [fst snd].
  2: { wp_step. apply HQ; auto. }
  repeat wp_step. apply HQ; try done.
  - apply MarkMailed_effect in Hcall. exact Hcall.
  - intros Hwf. pose proof (keeps_MarkMailed (i_ID i) (negb (Open i)) (s_world s) Hwf) as Hk.
    simpl in Hcall. rewrite Hcall in Hk. exact Hk.
Qed.
End NotifyEffect.

(** ** What is in memory agrees with the table *)

(** An outage the runner believes open is an open incident of its target. *)
Definition tracks (t : Target) (st : state) (db : Db) : Prop :=
  open st = true → ∃ r, incidents db !! incident st = Some r ∧ open_for (ID t) (incident st, r).

Lemma tracks_marked t st db k x up :
  incidents db !! k = Some x → tracks t st db →
  tracks t st (set_incidents <[k := marked x up]> db).
Proof.
  intros Hx Htr Ho. destruct (Htr Ho) as (r & Hr & Hop). simpl.
  destruct (decide (k = incident st)) as [->|Hne].
  - rewrite lookup_insert_eq. simplify_eq. eexists. split; [done|]. by destruct up.
  - rewrite lookup_insert_ne by done. eauto.
Qed.

Section Tracks.
Context {S : Type} `{!Mailer S} (t : Target).

Definition settled (st : state) (s : Sys S) : Prop := Wf (s_db s) ∧ tracks t st (s_db s).

Lemma wp_notify_settled now i st (s : Sys S) :
  settled st s → wp (notify now i) (λ _ s', settled st s') s.
Proof.
  intros [Hwf Htr]. apply wp_notify. intros r s' _ _ Hdb Hk. split; [auto|].
  destruct Hdb as [->|(x & Hx & ->)]; [done|]. by apply tracks_marked.
Qed.

Lemma count_fails_open end_ l st :
  open (count_fails end_ l st) = open st ∧ incident (count_fails end_ l st) = incident st ∧
  startedAt (count_fails end_ l st) = startedAt st.
Proof. revert st. induction l; intros st; simpl; [done|]. case_match; [done|].
  destruct (IHl (mkState (wrap64 (fails st + 1)) (c_At a)
    (if decide (cause st = "") then ErrText (c_Result a) else cause st)
    (open st) (startedAt st) (incident st))) as (-> & -> & ->). done.
Qed.

Lemma wp_restore_settled (s : Sys S) :
  Wf (s_db s) → wp (restore t) settled s.
Proof.
  intros Hwf. unfold restore. repeat wp_step.
  assert (Hlast : ∀ A (f : Db → A) u x u', query f u = (x, u') → w_db u' = w_db u).
  { intros A f u x u' Hq. pose proof (query_db f u) as Hd. by rewrite Hq in Hd. }
  apply Hlast in Hcall1, Hcall0. simpl in Hcall0, Hcall1.
  assert (Hdb : w_db w1 = s_db s).
  { rewrite Hcall1, Hcall0. destruct r; [by apply OpenIncidentFor_Ok in Hcall as [-> _]|].
    by apply OpenIncidentFor_Err in Hcall as ->. }
  assert (Hs : ∀ s', s_world s' = w1 →
    settled (count_fails (match r0 with Ok e => e | Err _ => zeroTime end)
      (match r1 with Ok l => l | Err _ => [] end)
      (match r with Ok i => mkState 0 zeroTime "" true (i_StartedAt i) (i_ID i)
                  | Err _ => state0 end)) s').
  { intros s' Hw. unfold settled, s_db. rewrite Hw, Hdb. split; [done|].
    intros Ho. destruct (count_fails_open (match r0 with Ok e => e | Err _ => zeroTime end)
      (match r1 with Ok l => l | Err _ => [] end)
      (match r with Ok i => mkState 0 zeroTime "" true (i_StartedAt i) (i_ID i)
                  | Err _ => state0 end)) as (Ho' & Hi' & _).
    rewrite Ho' in Ho. rewrite Hi'. destruct r as [i|e]; [|done].
    apply OpenIncidentFor_Ok in Hcall as (_ & x & Hx & Hop & _). by exists x. }
  destruct r1 as [[|c l]|e]; repeat wp_step; apply Hs; done.
Qed.

Lemma settled_call {A} (m : M Db A) st (s : Sys S) r w :
  m (s_world s) = (r, w) → keeps Wf m → (tracks t st (s_db s) → tracks t st (w_db w)) →
  settled st s → settled st (set_world w s).
Proof.
  intros Hm Hk Htr [Hwf H]. split; [|by apply Htr].
  specialize (Hk _ Hwf). by rewrite Hm in Hk.
Qed.

(** Opening: a new incident, the one already open, or none at all. *)
Lemma wp_on_down_settled mt nst (s : Sys S) :
  Wf (s_db s) → wp (on_down t mt nst) settled s.
Proof.
  intros Hwf. unfold on_down. repeat wp_step.
  pose proof (keeps_OpenIncident (ID t) (startedAt nst) (cause nst) _ Hwf) as Hk.
  rewrite Hcall in Hk. simpl in Hk.
  destruct r as [k|e].
  - wp_step. eapply wp_mono; [apply (wp_notify_settled _ _ (set_incident (startedAt nst) k nst))|].
    + split; [exact Hk|]. intros _.
      apply OpenIncident_Ok in Hcall as (_ & _ & _ & Hdb). unfold s_db, set_world; simpl.
      rewrite Hdb. simpl. rewrite lookup_insert_eq. by eexists.
    + intros r s' Hs. by wp_step.
  - apply OpenIncident_Err in Hcall.
    assert (Hno : ∀ s' : Sys S, Wf (s_db s') → wp (mret (set_open false nst)) settled s').
    { intros s' Hs'. by wp_step. }
    destruct e; try by apply Hno.
    wp_step. wp_step. destruct r as [i|e].
    + apply OpenIncidentFor_Ok in Hcall0 as (Hdb & x & Hx & Hop & _). wp_step. split.
      { unfold s_db; simpl. by rewrite Hdb. }
      intros _. exists x. unfold s_db; simpl. by rewrite Hdb.
    + apply OpenIncidentFor_Err in Hcall0. apply Hno. unfold s_db; simpl. by rewrite Hcall0.
Qed.

Lemma wp_on_up_settled at_ mt st nst (s : Sys S) :
  settled st s → open st = true → open nst = false → incident nst = incident st →
  wp (on_up t at_ mt st nst) settled s.
Proof.
  intros [Hwf Htr] Ho Hn Hinc. unfold on_up. repeat wp_step.
  pose proof (keeps_CloseIncident (incident st) at_ _ Hwf) as Hk.
  rewrite Hcall in Hk. simpl in Hk.
  assert (Hno : ∀ i, wp (x ← notify mt i; mret nst) settled (set_world w s)).
  { intros i. wp_step. eapply wp_mono; [apply (wp_notify_settled _ _ nst)|].
    - split; [exact Hk|]. by unfold tracks; rewrite Hn.
    - intros. by wp_step. }
  destruct r as [u|e]; [apply Hno|].
  apply CloseIncident_Err in Hcall. destruct e; try apply Hno;
    wp_step; (split; [exact Hk|]); intros _; unfold s_db; simpl; rewrite Hcall, Hinc;
    by apply Htr.
Qed.

Lemma InsertCheck_incidents id at_ r w x w' :
  InsertCheck id at_ r w = (x, w') → incidents (w_db w') = incidents (w_db w).
Proof.
  unfold InsertCheck, stmt. pose proof (tick_db w) as Ht.
  destruct (tick w) as [b w1]; simpl in Ht. destruct b; [intros; simplify_eq; by rewrite Ht|].
  rewrite Ht. repeat case_match; intros; simplify_eq/=; by rewrite ?Ht.
Qed.

Lemma wp_round_settled st i (s : Sys S) :
  settled st s → wp (round t st i) settled s.
Proof.
  intros Hs. unfold round. destruct (ri_acquired i); cbn [negb]; [|by wp_step].
  destruct (ri_cancelled i); [by wp_step|]. unfold settle.
  wp_step. apply wp_modify. repeat wp_step.
  assert (Hs' : settled st (set_world w (set_stats
    (λ m, <[ID t:=recorded (ri_at i) (ri_res i) (default stat0 (m !! ID t))]> m) s))).
  { eapply settled_call; [exact Hcall|apply keeps_InsertCheck| |exact Hs].
    apply InsertCheck_incidents in Hcall. unfold tracks. by rewrite Hcall. }
  destruct (next st _ _ _ _) as [nst ev] eqn:Hn. unfold next in Hn.
  destruct (OK (ri_res i)).
  - destruct (open st) eqn:Ho; simplify_eq.
    + by apply wp_on_up_settled.
    + wp_step. by split; [apply Hs'|].
  - destruct (negb (open st) && _); simplify_eq.
    + apply wp_on_down_settled, Hs'.
    + wp_step. split; [apply Hs'|]. intros Ho. by apply Hs'.
Qed.

Lemma wp_rounds_settled l st (s : Sys S) : settled st s → wp (rounds t st l) settled s.
Proof.
  revert st s. induction l as [|i l IH]; intros st s Hs; simpl; [by wp_step|].
  wp_step. eapply wp_mono; [by apply wp_round_settled|]. auto.
Qed.
End Tracks.

(** A mailer that delivers everything, for concrete runs. *)
Definition sure_mailer : Mailer unit :=
  {| Down := λ _ _ _ _ s, (Ok (), s); Up := λ _ _ _ _ s, (Ok (), s) |}.

(** A target and a system that only knows this target. *)
Definition sample_target : Target :=
  mkTarget 5 "web" KindHTTP "https://example.org" "200" "" "" 60 10000 2 true false 0 0 0.

Definition sample_sys : Sys unit :=
  mkSys (quiet (set_targets <[5 := sample_target]> empty_db)) ∅ ∅ (Some ()) [].

Definition sample_round (at_ : Time) (ok : bool) : round_in :=
  mkRound true at_ (if ok then mkResult true 12 200 "" None None "" else failed "timeout") false at_.

Lemma sample_sys_wf : Wf (s_db sample_sys).
Proof. apply Wf_insert_target; [done|done|reflexivity|apply Wf_empty]. Qed.

(** ** Properties *)

(** Whatever statements and mails fail, whenever the
    runner is cancelled and whatever the checks report, a runner started from
    the database keeps the store's invariant, and an outage it holds in memory
    is an open incident of its own target in the table: memory never gets
    ahead of what was stored. *)
Theorem runner_tracks_incident {S} `{!Mailer S} t l (s : Sys S) :
  Wf (s_db s) →
  let '(st, s') := run t l s in Wf (s_db s') ∧ tracks t st (s_db s').
Proof.
  intros Hwf. assert (wp (run t l) (settled t) s) as H.
  { unfold run. wp_step. eapply wp_mono; [by apply wp_restore_settled|].
    intros st s' Hs. by apply wp_rounds_settled. }
  unfold wp in H. by destruct (run t l s).
Qed.

Lemma runner_tracks_incident_witness :
  let l := [sample_round (100 * Second) false; sample_round (160 * Second) false] in
  let '(st, s') := @run _ sure_mailer sample_target l sample_sys in
  Wf (s_db s') ∧ tracks sample_target st (s_db s').
Proof. apply (@runner_tracks_incident _ sure_mailer), sample_sys_wf. Defined.
