(* ===== verification/Outages.v ===== *)
(** * The incidents table as the history of outages

    A specification of what the monitor records, stated on the history of
    checks alone, and the refinement theorem: as long as no statement fails,
    the incidents of a target are the outages of its history. *)

From S2P Require Import Prelude GoTime Sql Schema WellFormed Targets Checks Incidents.
From S2P Require Import MonitorState Runner.

(** ** Specification *)

(** A maximal period of failure, in whole seconds: from the first failed check
    of a run that reached the threshold to the next successful check. *)
Record outage : Type := mkOutage { out_from : Z; out_to : option Z; out_cause : string }.

#[export] Instance outage_eq_dec : EqDecision outage.
Proof. solve_decision. Defined.

(** When the current run of failures began. *)
Definition streak_from (l : list obs) : Time := default zeroTime (o_at <$> last (streak l)).

(** The outages after the history [l ++ [o]], latest first, given those after
    [l]. *)
Definition outage_step (threshold : Z) (l : list obs) (o : obs) (outs : list outage) :
    list outage :=
  match event_of threshold l o with
  | down => mkOutage (Unix (streak_from (l ++ [o]))) None (o_cause o) :: outs
  | up => match outs with
          | x :: outs => mkOutage (out_from x) (Some (Unix (o_at o))) (out_cause x) :: outs
          | [] => []
          end
  | none => outs
  end.

Fixpoint outages_from (threshold : Z) (seen : list obs) (outs : list outage) (l : list obs) :
    list outage :=
  match l with
  | [] => outs
  | o :: l => outages_from threshold (seen ++ [o]) (outage_step threshold seen o outs) l
  end.

Definition outages (threshold : Z) (l : list obs) : list outage := outages_from threshold [] [] l.

(** ** What the table says *)

Definition newest (r : Z * IncidentRow) : Z * Z := (- r.1, 0).

(** The incidents of a target, latest first. *)
Definition incident_log (id : Z) (inc : gmap Z IncidentRow) : list (Z * IncidentRow) :=
  order_by newest (rows (λ r, in_target r.2 = id) inc).

Definition as_outage (r : Z * IncidentRow) : outage :=
  mkOutage (in_started r.2) (in_ended r.2) (in_cause r.2).

Lemma newest_NoDup P `{∀ x, Decision (P x)} (inc : gmap Z IncidentRow) :
  NoDup (newest <$> rows P inc).
Proof.
  apply (NoDup_fmap_1 (λ p : Z * Z, - p.1)). rewrite <-list_fmap_compose.
  erewrite list_fmap_ext; [apply (rows_NoDup P inc)|]. intros i [k x] _. simpl. lia.
Qed.

Lemma elem_of_incident_log id inc k i :
  (k, i) ∈ incident_log id inc ↔ inc !! k = Some i ∧ in_target i = id.
Proof. unfold incident_log. by rewrite elem_of_order_by, elem_of_rows. Qed.

(** A new incident is the latest. *)
Lemma incident_log_new id inc i :
  in_target i = id →
  incident_log id (<[next_id inc := i]> inc) = (next_id inc, i) :: incident_log id inc.
Proof.
  intros Ht. unfold incident_log.
  assert (Hp : rows (λ r, in_target r.2 = id) (<[next_id inc := i]> inc) ≡ₚ
    (next_id inc, i) :: rows (λ r, in_target r.2 = id) inc).
  { apply rows_insert; [apply next_id_fresh|done]. }
  rewrite (order_by_Permutation_eq newest _ _ (newest_NoDup _ _) Hp).
  apply order_by_cons.
  - rewrite <-Hp. apply newest_NoDup.
  - intros [k x] [Hk _]%elem_of_rows. apply lookup_lt_next_id in Hk.
    unfold key_le, newest. simpl. lia.
Qed.

(** Replacing a row changes that entry of the log. *)
Lemma incident_log_update id inc k i i' :
  inc !! k = Some i → in_target i' = in_target i →
  incident_log id (<[k := i']> inc) =
  (λ r, if decide (r.1 = k) then (k, i') else r) <$> incident_log id inc.
Proof.
  intros Hk Ht. unfold incident_log. apply order_by_unique; [apply newest_NoDup| |].
  - pose proof (order_by_sorted newest (rows (λ r, in_target r.2 = id) inc)) as Hs.
    induction Hs as [|[j x] l _ IH Hf]; csimpl; constructor; [done|].
    apply list.Forall_forall. intros y (y0 & -> & Hy)%list_elem_of_fmap.
    rewrite list.Forall_forall in Hf. specialize (Hf _ Hy).
    unfold key_le, newest in *. repeat case_decide; simpl in *; subst; exact Hf.
  - rewrite order_by_Permutation. apply NoDup_Permutation; [|apply rows_NoDup_rows|].
    + apply (NoDup_fmap_1 fst). rewrite <-list_fmap_compose.
      erewrite list_fmap_ext; [apply (rows_NoDup (λ r, in_target r.2 = id) inc)|].
      intros n [j x] _. simpl. by case_decide.
    + intros [j x]. rewrite list_elem_of_fmap, elem_of_rows, lookup_insert. simpl. split.
      * intros ([j0 x0] & Heq & [Hj Hx]%elem_of_rows). simpl in *.
        case_decide; simplify_eq/=; rewrite ?decide_True, ?decide_False by done; [|done].
        simplify_eq. by rewrite Ht.
      * intros [Hl Hx]. case_decide; simplify_eq.
        { exists (j, i). rewrite decide_True by done. split; [done|].
          apply elem_of_rows. simpl. by rewrite <-Ht. }
        { exists (j, x). rewrite decide_False by done. split; [done|]. by apply elem_of_rows. }
Qed.

(** ** Refinement *)

(** The checks a list of rounds really made. *)
Definition obs_of (i : round_in) : obs :=
  mkObs (OK (ri_res i)) (ErrText (ri_res i)) (ri_at i).

Definition kept (l : list round_in) : list round_in :=
  filter (λ i, ri_acquired i = true ∧ ri_cancelled i = false) l.

Definition made (l : list round_in) : list obs := obs_of <$> kept l.

(** The mails due for a log: one per opening, one per closing, latest first. *)
Definition due (r : Z * IncidentRow) : list mailKey :=
  match in_ended r.2 with Some _ => [(r.1, true); (r.1, false)] | None => [(r.1, false)] end.

Definition mail_key (m : Incident * res mailerr unit) : mailKey := (i_ID m.1, negb (Open m.1)).

(** The runner's memory and the tables after the history [l], when the
    target had no incident at first. *)
Record agrees {S} (t : Target) (inc0 : gmap Z IncidentRow) (l : list obs) (st : state) (s : Sys S) :
    Prop := mkAgrees {
  ag_quiet : w_faults (s_world s) = [];
  ag_mailer : is_Some (s_mailer s);
  ag_target : is_Some (targets (s_db s) !! ID t);
  ag_desc : describes (FailThreshold t) l st;
  ag_log : as_outage <$> incident_log (ID t) (incidents (s_db s)) = outages (FailThreshold t) l;
  ag_open : open st = true → ∃ r rest,
    incident_log (ID t) (incidents (s_db s)) = (incident st, r) :: rest ∧ in_ended r = None ∧
    Forall (λ x, in_ended x.2 ≠ None) rest;
  ag_closed : open st = false → rows (open_for (ID t)) (incidents (s_db s)) = [];
  ag_mails : mail_key <$> s_mails s = incident_log (ID t) (incidents (s_db s)) ≫= due;
  ag_frame : ∀ k r, in_target r ≠ ID t → incidents (s_db s) !! k = Some r ↔ inc0 !! k = Some r
}.

Lemma outages_from_snoc th seen outs l o :
  outages_from th seen outs (l ++ [o]) = outage_step th (seen ++ l) o (outages_from th seen outs l).
Proof.
  revert seen outs. induction l as [|x l IH]; intros seen outs; simpl; [by rewrite app_nil_r|].
  rewrite IH. by rewrite <-(assoc_L (++)).
Qed.

Lemma outages_snoc th l o : outages th (l ++ [o]) = outage_step th l o (outages th l).
Proof. apply outages_from_snoc. Qed.

Lemma kept_snoc l i :
  kept (l ++ [i]) =
  if decide (ri_acquired i = true ∧ ri_cancelled i = false) then kept l ++ [i] else kept l.
Proof.
  unfold kept. rewrite filter_app, filter_cons. case_decide; [done|]. apply app_nil_r.
Qed.

Lemma made_snoc l i :
  made (l ++ [i]) =
  if decide (ri_acquired i = true ∧ ri_cancelled i = false) then made l ++ [obs_of i] else made l.
Proof. unfold made. rewrite kept_snoc. case_decide; [by rewrite fmap_app|done]. Qed.

Section NoFaults.
Lemma OpenIncident_quiet id at_ c db :
  rows (open_for id) (incidents db) = [] → is_Some (targets db !! id) →
  OpenIncident id at_ c (quiet db) = (Ok (next_id (incidents db)),
    quiet (set_incidents <[next_id (incidents db) := opened id at_ c]> db)).
Proof.
  intros Hr [t Ht]. unfold OpenIncident. rewrite bind_quiet, stmt_quiet, Hr, Ht. done.
Qed.

Lemma CloseIncident_quiet id at_ db i :
  incidents db !! id = Some i → in_ended i = None →
  CloseIncident id at_ (quiet db) =
  (Ok (), quiet (set_incidents <[id := ended i (Unix at_)]> db)).
Proof.
  intros Hi He. unfold CloseIncident, affected. rewrite bind_quiet, stmt_quiet, Hi.
  by rewrite decide_True by done.
Qed.

Lemma MarkMailed_quiet id up db r w :
  MarkMailed id up (quiet db) = (r, w) → w_faults w = [].
Proof.
  unfold MarkMailed, affected. rewrite bind_quiet, stmt_quiet.
  repeat case_match; unfold ret, throw in *; intros; by simplify_eq/=.
Qed.

Lemma InsertCheck_quiet id at_ r db x w :
  InsertCheck id at_ r (quiet db) = (x, w) →
  w_faults w = [] ∧ incidents (w_db w) = incidents db ∧ targets (w_db w) = targets db.
Proof.
  unfold InsertCheck. rewrite stmt_quiet. repeat case_match; intros; by simplify_eq/=.
Qed.
End NoFaults.

Section Refine.
Context {S : Type} `{!Mailer S} (t : Target).

(** A mail is attempted, and at most the flags of its incident change. *)
Lemma wp_notify_quiet now i Q (s : Sys S) :
  w_faults (s_world s) = [] → is_Some (s_mailer s) →
  (∀ r s', w_faults (s_world s') = [] → is_Some (s_mailer s') →
    mail_key <$> s_mails s' = (i_ID i, negb (Open i)) :: (mail_key <$> s_mails s) →
    (s_db s' = s_db s ∨ ∃ x, incidents (s_db s) !! i_ID i = Some x ∧
       s_db s' = set_incidents <[i_ID i := marked x (negb (Open i))]> (s_db s)) →
    Q r s') →
  wp (notify now i) Q s.
Proof.
  intros Hq [m Hm] HQ. unfold notify. wp_step. unfold wp at 1, send_mail. rewrite Hm.
  destruct (mail now i m) as [[[]|e] m']; cbn [fst snd]; repeat wp_step;
    apply HQ; simpl; auto.
  - simpl in Hcall. destruct (s_world s) as [db fs]; simpl in *; subst.
    by eapply MarkMailed_quiet.
  - apply MarkMailed_effect in Hcall. exact Hcall.
Qed.

Lemma incident_log_marked id inc k x up :
  inc !! k = Some x →
  as_outage <$> incident_log id (<[k := marked x up]> inc) = as_outage <$> incident_log id inc ∧
  incident_log id (<[k := marked x up]> inc) ≫= due = incident_log id inc ≫= due.
Proof.
  intros Hx. rewrite (incident_log_update _ _ _ x) by done.
  assert (Hin : ∀ r, r ∈ incident_log id inc → r.1 = k → r.2 = x).
  { intros [j y] [Hj _]%elem_of_incident_log; simpl. intros ->. by simplify_eq. }
  induction (incident_log id inc) as [|r l IH]; csimpl; [done|].
  destruct IH as [IH1 IH2]; [intros; apply Hin; [by right|done]|].
  rewrite IH1, IH2. case_decide as Hr; [|done].
  destruct r as [j y]. simpl in Hr. subst j. pose proof (Hin (k, y) ltac:(left) eq_refl). simpl in *. by subst.
Qed.

(** [agrees] does not depend on the mail flags. *)
Lemma agrees_marked inc0 l st (s s' : Sys S) k x up :
  w_faults (s_world s') = [] → is_Some (s_mailer s') → mail_key <$> s_mails s' = mail_key <$> s_mails s →
  incidents (s_db s) !! k = Some x → in_target x = ID t →
  s_db s' = set_incidents <[k := marked x up]> (s_db s) →
  agrees t inc0 l st s → agrees t inc0 l st s'.
Proof.
  intros Hq Hmr Hms Hx Hxt Hdb [? ? Ht Hd Hlog Ho Hc Hm Hf].
  destruct (incident_log_marked (ID t) _ _ _ up Hx) as [Hl1 Hl2].
  split; rewrite ?Hdb, ?Hms; simpl; rewrite ?Hl1, ?Hl2; try done.
  - intros Hop. destruct (Ho Hop) as (r & rest & Hlg & He & Hrest).
    rewrite (incident_log_update _ _ _ x) by done. rewrite Hlg. csimpl.
    assert (Hrest' : Forall (λ r, in_ended r.2 ≠ None)
      ((λ r, if decide (r.1 = k) then (k, marked x up) else r) <$> rest)).
    { apply Forall_fmap, list.Forall_forall. intros [j y] Hin. simpl.
      rewrite list.Forall_forall in Hrest. pose proof (Hrest _ Hin) as Hy. simpl in Hy.
      case_decide; [|done]. subst j. simpl.
      assert ((k, y) ∈ incident_log (ID t) (incidents (s_db s))) as Hk
        by (rewrite Hlg; by right).
      apply elem_of_incident_log in Hk as [Hk _]. by simplify_eq. }
    case_decide as Hk; [|by eauto]. subst k. eexists _, _. split_and!; [done| |done].
    assert ((incident st, r) ∈ incident_log (ID t) (incidents (s_db s))) as Hin
      by (rewrite Hlg; left).
    apply elem_of_incident_log in Hin as [Hin _]. by simplify_eq/=.
  - intros Hcl. specialize (Hc Hcl). apply rows_nil. intros j y.
    rewrite lookup_insert. case_decide; intros Hj [Hyt Hye]; simplify_eq/=.
    + by eapply (rows_open_nil (ID t)).
    + by eapply (rows_open_nil (ID t)).
  - intros j y Hy. rewrite lookup_insert. case_decide; [|by apply Hf].
    subst j. split; intros Heq; simplify_eq.
    apply Hf in Heq; [|done]. by simplify_eq.
Qed.

(** A check that raises no event. *)
Lemma agrees_none inc0 l st (s s' : Sys S) o :
  1 ≤ FailThreshold t → Z.of_nat (length l) < int64_max →
  agrees t inc0 l st s → (step_obs (FailThreshold t) st o).2 = none →
  w_faults (s_world s') = [] → s_mailer s' = s_mailer s → s_mails s' = s_mails s →
  incidents (s_db s') = incidents (s_db s) → targets (s_db s') = targets (s_db s) →
  agrees t inc0 (l ++ [o]) (step_obs (FailThreshold t) st o).1 s'.
Proof.
  intros Hth Hlen [? Hm Ht Hd Hlog Ho Hc Hms Hf] Hev Hq Hm' Hms' Hi Htg.
  destruct (next_describes _ _ _ o Hth Hlen Hd) as [Hd' He]. rewrite Hev in He.
  assert (open (step_obs (FailThreshold t) st o).1 = open st ∧
    incident (step_obs (FailThreshold t) st o).1 = incident st) as [Hop Hin].
  { revert Hev. unfold step_obs, next. destruct (o_ok o), (open st); simpl;
      try case_match; done. }
  split; rewrite ?Hi, ?Htg, ?Hm', ?Hms', ?Hop, ?Hin; try done.
  rewrite outages_snoc. unfold outage_step. by rewrite <-He.
Qed.

Lemma describes_set_incident th l started id st :
  (open st = true → startedAt st = started) →
  describes th l st → describes th l (set_incident started id st).
Proof. intros Hs [? ? ? ? Hst]. split; try done. simpl. intros Ho. by rewrite <-Hs, <-Hst. Qed.

(** The check that begins an outage, with the row stored for it. *)
Lemma agrees_down inc0 l st nst (s s' : Sys S) o db :
  1 ≤ FailThreshold t → Z.of_nat (length l) < int64_max →
  agrees t inc0 l st s → step_obs (FailThreshold t) st o = (nst, down) →
  incidents db = incidents (s_db s) → is_Some (targets db !! ID t) →
  w_faults (s_world s') = [] → is_Some (s_mailer s') →
  mail_key <$> s_mails s' = (next_id (incidents db), false) :: (mail_key <$> s_mails s) →
  s_db s' =
    set_incidents <[next_id (incidents db) := opened (ID t) (startedAt nst) (cause nst)]> db →
  agrees t inc0 (l ++ [o]) (set_incident (startedAt nst) (next_id (incidents db)) nst) s'.
Proof.
  intros Hth Hlen [? Hm Ht Hd Hlog Ho Hc Hms Hf] Hst Hi Htg Hq Hm' Hms' Hdb.
  destruct (next_describes _ _ _ o Hth Hlen Hd) as [Hd' He]. rewrite Hst in Hd', He; simpl in *.
  assert (open nst = true ∧ open st = false) as [Hon Hos].
  { revert Hst. unfold step_obs, next. destruct (o_ok o), (open st); simpl;
      try case_match; intros; by simplify_eq/=. }
  pose proof (incident_log_new (ID t) (incidents (s_db s))
    (opened (ID t) (startedAt nst) (cause nst)) eq_refl) as Hlg.
  split; rewrite ?Hdb; simpl; rewrite ?Hi in *; rewrite ?Hlg; try done.
  - by apply describes_set_incident.
  - csimpl. rewrite outages_snoc. unfold outage_step. rewrite <-He, Hlog.
    destruct Hd' as [_ Hff Hca _ Hsa]. unfold as_outage, opened, streak_from; simpl.
    rewrite (Hsa Hon), Hff, Hca. do 2 f_equal.
    assert (o_ok o = false) as Hok.
    { revert Hst. unfold step_obs, next. destruct (o_ok o), (open st); naive_solver. }
    by rewrite streak_snoc, Hok.
  - intros _. eexists _, _. split_and!; [done|done|].
    apply list.Forall_forall. intros [j x] [Hj Hjt]%elem_of_incident_log Hje.
    by eapply (rows_open_nil (ID t) _ _ _ (Hc Hos)).
  - by rewrite Hon.
  - csimpl. by rewrite Hms', Hms.
  - intros j r Hr. rewrite lookup_insert. case_decide; [|by apply Hf]. subst j.
    split; intros Heq; [by simplify_eq|]. apply Hf in Heq; [|done].
    by rewrite next_id_fresh in Heq.
Qed.

(** The check that ends an outage, with the row it updates. *)
Lemma agrees_up inc0 l st nst (s s' : Sys S) o db :
  1 ≤ FailThreshold t → Z.of_nat (length l) < int64_max →
  agrees t inc0 l st s → step_obs (FailThreshold t) st o = (nst, up) →
  incidents db = incidents (s_db s) → is_Some (targets db !! ID t) →
  w_faults (s_world s') = [] → is_Some (s_mailer s') →
  mail_key <$> s_mails s' = (incident st, true) :: (mail_key <$> s_mails s) →
  (∀ r, incidents db !! incident st = Some r →
    s_db s' = set_incidents <[incident st := ended r (Unix (o_at o))]> db) →
  agrees t inc0 (l ++ [o]) nst s'.
Proof.
  intros Hth Hlen [? Hm Ht Hd Hlog Ho Hc Hms Hf] Hst Hi Htg Hq Hm' Hms' Hdb.
  destruct (next_describes _ _ _ o Hth Hlen Hd) as [Hd' He]. rewrite Hst in Hd', He; simpl in *.
  assert (open nst = false ∧ open st = true) as [Hon Hos].
  { revert Hst. unfold step_obs, next. destruct (o_ok o), (open st); simpl;
      try case_match; intros; by simplify_eq/=. }
  destruct (Ho Hos) as (r & rest & Hlg & Hend & Hrest).
  assert (incidents (s_db s) !! incident st = Some r ∧ in_target r = ID t) as [Hr Hrt].
  { rewrite <-elem_of_incident_log, Hlg. left. }
  specialize (Hdb r ltac:(by rewrite Hi)).
  assert (Hnin : ∀ x, x ∈ rest → x.1 ≠ incident st).
  { intros [j x] Hx ?. simpl in *. subst j.
    pose proof (newest_NoDup (λ r, in_target r.2 = ID t) (incidents (s_db s))) as Hnd.
    unfold incident_log in Hlg. rewrite <-(order_by_Permutation newest), Hlg in Hnd.
    apply NoDup_cons in Hnd as [Hnot _]. apply Hnot, list_elem_of_fmap.
    exists (incident st, x). done. }
  assert (Hlg' : incident_log (ID t) (<[incident st := ended r (Unix (o_at o))]>
    (incidents (s_db s))) = (incident st, ended r (Unix (o_at o))) :: rest).
  { rewrite (incident_log_update _ _ _ r) by done. rewrite Hlg. csimpl.
    rewrite decide_True by done. f_equal. rewrite <-(list_fmap_id rest) at 2.
    apply list_fmap_ext. intros j x Hx. rewrite decide_False; [done|].
    by eapply Hnin, list_elem_of_lookup_2. }
  split; rewrite ?Hdb; simpl; rewrite ?Hi in *; rewrite ?Hlg', ?Hon; try done.
  - csimpl. rewrite outages_snoc. unfold outage_step. rewrite <-He, <-Hlog, Hlg. done.
  - intros _. apply rows_nil. intros j x. rewrite lookup_insert.
    case_decide; intros Hj [Hxt Hxe]; [by simplify_eq/=|simpl in *].
    assert ((j, x) ∈ incident_log (ID t) (incidents (s_db s))) as Hin
      by (by apply elem_of_incident_log).
    rewrite Hlg in Hin. apply elem_of_cons in Hin as [|Hin]; [by simplify_eq|].
    rewrite list.Forall_forall in Hrest. by apply Hrest in Hin.
  - csimpl. rewrite Hms', Hms, Hlg. csimpl. unfold due at 1 3. simpl. by rewrite Hend.
  - intros j x Hx. rewrite lookup_insert. case_decide; [|by apply Hf]. subst j.
    split; intros Heq; simplify_eq.
    apply Hf in Heq; [|done]. by simplify_eq.
Qed.

Lemma quiet_world (s : Sys S) : w_faults (s_world s) = [] → s_world s = quiet (s_db s).
Proof. unfold quiet, s_db. destruct (s_world s); simpl. by intros ->. Qed.

(** After mailing, [agrees] follows from the state reached if the mail's
    flag had not been recorded. *)
Lemma wp_notify_agrees inc0 l st now i (s : Sys S) :
  w_faults (s_world s) = [] → is_Some (s_mailer s) →
  (∃ x, incidents (s_db s) !! i_ID i = Some x ∧ in_target x = ID t) →
  (∀ s' : Sys S, w_faults (s_world s') = [] → is_Some (s_mailer s') →
    mail_key <$> s_mails s' = (i_ID i, negb (Open i)) :: (mail_key <$> s_mails s) →
    s_db s' = s_db s → agrees t inc0 l st s') →
  wp (notify now i) (λ _ s', agrees t inc0 l st s') s.
Proof.
  intros Hq Hm (x & Hx & Hxt) Hag. apply wp_notify_quiet; [done|done|].
  intros r s' Hq' Hm' Hms [Hdb|(y & Hy & Hdb)]; [by apply Hag|].
  pose (s0 := set_world (s_world s) s').
  assert (agrees t inc0 l st s0) as H0 by by apply Hag.
  simplify_eq. by eapply (agrees_marked inc0 l st s0 s').
Qed.

Lemma wp_on_down_agrees inc0 l st nst o mt (s0 s : Sys S) :
  1 ≤ FailThreshold t → Z.of_nat (length l) < int64_max →
  agrees t inc0 l st s0 → step_obs (FailThreshold t) st o = (nst, down) →
  w_faults (s_world s) = [] → s_mailer s = s_mailer s0 → s_mails s = s_mails s0 →
  incidents (s_db s) = incidents (s_db s0) → targets (s_db s) = targets (s_db s0) →
  wp (on_down t mt nst) (λ st' s', agrees t inc0 (l ++ [o]) st' s') s.
Proof.
  intros Hth Hlen Hag Hst Hq Hm Hms Hi Htg. destruct (Hag) as [_ Hm0 Ht0 _ _ _ Hc _ _].
  assert (open st = false) as Hos.
  { revert Hst. unfold step_obs, next. destruct (o_ok o), (open st); naive_solver. }
  unfold on_down. repeat wp_step.
  rewrite (quiet_world _ Hq), OpenIncident_quiet in Hcall by (rewrite ?Hi, ?Htg; auto).
  simplify_eq. repeat wp_step.
  eapply wp_mono; [apply (wp_notify_agrees inc0 (l ++ [o])
    (set_incident (startedAt nst) (next_id (incidents (s_db s))) nst))|].
  - done.
  - by rewrite <-Hm in Hm0.
  - simpl. rewrite lookup_insert_eq. by eexists.
  - intros s' Hq' Hm' Hms' Hdb. eapply (agrees_down inc0 l st nst s0 s' o (s_db s)); try done.
    + by rewrite Htg.
    + rewrite Hms'. simpl. by rewrite Hms.
  - intros. by wp_step.
Qed.

Lemma wp_on_up_agrees inc0 l st nst o mt (s0 s : Sys S) :
  1 ≤ FailThreshold t → Z.of_nat (length l) < int64_max → o_at o ≠ zeroTime →
  agrees t inc0 l st s0 → step_obs (FailThreshold t) st o = (nst, up) →
  w_faults (s_world s) = [] → s_mailer s = s_mailer s0 → s_mails s = s_mails s0 →
  incidents (s_db s) = incidents (s_db s0) → targets (s_db s) = targets (s_db s0) →
  wp (on_up t (o_at o) mt st nst) (λ st' s', agrees t inc0 (l ++ [o]) st' s') s.
Proof.
  intros Hth Hlen Hz Hag Hst Hq Hm Hms Hi Htg. destruct (Hag) as [_ Hm0 Ht0 _ _ Ho _ _ _].
  assert (open st = true) as Hos.
  { revert Hst. unfold step_obs, next. destruct (o_ok o), (open st); try case_match; naive_solver. }
  destruct (Ho Hos) as (r0 & rest & Hlg & Hend & _).
  assert (incidents (s_db s0) !! incident st = Some r0 ∧ in_target r0 = ID t) as [Hr Hrt].
  { rewrite <-elem_of_incident_log, Hlg. left. }
  unfold on_up. repeat wp_step.
  rewrite (quiet_world _ Hq), (CloseIncident_quiet _ _ _ r0) in Hcall by (by rewrite ?Hi).
  simplify_eq. repeat wp_step.
  eapply wp_mono; [apply (wp_notify_agrees inc0 (l ++ [o]) nst)|].
  - done.
  - by rewrite <-Hm in Hm0.
  - simpl. rewrite lookup_insert_eq. by eexists.
  - intros s' Hq' Hm' Hms' Hdb. eapply (agrees_up inc0 l st nst s0 s' o (s_db s)); try done.
    + by rewrite Htg.
    + rewrite Hms'. simpl. rewrite Hms. unfold Open, IsZero. simpl.
      by rewrite bool_decide_false by done.
    + intros r Hr'. rewrite Hi in Hr'. by simplify_eq.
  - intros. by wp_step.
Qed.

Lemma wp_round_agrees inc0 l st i (s : Sys S) :
  1 ≤ FailThreshold t → Z.of_nat (length l) < int64_max → ri_at i ≠ zeroTime →
  agrees t inc0 (made l) st s →
  wp (round t st i) (λ st' s', agrees t inc0 (made (l ++ [i])) st' s') s.
Proof.
  intros Hth Hlen Hz Hag. rewrite made_snoc. unfold round.
  destruct (ri_acquired i), (ri_cancelled i); simpl; try (by wp_step).
  assert (Hlen' : Z.of_nat (length (made l)) < int64_max).
  { unfold made, kept. rewrite length_fmap. pose proof (length_filter
      (λ i, ri_acquired i = true ∧ ri_cancelled i = false) l). lia. }
  destruct (Hag) as [Hq _ _ _ _ _ _ _ _]. unfold settle.
  wp_step. apply wp_modify. repeat wp_step.
  pose proof (quiet_world (set_stats (λ m, <[ID t := recorded (ri_at i) (ri_res i)
    (default stat0 (m !! ID t))]> m) s) Hq) as Hw. rewrite Hw in Hcall.
  apply InsertCheck_quiet in Hcall as (Hq' & Hi & Htg).
  change (next st (OK (ri_res i)) (ErrText (ri_res i)) (ri_at i) (FailThreshold t))
    with (step_obs (FailThreshold t) st (obs_of i)).
  destruct (step_obs (FailThreshold t) st (obs_of i)) as [nst ev] eqn:Hst. destruct ev.
  - wp_step. pose proof (agrees_none inc0 (made l) st s (set_world w (set_stats (λ m,
      <[ID t := recorded (ri_at i) (ri_res i) (default stat0 (m !! ID t))]> m) s))
      (obs_of i) Hth Hlen' Hag) as H. rewrite Hst in H. by apply H.
  - by eapply wp_on_down_agrees.
  - by eapply (wp_on_up_agrees _ _ _ _ (obs_of i)).
Qed.

Lemma wp_rounds_agrees inc0 l2 l st (s : Sys S) :
  1 ≤ FailThreshold t → Z.of_nat (length (l ++ l2)) ≤ int64_max →
  (∀ i, i ∈ l2 → ri_at i ≠ zeroTime) →
  agrees t inc0 (made l) st s →
  wp (rounds t st l2) (λ st' s', agrees t inc0 (made (l ++ l2)) st' s') s.
Proof.
  intros Hth. revert l st s.
  induction l2 as [|i l2 IH]; intros l st s Hlen Hz Hag; simpl.
  { rewrite app_nil_r. by wp_step. }
  rewrite length_app, length_cons in Hlen. wp_step.
  eapply wp_mono; [apply (wp_round_agrees inc0 l); [done|lia|apply Hz; left|done]|].
  intros st' s' Hag'. rewrite (cons_middle i l l2), (assoc_L (++)). apply IH; [| |done].
  - rewrite !length_app, length_cons, length_nil. lia.
  - intros j Hj. apply Hz. by right.
Qed.
End Refine.

(** ** Properties *)

(** A target that was never monitored: the system before its first round. *)
Record fresh_for {S} (t : Target) (s : Sys S) : Prop := mkFresh {
  fr_quiet : w_faults (s_world s) = [];
  fr_mailer : is_Some (s_mailer s);
  fr_target : is_Some (targets (s_db s) !! ID t);
  fr_incidents : ∀ k r, incidents (s_db s) !! k = Some r → in_target r ≠ ID t;
  fr_mails : s_mails s = []
}.

Lemma fresh_agrees {S} t (s : Sys S) :
  1 ≤ FailThreshold t → fresh_for t s → agrees t (incidents (s_db s)) [] state0 s.
Proof.
  intros Hth [Hq Hm Ht Hno Hms].
  assert (incident_log (ID t) (incidents (s_db s)) = []) as Hlg.
  { unfold incident_log. rewrite rows_nil; [done|]. intros k r Hk. by apply (Hno k). }
  split; rewrite ?Hlg, ?Hms; try done; [by apply describes_nil|].
  intros _. apply rows_nil. intros k r Hk [? _]. by apply (Hno k r).
Qed.

(** C1: with no failing statement, the incidents stored for
    a target are, latest first, exactly the outages of the checks its runner
    made: one per run of failures of threshold length, from that run's first
    failure to the next success, with the cause of the check that completed
    it; every opening and every closing is mailed exactly once, in order, and
    no other target's incident is touched. *)
Theorem incidents_are_outages {S} `{!Mailer S} t l (s : Sys S) :
  1 ≤ FailThreshold t → Z.of_nat (length l) ≤ int64_max →
  (∀ i, i ∈ l → ri_at i ≠ zeroTime) → fresh_for t s →
  let '(_, s') := rounds t state0 l s in
  as_outage <$> incident_log (ID t) (incidents (s_db s')) =
    outages (FailThreshold t) (made l) ∧
  mail_key <$> s_mails s' = incident_log (ID t) (incidents (s_db s')) ≫= due ∧
  ∀ k r, in_target r ≠ ID t →
    incidents (s_db s') !! k = Some r ↔ incidents (s_db s) !! k = Some r.
Proof.
  intros Hth Hlen Hz Hf. pose proof (fresh_agrees _ _ Hth Hf) as Hag.
  pose proof (wp_rounds_agrees t _ l [] state0 s Hth Hlen Hz Hag) as H. unfold wp in H.
  destruct (rounds t state0 l s) as [st' s']. by destruct H.
Qed.

Lemma incidents_are_outages_witness :
  let l := [sample_round (100 * Second) false; sample_round (160 * Second) false;
            sample_round (220 * Second) true; sample_round (280 * Second) false] in
  let '(_, s') := @rounds _ sure_mailer sample_target state0 l sample_sys in
  as_outage <$> incident_log 5 (incidents (s_db s')) = outages 2 (made l) ∧
  mail_key <$> s_mails s' = incident_log 5 (incidents (s_db s')) ≫= due ∧
  ∀ k r, in_target r ≠ 5 →
    incidents (s_db s') !! k = Some r ↔ incidents (s_db sample_sys) !! k = Some r.
Proof.
  intros l. apply (@incidents_are_outages _ sure_mailer sample_target l sample_sys).
  - done.
  - vm_compute. discriminate.
  - intros i Hi. repeat (apply elem_of_cons in Hi as [->|Hi]; [vm_compute; discriminate|]).
    by apply not_elem_of_nil in Hi.
  - split; [done|by eexists|by eexists| |done]. intros k r H. destruct (lookup_empty_Some k r H).
Defined.

(** The specification on that history: one outage of two minutes, ended. *)
Example sample_outages :
  outages 2 (made [sample_round (100 * Second) false; sample_round (160 * Second) false;
                   sample_round (220 * Second) true; sample_round (280 * Second) false]) =
  [mkOutage 100 (Some 220) "timeout"].
Proof. reflexivity. Qed.
