(* ===== verification/Concurrent.v ===== *)
(** * Runners side by side (internal/monitor/scheduler.go)

    [Outages] follows one runner.  Here the runners of all targets work at the
    same time on one database: between any two of its store calls, updates of
    the statistics and mails, a runner may find that the others, handlers and
    maintenance went on.  Proved is that this makes no difference: the
    incidents of every target are the outages of its own checks. *)

From S2P Require Import Prelude GoTime Sql Schema WellFormed Targets Checks Incidents.
From S2P Require Import MonitorState Runner Outages Rollup.

(** ** Code in atomic actions *)

Inductive prog (S A : Type) : Type :=
  | Ret (a : A)
  | Act {X : Type} (m : P S X) (k : X → prog S A).
Arguments Ret {S A}.
Arguments Act {S A X}.

Fixpoint pbind {S A B} (p : prog S A) (f : A → prog S B) : prog S B :=
  match p with
  | Ret a => f a
  | Act m k => Act m (λ x, pbind (k x) f)
  end.

Definition act {S A} (m : P S A) : prog S A := Act m Ret.

Notation "'atom' x '<-' m 'in' k" := (Act m (λ x, k))
  (at level 10, x pattern, k at level 200).

(** All actions at once. *)
Fixpoint exec {S A} (p : prog S A) : P S A :=
  match p with
  | Ret a => mret a
  | Act m k => m ≫= λ x, exec (k x)
  end.

Section Code.
Context {S : Type} `{!Mailer S}.

Definition notify_ (now : Time) (i : Incident) : prog S (res mailerr unit) :=
  atom sent <- send_mail now i in
  match sent with
  | None => Ret (Ok ())
  | Some (Err e) => Ret (Err e)
  | Some (Ok _) => atom _ <- call (MarkMailed (i_ID i) (negb (Open i))) in Ret (Ok ())
  end.

Definition on_down_ (t : Target) (mt : Time) (nst : state) : prog S state :=
  atom r <- call (OpenIncident (ID t) (startedAt nst) (cause nst)) in
  match r with
  | Ok id =>
      pbind (notify_ mt (mkIncident id (ID t) (Name t) (startedAt nst) zeroTime (cause nst) false false))
        (λ _, Ret (set_incident (startedAt nst) id nst))
  | Err ErrIncidentOpen =>
      atom inc <- call (OpenIncidentFor (ID t)) in
      match inc with
      | Ok i => Ret (set_incident (i_StartedAt i) (i_ID i) nst)
      | Err _ => Ret (set_open false nst)
      end
  | Err _ => Ret (set_open false nst)
  end.

Definition on_up_ (t : Target) (at_ mt : Time) (st nst : state) : prog S state :=
  atom r <- call (CloseIncident (incident st) at_) in
  match r with
  | Ok _ | Err ErrNotFound =>
      pbind (notify_ mt (mkIncident (incident st) (ID t) (Name t) (startedAt st) at_ "" false false))
        (λ _, Ret nst)
  | Err _ => Ret (set_open true nst)
  end.

Definition settle_ (t : Target) (st : state) (i : round_in) : prog S state :=
  atom _ <- record (ID t) (ri_at i) (ri_res i) in
  atom _ <- call (InsertCheck (ID t) (ri_at i) (ri_res i)) in
  let '(nst, ev) := next st (OK (ri_res i)) (ErrText (ri_res i)) (ri_at i) (FailThreshold t) in
  match ev with
  | none => Ret nst
  | down => on_down_ t (ri_mail i) nst
  | up => on_up_ t (ri_at i) (ri_mail i) st nst
  end.

Definition round_ (t : Target) (st : state) (i : round_in) : prog S state :=
  if negb (ri_acquired i) then Ret st
  else if ri_cancelled i then Ret st
  else settle_ t st i.

(** Without anything in between it is the code of [Runner]. *)
Lemma exec_bind {A B} (p : prog S A) (f : A → prog S B) s :
  exec (pbind p f) s = (exec p ≫= λ a, exec (f a)) s.
Proof.
  revert s. induction p as [a|X m k IH]; intros s; [done|].
  cbn [pbind exec]. unfold mbind, P_bind. destruct (m s) as [x s']. by rewrite IH.
Qed.

Lemma exec_act {A X} (m : P S X) (k : X → prog S A) s :
  exec (Act m k) s = let '(x, s') := m s in exec (k x) s'.
Proof. done. Qed.

Lemma exec_notify now i s : exec (notify_ now i) s = notify now i s.
Proof.
  unfold notify_, notify. cbn [exec]. unfold mbind, P_bind. destruct (send_mail now i s) as [[[[]|e]|] s']; [|done..].
  done.
Qed.

Lemma exec_round t st i s : exec (round_ t st i) s = round t st i s.
Proof.
  assert (∀ inc mt (nst : state) s, exec (pbind (notify_ mt inc) (λ _, Ret nst)) s =
    (notify mt inc ≫= λ _, mret nst) s) as Hn.
  { intros inc mt nst s0. rewrite exec_bind. unfold mbind, P_bind. rewrite exec_notify. done. }
  assert (∀ mt nst s, exec (on_down_ t mt nst) s = on_down t mt nst s) as Hdown.
  { intros mt nst s0. unfold on_down_, on_down. rewrite exec_act. unfold mbind at 1, P_bind at 1.
    destruct (call _ s0) as [[id|[]] s']; try apply Hn; try done.
    rewrite exec_act. unfold mbind, P_bind. by destruct (call _ s') as [[]]. }
  assert (∀ at_ mt nst s, exec (on_up_ t at_ mt st nst) s = on_up t at_ mt st nst s) as Hup.
  { intros at_ mt nst s0. unfold on_up_, on_up. rewrite exec_act. unfold mbind at 1, P_bind at 1.
    destruct (call _ s0) as [[u|[]] s']; try done; apply Hn. }
  unfold round_, round. destruct (ri_acquired i); [|done]. cbn [negb]. destruct (ri_cancelled i); [done|].
  unfold settle_, settle. rewrite exec_act. unfold mbind at 1, P_bind at 1. destruct (record _ _ _ s) as [u s1].
  rewrite exec_act. unfold mbind at 1, P_bind at 1. destruct (call _ s1) as [r s2].
  destruct (next _ _ _ _ _) as [nst []]; [done|apply Hdown|apply Hup].
Qed.
End Code.

(** ** What a runner relies on *)

(** The mails about the incidents of a target. *)
Definition about (id : Z) (m : Incident * res mailerr unit) : Prop := i_TargetID m.1 = id.

#[export] Instance about_dec id m : Decision (about id m).
Proof. unfold about. apply _. Defined.

Section Rely.
Context {S : Type}.

(** The world without failing statements in which a target is monitored. *)
Record calm (t : Target) (s : Sys S) : Prop := mkCalm {
  ca_quiet : w_faults (s_world s) = [];
  ca_mailer : is_Some (s_mailer s);
  ca_target : is_Some (targets (s_db s) !! ID t)
}.

(** What others do to the runner of [t]: they leave the incidents of [t] and
    the mails about them alone, and do not delete [t]. *)
Record rely (t : Target) (s s' : Sys S) : Prop := mkRely {
  re_calm : calm t s → calm t s';
  re_rows : ∀ k r, in_target r = ID t → incidents (s_db s') !! k = Some r ↔ incidents (s_db s) !! k = Some r;
  re_mails : filter (about (ID t)) (s_mails s') = filter (about (ID t)) (s_mails s)
}.

#[export] Instance rely_preorder t : PreOrder (rely t).
Proof.
  split; [by intros s|]. intros s1 s2 s3 [C1 R1 M1] [C2 R2 M2]. split; [auto| |by rewrite M2].
  intros k r Hr. by rewrite R2, R1.
Qed.

(** The system as the runner of [t] sees it. *)
Definition own (t : Target) (s : Sys S) : Sys S :=
  mkSys (s_world s) (s_stats s) (s_pending s) (s_mailer s) (filter (about (ID t)) (s_mails s)).

(** The incidents of [t] are the outages of the history [l], and the mails
    about them are sent. *)
Definition agr (t : Target) (l : list obs) (st : state) (s : Sys S) : Prop :=
  ∃ inc0, agrees t inc0 l st (own t s).

Lemma incident_log_same id inc inc' :
  (∀ k r, in_target r = id → inc' !! k = Some r ↔ inc !! k = Some r) →
  incident_log id inc' = incident_log id inc.
Proof.
  intros H. unfold incident_log. apply order_by_Permutation_eq; [apply newest_NoDup|].
  apply NoDup_Permutation; [apply rows_NoDup_rows..|].
  intros [k r]. rewrite !elem_of_rows. simpl. split; intros [Hk Hr]; (split; [by apply H|done]).
Qed.

Lemma rows_open_same id inc inc' :
  (∀ k r, in_target r = id → inc' !! k = Some r ↔ inc !! k = Some r) →
  rows (open_for id) inc = [] → rows (open_for id) inc' = [].
Proof.
  intros H Hn. apply rows_nil. intros k r Hk [Ht He]. simpl in *.
  apply H in Hk; [|done]. by eapply rows_open_nil.
Qed.

Lemma agr_calm t l st s : agr t l st s → calm t s.
Proof. intros [inc0 [? ? ? _ _ _ _ _ _]]. by split. Qed.

Lemma agr_rely t l st s s' : rely t s s' → agr t l st s → agr t l st s'.
Proof.
  intros [Hc Hr Hm] Ha. destruct (Hc (agr_calm _ _ _ _ Ha)) as [Q M T].
  destruct Ha as [inc0 [_ _ _ Hd Hlog Ho Hcl Hms _]].
  exists (incidents (s_db s')). pose proof (incident_log_same _ _ _ Hr) as Hl.
  split; cbn [own s_world s_mailer s_mails] in *; unfold s_db in *; cbn [own s_world] in *; rewrite ?Hl, ?Hm; try done.
  intros Hop. eapply rows_open_same; [|by apply Hcl]. exact Hr.
Qed.

(** The same with a mail more than was sent, the one that is due next. *)
Definition due_mail (i : Incident) (s : Sys S) : Sys S :=
  mkSys (s_world s) (s_stats s) (s_pending s) (s_mailer s) ((i, Ok ()) :: s_mails s).

Lemma rely_due t i s s' : rely t s s' → rely t (due_mail i s) (due_mail i s').
Proof.
  intros [Hc Hr Hm]. split; [|done|cbn [due_mail s_mails]; rewrite !filter_cons, Hm; done].
  intros [? ? ?]. by destruct Hc.
Qed.

(** What the others may rely on. *)
Definition spares (t : Target) (s s' : Sys S) : Prop :=
  w_faults (s_world s) = [] → w_faults (s_world s') = [] ∧ ∀ t', ID t' ≠ ID t → rely t' s s'.

(** An interleaved run of a runner's code: every action happens in a state
    the others may have changed, and spares the others. *)
Fixpoint safe (t : Target) {A} (p : prog S A) (Q : A → Sys S → Prop) (s : Sys S) : Prop :=
  match p with
  | Ret a => ∀ s', rely t s s' → Q a s'
  | Act m k => ∀ s', rely t s s' →
      let '(x, s'') := m s' in spares t s' s'' ∧ safe t (k x) Q s''
  end.

Lemma safe_rely t {A} (p : prog S A) Q s s' : rely t s s' → safe t p Q s → safe t p Q s'.
Proof. intros Hr. destruct p; intros Hs s'' Hr'; apply Hs; by etrans. Qed.

Lemma safe_bind t {A B} (p : prog S A) (f : A → prog S B) Q s :
  safe t p (λ a s', safe t (f a) Q s') s → safe t (pbind p f) Q s.
Proof.
  revert s. induction p as [a|X m k IH]; intros s; [intros H; by apply H|].
  intros H s' Hr. specialize (H s' Hr). cbn [pbind]. destruct (m s') as [x s''].
  destruct H as [Hs Hk]. split; [done|]. by apply IH.
Qed.

Lemma safe_mono t {A} (p : prog S A) (Q Q' : A → Sys S → Prop) s :
  (∀ a s', Q a s' → Q' a s') → safe t p Q s → safe t p Q' s.
Proof.
  intros HQ. revert s. induction p as [a|X m k IH]; intros s H s' Hr; [by apply HQ, H|].
  specialize (H s' Hr). destruct (m s') as [x s'']. destruct H as [? Hk]. split; [done|]. by apply IH.
Qed.
End Rely.

(** ** What else goes on

    Handlers and maintenance: their statements leave the incidents of a
    monitored target alone, except that deleting incidents after 400 days is
    only harmless while there are none that old. *)

Section Others.

(** Without failing statements before there are none after. *)
Definition orderly {A} (m : M Db A) : Prop := ∀ w, w_faults w = [] → w_faults (m w).2 = [].

Lemma orderly_stmt {A} (f : Db → res sqlerr (A * Db)) : orderly (stmt f).
Proof.
  intros [db fs] Hw. simpl in Hw. subst fs. change (mkWorld db []) with (quiet db). rewrite stmt_quiet.
  by destruct (f db) as [[]|].
Qed.

Lemma orderly_bind {A B} (m : M Db A) (k : A → M Db B) : orderly m → (∀ a, orderly (k a)) → orderly (bind m k).
Proof.
  intros Hm Hk w Hw. unfold bind. specialize (Hm w Hw). destruct (m w) as [[a|e] w']; [by apply Hk|done].
Qed.

Lemma orderly_tx {A} (m : M Db A) : orderly m → orderly (tx m).
Proof.
  intros Hm w Hw. unfold tx, tick. rewrite Hw. specialize (Hm w Hw). destruct (m w) as [[a|e] w']; [|done].
  simpl in Hm. by rewrite Hm.
Qed.

Lemma orderly_ret {A} (a : A) : orderly (ret a).
Proof. by intros w. Qed.
Lemma orderly_throw {A} e : orderly (throw (A := A) e).
Proof. by intros w. Qed.

Lemma orderly_affected m : orderly m → orderly (affected m).
Proof. intros Hm. apply orderly_bind; [done|]. intros n. case_decide; [apply orderly_throw|apply orderly_ret]. Qed.

Lemma orderly_buckets keys b : orderly (write_buckets keys b).
Proof.
  induction keys as [|k keys IH]; cbn [write_buckets]; [apply orderly_ret|].
  apply orderly_bind; [by destruct (st ← _; _); [apply orderly_ret|apply orderly_throw]|].
  intros row. apply orderly_bind; [apply orderly_stmt|done].
Qed.

(** The database as the runner of [t] needs it. *)
Definition same_for (t : Target) (db0 db : Db) : Prop :=
  (∀ k r, in_target r = ID t → incidents db !! k = Some r ↔ incidents db0 !! k = Some r) ∧
  (is_Some (targets db0 !! ID t) → is_Some (targets db !! ID t)).

Definition harmless_to (t : Target) {A} (m : M Db A) : Prop := orderly m ∧ ∀ db0, keeps (same_for t db0) m.

Lemma harmless_rely {S} t {A} (m : M Db A) (s : Sys S) :
  harmless_to t m → w_faults (s_world s) = [] → rely t s (set_world (m (s_world s)).2 s).
Proof.
  intros [Ho Hk] Hq. destruct (Hk (s_db s) (s_world s)) as [Hi Ht]; [done|].
  split; [intros [? ? ?]; split; [by apply Ho|done|by apply Ht]|done|done].
Qed.

(** A statement that leaves the incidents and the presence of targets. *)
Lemma harmless_stmt t {A} (f : Db → res sqlerr (A * Db)) :
  (∀ db0 db a db', same_for t db0 db → f db = Ok (a, db') → same_for t db0 db') → harmless_to t (stmt f).
Proof. intros Hf. split; [apply orderly_stmt|]. intros db0. by apply keeps_stmt, Hf. Qed.

Lemma harmless_affected t m : harmless_to t m → harmless_to t (affected m).
Proof. intros [? ?]. split; [by apply orderly_affected|]. intros db0. by apply keeps_affected. Qed.

Lemma same_for_insert t db0 db id x :
  same_for t db0 db → same_for t db0 (set_targets <[id := x]> db).
Proof.
  intros [Hi Ht]. split; [done|]. intros H0. cbn. rewrite lookup_insert. case_decide; [by eexists|by apply Ht].
Qed.

Lemma harmless_CreateTarget t now x : harmless_to t (CreateTarget now x).
Proof.
  apply harmless_stmt. intros db0 db a db' Hs H. cbv beta zeta in H. repeat case_match; simplify_eq.
  by apply same_for_insert.
Qed.

Lemma harmless_UpdateTarget t now x : harmless_to t (UpdateTarget now x).
Proof.
  apply harmless_affected, harmless_stmt. intros db0 db a db' Hs H. cbv beta zeta in H.
  repeat case_match; simplify_eq; [|done]. by apply same_for_insert.
Qed.

Lemma harmless_SetPaused t now id p : harmless_to t (SetPaused now id p).
Proof.
  apply harmless_affected, harmless_stmt. intros db0 db a db' Hs H. cbv beta zeta in H.
  repeat case_match; simplify_eq; [|done]. by apply same_for_insert.
Qed.

Lemma harmless_DeleteTarget t id : id ≠ ID t → harmless_to t (DeleteTarget id).
Proof.
  intros Hid. apply harmless_affected, harmless_stmt. intros db0 db a db' [Hi Ht] H. cbv beta in H.
  repeat case_match; simplify_eq; [|done]. split.
  - intros k r Hr. cbn. rewrite map_lookup_filter_Some. rewrite <-(Hi k r Hr). cbn. split; [by intros [? _]|].
    intros ?. split; [done|congruence].
  - intros Hdb. cbn. rewrite lookup_delete_ne by done. by apply Ht.
Qed.

Lemma harmless_Rollup t now : harmless_to t (Rollup now).
Proof.
  split.
  - apply orderly_tx, orderly_bind; [apply orderly_stmt|]. intros rs. cbv beta zeta.
    destruct (foldl _ _ _). apply orderly_buckets.
  - intros db0. apply keeps_tx, keeps_bind; [apply keeps_query|]. intros rs. cbv beta zeta.
    destruct (foldl _ _ _) as [keys b]. clear rs.
    induction keys as [|k keys IH]; cbn [write_buckets]; [apply keeps_ret|].
    apply keeps_bind; [apply keeps_panics|]. intros row. apply keeps_bind; [|done].
    apply keeps_stmt. intros db a db' Hs H. cbv beta in H. by repeat case_match; simplify_eq.
Qed.

(** Retention, as long as no incident of the target ended before its limit. *)
Lemma Prune_rely {S} t now days (s : Sys S) :
  w_faults (s_world s) = [] →
  (∀ k r, incidents (s_db s) !! k = Some r → in_target r = ID t →
     kept_incident (Unix (Add now (- hourlyKeep))) r) →
  rely t s (set_world (Prune now days (s_world s)).2 s).
Proof.
  intros Hq Hk. rewrite (quiet_world _ Hq). unfold Prune. rewrite !bind_quiet, !stmt_quiet, !bind_quiet, !stmt_quiet.
  split; [intros [? ? ?]; by split| |done].
  intros k r Hr. unfold s_db at 1. cbn. rewrite map_lookup_filter_Some. split; [by intros [? _]|].
  intros Hkr. split; [done|]. by apply (Hk k).
Qed.
End Others.

(** ** The actions of a round *)

Section Actions.
Context {S : Type} `{!Mailer S} (t : Target).

Lemma rely_stats t' f (s : Sys S) : rely t' s (set_stats f s).
Proof. split; [|done|done]. intros [? ? ?]. by split. Qed.

(** A statement that leaves incidents and targets alone. *)
Lemma rely_world t' w (s : Sys S) :
  w_faults w = [] → incidents (w_db w) = incidents (s_db s) → targets (w_db w) = targets (s_db s) →
  rely t' s (set_world w s).
Proof.
  unfold s_db. intros Hq Hi Ht. split; [|intros k r _; unfold s_db; cbn; by rewrite Hi|done].
  intros [? ? Htg]. split; [done|done|]. unfold s_db in *. cbn. by rewrite Ht.
Qed.

(** A statement that writes one incident of [t]. *)
Lemma spares_row k r (s : Sys S) :
  in_target r = ID t → (∀ x, incidents (s_db s) !! k = Some x → in_target x = ID t) →
  spares t s (set_world (quiet (set_incidents <[k := r]> (s_db s))) s).
Proof.
  intros Hr Hk Hq. split; [done|]. intros t' Ht'. split; [|intros j x Hx|done].
  - intros [? ? ?]. by split.
  - cbn. rewrite lookup_insert. case_decide as Hj; [|done]. subst j. split.
    + intros [= <-]. congruence.
    + intros Hx'. apply Hk in Hx'. congruence.
Qed.

Lemma calm_world (s : Sys S) : calm t s → s_world s = quiet (s_db s).
Proof. intros [Hq _ _]. by apply quiet_world. Qed.

(** The row of an incident of [t]. *)
Definition has_row (k : Z) (s : Sys S) : Prop := ∃ x, incidents (s_db s) !! k = Some x ∧ in_target x = ID t.

Lemma has_row_rely k s s' : rely t s s' → has_row k s → has_row k s'.
Proof. intros [_ Hr _] (x & Hx & Ht). exists x. split; [by apply Hr|done]. Qed.

Lemma agrees_keys inc0 l st (s s' : Sys S) :
  s_world s' = s_world s → is_Some (s_mailer s') → mail_key <$> s_mails s' = mail_key <$> s_mails s →
  agrees t inc0 l st s → agrees t inc0 l st s'.
Proof.
  intros Hw Hm Hk [Q _ T D L O C M F]. unfold s_db in *. split; unfold s_db; rewrite ?Hw, ?Hk; done.
Qed.

Lemma agr_sent l st m i r (s : Sys S) :
  agr t l st (due_mail i s) → agr t l st (set_mailer (Some m) i r s).
Proof.
  intros [inc0 H]. exists inc0. eapply agrees_keys; [| | |exact H]; [done|by eexists|].
  cbn [own due_mail set_mailer s_mails]. destruct (decide (about (ID t) (i, r))).
  - by rewrite !filter_cons_True by done.
  - by rewrite !filter_cons_False by done.
Qed.

Lemma spares_sent m i r (s : Sys S) :
  i_TargetID i = ID t → spares t s (set_mailer (Some m) i r s).
Proof.
  intros Hi Hq. split; [done|]. intros t' Ht'. split; [|done|].
  - intros [? ? ?]. split; [done|by eexists|done].
  - cbn [set_mailer s_mails]. rewrite filter_cons_False; [done|]. unfold about. cbn [fst]. congruence.
Qed.

Lemma safe_notify l st now i (s : Sys S) :
  i_TargetID i = ID t → has_row (i_ID i) s → agr t l st (due_mail i s) →
  safe t (notify_ now i) (λ _ s', agr t l st s') s.
Proof.
  intros Hi Hrow Ha s1 Hr. apply (has_row_rely _ _ _ Hr) in Hrow.
  apply (agr_rely _ _ _ _ _ (rely_due t i s s1 Hr)) in Ha.
  destruct (agr_calm _ _ _ _ Ha) as [Hq [m Hm] _]. cbn [due_mail s_mailer s_world] in *.
  unfold send_mail. rewrite Hm. destruct (mail now i m) as [r m'].
  split; [by apply spares_sent|]. apply (agr_sent _ _ m' _ r) in Ha.
  destruct r as [[]|e]; [|intros s2 Hr2; by eapply agr_rely].
  intros s2 Hr2. apply (agr_rely _ _ _ _ _ Hr2) in Ha. assert (has_row (i_ID i) s2) as (x & Hx & Hxt).
  { by apply (has_row_rely _ _ _ Hr2). }
  destruct (agr_calm _ _ _ _ Ha) as [Hq2 Hm2 Ht2]. unfold call.
  destruct (MarkMailed (i_ID i) (negb (Open i)) (s_world s2)) as [y w] eqn:E.
  pose proof (MarkMailed_effect _ _ _ _ _ E) as He.
  rewrite (quiet_world _ Hq2) in E. apply MarkMailed_quiet in E as Hw.
  assert (w = quiet (w_db w)) as Hwq by (unfold quiet; destruct w; simpl in *; by subst).
  destruct He as [He|(x' & Hx' & He)].
  - split; [intros _; split; [done|intros t' _; apply rely_world; rewrite ?He; done]|].
    intros s3 Hr3. eapply agr_rely; [exact Hr3|]. eapply agr_rely; [|exact Ha].
    apply rely_world; rewrite ?He; done.
  - fold (s_db s2) in Hx', He. rewrite Hx in Hx'. injection Hx' as <-. rewrite Hwq, He. split.
    { apply spares_row; [done|]. intros x' Hx'. congruence. }
    intros s3 Hr3. eapply agr_rely; [exact Hr3|]. destruct Ha as [inc0 Ha]. exists inc0.
    eapply (agrees_marked t inc0 l st (own t s2)); [done|done|done|exact Hx|done|done|exact Ha].
Qed.

Lemma own_mails i (s : Sys S) :
  i_TargetID i = ID t → s_mails (own t (due_mail i s)) = (i, Ok ()) :: s_mails (own t s).
Proof. intros Hi. cbn [own due_mail s_mails]. by rewrite filter_cons_True. Qed.

Lemma safe_on_down l st nst o mt (s : Sys S) :
  1 ≤ FailThreshold t → Z.of_nat (length l) < int64_max →
  agr t l st s → step_obs (FailThreshold t) st o = (nst, down) →
  safe t (on_down_ t mt nst) (λ st' s', agr t (l ++ [o]) st' s') s.
Proof.
  intros Hth Hlen Ha Hst s1 Hr1. apply (agr_rely _ _ _ _ _ Hr1) in Ha.
  pose proof (agr_calm _ _ _ _ Ha) as Hcalm. destruct (Hcalm) as [_ Hm Htg]. destruct Ha as [inc0 Ha].
  assert (open st = false) as Hos.
  { revert Hst. unfold step_obs, next. destruct (o_ok o), (open st); naive_solver. }
  unfold call. rewrite (calm_world _ Hcalm), OpenIncident_quiet by (exact Htg || by apply (ag_closed _ _ _ _ _ Ha)).
  split; [apply spares_row; [done|]; intros x Hx; by rewrite next_id_fresh in Hx|].
  apply safe_bind. eapply safe_mono; [|apply (safe_notify (l ++ [o]) (set_incident (startedAt nst)
    (next_id (incidents (s_db s1))) nst))]; [|done| |].
  - intros [] s2 H2 s3 Hr3; by eapply agr_rely.
  - eexists. unfold s_db at 1. cbn. by rewrite lookup_insert_eq.
  - exists inc0. eapply (agrees_down t inc0 l st nst (own t s1) _ o (s_db s1)); try done.
    by rewrite own_mails.
Qed.

Lemma safe_on_up l st nst o mt (s : Sys S) :
  1 ≤ FailThreshold t → Z.of_nat (length l) < int64_max → o_at o ≠ zeroTime →
  agr t l st s → step_obs (FailThreshold t) st o = (nst, up) →
  safe t (on_up_ t (o_at o) mt st nst) (λ st' s', agr t (l ++ [o]) st' s') s.
Proof.
  intros Hth Hlen Hz Ha Hst s1 Hr1. apply (agr_rely _ _ _ _ _ Hr1) in Ha.
  pose proof (agr_calm _ _ _ _ Ha) as Hcalm. destruct (Hcalm) as [_ Hm Htg]. destruct Ha as [inc0 Ha].
  assert (open st = true) as Hos.
  { revert Hst. unfold step_obs, next. destruct (o_ok o), (open st); try case_match; naive_solver. }
  destruct (ag_open _ _ _ _ _ Ha Hos) as (r0 & rest & Hlg & Hend & _).
  assert (incidents (s_db s1) !! incident st = Some r0 ∧ in_target r0 = ID t) as [Hr Hrt].
  { rewrite <-elem_of_incident_log. change (s_db s1) with (s_db (own t s1)). rewrite Hlg. left. }
  unfold call. rewrite (calm_world _ Hcalm), (CloseIncident_quiet _ _ _ r0) by done.
  split; [apply spares_row; [done|]; intros x Hx; congruence|].
  apply safe_bind. eapply safe_mono; [|apply (safe_notify (l ++ [o]) nst)]; [|done| |].
  - intros [] s2 H2 s3 Hr3; by eapply agr_rely.
  - eexists. unfold s_db at 1. cbn. by rewrite lookup_insert_eq.
  - exists inc0. eapply (agrees_up t inc0 l st nst (own t s1) _ o (s_db s1)); try done.
    + rewrite own_mails by done. csimpl. unfold mail_key at 1. cbn [fst i_ID]. unfold Open, IsZero. cbn [i_EndedAt].
      by rewrite bool_decide_false by done.
    + intros r Hr'. rewrite Hr in Hr'. by injection Hr' as <-.
Qed.

Lemma safe_round l st i (s : Sys S) :
  1 ≤ FailThreshold t → Z.of_nat (length l) < int64_max → ri_at i ≠ zeroTime →
  agr t (made l) st s →
  safe t (round_ t st i) (λ st' s', agr t (made (l ++ [i])) st' s') s.
Proof.
  intros Hth Hlen Hz Ha. rewrite made_snoc. unfold round_.
  destruct (ri_acquired i), (ri_cancelled i); simpl; try (intros s' Hr; by eapply agr_rely).
  assert (Hlen' : Z.of_nat (length (made l)) < int64_max).
  { unfold made, kept. rewrite length_fmap. pose proof (length_filter
      (λ i, ri_acquired i = true ∧ ri_cancelled i = false) l). lia. }
  intros s1 Hr1. apply (agr_rely _ _ _ _ _ Hr1) in Ha. split; [intros Hq; split; [done|intros t' _; apply rely_stats]|].
  apply (agr_rely _ _ _ _ _ (rely_stats t (λ m,
    <[ID t := recorded (ri_at i) (ri_res i) (default stat0 (m !! ID t))]> m) s1)) in Ha.
  intros s2 Hr2. apply (agr_rely _ _ _ _ _ Hr2) in Ha. pose proof (agr_calm _ _ _ _ Ha) as Hcalm.
  unfold call. destruct (InsertCheck (ID t) (ri_at i) (ri_res i) (s_world s2)) as [x w] eqn:E.
  rewrite (calm_world _ Hcalm) in E. apply InsertCheck_quiet in E as (Hq & Hi & Htg).
  split; [intros _; split; [done|intros t' _; by apply rely_world]|].
  apply (agr_rely _ _ _ _ _ (rely_world t w s2 Hq Hi Htg)) in Ha.
  change (next st (OK (ri_res i)) (ErrText (ri_res i)) (ri_at i) (FailThreshold t))
    with (step_obs (FailThreshold t) st (obs_of i)).
  destruct (step_obs (FailThreshold t) st (obs_of i)) as [nst ev] eqn:Hst. destruct ev.
  - intros s3 Hr3. apply (agr_rely _ _ _ _ _ Hr3) in Ha. destruct (agr_calm _ _ _ _ Ha) as [Hq3 _ _].
    destruct Ha as [inc0 Ha]. exists inc0.
    pose proof (agrees_none t inc0 (made l) st _ (own t s3) (obs_of i) Hth Hlen' Ha) as Hn. rewrite Hst in Hn.
    by apply Hn.
  - by eapply safe_on_down.
  - by eapply (safe_on_up _ _ _ (obs_of i)).
Qed.
End Actions.

(** ** All runners *)

Section Pool.
Context {S : Type} `{!Mailer S}.

(** A runner between rounds, or in one with the rest of its code. *)
Inductive place : Type := Between (st : state) | Within (i : round_in) (p : prog S state).

Record runner : Type := mkRunner { rn_target : Target; rn_done : list round_in; rn_at : place }.

Definition pool : Type := gmap Z runner * Sys S.

(** A target nothing is recorded about. *)
Record unrecorded (t : Target) (s : Sys S) : Prop := mkUnrecorded {
  un_calm : calm t s;
  un_threshold : 1 ≤ FailThreshold t;
  un_incidents : ∀ k r, incidents (s_db s) !! k = Some r → in_target r ≠ ID t;
  un_mails : filter (about (ID t)) (s_mails s) = []
}.

(** One action of one runner, or of anything else; a runner starts with a
    target nothing is recorded about, and makes fewer than 2^63 rounds. *)
Inductive pstep : pool → pool → Prop :=
  | p_new rs s t :
      rs !! ID t = None → unrecorded t s →
      pstep (rs, s) (<[ID t := mkRunner t [] (Between state0)]> rs, s)
  | p_begin rs s id t done_ st i :
      rs !! id = Some (mkRunner t done_ (Between st)) →
      Z.of_nat (length done_) < int64_max → ri_at i ≠ zeroTime →
      pstep (rs, s) (<[id := mkRunner t done_ (Within i (round_ t st i))]> rs, s)
  | p_act rs s id t done_ i X (m : P S X) k x s' :
      rs !! id = Some (mkRunner t done_ (Within i (Act m k))) → m s = (x, s') →
      pstep (rs, s) (<[id := mkRunner t done_ (Within i (k x))]> rs, s')
  | p_end rs s id t done_ i st :
      rs !! id = Some (mkRunner t done_ (Within i (Ret st))) →
      pstep (rs, s) (<[id := mkRunner t (done_ ++ [i]) (Between st)]> rs, s)
  | p_other rs s s' :
      w_faults (s_world s') = [] →
      (∀ id r, rs !! id = Some r → rely (rn_target r) s s') → pstep (rs, s) (rs, s').

(** Handlers and maintenance take steps of the pool. *)
Lemma p_statement rs (s : Sys S) {A} (m : M Db A) :
  w_faults (s_world s) = [] → orderly m → (∀ id r, rs !! id = Some r → harmless_to (rn_target r) m) →
  pstep (rs, s) (rs, set_world (m (s_world s)).2 s).
Proof.
  intros Hq Ho Hm. apply p_other; [by apply Ho|]. intros id r Hid. apply harmless_rely; [by eapply Hm|done].
Qed.

Definition runner_ok (s : Sys S) (id : Z) (r : runner) : Prop :=
  ID (rn_target r) = id ∧ 1 ≤ FailThreshold (rn_target r) ∧
  match rn_at r with
  | Between st => agr (rn_target r) (made (rn_done r)) st s
  | Within i p => safe (rn_target r) p (λ st s', agr (rn_target r) (made (rn_done r ++ [i])) st s') s
  end.

Definition pool_ok (p : pool) : Prop := w_faults (s_world p.2) = [] ∧ ∀ id r, p.1 !! id = Some r → runner_ok p.2 id r.

Lemma runner_rely s s' id r : rely (rn_target r) s s' → runner_ok s id r → runner_ok s' id r.
Proof.
  intros Hr (Hid & Hth & Hat). split_and!; [done|done|]. destruct (rn_at r).
  - by eapply agr_rely.
  - by eapply safe_rely.
Qed.

Lemma unrecorded_agr t s : unrecorded t s → agr t [] state0 s.
Proof.
  intros [[Hq Hm Ht] Hth Hno Hms]. exists (incidents (s_db s)).
  assert (incident_log (ID t) (incidents (s_db (own t s))) = []) as Hlg.
  { unfold incident_log. rewrite rows_nil; [done|]. intros k r Hk. by apply (Hno k). }
  split; rewrite ?Hlg; try done; [by apply describes_nil| |cbn; by rewrite Hms].
  intros _. apply rows_nil. intros k r Hk [? _]. by apply (Hno k r).
Qed.

(** A step of the runner [id], in the eyes of the others and its own. *)
Lemma pool_update rs s s' id r :
  pool_ok (rs, s) → w_faults (s_world s') = [] →
  (∀ t', ID t' ≠ id → rely t' s s') → runner_ok s' id r → pool_ok (<[id := r]> rs, s').
Proof.
  intros [_ Hok] Hq Hr Hid. split; [done|]. intros j r'. cbn [fst snd]. rewrite lookup_insert_Some.
  intros [[<- <-]|[Hne Hj]]; [done|]. apply (runner_rely s); [|by apply Hok].
  apply Hr. destruct (Hok j r' Hj) as [-> _]. done.
Qed.

Lemma pstep_ok p p' : pool_ok p → pstep p p' → pool_ok p'.
Proof.
  intros Hok Hst. pose proof Hok as [Hq Hrs].
  destruct Hst as [rs s t Hnew Hun|rs s id t d st i Hid Hlen Hz|rs s id t d i X m k x s' Hid Hm|rs s id t d i st Hid|rs s s' Hq' Hr];
    cbn [fst snd] in *; try specialize (Hrs id _ Hid) as Hme; try destruct Hme as (E & Hth & Hat);
    cbn [rn_target rn_done rn_at] in *.
  - apply (pool_update rs s s); [done|done|done|]. split_and!; [done|apply Hun|]. by apply unrecorded_agr.
  - apply (pool_update rs s s); [done|done|done|]. split_and!; [done|done|]. by apply safe_round.
  - specialize (Hat s (reflexivity s)). rewrite Hm in Hat. destruct Hat as [Hsp Hk].
    destruct (Hsp Hq) as [Hq' Hr]. apply (pool_update rs s s'); [done|done| |by split_and!].
    intros t' Ht'. apply Hr. by rewrite E.
  - apply (pool_update rs s s); [done|done|done|]. split_and!; [done|done|]. by apply (Hat s (reflexivity s)).
  - split; [done|]. intros id r Hid. apply (runner_rely s); [by eapply Hr|by apply Hrs].
Qed.

Lemma psteps_ok p p' : pool_ok p → rtc pstep p p' → pool_ok p'.
Proof. intros Hok. induction 1 as [|p1 p2 p3 Hst _ IH]; [done|]. apply IH. by eapply pstep_ok. Qed.

(** Interleavings that can be computed. *)
Inductive event : Type := ENew (t : Target) | EBegin (id : Z) (i : round_in) | EAct (id : Z) | EEnd (id : Z).

Definition no_incidents (id : Z) (inc : gmap Z IncidentRow) : bool :=
  forallb (λ r, bool_decide (in_target r.2 ≠ id)) (map_to_list inc).

Definition unrecorded_now (t : Target) (s : Sys S) : bool :=
  match w_faults (s_world s) with [] => true | _ => false end && bool_decide (1 ≤ FailThreshold t) &&
  match s_mailer s with Some _ => true | None => false end &&
  match targets (s_db s) !! ID t with Some _ => true | None => false end &&
  no_incidents (ID t) (incidents (s_db s)) &&
  match filter (about (ID t)) (s_mails s) with [] => true | _ => false end.

Definition apply_event (e : event) (p : pool) : option pool :=
  let '(rs, s) := p in
  match e with
  | ENew t =>
      match rs !! ID t with
      | None => if unrecorded_now t s then Some (<[ID t := mkRunner t [] (Between state0)]> rs, s) else None
      | Some _ => None
      end
  | EBegin id i =>
      match rs !! id with
      | Some (mkRunner t l (Between st)) =>
          if decide (Z.of_nat (length l) < int64_max ∧ ri_at i ≠ zeroTime)
          then Some (<[id := mkRunner t l (Within i (round_ t st i))]> rs, s) else None
      | _ => None
      end
  | EAct id =>
      match rs !! id with
      | Some (mkRunner t l (Within i (Act m k))) =>
          let '(x, s') := m s in Some (<[id := mkRunner t l (Within i (k x))]> rs, s')
      | _ => None
      end
  | EEnd id =>
      match rs !! id with
      | Some (mkRunner t l (Within i (Ret st))) => Some (<[id := mkRunner t (l ++ [i]) (Between st)]> rs, s)
      | _ => None
      end
  end.

Fixpoint apply_events (es : list event) (p : pool) : option pool :=
  match es with
  | [] => Some p
  | e :: es => p ← apply_event e p; apply_events es p
  end.

Lemma unrecorded_now_ok t s : unrecorded_now t s = true → unrecorded t s.
Proof.
  unfold unrecorded_now. intros H. repeat (apply andb_true_iff in H as [H ?]).
  split; [split| | |].
  - by destruct (w_faults (s_world s)).
  - by destruct (s_mailer s); [eexists|].
  - by destruct (targets (s_db s) !! ID t); [eexists|].
  - by eapply bool_decide_eq_true.
  - intros k r Hk. match goal with H : no_incidents _ _ = true |- _ => rename H into Hn end.
    unfold no_incidents in Hn. rewrite forallb_forall in Hn.
    specialize (Hn (k, r)). rewrite bool_decide_eq_true in Hn. apply Hn, list_elem_of_In. by apply elem_of_map_to_list.
  - by destruct (filter _ (s_mails s)).
Qed.

Lemma apply_event_step e p p' : apply_event e p = Some p' → pstep p p'.
Proof.
  destruct p as [rs s]. destruct e as [t|id i|id|id]; cbn [apply_event]; intros H.
  - destruct (rs !! ID t) eqn:E; [done|]. destruct (unrecorded_now t s) eqn:Hu; [|done].
    injection H as <-. by apply p_new; [|apply unrecorded_now_ok].
  - destruct (rs !! id) as [[t l [st|]]|] eqn:E; [|done..]. case_decide as Hd; [|done].
    injection H as <-. destruct Hd. by apply p_begin.
  - destruct (rs !! id) as [[t l [|i [|X m k]]]|] eqn:E; [done|done| |done].
    destruct (m s) as [x s'] eqn:Em. injection H as <-. by eapply p_act.
  - destruct (rs !! id) as [[t l [|i [st|]]]|] eqn:E; [done| |done..]. injection H as <-. by apply p_end.
Qed.

Lemma apply_events_steps es p p' : apply_events es p = Some p' → rtc pstep p p'.
Proof.
  revert p. induction es as [|e es IH]; intros p; cbn [apply_events]; [by intros [= <-]|].
  destruct (apply_event e p) as [p1|] eqn:E; [|done]. intros H. eapply rtc_l; [by eapply apply_event_step|by apply IH].
Qed.

(** C2: runners at work side by side do not disturb each
    other.  However the single store calls, updates and mails of their rounds,
    and whatever else spares their incidents, are interleaved, as long as no
    statement fails: between two rounds of a runner the incidents of its target
    are exactly the outages of the checks it made, and the mails about them
    are the ones due, in order. *)
Theorem concurrent_outages s0 rs s id t l st :
  w_faults (s_world s0) = [] → rtc pstep (∅, s0) (rs, s) →
  rs !! id = Some (mkRunner t l (Between st)) →
  as_outage <$> incident_log id (incidents (s_db s)) = outages (FailThreshold t) (made l) ∧
  mail_key <$> filter (about id) (s_mails s) = incident_log id (incidents (s_db s)) ≫= due.
Proof.
  intros Hq Hst Hid. assert (pool_ok (rs, s)) as [_ Hok].
  { eapply psteps_ok; [|done]. split; [done|]. intros ? ? Hj. destruct (lookup_empty_Some _ _ Hj). }
  destruct (Hok id _ Hid) as (E & _ & inc0 & Hag). cbn [rn_target rn_done] in *. rewrite <-E. by destruct Hag.
Qed.
End Pool.

(** Two targets go down at the same time, every action of one between two of
    the other; then the first recovers. *)
Definition sample_at (id : Z) : Target :=
  mkTarget id "web" KindHTTP "https://example.org" "200" "" "" 60 10000 1 true false 0 0 0.

Definition two_targets : Sys unit :=
  mkSys (quiet (set_targets (λ m, <[5 := sample_at 5]> (<[6 := sample_at 6]> m)) empty_db)) ∅ ∅ (Some ()) [].

Definition interleaved : list event :=
  [ENew (sample_at 5); ENew (sample_at 6);
   EBegin 5 (sample_round (100 * Second) false); EBegin 6 (sample_round (101 * Second) false)] ++
  concat (replicate 5 [EAct 5; EAct 6]) ++
  [EEnd 6; EEnd 5; EBegin 5 (sample_round (160 * Second) true)] ++ replicate 5 (EAct 5) ++ [EEnd 5].

Lemma concurrent_outages_witness :
  let l := [sample_round (100 * Second) false; sample_round (160 * Second) true] in
  ∃ s : Sys unit, as_outage <$> incident_log 5 (incidents (s_db s)) = outages 1 (made l) ∧
    outages 1 (made l) = [mkOutage 100 (Some 160) "timeout"] ∧
    mail_key <$> filter (about 5) (s_mails s) = incident_log 5 (incidents (s_db s)) ≫= due ∧
    length (s_mails s) = 3%nat.
Proof.
  intros l.
  destruct (@apply_events unit sure_mailer interleaved (∅, two_targets)) as [[rs s]|] eqn:E; [|discriminate].
  exists s.
  assert (∃ st, rs !! 5 = Some (mkRunner (sample_at 5) l (Between st))) as [st Hid].
  { vm_compute in E. injection E as <- <-. eexists. vm_compute. reflexivity. }
  destruct (@concurrent_outages unit sure_mailer two_targets rs s 5 (sample_at 5) l st eq_refl
    (apply_events_steps _ _ _ E) Hid) as [H1 H2].
  split; [exact H1|]. split; [vm_compute; reflexivity|]. split; [exact H2|].
  vm_compute in E. injection E as <- <-. reflexivity.
Defined.
