(* ===== verification/Restart.v ===== *)
(** * Restarting the monitor

    A runner that restores its state from the database behaves as the one
    that was stopped: [Manager.restore] loses nothing the detector needs.
    The two states are related by [sim], a bisimulation for [next]. *)

From S2P Require Import Prelude GoTime Sql Schema WellFormed Targets Checks Incidents.
From S2P Require Import MonitorState Runner Outages.

(** ** Equivalent detector states *)

(** Indistinguishable from now on: an open outage hides the count of failures,
    and instants agree to the second, which is what the tables keep. *)
Record sim (st st' : state) : Prop := mkSim {
  sim_open : open st = open st';
  sim_started : open st = true → Unix (startedAt st) = Unix (startedAt st');
  sim_streak : open st = false →
    fails st = fails st' ∧ cause st = cause st' ∧
    (fails st ≠ 0 → Unix (firstFail st) = Unix (firstFail st'))
}.

(** One check: the same event, and equivalent states again. *)
Lemma sim_step threshold st st' o :
  sim st st' →
  (step_obs threshold st o).2 = (step_obs threshold st' o).2 ∧
  sim (step_obs threshold st o).1 (step_obs threshold st' o).1.
Proof.
  intros [Ho Hs Hf]. unfold step_obs, next. rewrite <-Ho.
  destruct (o_ok o); [split; [by destruct (open st)|by split]|]. destruct (open st) eqn:Hop; simpl.
  - split; [done|]. split; simpl; [done|by auto|congruence].
  - destruct (Hf eq_refl) as (Hn & Hc & Hff). rewrite <-Hn.
    assert (Unix (if decide (fails st = 0) then o_at o else firstFail st) =
            Unix (if decide (fails st = 0) then o_at o else firstFail st')) as Hfirst.
    { case_decide; auto. }
    destruct (bool_decide (threshold ≤ _)); simpl; (split; [done|]); split; simpl; auto; congruence.
Qed.

Lemma sim_run threshold st st' l :
  sim st st' →
  (run_from threshold st l).2 = (run_from threshold st' l).2 ∧
  sim (run_from threshold st l).1 (run_from threshold st' l).1.
Proof.
  revert st st'. induction l as [|o l IH]; intros st st' Hsim; simpl; [done|].
  destruct (sim_step threshold st st' o Hsim) as [He Hs].
  destruct (step_obs threshold st o) as [s1 e1], (step_obs threshold st' o) as [s2 e2].
  simpl in *. destruct (IH s1 s2 Hs) as [Hes Hs'].
  destruct (run_from threshold s1 l), (run_from threshold s2 l). simpl in *. by subst.
Qed.

(** ** Facts about histories *)

Definition obs_before (o o' : obs) : Prop := Unix (o_at o) < Unix (o_at o').

Lemma StronglySorted_snoc {A} (R : A → A → Prop) l x :
  StronglySorted R (l ++ [x]) ↔ StronglySorted R l ∧ ∀ y, y ∈ l → R y x.
Proof.
  induction l as [|a l IH]; simpl.
  - split; [|repeat constructor]. split; [constructor|]. by intros y Hy%not_elem_of_nil.
  - split.
    + intros Hs. apply StronglySorted_inv in Hs as [Hs Ha].
      apply IH in Hs as [Hs Hx]. rewrite list.Forall_forall in Ha. split.
      * constructor; [done|]. apply list.Forall_forall. intros y Hy. apply Ha, elem_of_app. by left.
      * intros y [->|Hy]%elem_of_cons; [|by apply Hx]. apply Ha, elem_of_app. right. left.
    + intros [Hs Hx]. apply StronglySorted_inv in Hs as [Hs Ha]. constructor.
      * apply IH. split; [done|]. intros y Hy. apply Hx. by right.
      * apply Forall_app. split; [done|]. repeat constructor. apply Hx. left.
Qed.

(** The run of failures comes after every success. *)
Lemma streak_after l o o' :
  StronglySorted obs_before l → o ∈ l → o_ok o = true → o' ∈ streak l → obs_before o o'.
Proof.
  induction l as [|x l IH] using rev_ind; [by intros _ ?%not_elem_of_nil|].
  rewrite StronglySorted_snoc, streak_snoc, elem_of_app.
  intros [Hs Hx] Ho Hok Ho'. destruct (o_ok x) eqn:Hxok; [by apply not_elem_of_nil in Ho'|].
  assert (o ∈ l) as Hol. { destruct Ho as [Ho|Ho%list_elem_of_singleton]; [done|congruence]. }
  apply elem_of_cons in Ho' as [->|Ho']; [by apply Hx|by apply IH].
Qed.

(** An outage ended with a successful check. *)
Lemma outages_ended threshold l x e :
  x ∈ outages threshold l → out_to x = Some e →
  ∃ o, o ∈ l ∧ o_ok o = true ∧ e = Unix (o_at o).
Proof.
  induction l as [|o l IH] using rev_ind; [by intros ?%not_elem_of_nil|].
  rewrite outages_snoc. unfold outage_step, event_of. intros Hx He.
  assert (Hold : x ∈ outages threshold l → ∃ o', o' ∈ l ++ [o] ∧ o_ok o' = true ∧ e = Unix (o_at o')).
  { intros Hxl. destruct (IH Hxl He) as (o' & ? & ? & ?). exists o'.
    by rewrite elem_of_app; auto. }
  destruct (o_ok o) eqn:Hok; case_bool_decide; auto.
  - destruct (outages threshold l) as [|y outs]; [by apply not_elem_of_nil in Hx|].
    apply elem_of_cons in Hx as [->|Hx]; [|by apply Hold; right].
    simpl in He. simplify_eq. exists o. split; [|done]. apply elem_of_app. right. left.
  - apply elem_of_cons in Hx as [->|Hx]; [done|auto].
Qed.

(** While a run of failures is long enough, its outage is the latest one. *)
Lemma outages_current threshold l :
  1 ≤ threshold → threshold ≤ streak_len l →
  ∃ c rest, outages threshold l = mkOutage (Unix (streak_from l)) None c :: rest.
Proof.
  intros Hth. induction l as [|o l IH] using rev_ind; intros Hle.
  { unfold streak_len in Hle. simpl in Hle. lia. }
  rewrite streak_len_snoc in Hle. rewrite outages_snoc. unfold outage_step, event_of.
  destruct (o_ok o) eqn:Hok; [lia|]. case_bool_decide as Heq; [by eauto|].
  assert (streak_from (l ++ [o]) = streak_from l) as ->; [|apply IH; lia].
  unfold streak_from, streak_len in *. rewrite streak_snoc, Hok.
  destruct (streak l) as [|x k]; [simpl in *; lia|].
  rewrite !last_cons. by destruct (last k).
Qed.

(** The run of failures among rounds, latest first. *)
Fixpoint failing (l : list round_in) : list round_in :=
  match l with
  | [] => []
  | i :: l => if OK (ri_res i) then [] else i :: failing l
  end.

Lemma streak_failing l : streak (obs_of <$> l) = obs_of <$> failing (reverse l).
Proof.
  induction l as [|i l IH] using rev_ind; [done|].
  rewrite fmap_app, reverse_app. csimpl. rewrite streak_snoc. simpl.
  by destruct (OK (ri_res i)); csimpl; rewrite ?IH.
Qed.

(** ** The restored count *)

Definition check_of (i : round_in) : Check := mkCheck (fromUnix (Unix (ri_at i))) (ri_res i).

Lemma count_fails_failing end_ n l st :
  (length (failing l) < n)%nat →
  0 ≤ fails st → fails st + Z.of_nat (length (failing l)) ≤ int64_max →
  (∀ i, i ∈ failing l → end_ < fromUnix (Unix (ri_at i)) ∧ ErrText (ri_res i) ≠ "") →
  let st' := count_fails end_ (check_of <$> take n l) st in
  fails st' = fails st + Z.of_nat (length (failing l)) ∧
  firstFail st' = default (firstFail st) ((λ i, fromUnix (Unix (ri_at i))) <$> last (failing l)) ∧
  cause st' = if decide (cause st = "") then default "" ((λ i, ErrText (ri_res i)) <$> head (failing l))
              else cause st.
Proof.
  revert n st. induction l as [|i l IH]; intros n st Hn H0 Hmax Hf.
  { simpl in *. rewrite take_nil. simpl. split_and!; [lia|done|by case_decide]. }
  simpl in *. destruct n as [|n]; [simpl in Hn; lia|]. csimpl.
  destruct (OK (ri_res i)) eqn:Hok; simpl.
  { split_and!; [lia|done|by case_decide]. }
  destruct (Hf i) as [Hend Herr]; [left|].
  unfold After. rewrite bool_decide_true by done. simpl.
  rewrite length_cons in Hmax, Hn.
  rewrite wrap64_id by (unfold in_int64, int64_min, int64_max in *; lia).
  destruct (IH n (mkState (fails st + 1) (fromUnix (Unix (ri_at i)))
    (if decide (cause st = "") then ErrText (ri_res i) else cause st) (open st) (startedAt st)
    (incident st))) as (IHf & IHff & IHc); simpl.
  - lia.
  - lia.
  - lia.
  - intros j Hj. apply Hf. by right.
  - simpl in *. rewrite IHf, IHff, IHc. split_and!; [lia| |].
    + rewrite last_cons. by destruct (last (failing l)).
    + repeat case_decide; done.
Qed.

Lemma max_ended_elem l e : max_ended l = Some e → ∃ r, r ∈ l ∧ in_ended r.2 = Some e.
Proof.
  revert e. induction l as [|r l IH]; intros e He; [done|]. simpl in He.
  destruct (in_ended r.2) as [e1|] eqn:Hr.
  - destruct (max_ended l) as [e2|] eqn:Hm; simplify_eq.
    + destruct (Z.max_spec e1 e2) as [[_ ->]|[_ ->]].
      * destruct (IH e2 eq_refl) as (x & ? & ?). exists x. by split; [right|].
      * exists r. by split; [left|].
    + exists r. by split; [left|].
  - destruct (IH e He) as (x & ? & ?). exists x. by split; [right|].
Qed.

(** ** The stored checks *)

(** The row a round writes. *)
Definition row_of (t : Target) (i : round_in) : CheckRow := check_row (ID t) (ri_at i) (ri_res i).

Lemma scan_row_of t i : scanCheck (row_of t i) = check_of i.
Proof. apply scanCheck_row. Qed.

Lemma elem_of_newest_first id (m : gmap Z CheckRow) c :
  c ∈ newest_first id m ↔ ∃ k, m !! k = Some c ∧ ck_target c = id.
Proof.
  unfold newest_first. rewrite list_elem_of_fmap. split.
  - intros ([k x] & -> & Hx). exists k. by rewrite elem_of_order_by, elem_of_rows in Hx.
  - intros (k & ? & ?). exists (k, c). by rewrite elem_of_order_by, elem_of_rows.
Qed.

(** Only [InsertCheck] writes the table of checks. *)
Definition checks_are (c : gmap Z CheckRow) (db : Db) : Prop := checks db = c.

Lemma keeps_checks_incidents c :
  (∀ id up, keeps (checks_are c) (MarkMailed id up)) ∧
  (∀ id at_ x, keeps (checks_are c) (OpenIncident id at_ x)) ∧
  (∀ id, keeps (checks_are c) (OpenIncidentFor id)) ∧
  (∀ id at_, keeps (checks_are c) (CloseIncident id at_)).
Proof.
  unfold checks_are. split_and!; intros.
  - apply keeps_affected, keeps_stmt. intros db n db' Hdb. repeat case_match; intros; by simplify_eq/=.
  - apply keeps_bind; [|intros [?|]; auto with sql].
    apply keeps_stmt. intros db n db' Hdb. repeat case_match; intros; by simplify_eq/=.
  - apply keeps_found, keeps_query.
  - apply keeps_affected, keeps_stmt. intros db n db' Hdb. repeat case_match; intros; by simplify_eq/=.
Qed.

Lemma InsertCheck_present id at_ r db :
  is_Some (targets db !! id) →
  InsertCheck id at_ r (quiet db) =
  (Ok (), quiet (set_checks <[next_id (checks db) := check_row id at_ r]> db)).
Proof. intros [t Ht]. unfold InsertCheck. by rewrite stmt_quiet, Ht. Qed.

Section Stored.
Context {S : Type} `{!Mailer S} (t : Target).

(** A round stores its check and changes no other. *)
Lemma wp_round_checks st i (s : Sys S) :
  w_faults (s_world s) = [] → is_Some (targets (s_db s) !! ID t) →
  wp (round t st i) (λ _ s', checks (s_db s') =
    if decide (ri_acquired i = true ∧ ri_cancelled i = false)
    then <[next_id (checks (s_db s)) := row_of t i]> (checks (s_db s))
    else checks (s_db s)) s.
Proof.
  intros Hq Ht. unfold round.
  destruct (ri_acquired i), (ri_cancelled i); simpl; try (by wp_step).
  unfold settle. wp_step. apply wp_modify. repeat wp_step.
  pose proof (quiet_world (set_stats (λ m, <[ID t := recorded (ri_at i) (ri_res i)
    (default stat0 (m !! ID t))]> m) s) Hq) as Hw.
  rewrite Hw, InsertCheck_present in Hcall by done. simplify_eq.
  destruct (keeps_checks_incidents (<[next_id (checks (s_db s)) := row_of t i]> (checks (s_db s))))
    as (HM & HO & HF & HC).
  destruct (next st _ _ _ _) as [nst []]; [by wp_step|..].
  - by apply (pkeeps_on_down _ t (ri_mail i) nst HM HO HF).
  - by apply (pkeeps_on_up _ t (ri_at i) (ri_mail i) st nst HM HC).
Qed.

(** After the rounds [l] the target's checks are those the rounds made,
    newest first. *)
Definition stored (l : list round_in) (s : Sys S) : Prop :=
  newest_first (ID t) (checks (s_db s)) = reverse (row_of t <$> kept l).

Lemma wp_round_stored l st i (s : Sys S) :
  w_faults (s_world s) = [] → is_Some (targets (s_db s) !! ID t) →
  (∀ j, j ∈ kept l → Unix (ri_at j) ≤ Unix (ri_at i)) →
  stored l s → wp (round t st i) (λ _ s', stored (l ++ [i]) s') s.
Proof.
  intros Hq Ht Hle Hst. eapply wp_mono; [by apply wp_round_checks|]. intros a s'. cbv beta.
  unfold stored. rewrite kept_snoc. case_decide; intros Hc'; rewrite Hc'; [|done].
  rewrite fmap_app, reverse_app. csimpl. unfold row_of at 1. rewrite newest_first_insert.
  { unfold stored in Hst. by rewrite Hst. }
  intros k c Hk Hc. assert (c ∈ newest_first (ID t) (checks (s_db s))) as Hin
    by (apply elem_of_newest_first; eauto).
  rewrite Hst, elem_of_reverse, list_elem_of_fmap in Hin.
  destruct Hin as (j & -> & Hj). by apply Hle.
Qed.

Lemma wp_rounds_stored inc0 l2 l st (s : Sys S) :
  1 ≤ FailThreshold t → Z.of_nat (length (l ++ l2)) ≤ int64_max →
  (∀ i, i ∈ l2 → ri_at i ≠ zeroTime) →
  StronglySorted obs_before (obs_of <$> (l ++ l2)) →
  agrees t inc0 (made l) st s → stored l s →
  wp (rounds t st l2) (λ st' s', agrees t inc0 (made (l ++ l2)) st' s' ∧ stored (l ++ l2) s') s.
Proof.
  intros Hth. revert l st s.
  induction l2 as [|i l2 IH]; intros l st s Hlen Hz Hs Hag Hst; simpl.
  { rewrite app_nil_r. by wp_step. }
  rewrite length_app, length_cons in Hlen. wp_step.
  assert (Hag' : wp (round t st i) (λ st' s', agrees t inc0 (made (l ++ [i])) st' s') s).
  { apply (wp_round_agrees t inc0 l); [done|lia|apply Hz; left|done]. }
  assert (Hst' : wp (round t st i) (λ _ s', stored (l ++ [i]) s') s).
  { apply wp_round_stored; [by destruct Hag|by destruct Hag| |done].
    intros j Hj. rewrite (cons_middle i l l2), (assoc_L (++)), fmap_app in Hs.
    apply StronglySorted_app_1_l in Hs. rewrite fmap_app in Hs. csimpl.
    apply StronglySorted_snoc in Hs as [_ Hs]. apply Z.lt_le_incl, (Hs (obs_of j)).
    apply list_elem_of_fmap. exists j. split; [done|].
    unfold kept in Hj. by apply list_elem_of_filter in Hj as [_ ?]. }
  unfold wp in Hag', Hst' |- *. rewrite (cons_middle i l l2), (assoc_L (++)).
  rewrite (cons_middle i l l2), (assoc_L (++)) in Hs.
  apply IH; [|by intros j Hj; apply Hz; right|done|done|done].
  rewrite !length_app, length_cons, length_nil. lia.
Qed.

(** ** Restoring *)

Lemma restore_quiet (s : Sys S) :
  w_faults (s_world s) = [] →
  (restore t s).1 =
  count_fails
    (match max_ended (rows (λ r, in_target r.2 = ID t) (incidents (s_db s))) with
     | Some e => fromUnix e | None => zeroTime end)
    (scanCheck <$> sql_limit (FailThreshold t) (newest_first (ID t) (checks (s_db s))))
    (match head (omap (join_target (s_db s)) (rows (open_for (ID t)) (incidents (s_db s)))) with
     | Some i => mkState 0 zeroTime "" true (i_StartedAt i) (i_ID i)
     | None => state0
     end).
Proof.
  intros Hq. unfold restore, mbind, P_bind, call at 1. rewrite (quiet_world _ Hq).
  unfold OpenIncidentFor, found. rewrite bind_quiet, query_quiet.
  destruct (head _) as [i|]; unfold ret, throw, call, LastIncidentEnd, LastChecks;
    simpl s_world; rewrite !query_quiet; simpl s_world; rewrite !query_quiet;
    destruct (scanCheck <$> _); done.
Qed.
End Stored.

(** Histories a restart cannot be told from: the clock advances by whole
    seconds, after the zero instant, and a failed check says why. *)
Record readable (l : list round_in) : Prop := mkReadable {
  rd_sorted : StronglySorted obs_before (obs_of <$> l);
  rd_after : ∀ i, i ∈ l → Unix zeroTime < Unix (ri_at i);
  rd_cause : ∀ i, i ∈ l → OK (ri_res i) = false → ErrText (ri_res i) ≠ ""
}.

Lemma readable_kept l : readable l → readable (kept l).
Proof.
  intros [Hs Ha Hc]. split; [|intros i Hi; unfold kept in Hi;
    apply list_elem_of_filter in Hi as [_ Hi]; auto..].
  induction l as [|i l IH]; [done|]. csimpl. csimpl in Hs.
  apply StronglySorted_inv in Hs as [Hs Hf]. unfold kept. rewrite filter_cons.
  assert (StronglySorted obs_before (obs_of <$> kept l)) as Hkl.
  { apply IH; [done|intros; apply Ha; by right|intros j Hj; apply Hc; by right]. }
  case_decide; [|done]. csimpl. constructor; [done|].
  rewrite list.Forall_forall in Hf |- *. intros o (j & -> & Hj)%list_elem_of_fmap.
  apply list_elem_of_filter in Hj as [_ Hj]. apply Hf, list_elem_of_fmap. eauto.
Qed.

Lemma failing_elem l i : i ∈ failing l → i ∈ l ∧ OK (ri_res i) = false.
Proof.
  induction l as [|j l IH]; simpl; [by intros ?%not_elem_of_nil|].
  destruct (OK (ri_res j)) eqn:Hj; [by intros ?%not_elem_of_nil|].
  intros [->|Hi]%elem_of_cons; [by split; [left|]|].
  destruct (IH Hi). split; [by right|done].
Qed.

Section RestoreSim.
Context {S : Type} (t : Target) (inc0 : gmap Z IncidentRow) (l : list round_in) (st : state)
  (s : Sys S).
Hypothesis Hth : 1 ≤ FailThreshold t.
Hypothesis Hlen : Z.of_nat (length l) ≤ int64_max.
Hypothesis Hrd : readable (kept l).
Hypothesis Hag : agrees t inc0 (made l) st s.
Hypothesis Hst : stored t l s.

Lemma last_checks_stored :
  scanCheck <$> sql_limit (FailThreshold t) (newest_first (ID t) (checks (s_db s))) =
  check_of <$> take (Z.to_nat (FailThreshold t)) (reverse (kept l)).
Proof using Hth Hst.
  unfold stored in Hst. rewrite Hst. unfold sql_limit. rewrite decide_False by lia.
  rewrite <-fmap_reverse, <-fmap_take, <-list_fmap_compose.
  apply list_fmap_ext. intros i j _. apply scan_row_of.
Qed.

Lemma open_row_stored r rest :
  incident_log (ID t) (incidents (s_db s)) = (incident st, r) :: rest → in_ended r = None →
  Forall (λ x, in_ended x.2 ≠ None) rest →
  rows (open_for (ID t)) (incidents (s_db s)) = [(incident st, r)].
Proof using.
  intros Hlg He Hrest. apply Permutation_singleton_r, NoDup_Permutation;
    [apply rows_NoDup_rows|apply NoDup_singleton|].
  intros [k x]. rewrite elem_of_rows, list_elem_of_singleton. split.
  - intros [Hx [Hxt Hxe]]. assert ((k, x) ∈ incident_log (ID t) (incidents (s_db s))) as Hin
      by (by apply elem_of_incident_log).
    rewrite Hlg in Hin. apply elem_of_cons in Hin as [|Hin]; [done|].
    rewrite list.Forall_forall in Hrest. by apply Hrest in Hin.
  - intros ?; simplify_eq. assert ((incident st, r) ∈ incident_log (ID t) (incidents (s_db s))) as Hin
      by (rewrite Hlg; left).
    apply elem_of_incident_log in Hin as [? ?]. by repeat split.
Qed.

Lemma restored_open :
  open st = true →
  sim st (restore t s).1 ∧ incident (restore t s).1 = incident st.
Proof using All.
  intros Ho. destruct Hag as [Hq _ [tt Htt] Hd Hlog Hop _ _ _].
  destruct (Hop Ho) as (r & rest & Hlg & He & Hrest).
  rewrite restore_quiet by done. rewrite (open_row_stored r rest) by done.
  assert ((incident st, r) ∈ incident_log (ID t) (incidents (s_db s))) as Hin
    by (rewrite Hlg; left).
  apply elem_of_incident_log in Hin as [_ Hrt].
  assert (Hj : join_target (s_db s) (incident st, r) =
    Some (scanIncident (incident st) r (Name tt))) by (unfold join_target; simpl; by rewrite Hrt, Htt).
  simpl. rewrite Hj. simpl.
  edestruct count_fails_open as (Ho' & Hi' & Hs'). rewrite Hi'. simpl. split; [|done].
  split; [by rewrite Ho'|intros _|by rewrite Ho]. rewrite Hs'. simpl. rewrite Unix_fromUnix.
  destruct Hd as [_ Hff _ Hdo Hsa]. rewrite (Hsa Ho), Hff.
  rewrite Ho in Hdo. symmetry in Hdo. apply bool_decide_eq_true in Hdo.
  destruct (outages_current _ _ Hth Hdo) as (c & outs & Hout).
  rewrite Hout, Hlg in Hlog. csimpl in Hlog. unfold as_outage in Hlog. by simplify_eq/=.
Qed.

Lemma restored_closed : open st = false → sim st (restore t s).1.
Proof using All.
  intros Ho. destruct Hag as [Hq _ _ Hd Hlog _ Hcl _ _].
  rewrite restore_quiet by done. rewrite (Hcl Ho), last_checks_stored.
  destruct Hd as [Hf Hff Hc Hdo _]. rewrite Ho in Hdo. symmetry in Hdo.
  apply bool_decide_eq_false in Hdo. unfold streak_len, made in *.
  rewrite streak_failing, length_fmap in *.
  set (end_ := match max_ended _ with Some e => fromUnix e | None => zeroTime end).
  assert (Hend : ∀ i, i ∈ failing (reverse (kept l)) →
    end_ < fromUnix (Unix (ri_at i)) ∧ ErrText (ri_res i) ≠ "").
  { intros i Hi. pose proof (failing_elem _ _ Hi) as [Hik Hio].
    rewrite elem_of_reverse in Hik. split; [|by apply (rd_cause _ Hrd)].
    unfold end_. destruct (max_ended _) as [e|] eqn:Hm.
    - apply fromUnix_lt. apply max_ended_elem in Hm as ([k r] & [Hk Hkt]%elem_of_rows & He).
      simpl in *. destruct (outages_ended (FailThreshold t) (obs_of <$> kept l)
        (as_outage (k, r)) e) as (o & Ho1 & Ho2 & ->); [|done|].
      + rewrite <-Hlog. apply list_elem_of_fmap. exists (k, r). split; [done|].
        by apply elem_of_incident_log.
      + apply (streak_after (obs_of <$> kept l) o (obs_of i)); [apply Hrd|done|done|].
        rewrite streak_failing. apply list_elem_of_fmap. eauto.
    - change zeroTime with (fromUnix (-62135596800)). apply fromUnix_lt.
      exact (rd_after _ Hrd i Hik). }
  assert (Hlk : (length (failing (reverse (kept l))) ≤ length l)%nat).
  { pose proof (streak_len_bounds (made l)) as Hb. unfold streak_len, made in Hb.
    rewrite streak_failing, !length_fmap in Hb. unfold kept in Hb |- *.
    pose proof (length_filter (λ i, ri_acquired i = true ∧ ri_cancelled i = false) l). lia. }
  destruct (count_fails_failing end_ (Z.to_nat (FailThreshold t)) (reverse (kept l)) state0)
    as (Hrf & Hrff & Hrc); simpl; [lia|lia|lia|done|].
  edestruct count_fails_open as (Ho' & _ & _). split.
  - by rewrite Ho, Ho'.
  - by rewrite Ho.
  - intros _. simpl in *. rewrite Hrf, Hrff, Hrc, Hf, Hff, Hc.
    split_and!; [done| |].
    + by destruct (failing (reverse (kept l))).
    + intros Hne. destruct (last (failing (reverse (kept l)))) as [i|] eqn:Hl.
      * rewrite fmap_last, Hl. simpl. by rewrite Unix_fromUnix.
      * apply last_None in Hl. by rewrite Hl in Hne.
Qed.
End RestoreSim.

(** ** Properties *)

(** C5: take a target monitored from scratch by rounds whose
    clock advances and whose failures say why, and stop its runner at any
    point.  The state [restore] reads back raises, for every continuation of
    checks, exactly the events the stopped runner would have raised, with
    outages that began in the same second; an outage open at the restart is
    continued under the same incident. *)
Theorem restart_transparent {S} `{!Mailer S} t l (s : Sys S) :
  1 ≤ FailThreshold t → Z.of_nat (length l) ≤ int64_max → readable l →
  fresh_for t s → (∀ k c, checks (s_db s) !! k = Some c → ck_target c ≠ ID t) →
  let '(st, s') := rounds t state0 l s in
  let st' := (restore t s').1 in
  (open st = true → incident st' = incident st) ∧
  ∀ l2, (run_from (FailThreshold t) st' l2).2 = (run_from (FailThreshold t) st l2).2 ∧
        sim (run_from (FailThreshold t) st l2).1 (run_from (FailThreshold t) st' l2).1.
Proof.
  intros Hth Hlen Hrd Hf Hno. pose proof (fresh_agrees _ _ Hth Hf) as Hag.
  assert (stored t [] s) as Hst0.
  { unfold stored, newest_first. rewrite rows_nil; [done|]. intros k c Hk. by apply (Hno k). }
  assert (Hz : ∀ i, i ∈ l → ri_at i ≠ zeroTime).
  { intros i Hi Hz. apply (rd_after _ Hrd) in Hi. rewrite Hz in Hi. lia. }
  pose proof (wp_rounds_stored t _ l [] state0 s Hth Hlen Hz (rd_sorted _ Hrd) Hag Hst0) as H.
  unfold wp in H. destruct (rounds t state0 l s) as [st s']. cbn [fst snd app] in H.
  destruct H as [Hag' Hst]. pose proof (readable_kept _ Hrd) as Hrk.
  destruct (open st) eqn:Ho.
  - destruct (restored_open t _ l st s' Hth Hlen Hrk Hag' Hst Ho) as [Hsim Hinc].
    split; [done|]. intros l2. by destruct (sim_run (FailThreshold t) _ _ l2 Hsim).
  - split; [done|]. intros l2. by destruct (sim_run (FailThreshold t) _ _ l2
      (restored_closed t _ l st s' Hth Hlen Hrk Hag' Hst Ho)).
Qed.

Lemma restart_transparent_witness :
  let l := [sample_round (100 * Second) true; sample_round (160 * Second) false] in
  let '(st, s') := @rounds _ sure_mailer sample_target state0 l sample_sys in
  let st' := (restore sample_target s').1 in
  (open st = true → incident st' = incident st) ∧
  ∀ l2, (run_from 2 st' l2).2 = (run_from 2 st l2).2 ∧
        sim (run_from 2 st l2).1 (run_from 2 st' l2).1.
Proof.
  intros l. apply (@restart_transparent _ sure_mailer sample_target l sample_sys).
  - done.
  - vm_compute. discriminate.
  - split.
    + repeat constructor.
    + intros i Hi. repeat (apply elem_of_cons in Hi as [->|Hi]; [done|]).
      by apply not_elem_of_nil in Hi.
    + intros i Hi. repeat (apply elem_of_cons in Hi as [->|Hi]; [by vm_compute|]).
      by apply not_elem_of_nil in Hi.
  - split; [done|by eexists|by eexists| |done]. intros k r H. destruct (lookup_empty_Some k r H).
  - intros k c H. destruct (lookup_empty_Some k c H).
Defined.
