(* ===== verification/Maintenance.v ===== *)
(** * Periodic maintenance (internal/monitor/maintenance.go)

    Aggregating, deleting what expired, and retrying the mails that did not go
    out.  A failed store call is logged and the loop goes on; an interrupted
    mail is retried once, unless only the mailer's limit held it back. *)

From S2P Require Import Prelude GoTime Sql Schema WellFormed Targets Checks Incidents Rollup.
From S2P Require Import Sessions MonitorState Runner.

Definition rollupEvery : Duration := 5 * Minute.
Definition cleanupEvery : Duration := Hour.
Definition retryWindow : Duration := 24 * Hour.

Section Maintenance.
Context {S : Type} `{!Mailer S}.

Definition rollup (now : Time) : P S unit :=
  _ ← call (Rollup now); mret ().

Definition cleanup (now : Time) (retentionDays : Z) : P S unit :=
  _ ← call (Prune now retentionDays);
  _ ← call (DeleteExpiredSessions now);
  _ ← call (DeleteExpiredDevices now);
  mret ().

(** The key of a listed incident; an ended one whose recovery was mailed
    has nothing left to send. *)
Definition unmailed_key (i : Incident) : option mailKey :=
  if negb (Open i) && i_MailedUp i then None else Some (i_ID i, negb (Open i)).

Definition not_limit (r : res mailerr unit) : bool :=
  match r with Err ErrLimit => false | _ => true end.

(** The loop of [retry]: [old] is [m.pending], [pending] the new map,
    [mt] the mailer's clock when an incident's mail is sent. *)
Fixpoint retry_loop (mt : Incident → Time) (old : gmap mailKey bool) (l : list Incident)
    (pending : gmap mailKey bool) : P S (gmap mailKey bool) :=
  match l with
  | [] => mret pending
  | i :: l =>
      match unmailed_key i with
      | None => retry_loop mt old l pending
      | Some k =>
          retried ←
            match old !! k with
            | Some false => r ← notify (mt i) i; mret (not_limit r)
            | Some true => mret true
            | None => mret false
            end;
          retry_loop mt old l (<[k := retried]> pending)
      end
  end.

Definition get {A} (f : Sys S → A) : P S A := λ s, (f s, s).

Definition retry (now : Time) (mt : Incident → Time) : P S unit :=
  mailer ← get s_mailer;
  match mailer with
  | None => mret ()
  | Some _ =>
      list ← call (UnmailedIncidents (Add now (- retryWindow)));
      match list with
      | Err _ => mret ()
      | Ok list =>
          old ← get s_pending;
          pending ← retry_loop mt old list ∅;
          modify (set_pending pending)
      end
  end.

(** The two tickers of [Maintain]. *)
Inductive tick_event : Type :=
  | RollTick (now retry_now : Time) (mt : Incident → Time)
  | CleanTick (now : Time).

Definition on_tick (retentionDays : Z) (e : tick_event) : P S unit :=
  match e with
  | RollTick now retry_now mt => _ ← rollup now; retry retry_now mt
  | CleanTick now => cleanup now retentionDays
  end.

Fixpoint ticks (retentionDays : Z) (l : list tick_event) : P S unit :=
  match l with
  | [] => mret ()
  | e :: l => _ ← on_tick retentionDays e; ticks retentionDays l
  end.

Definition Maintain (now : Time) (retentionDays : Z) (l : list tick_event) : P S unit :=
  _ ← rollup now;
  _ ← cleanup now retentionDays;
  ticks retentionDays l.
End Maintenance.

(** ** Specification of the retries *)

(** The incidents [retry] mails: listed before and not yet retried. *)
Definition due_retry (old : gmap mailKey bool) (l : list Incident) : list Incident :=
  filter (λ i, unmailed_key i ≫= (λ k, old !! k) = Some false) l.

(** The keys of a listing, the new value of [m.pending] and the mails of this
    pass, latest first. *)
Record retried (old new_pending : gmap mailKey bool) (l : list Incident)
    (mails : list (Incident * res mailerr unit)) : Prop := mkRetried {
  rt_mails : (reverse mails).*1 = due_retry old l;
  rt_first : ∀ k, k ∈ omap unmailed_key l → old !! k = None → new_pending !! k = Some false;
  rt_done : ∀ k, k ∈ omap unmailed_key l → old !! k = Some true → new_pending !! k = Some true;
  rt_sent : ∀ i r, (i, r) ∈ mails →
    ∃ k, unmailed_key i = Some k ∧ old !! k = Some false ∧ new_pending !! k = Some (not_limit r)
}.

Section RetrySpec.
Context {S : Type} `{!Mailer S}.

(** What a notification reports is what the mailer returned. *)
Lemma wp_notify_result now i Q (s : Sys S) :
  is_Some (s_mailer s) →
  (∀ r s', s_mails s' = (i, r) :: s_mails s → is_Some (s_mailer s') →
    s_pending s' = s_pending s → Q r s') →
  wp (notify now i) Q s.
Proof.
  intros [m Hm] HQ. unfold notify. wp_step. unfold wp at 1, send_mail. rewrite Hm.
  destruct (mail now i m) as [[[]|e] m']; cbn [fst snd]; repeat wp_step; by apply HQ.
Qed.

Lemma wp_retry_loop mt old l : ∀ pending (s : Sys S),
  NoDup (omap unmailed_key l) → is_Some (s_mailer s) →
  wp (retry_loop mt old l pending) (λ p s',
    (∀ k, k ∉ omap unmailed_key l → p !! k = pending !! k) ∧
    ∃ mails, s_mails s' = mails ++ s_mails s ∧ retried old p l mails) s.
Proof.
  induction l as [|i l IH]; intros pending s Hnd Hm; cbn [retry_loop].
  { wp_step. split; [done|]. exists []. split; [done|].
    split; try done; [by intros ? ?%not_elem_of_nil..|by intros ? ? ?%not_elem_of_nil]. }
  destruct (unmailed_key i) as [k|] eqn:Hk.
  2: { simpl in Hnd. rewrite Hk in Hnd. eapply wp_mono; [by apply IH|].
       intros p s' (Hp & mails & Hms & [Hdue Hf Hd Hsent]). simpl. rewrite Hk.
       split; [done|]. exists mails. split; [done|]. split; try done; simpl; rewrite ?Hk; try done.
       unfold due_retry in *. rewrite filter_cons, Hk. done. }
  simpl in Hnd. rewrite Hk in Hnd. apply NoDup_cons in Hnd as [Hki Hnd].
  (* the rest of the loop, once this key's value [b] is known *)
  assert (Hrest : ∀ b s1, is_Some (s_mailer s1) →
    (match old !! k with
     | None => b = false ∧ s_mails s1 = s_mails s
     | Some true => b = true ∧ s_mails s1 = s_mails s
     | Some false => ∃ r, b = not_limit r ∧ s_mails s1 = (i, r) :: s_mails s
     end) →
    wp (retry_loop mt old l (<[k:=b]> pending)) (λ p s',
      (∀ j, j ∉ omap unmailed_key (i :: l) → p !! j = pending !! j) ∧
      ∃ mails, s_mails s' = mails ++ s_mails s ∧ retried old p (i :: l) mails) s1).
  { intros b s1 Hm1 Hb. eapply wp_mono; [by apply IH|].
    intros p s' (Hp & mails & Hms & [Hdue Hf Hd Hsent]).
    assert (p !! k = Some b) as Hpk by (rewrite Hp by done; apply lookup_insert_eq).
    simpl. rewrite Hk. split.
    { intros j [Hjk Hj]%not_elem_of_cons. rewrite Hp by done. by rewrite lookup_insert_ne by done. }
    destruct (old !! k) as [[]|] eqn:Hok.
    - destruct Hb as [-> Hs1]. exists mails. rewrite Hms, Hs1. split; [done|].
      split; simpl; rewrite ?Hk.
      + unfold due_retry in *. rewrite filter_cons, Hk. simpl. rewrite Hok. done.
      + intros j [->|Hj]%elem_of_cons ?; [congruence|auto].
      + intros j [->|Hj]%elem_of_cons ?; [done|auto].
      + done.
    - destruct Hb as (r & -> & Hs1). exists (mails ++ [(i, r)]).
      rewrite Hms, Hs1, <-(assoc_L (++)). split; [done|]. split; simpl; rewrite ?Hk.
      + unfold due_retry in *. rewrite filter_cons, Hk. simpl. rewrite Hok.
        rewrite reverse_app. csimpl. by rewrite <-Hdue.
      + intros j [->|Hj]%elem_of_cons ?; [congruence|auto].
      + intros j [->|Hj]%elem_of_cons ?; [congruence|auto].
      + intros j x [Hj|Hj%list_elem_of_singleton]%elem_of_app; [by apply Hsent|].
        simplify_eq. by exists k.
    - destruct Hb as [-> Hs1]. exists mails. rewrite Hms, Hs1. split; [done|].
      split; simpl; rewrite ?Hk.
      + unfold due_retry in *. rewrite filter_cons, Hk. simpl. rewrite Hok. done.
      + intros j [->|Hj]%elem_of_cons ?; [done|auto].
      + intros j [->|Hj]%elem_of_cons ?; [congruence|auto].
      + done. }
  wp_step. destruct (old !! k) as [[]|] eqn:Hok.
  - wp_step. by apply Hrest.
  - wp_step. apply wp_notify_result; [done|]. intros r s1 Hms1 Hm1 _. wp_step.
    apply Hrest; [done|]. eauto.
  - wp_step. by apply Hrest.
Qed.

Lemma UnmailedIncidents_NoDup since w l w' :
  UnmailedIncidents since w = (Ok l, w') → NoDup (omap unmailed_key l).
Proof.
  intros [-> _]%query_ok.
  assert (Hnd : NoDup ((order_by (λ r : Z * IncidentRow, (in_started r.2, r.1))
    (rows (λ r, unmailed (Unix since) r.2) (incidents (w_db w)))).*1)).
  { rewrite order_by_Permutation. apply rows_NoDup. }
  induction (order_by _ _) as [|[j x] rs IH]; csimpl in *; [constructor|].
  apply NoDup_cons in Hnd as [Hj Hnd]. specialize (IH Hnd).
  destruct (join_target (w_db w) (j, x)) as [i|] eqn:Hi; [|done]. csimpl.
  unfold join_target in Hi. apply fmap_Some in Hi as (t & _ & ->).
  destruct (unmailed_key _) as [k|] eqn:Hk; [|done]. constructor; [|done].
  intros (i' & Hi' & Hk')%list_elem_of_omap. apply list_elem_of_omap in Hi' as ([j' x'] & Hin & Hj').
  unfold join_target in Hj'. apply fmap_Some in Hj' as (t' & _ & ->).
  unfold unmailed_key in Hk, Hk'. simpl in *. repeat case_match; simplify_eq.
  apply Hj, list_elem_of_fmap. by exists (j', x').
Qed.
End RetrySpec.

(** ** Properties *)

(** C22: a retry pass mails exactly the unsent notifications that an
    earlier pass already listed and none has retried yet, in the order of the
    listing; one seen for the first time only becomes a candidate, one already
    retried stays retried, and a mail counts as retried unless the mailer
    refused it for its limit.  If the listing fails, nothing changes. *)
Theorem retry_spec {S} `{!Mailer S} now mt (s : Sys S) :
  is_Some (s_mailer s) →
  let '(_, s') := retry now mt s in
  match (UnmailedIncidents (Add now (- retryWindow)) (s_world s)).1 with
  | Ok l => ∃ mails, s_mails s' = mails ++ s_mails s ∧
      retried (s_pending s) (s_pending s') l mails
  | Err _ => s_mails s' = s_mails s ∧ s_pending s' = s_pending s
  end.
Proof.
  intros Hm. assert (wp (retry now mt) (λ _ s',
    match (UnmailedIncidents (Add now (- retryWindow)) (s_world s)).1 with
    | Ok l => ∃ mails, s_mails s' = mails ++ s_mails s ∧
        retried (s_pending s) (s_pending s') l mails
    | Err _ => s_mails s' = s_mails s ∧ s_pending s' = s_pending s
    end) s) as H.
  { unfold retry. wp_step. unfold wp at 1. simpl. destruct Hm as [m Hm]. rewrite Hm.
    repeat wp_step. rewrite Hcall. simpl. destruct r as [l|e]; [|by wp_step].
    wp_step. unfold wp at 1. cbn [fst snd get]. wp_step.
    apply UnmailedIncidents_NoDup in Hcall. eapply wp_mono.
    - apply (wp_retry_loop mt (s_pending (set_world w s)) l ∅ (set_world w s)); [done|].
      by exists m.
    - intros p s' (_ & mails & Hms & Hrt). wp_step. simpl. by exists mails. }
  unfold wp in H. by destruct (retry now mt s).
Qed.

Lemma retry_spec_witness :
  let s := mkSys (quiet (set_incidents <[1 := opened 5 (100 * Second) "timeout"]>
             (s_db sample_sys))) ∅ {[ (1, false) := false ]} (Some ()) [] in
  let '(_, s') := @retry _ sure_mailer (200 * Second) (λ _, 0) s in
  ∃ mails, s_mails s' = mails ++ s_mails s ∧
    retried (s_pending s) (s_pending s')
      [mkIncident 1 5 "web" (100 * Second) zeroTime "timeout" false false] mails.
Proof. intros s. apply (@retry_spec _ sure_mailer (200 * Second) (λ _, 0) s). by eexists. Defined.


