(* ===== verification/Scheduler.v ===== *)
(** * The monitor's operations (internal/monitor/scheduler.go)

    [Start], [Reload], [Delete], [CheckNow] and [Snapshot].  The operations
    hold the lock [ops] and [stop] waits until the goroutine it cancelled has
    ended, so each of them is one transition of the set of runners; the
    interleaving of the goroutines themselves is not modelled. *)

From S2P Require Import Prelude GoTime Sql Schema WellFormed Targets Checks Incidents.
From S2P Require Import MonitorState Runner.

Definition maxParallel : Z := 8.
Definition checkNowGap : Duration := 10 * Second.

(** ** State *)

(** A running goroutine: the target it was started with and when it was last
    told to check at once. *)
Record running : Type := mkRunning { ru_target : Target; ru_nudged : Time }.

Record Mgr : Type := mkMgr {
  mg_runners : gmap Z running;
  mg_stats : gmap Z Stat;
  (** [m.ctx.Err() == nil] *)
  mg_alive : bool
}.

Definition set_runners (f : gmap Z running → gmap Z running) (m : Mgr) : Mgr :=
  mkMgr (f (mg_runners m)) (mg_stats m) (mg_alive m).

(** An operation runs store calls and changes the manager. *)
Definition Op (A : Type) : Type := World Db → Mgr → A * (World Db * Mgr).

Definition start (t : Target) (m : Mgr) : Mgr :=
  set_runners <[ID t := mkRunning t zeroTime]> m.

Definition stop (id : Z) (m : Mgr) : Mgr := set_runners (delete id) m.

Arguments start : simpl never.
Arguments stop : simpl never.

(** ** Operations *)

Definition Start : Op (res sqlerr unit) := λ w m,
  let m := mkMgr (mg_runners m) (mg_stats m) true in
  match Targets w with
  | (Err e, w') => (Err e, (w', m))
  | (Ok ts, w') =>
      (Ok (), (w', foldl (λ m t, if Paused t then m else start t m) m ts))
  end.

Definition Reload (now : Time) (id : Z) : Op (res sqlerr unit) := λ w m,
  let m := stop id m in
  match TargetByID id w with
  | (Err e, w') => (Err e, (w', m))
  | (Ok t, w') =>
      if Paused t then
        let '(r, w2) := ClosePausedIncident now id w' in (r, (w2, m))
      else (Ok (), (w', if mg_alive m then start t m else m))
  end.

Definition Delete (id : Z) : Op (res sqlerr unit) := λ w m,
  let m := stop id m in
  match DeleteTarget id w with
  | (Err ErrNotFound, w') => (Err ErrNotFound, (w', m))
  | (Err e, w') =>
      match TargetByID id w' with
      | (Err _, w2) => (Err e, (w2, m))
      | (Ok t, w2) => (Err e, (w2, if negb (Paused t) && mg_alive m then start t m else m))
      end
  | (Ok _, w') => (Ok (), (w', mkMgr (mg_runners m) (delete id (mg_stats m)) (mg_alive m)))
  end.

(** [ready]: the goroutine is waiting for its timer, so that it receives the
    nudge; otherwise the [select] takes its default branch. *)
Definition CheckNow (now : Time) (id : Z) (ready : bool) (m : Mgr) : bool * Mgr :=
  match mg_runners m !! id with
  | None => (false, m)
  | Some r =>
      if negb (IsZero (ru_nudged r)) && bool_decide (Sub now (ru_nudged r) < checkNowGap)
      then (false, m)
      else (true, if ready then set_runners <[id := mkRunning (ru_target r) now]> m else m)
  end.

Definition Snapshot (m : Mgr) : gmap Z Stat := mg_stats m.

(** The waits of [run]: the first below one interval, later ones the interval
    less a tenth plus up to a fifth; [rnd] is what [rand.N] returned. *)
Definition interval (t : Target) : Duration := wrap64 (IntervalS t * Second).

Definition first_wait (t : Target) (rnd : Z) : option Duration :=
  if decide (interval t ≤ 0) then None else Some rnd.

Definition next_wait (t : Target) (rnd : Z) : Duration :=
  let i := interval t in i - Z.quot i 10 + rnd.

(** ** What is monitored *)

(** The runners are those of the stored, unpaused targets, each with the
    settings stored for it. *)
Definition in_step (db : Db) (m : Mgr) : Prop :=
  ∀ id, ru_target <$> mg_runners m !! id =
    (t ← targets db !! id; if Paused t then None else Some t).

Lemma stop_lookup id j m :
  mg_runners (stop id m) !! j = if decide (id = j) then None else mg_runners m !! j.
Proof. unfold stop. simpl. by rewrite lookup_delete. Qed.

Lemma start_lookup t j m :
  mg_runners (start t m) !! j =
  if decide (ID t = j) then Some (mkRunning t zeroTime) else mg_runners m !! j.
Proof. unfold start. simpl. by rewrite lookup_insert. Qed.

Lemma start_list (ts : list Target) m j :
  NoDup (ID <$> ts) →
  mg_runners (foldl (λ m t, if Paused t then m else start t m) m ts) !! j =
  match list_find (λ t, ID t = j ∧ Paused t = false) ts with
  | Some (_, t) => Some (mkRunning t zeroTime)
  | None => mg_runners m !! j
  end.
Proof.
  revert m. induction ts as [|t ts IH]; intros m Hnd; simpl; [done|]. csimpl in Hnd.
  apply NoDup_cons in Hnd as [Ht Hnd]. rewrite IH by done.
  case_decide as Hd.
  - destruct Hd as [<- Hp]. rewrite Hp.
    destruct (list_find _ ts) as [[k u]|] eqn:Hf; simpl.
    + apply list_find_Some in Hf as (Hk & [Hu _] & _). exfalso. apply Ht.
      rewrite <-Hu. apply list_elem_of_fmap. exists u. split; [done|].
      by eapply list_elem_of_lookup_2.
    + by rewrite lookup_insert_eq.
  - destruct (list_find _ ts) as [[k u]|]; simpl; [done|].
    destruct (Paused t) eqn:Hp; [done|]. simpl. rewrite lookup_insert_ne; [done|].
    intros ?. by apply Hd.
Qed.

Lemma TargetByID_quiet id db :
  TargetByID id (quiet db) =
  (match targets db !! id with Some t => Ok t | None => Err ErrNotFound end, quiet db).
Proof.
  unfold TargetByID, found. rewrite bind_quiet, query_quiet. by destruct (targets db !! id).
Qed.

(** The rows of the table as the listing of [Targets] returns them. *)
Lemma targets_listed db :
  Wf db → NoDup (ID <$> by_sort (rows (λ _, True) (targets db))) ∧
  ∀ t, t ∈ by_sort (rows (λ _, True) (targets db)) ↔ targets db !! ID t = Some t.
Proof.
  intros Hwf. split.
  - unfold by_sort. rewrite <-list_fmap_compose.
    assert (Hid : ∀ l : list (Z * Target), (∀ k t, (k, t) ∈ l → ID t = k) →
      (ID ∘ snd) <$> l = l.*1).
    { intros l Hl. apply list_fmap_ext. intros i [k t] Hi. simpl. apply Hl.
      by eapply list_elem_of_lookup_2. }
    rewrite Hid.
    + rewrite order_by_Permutation. apply rows_NoDup.
    + intros k t Hin. rewrite elem_of_order_by, elem_of_rows in Hin.
      by destruct (wf_targets _ Hwf _ _ (proj1 Hin)).
  - intros t. rewrite by_sort_elem. split.
    + intros (id & Hid & _). by rewrite (proj1 (wf_targets _ Hwf _ _ Hid)).
    + intros Ht. by exists (ID t).
Qed.

(** Start, when its statement succeeds, monitors what is stored and unpaused. *)
Lemma started_alive l n :
  mg_alive n = true → mg_alive (foldl (λ m t, if Paused t then m else start t m) n l) = true.
Proof.
  revert n. induction l as [|t l IH]; intros n Hn; simpl; [done|]. apply IH. by destruct (Paused t).
Qed.

Lemma Start_in_step w m w' m' :
  Wf (w_db w) → mg_runners m = ∅ → Start w m = (Ok (), (w', m')) →
  w_db w' = w_db w ∧ in_step (w_db w) m' ∧ mg_alive m' = true.
Proof.
  intros Hwf Hm. unfold Start. destruct (Targets w) as [[ts|e] w1] eqn:Ht; [|done].
  intros [= <- <-]. apply query_ok in Ht as [-> Hdb]. split; [done|].
  rewrite Hm. split; [|by apply started_alive].
  destruct (targets_listed _ Hwf) as [Hnd Hts].
  set (ts := by_sort (rows (λ _, True) (targets (w_db w)))) in *.
  intros j. rewrite start_list by done.
  destruct (list_find (λ t, ID t = j ∧ Paused t = false) ts) as [[i t]|] eqn:Hf; simpl.
  - apply list_find_Some in Hf as (Hi & [<- Hp] & _).
    apply list_elem_of_lookup_2, Hts in Hi. rewrite Hi. simpl. by rewrite Hp.
  - rewrite lookup_empty. simpl. destruct (targets (w_db w) !! j) as [t|] eqn:Hj; simpl; [|done].
    destruct (Paused t) eqn:Hp; [done|]. apply list_find_None in Hf.
    pose proof (proj1 (wf_targets _ Hwf _ _ Hj)) as Hid. subst j.
    rewrite list.Forall_forall in Hf. by destruct (Hf t (proj2 (Hts t) Hj)).
Qed.

(** After [Reload] without failing statements, the target is monitored as the
    table says, and the others as before. *)
Lemma Reload_quiet now id db m r w' m' :
  Wf db → mg_alive m = true → Reload now id (quiet db) m = (r, (w', m')) →
  targets (w_db w') = targets db ∧ w_faults w' = [] ∧ mg_alive m' = true ∧ Wf (w_db w') ∧
  ∀ j, ru_target <$> mg_runners m' !! j =
    if decide (id = j) then t ← targets db !! id; if Paused t then None else Some t
    else ru_target <$> mg_runners m !! j.
Proof.
  intros Hwf Ha. unfold Reload. rewrite TargetByID_quiet.
  pose proof (keeps_ClosePausedIncident now id (quiet db) Hwf) as Hk.
  destruct (targets db !! id) as [t|] eqn:Ht.
  - pose proof (proj1 (wf_targets _ Hwf _ _ Ht)) as Hid. destruct (Paused t) eqn:Hp.
    + unfold ClosePausedIncident in *. rewrite stmt_quiet in *. intros; simplify_eq/=.
      split_and!; try done. intros j. simpl. rewrite lookup_delete.
      case_decide; simpl; rewrite ?Ht; simpl; by rewrite ?Hp.
    + simpl. rewrite Ha. intros; simplify_eq/=. split_and!; try done.
      intros j. simpl. rewrite lookup_insert, lookup_delete. 
      repeat case_decide; simpl; rewrite ?Ht; simpl; by rewrite ?Hp.
  - intros; simplify_eq/=. split_and!; try done. intros j. simpl. rewrite lookup_delete.
    case_decide; simpl; by rewrite ?Ht.
Qed.

Lemma Reload_in_step now id db db0 m r w' m' :
  Wf db → mg_alive m = true → in_step db0 m →
  (∀ j, j ≠ id → targets db !! j = targets db0 !! j) →
  Reload now id (quiet db) m = (r, (w', m')) →
  in_step (w_db w') m' ∧ w_faults w' = [] ∧ mg_alive m' = true ∧ Wf (w_db w').
Proof.
  intros Hwf Ha Hin Hsame Hr. destruct (Reload_quiet _ _ _ _ _ _ _ Hwf Ha Hr) as (Ht & Hq & Ha' & Hw & Hl).
  split_and!; try done. intros j. rewrite Hl, Ht. case_decide; [by subst|].
  rewrite Hsame by done. apply Hin.
Qed.

(** ** Changes made through the admin pages *)

(** The monitor's part of a request: the store call and the [Reload] after
    it, as the handlers make them. *)
Inductive change : Type :=
  | Save (now : Time) (t : Target)
  | Pause (now : Time) (id : Z) (paused : bool)
  | Remove (id : Z).

Definition apply_change (c : change) : Op (res sqlerr unit) := λ w m,
  match c with
  | Save now t =>
      let '(r, w') := if decide (ID t = 0) then CreateTarget now t w
                      else let '(u, w') := UpdateTarget now t w in
                           (match u with Ok _ => Ok (ID t) | Err e => Err e end, w') in
      match r with Ok id => Reload now id w' m | Err e => (Err e, (w', m)) end
  | Pause now id p =>
      let '(r, w') := SetPaused now id p w in
      match r with Ok _ => Reload now id w' m | Err e => (Err e, (w', m)) end
  | Remove id => Delete id w m
  end.

Definition apply_changes (cs : list change) (w : World Db) (m : Mgr) : World Db * Mgr :=
  foldl (λ s c, (apply_change c s.1 s.2).2) (w, m) cs.

(** A stored target keeps its row while a change names another one. *)
Lemma apply_change_quiet c db m r w' m' :
  Wf db → mg_alive m = true → in_step db m → apply_change c (quiet db) m = (r, (w', m')) →
  in_step (w_db w') m' ∧ w_faults w' = [] ∧ mg_alive m' = true ∧ Wf (w_db w').
Proof.
  intros Hwf Ha Hin. destruct c as [now t|now id p|id]; simpl.
  - case_decide as Hid.
    + pose proof (keeps_CreateTarget now t (quiet db) Hwf) as Hk.
      unfold CreateTarget in *. rewrite stmt_quiet in *.
      destruct (target_row_ok _); [|by intros; simplify_eq]. intros Hr.
      eapply Reload_in_step; [exact Hk|done|exact Hin| |exact Hr].
      intros j Hj. simpl. by rewrite lookup_insert_ne by done.
    + pose proof (keeps_UpdateTarget now t (quiet db) Hwf) as Hk.
      unfold UpdateTarget, affected in *. rewrite bind_quiet, stmt_quiet in *.
      destruct (targets db !! ID t) as [old|] eqn:Hold; [|intros Hr; simpl in Hr; unfold throw in Hr; by simplify_eq].
      destruct (target_row_ok _); [|by intros; simplify_eq]. simpl. intros Hr.
      eapply Reload_in_step; [exact Hk|done|exact Hin| |exact Hr].
      intros j Hj. simpl. by rewrite lookup_insert_ne by done.
  - pose proof (keeps_SetPaused now id p (quiet db) Hwf) as Hk.
    unfold SetPaused, affected in *. rewrite bind_quiet, stmt_quiet in *.
    destruct (targets db !! id) as [old|] eqn:Hold; [|intros Hr; simpl in Hr; unfold throw in Hr; by simplify_eq].
    simpl. intros Hr. eapply Reload_in_step; [exact Hk|done|exact Hin| |exact Hr].
    intros j Hj. simpl. by rewrite lookup_insert_ne by done.
  - pose proof (keeps_DeleteTarget id (quiet db) Hwf) as Hk.
    unfold Delete, DeleteTarget, affected in *. rewrite bind_quiet, stmt_quiet in *.
    assert (Hstop : ∀ j, ru_target <$> mg_runners (stop id m) !! j =
      if decide (id = j) then None else t ← targets db !! j; if Paused t then None else Some t).
    { intros j. simpl. rewrite lookup_delete. case_decide; [done|apply Hin]. }
    destruct (targets db !! id) as [old|] eqn:Hold.
    + simpl in *. intros; simplify_eq. split_and!; try done. intros j. simpl.
      specialize (Hstop j). simpl in Hstop. rewrite lookup_delete in Hstop.
      rewrite !lookup_delete. by case_decide.
    + simpl in *. intros; simplify_eq. split_and!; try done. intros j. rewrite Hstop. simpl.
      case_decide; [by subst; rewrite Hold|done].
Qed.

(** ** Properties *)

(** C13: once started, and as long as no statement
    fails, after any sequence of saves, pauses and deletions made through the
    admin pages exactly the stored, unpaused targets are monitored, each with
    the settings stored last. *)
Theorem monitoring_matches_store db m cs :
  Wf db → mg_runners m = ∅ →
  let '(_, (w1, m1)) := Start (quiet db) m in
  let '(w2, m2) := apply_changes cs w1 m1 in
  in_step (w_db w2) m2.
Proof.
  intros Hwf Hm. destruct (Start (quiet db) m) as [r [w1 m1]] eqn:Hs.
  assert (r = Ok () ∧ w1 = quiet db) as [-> ->].
  { unfold Start, Targets in Hs. rewrite query_quiet in Hs. by simplify_eq. }
  destruct (Start_in_step (quiet db) m (quiet db) m1 Hwf Hm Hs) as (_ & Hin & Ha). clear Hs Hm.
  assert (Hgen : ∀ w m, w_faults w = [] → Wf (w_db w) → in_step (w_db w) m → mg_alive m = true →
    in_step (w_db (apply_changes cs w m).1) (apply_changes cs w m).2).
  { clear. induction cs as [|c cs IH]; intros w m Hq Hwf Hin Ha; simpl; [done|].
    destruct (apply_change c w m) as [r [w' m']] eqn:Hc.
    destruct w as [db fs]. simpl in Hq. subst fs.
    destruct (apply_change_quiet c db m r w' m' Hwf Ha Hin Hc) as (Hin' & Hq' & Ha' & Hwf').
    unfold apply_changes. simpl. rewrite Hc. simpl. by apply IH. }
  specialize (Hgen (quiet db) m1 eq_refl Hwf Hin Ha).
  by destruct (apply_changes cs (quiet db) m1).
Qed.

Lemma monitoring_matches_store_witness :
  let db := set_targets <[5 := sample_target]> empty_db in
  let cs := [Pause Second 5 true; Pause Minute 5 false; Remove 7] in
  let '(_, (w1, m1)) := Start (quiet db) (mkMgr ∅ ∅ false) in
  let '(w2, m2) := apply_changes cs w1 m1 in
  in_step (w_db w2) m2.
Proof.
  intros db cs. apply (monitoring_matches_store db (mkMgr ∅ ∅ false) cs).
  - apply sample_sys_wf.
  - reflexivity.
Defined.

(** A nudge that was received blocks further ones for ten
    seconds, and only for that long; an unknown or stopped target is never
    nudged, and a refused nudge changes nothing. *)
Theorem check_now_rate now id ready m :
  let '(ok, m') := CheckNow now id ready m in
  (ok = true ↔ ∃ r, mg_runners m !! id = Some r ∧
     (ru_nudged r = zeroTime ∨ checkNowGap ≤ now - ru_nudged r)) ∧
  (ok = false → m' = m) ∧
  (ok = true → ready = true → now ≠ zeroTime →
     ∀ now', (CheckNow now' id ready m').1 = bool_decide (checkNowGap ≤ now' - now)).
Proof.
  unfold CheckNow. destruct (mg_runners m !! id) as [r|] eqn:Hr; [|naive_solver].
  assert (Hlt : ∀ n u, Sub n u < checkNowGap ↔ n - u < checkNowGap) by (intros; by apply Sub_lt).
  unfold IsZero. destruct (negb _ && _) eqn:Hc.
  - apply andb_true_iff in Hc as [Hz%negb_true_iff%bool_decide_eq_false Hg%bool_decide_eq_true].
    apply Hlt in Hg. split_and!; try done. split; [done|]. intros (r' & ? & [?|?]); simplify_eq; lia.
  - apply andb_false_iff in Hc.
    rewrite negb_false_iff, bool_decide_eq_true, bool_decide_eq_false, Hlt in Hc.
    split_and!; [|done|].
    + split; [|done]. intros _. exists r. split; [done|]. destruct Hc; [by left|right; lia].
    + intros _ -> Hnz now'. simpl. rewrite lookup_insert_eq. simpl.
      rewrite (bool_decide_false (now = zeroTime)) by done. simpl.
      rewrite (bool_decide_ext _ _ (Hlt now' now)).
      destruct (decide (now' - now < checkNowGap)).
      * rewrite !bool_decide_true, bool_decide_false by lia. done.
      * rewrite bool_decide_false, bool_decide_true by lia. done.
Qed.
