(* ===== verification/Goroutines.v ===== *)
(** * The goroutines of the manager (internal/monitor/scheduler.go)

    [Scheduler] treats an operation of the manager as atomic and [Runner] a
    goroutine as alone.  This file justifies both: it is the small-step
    interleaving of the goroutines of the targets, the callers of Start,
    Reload, Delete and Wait, and the outside (timers, CheckNow, the end of the
    process).  Every blocking operation of the source is a step of its own
    that is enabled only when the operation proceeds: the lock [ops], the
    semaphore [sem], [<-r.done], [wg.Wait] and the two selects.  What the
    steps compute is the business of the other files; here they are the
    program counter and the shared state that decides who runs. *)

From S2P Require Import Prelude Scheduler.

(** ** A goroutine *)

(** Where a goroutine is in [run], [restore] and [round].  [GNew] is
    registered in [runners] and not yet spawned; [GDone] has closed [done]. *)
Inductive gpc : Type :=
  | GNew
  | GIncident | GIncidentEnd | GLast | GTimer
  | GSelect | GSem | GCheck | GErr
  | GRecord | GInsert | GOpen | GFetch | GClose | GMail | GMark
  | GReset | GDone.

#[export] Instance gpc_eq_dec : EqDecision gpc.
Proof. solve_decision. Defined.

Record goroutine : Type := mkG {
  g_target : Z;
  g_pc : gpc;
  g_cancelled : bool;
  g_fired : bool;
}.

Definition at_pc (pc : gpc) (g : goroutine) : goroutine :=
  mkG (g_target g) pc (g_cancelled g) (g_fired g).
Definition armed (pc : gpc) (g : goroutine) : goroutine :=
  mkG (g_target g) pc (g_cancelled g) false.
Definition fired (g : goroutine) : goroutine :=
  mkG (g_target g) (g_pc g) (g_cancelled g) true.
Definition cancelled (g : goroutine) : goroutine :=
  mkG (g_target g) (g_pc g) true (g_fired g).

Definition live (g : goroutine) : Prop := g_pc g ≠ GDone.

#[export] Instance live_dec g : Decision (live g).
Proof. unfold live. apply _. Defined.

(** What a step does to the semaphore. *)
Inductive semop : Type := Keep | Acquire | Release.

(** One step of a spawned goroutine.  The branches of [restore] only skip
    statements of the same kind, those of [round] follow the source. *)
Inductive gstep : goroutine → semop → goroutine → Prop :=
  | g_incident g : g_pc g = GIncident → gstep g Keep (at_pc GIncidentEnd g)
  | g_incident_end g : g_pc g = GIncidentEnd → gstep g Keep (at_pc GLast g)
  | g_last g : g_pc g = GLast → gstep g Keep (at_pc GTimer g)
  | g_timer g : g_pc g = GTimer → gstep g Keep (armed GSelect g)
  | g_select_done g : g_pc g = GSelect → g_cancelled g = true → gstep g Keep (at_pc GDone g)
  | g_select_timer g : g_pc g = GSelect → g_fired g = true → gstep g Keep (armed GSem g)
  | g_sem g : g_pc g = GSem → gstep g Acquire (at_pc GCheck g)
  | g_sem_done g : g_pc g = GSem → g_cancelled g = true → gstep g Keep (at_pc GReset g)
  | g_check g : g_pc g = GCheck → gstep g Release (at_pc GErr g)
  | g_err g : g_pc g = GErr → g_cancelled g = true → gstep g Keep (at_pc GReset g)
  | g_ok g : g_pc g = GErr → g_cancelled g = false → gstep g Keep (at_pc GRecord g)
  | g_record g : g_pc g = GRecord → gstep g Keep (at_pc GInsert g)
  | g_insert_none g : g_pc g = GInsert → gstep g Keep (at_pc GReset g)
  | g_insert_down g : g_pc g = GInsert → gstep g Keep (at_pc GOpen g)
  | g_insert_up g : g_pc g = GInsert → gstep g Keep (at_pc GClose g)
  | g_open g : g_pc g = GOpen → gstep g Keep (at_pc GMail g)
  | g_open_exists g : g_pc g = GOpen → gstep g Keep (at_pc GFetch g)
  | g_open_failed g : g_pc g = GOpen → gstep g Keep (at_pc GReset g)
  | g_fetch g : g_pc g = GFetch → gstep g Keep (at_pc GReset g)
  | g_close g : g_pc g = GClose → gstep g Keep (at_pc GMail g)
  | g_close_failed g : g_pc g = GClose → gstep g Keep (at_pc GReset g)
  | g_mail g : g_pc g = GMail → gstep g Keep (at_pc GMark g)
  | g_mail_failed g : g_pc g = GMail → gstep g Keep (at_pc GReset g)
  | g_mark g : g_pc g = GMark → gstep g Keep (at_pc GReset g)
  | g_reset g : g_pc g = GReset → gstep g Keep (armed GSelect g).

(** The statements a goroutine sends for its target. *)
Definition writes (pc : gpc) : bool :=
  match pc with
  | GIncident | GIncidentEnd | GLast | GRecord | GInsert | GOpen | GFetch | GClose | GMark => true
  | _ => false
  end.

(** ** A caller *)

Inductive op : Type := OpStart | OpReload (id : Z) | OpDelete (id : Z) | OpWait.

#[export] Instance op_eq_dec : EqDecision op.
Proof. solve_decision. Defined.

Inductive kind : Type := KReload | KDelete.

(** Where a caller is.  [CStore] is the statement after [stop]: Target in
    Reload, DeleteTarget in Delete.  [CStartAll] starts a list of targets:
    the loop of Start, or the one target of Reload and Delete. *)
Inductive cpc : Type :=
  | CLock (o : op)
  | CLoad
  | CStartAll (ts : list Z)
  | CSpawn (r : nat) (ts : list Z)
  | CStop (id : Z) (k : kind)
  | CCancel (id : Z) (k : kind) (r : nat)
  | CJoin (id : Z) (k : kind) (r : nat)
  | CStore (id : Z) (k : kind)
  | CRefetch (id : Z)
  | CErr (id : Z)
  | CClosePaused (id : Z)
  | CForget (id : Z)
  | CWait
  | CUnlock
  | CReturned.

(** ** The shared state

    [m_runners] maps a target to its registered goroutine, [m_sem] is the
    number of values in the channel [sem], [m_ops] the holder of the lock
    [ops], [m_root] whether [m.ctx] has ended.  [m_phase] is the order of serve
    in cmd/dmn-status/main.go: one call of Start, and after it has returned the
    web server with its calls of Reload and Delete, and Wait. *)

Inductive phase : Type := Idle | Starting | Running.

Record mgr : Type := mkM {
  m_gs : gmap nat goroutine;
  m_runners : gmap Z nat;
  m_sem : Z;
  m_ops : option nat;
  m_callers : gmap nat cpc;
  m_root : bool;
  m_phase : phase;
}.

Definition set_g (r : nat) (g : goroutine) (m : mgr) : mgr :=
  mkM (<[r := g]> (m_gs m)) (m_runners m) (m_sem m) (m_ops m) (m_callers m) (m_root m) (m_phase m).
Definition set_registered (f : gmap Z nat → gmap Z nat) (m : mgr) : mgr :=
  mkM (m_gs m) (f (m_runners m)) (m_sem m) (m_ops m) (m_callers m) (m_root m) (m_phase m).
Definition set_sem (o : semop) (m : mgr) : mgr :=
  let n := match o with Keep => m_sem m | Acquire => m_sem m + 1 | Release => m_sem m - 1 end in
  mkM (m_gs m) (m_runners m) n (m_ops m) (m_callers m) (m_root m) (m_phase m).
Definition set_caller (c : nat) (p : cpc) (m : mgr) : mgr :=
  mkM (m_gs m) (m_runners m) (m_sem m) (m_ops m) (<[c := p]> (m_callers m)) (m_root m) (m_phase m).
Definition set_ops (h : option nat) (m : mgr) : mgr :=
  mkM (m_gs m) (m_runners m) (m_sem m) h (m_callers m) (m_root m) (m_phase m).
Definition set_phase (p : phase) (m : mgr) : mgr :=
  mkM (m_gs m) (m_runners m) (m_sem m) (m_ops m) (m_callers m) (m_root m) p.
Definition set_root (m : mgr) : mgr :=
  mkM (m_gs m) (m_runners m) (m_sem m) (m_ops m) (m_callers m) true (m_phase m).

Definition mgr0 : mgr := mkM ∅ ∅ 0 None ∅ false Idle.

(** The send on [sem] proceeds while the buffer has room. *)
Definition sem_ready (o : semop) (m : mgr) : Prop :=
  match o with Acquire => m_sem m < maxParallel | _ => True end.

(** What a caller does after it has the lock. *)
Definition entry (o : op) : cpc :=
  match o with
  | OpStart => CLoad
  | OpReload id => CStop id KReload
  | OpDelete id => CStop id KDelete
  | OpWait => CWait
  end.

(** What a caller that holds [ops] may do to itself alone, after the reply of
    the store and the state of [m.ctx]. *)
Inductive cstep (root : bool) : cpc → cpc → Prop :=
  | c_load ts : NoDup ts → cstep root CLoad (CStartAll ts)
  | c_load_failed : cstep root CLoad CUnlock
  | c_start_none : cstep root (CStartAll []) CUnlock
  | c_target id : cstep root (CStore id KReload) (CErr id)
  | c_target_paused id : cstep root (CStore id KReload) (CClosePaused id)
  | c_target_failed id : cstep root (CStore id KReload) CUnlock
  | c_close_paused id : cstep root (CClosePaused id) CUnlock
  | c_deleted id : cstep root (CStore id KDelete) (CForget id)
  | c_forget id : cstep root (CForget id) CUnlock
  | c_delete_missing id : cstep root (CStore id KDelete) CUnlock
  | c_delete_failed id : cstep root (CStore id KDelete) (CRefetch id)
  | c_refetched id : cstep root (CRefetch id) (CErr id)
  | c_refetch_failed id : cstep root (CRefetch id) CUnlock
  | c_err_alive id : root = false → cstep root (CErr id) (CStartAll [id])
  | c_err_ended id : root = true → cstep root (CErr id) CUnlock.

Inductive label : Type :=
  | LRun (r : nat)
  | LTimer (r : nat)
  | LNudge (r : nat)
  | LCaller (c : nat)
  | LEnd
  | LPropagate (r : nat).

(** One step of the whole. *)
Inductive mstep : mgr → label → mgr → Prop :=
  (* a goroutine runs *)
  | step_run m r g o g' :
      m_gs m !! r = Some g → gstep g o g' → sem_ready o m →
      mstep m (LRun r) (set_sem o (set_g r g' m))
  (* its timer fires; CheckNow meets it in its select, under the lock [mu] *)
  | step_timer m r g :
      m_gs m !! r = Some g → mstep m (LTimer r) (set_g r (fired g) m)
  | step_nudge m id r g :
      m_runners m !! id = Some r → m_gs m !! r = Some g → g_pc g = GSelect →
      mstep m (LNudge r) (set_g r (at_pc GSem g) m)
  (* [m.ctx] ends, and the context of a goroutine with it *)
  | step_end m : mstep m LEnd (set_root m)
  | step_propagate m r g :
      m_root m = true → m_gs m !! r = Some g →
      mstep m (LPropagate r) (set_g r (cancelled g) m)
  (* a caller arrives, locks, works, unlocks *)
  | step_call_start m c :
      m_callers m !! c = None → m_phase m = Idle →
      mstep m (LCaller c) (set_phase Starting (set_caller c (CLock OpStart) m))
  | step_call m c o :
      m_callers m !! c = None → m_phase m = Running → o ≠ OpStart →
      mstep m (LCaller c) (set_caller c (CLock o) m)
  | step_lock m c o :
      m_callers m !! c = Some (CLock o) → m_ops m = None →
      mstep m (LCaller c) (set_ops (Some c) (set_caller c (entry o) m))
  | step_unlock m c :
      m_callers m !! c = Some CUnlock →
      mstep m (LCaller c) (set_phase Running (set_ops None (set_caller c CReturned m)))
  | step_caller m c p p' :
      m_callers m !! c = Some p → cstep (m_root m) p p' →
      mstep m (LCaller c) (set_caller c p' m)
  (* start: registered under [mu], then spawned *)
  | step_register m c t ts r :
      m_callers m !! c = Some (CStartAll (t :: ts)) → m_gs m !! r = None →
      mstep m (LCaller c) (set_caller c (CSpawn r ts) (set_registered <[t := r]>
        (set_g r (mkG t GNew (m_root m) false) m)))
  | step_spawn m c r ts g :
      m_callers m !! c = Some (CSpawn r ts) → m_gs m !! r = Some g → g_pc g = GNew →
      mstep m (LCaller c) (set_caller c (CStartAll ts) (set_g r (at_pc GIncident g) m))
  (* stop: taken out of [runners] under [mu], cancelled, joined *)
  | step_stop_none m c id k :
      m_callers m !! c = Some (CStop id k) → m_runners m !! id = None →
      mstep m (LCaller c) (set_caller c (CStore id k) m)
  | step_stop m c id k r :
      m_callers m !! c = Some (CStop id k) → m_runners m !! id = Some r →
      mstep m (LCaller c) (set_caller c (CCancel id k r) (set_registered (delete id) m))
  | step_cancel m c id k r g :
      m_callers m !! c = Some (CCancel id k r) → m_gs m !! r = Some g →
      mstep m (LCaller c) (set_caller c (CJoin id k r) (set_g r (cancelled g) m))
  | step_join m c id k r g :
      m_callers m !! c = Some (CJoin id k r) → m_gs m !! r = Some g → g_pc g = GDone →
      mstep m (LCaller c) (set_caller c (CStore id k) m)
  (* Wait: the group is empty *)
  | step_wait m c :
      m_callers m !! c = Some CWait → (∀ r g, m_gs m !! r = Some g → ¬ live g) →
      mstep m (LCaller c) (set_caller c CUnlock m).

(** ** Executions *)

Inductive mrun : mgr → list label → mgr → Prop :=
  | mrun_nil m : mrun m [] m
  | mrun_cons m1 l m2 ls m3 : mstep m1 l m2 → mrun m2 ls m3 → mrun m1 (l :: ls) m3.

Definition reachable (m : mgr) : Prop := ∃ ls, mrun mgr0 ls m.

(** An invariant of the steps holds along every execution. *)
Lemma mrun_ind_inv (I : mgr → Prop) m ls m' :
  (∀ m1 l m2, I m1 → mstep m1 l m2 → I m2) → I m → mrun m ls m' → I m'.
Proof. intros Hstep Hm Hrun. induction Hrun; eauto. Qed.

(** ** The semaphore *)

Definition checking (gs : gmap nat goroutine) : Z :=
  Z.of_nat (size (filter (λ x, g_pc x.2 = GCheck) gs)).

Definition in_check (g : goroutine) : Z := if decide (g_pc g = GCheck) then 1 else 0.

Lemma checking_insert_new gs r g :
  gs !! r = None → checking (<[r := g]> gs) = checking gs + in_check g.
Proof.
  intros Hr. unfold checking, in_check. case_decide as Hg.
  - rewrite map_filter_insert_True by done. rewrite map_size_insert_None; [lia|].
    apply map_lookup_filter_None. by left.
  - rewrite map_filter_insert_not' by (try done; by intros y; rewrite Hr). lia.
Qed.

Lemma checking_insert gs r g g' :
  gs !! r = Some g → checking (<[r := g']> gs) = checking gs - in_check g + in_check g'.
Proof.
  intros Hr. rewrite <-(insert_id _ _ _ Hr) at 2. rewrite <-!(insert_delete_eq gs r).
  rewrite !checking_insert_new by apply lookup_delete_eq. lia.
Qed.

Definition delta (o : semop) : Z := match o with Keep => 0 | Acquire => 1 | Release => -1 end.

Lemma gstep_delta g o g' : gstep g o g' → in_check g' = in_check g + delta o.
Proof.
  unfold in_check. destruct 1; simpl; repeat case_decide; simplify_eq/=; try done; congruence.
Qed.

Lemma gstep_target g o g' : gstep g o g' → g_target g' = g_target g ∧ g_cancelled g' = g_cancelled g.
Proof. by destruct 1. Qed.

Lemma gstep_live g o g' : gstep g o g' → live g ∧ g_pc g ≠ GNew ∧ g_pc g' ≠ GNew.
Proof. unfold live. destruct 1; simpl; split_and!; congruence. Qed.

Definition sem_inv (m : mgr) : Prop := m_sem m = checking (m_gs m) ∧ m_sem m ≤ maxParallel.

Lemma sem_inv_step m l m' : sem_inv m → mstep m l m' → sem_inv m'.
Proof.
  intros [Hsem Hmax] Hstep. unfold sem_inv. destruct Hstep; simpl; try done.
  - erewrite checking_insert by done. pose proof (gstep_delta _ _ _ H0).
    destruct o; simpl in *; unfold maxParallel in *; lia.
  - erewrite checking_insert by done. unfold in_check. simpl. lia.
  - erewrite checking_insert by done. unfold in_check. simpl. rewrite H1. simpl. lia.
  - erewrite checking_insert by done. unfold in_check. simpl. lia.
  - rewrite checking_insert_new by done. unfold in_check. simpl. lia.
  - erewrite checking_insert by done. unfold in_check. simpl. rewrite H1. simpl. lia.
  - erewrite checking_insert by done. unfold in_check. simpl. lia.
Qed.

(** ** Who may run: the invariant of the lock and the registry *)

(** A caller inside the critical section of [ops]. *)
Definition holder (p : cpc) : bool :=
  match p with CLock _ | CReturned => false | _ => true end.

(** The targets a caller has made sure nobody is registered for. *)
Definition vacant (p : cpc) : list Z :=
  match p with
  | CStartAll ts | CSpawn _ ts => ts
  | CCancel id _ _ | CJoin id _ _ | CStore id _ | CRefetch id | CErr id | CClosePaused id
  | CForget id => [id]
  | _ => []
  end.

(** The goroutine a caller is waiting for. *)
Definition joining (p : cpc) : option (Z * nat) :=
  match p with CCancel id _ r | CJoin id _ r => Some (id, r) | _ => None end.

Definition starting (p : cpc) : bool :=
  match p with CLock OpStart | CLoad => true | _ => false end.

Record control (m : mgr) : Prop := mkControl {
  ct_lock c p : m_callers m !! c = Some p → holder p = true → m_ops m = Some c;
  ct_vacant c p : m_callers m !! c = Some p →
    NoDup (vacant p) ∧ ∀ id, id ∈ vacant p → m_runners m !! id = None;
  ct_starting c p : m_callers m !! c = Some p → starting p = true →
    m_runners m = ∅ ∧ m_phase m = Starting;
  ct_idle : m_phase m = Idle → m_callers m = ∅ ∧ m_runners m = ∅;
  ct_alone c c' p p' : m_phase m = Starting →
    m_callers m !! c = Some p → m_callers m !! c' = Some p' → c = c';
}.

Lemma control0 : control mgr0.
Proof. split; simpl; intros; simplify_map_eq; done. Qed.

Lemma cstep_holder root p p' : cstep root p p' → holder p = true ∧ holder p' = true.
Proof. by destruct 1. Qed.

(** The steps of a caller alone keep or drop what it has vacated, except that
    Start learns its list of targets. *)
Lemma cstep_vacant root p p' :
  cstep root p p' → (∃ ts, p = CLoad ∧ p' = CStartAll ts ∧ NoDup ts) ∨
    (NoDup (vacant p) → NoDup (vacant p')) ∧ vacant p' ⊆ vacant p ∧ starting p' = false.
Proof.
  destruct 1; simpl; (left; by eauto) || right; split_and!; try done; try set_solver.
  all: intros; repeat constructor; set_solver.
Qed.

Lemma control_set_g m r g : control m → control (set_g r g m).
Proof. intros [? ? ? ? ?]. by split. Qed.

Lemma control_set_sem m o : control m → control (set_sem o m).
Proof. intros [? ? ? ? ?]. by split. Qed.

Lemma control_same m m' :
  m_callers m' = m_callers m → m_runners m' = m_runners m → m_ops m' = m_ops m →
  m_phase m' = m_phase m → control m → control m'.
Proof. intros Hc Hr Ho Hp [? ? ? ? ?]. split; rewrite ?Hc, ?Hr, ?Ho, ?Hp; done. Qed.

(** The lock holder moves on: its new position must be justified. *)
Lemma control_holder m c p p' rs :
  control m → m_callers m !! c = Some p → holder p = true → holder p' = true →
  starting p' = false → NoDup (vacant p') → (∀ id, id ∈ vacant p' → rs !! id = None) →
  control (set_caller c p' (set_registered (λ _, rs) m)).
Proof.
  intros [Hl Hv Hs Hi Ha] Hc Hp Hp' Hst Hnd Hvac. split; simpl.
  - intros c' q [[<- <-]|[Hne Hq]]%lookup_insert_Some; [eauto|]. by apply Hl.
  - intros c' q [[<- <-]|[Hne Hq]]%lookup_insert_Some; [done|].
    assert (holder q = false) as Hf.
    { destruct (holder q) eqn:Hq'; [|done]. specialize (Hl _ _ Hq Hq') as E1.
      specialize (Hl _ _ Hc Hp). congruence. }
    destruct q; try done; simpl; (split; [constructor|set_solver]).
  - intros c' q [[<- <-]|[Hne Hq]]%lookup_insert_Some Hq'; [congruence|].
    destruct (Hs _ _ Hq Hq') as [_ E]. by destruct Hne; apply (Ha c c' p q).
  - intros E. destruct (Hi E) as [E' _]. by rewrite E', lookup_empty in Hc.
  - intros c1 c2 p1 p2 E [[<- <-]|[? E1]]%lookup_insert_Some [[<- <-]|[? E2]]%lookup_insert_Some;
      try done; eauto.
Qed.

Lemma control_unlock m c :
  control m → m_callers m !! c = Some CUnlock →
  control (set_phase Running (set_ops None (set_caller c CReturned m))).
Proof.
  intros Hm Hc. pose proof Hm as [Hl Hv Hs Hi Ha]. split; simpl; try done.
  - intros c' q [[<- <-]|[Hne Hq]]%lookup_insert_Some Hq'; [done|].
    specialize (Hl _ _ Hq Hq') as E. specialize (Hl _ _ Hc eq_refl). congruence.
  - intros c' q [[<- <-]|[Hne Hq]]%lookup_insert_Some; [split; [constructor|set_solver]|eauto].
  - intros c' q [[<- <-]|[Hne Hq]]%lookup_insert_Some Hq'; [done|].
    destruct (Hs _ _ Hq Hq') as [_ E]. by destruct Hne; apply (Ha c c' CUnlock q).
Qed.

Lemma control_lock m c o :
  control m → m_callers m !! c = Some (CLock o) → m_ops m = None →
  control (set_ops (Some c) (set_caller c (entry o) m)).
Proof.
  intros Hm Hc Hops. pose proof Hm as [Hl Hv Hs Hi Ha]. split; simpl.
  - intros c' q [[<- <-]|[Hne Hq]]%lookup_insert_Some Hq'; [done|].
    specialize (Hl _ _ Hq Hq'). congruence.
  - intros c' q [[<- <-]|[Hne Hq]]%lookup_insert_Some; [|eauto].
    destruct o; simpl; (split; [constructor|set_solver]).
  - intros c' q [[<- <-]|[Hne Hq]]%lookup_insert_Some Hq'; [|eauto].
    destruct o; try done. eauto.
  - intros E. destruct (Hi E) as [E' _]. by rewrite E', lookup_empty in Hc.
  - intros c1 c2 p1 p2 E [[<- <-]|[? E1]]%lookup_insert_Some [[<- <-]|[? E2]]%lookup_insert_Some;
      try done; eauto.
Qed.

Lemma control_call m c o :
  control m → m_callers m !! c = None →
  (m_phase m = Idle ∧ o = OpStart ∨ m_phase m = Running ∧ o ≠ OpStart) →
  control (set_phase (if decide (o = OpStart) then Starting else m_phase m)
    (set_caller c (CLock o) m)).
Proof.
  intros [Hl Hv Hs Hi Ha] Hc Hph. split; simpl.
  - intros c' q [[<- <-]|[Hne Hq]]%lookup_insert_Some Hq'; [done|eauto].
  - intros c' q [[<- <-]|[Hne Hq]]%lookup_insert_Some; [split; [constructor|set_solver]|eauto].
  - intros c' q [[<- <-]|[Hne Hq]]%lookup_insert_Some Hq'.
    + destruct o; try done. destruct Hph as [[E _]|[_ E]]; [|done].
      split; [by apply Hi|]. by rewrite decide_True.
    + destruct (Hs _ _ Hq Hq') as [? E]. destruct Hph as [[E' ->]|[E' ?]]; congruence.
  - case_decide; [done|]. intros E. destruct Hph as [[_ ?]|[E' _]]; [done|congruence].
  - intros c1 c2 p1 p2 E. case_decide as Ho; [|destruct Hph as [[_ ?]|[E' _]]; [done|congruence]].
    destruct Hph as [[E' _]|[_ ?]]; [|done]. destruct (Hi E') as [-> _].
    intros [[<- _]|[? E1]]%lookup_insert_Some [[<- _]|[? E2]]%lookup_insert_Some; done.
Qed.

Lemma control_step m l m' : control m → mstep m l m' → control m'.
Proof.
  intros Hm Hstep. destruct Hstep; try (by eapply control_same; [..|exact Hm]).
  - pose proof (control_call m c OpStart Hm H) as Hc. simpl in Hc. apply Hc. by left.
  - pose proof (control_call m c o Hm H) as Hc. rewrite decide_False in Hc by done.
    eapply control_same; [..|apply Hc; by right]; done.
  - by apply control_lock.
  - by apply control_unlock.
  - destruct (cstep_holder _ _ _ H0) as [Hh Hh'].
    eapply control_same; [..|apply (control_holder m c p p' (m_runners m) Hm H Hh Hh')];
      try done; destruct (cstep_vacant _ _ _ H0) as [(ts & -> & -> & Hnd)|(Hnd & Hsub & Hst)];
      try done.
    + apply Hnd. by eapply ct_vacant.
    + intros id _. destruct (ct_starting _ Hm _ _ H eq_refl) as [-> _]. apply lookup_empty.
    + intros id Hid. eapply ct_vacant; [done..|]. by apply Hsub.
  - destruct (ct_vacant _ Hm _ _ H) as [Hnd Hvac]. apply NoDup_cons in Hnd as [Ht Hnd].
    eapply control_same; [..|apply (control_holder m c _ (CSpawn r ts)
      (<[t:=r]> (m_runners m)) Hm H)]; try done.
    intros id Hid. simpl in Hid. rewrite lookup_insert_ne by (intros ->; done).
    apply Hvac. by right.
  - destruct (ct_vacant _ Hm _ _ H) as [Hnd Hvac].
    eapply control_same; [..|by apply (control_holder m c _ (CStartAll ts) (m_runners m) Hm H)]; done.
  - eapply control_same; [..|apply (control_holder m c _ (CStore id k) (m_runners m) Hm H)];
      try done; simpl; [apply NoDup_singleton|].
    by intros ? ->%list_elem_of_singleton.
  - eapply control_same; [..|apply (control_holder m c _ (CCancel id k r)
      (delete id (m_runners m)) Hm H)]; try done; simpl; [apply NoDup_singleton|].
    intros ? ->%list_elem_of_singleton. apply lookup_delete_eq.
  - destruct (ct_vacant _ Hm _ _ H) as [Hnd Hvac].
    eapply control_same; [..|by apply (control_holder m c _ (CJoin id k r) (m_runners m) Hm H)]; done.
  - destruct (ct_vacant _ Hm _ _ H) as [Hnd Hvac].
    eapply control_same; [..|by apply (control_holder m c _ (CStore id k) (m_runners m) Hm H)]; done.
  - eapply control_same; [..|apply (control_holder m c _ CUnlock (m_runners m) Hm H)];
      try done; simpl; [constructor|set_solver].
Qed.

(** Every live goroutine is the registered one of its target or the one its
    canceller waits for; a goroutine waits for its spawn only inside start. *)
Record owners (m : mgr) : Prop := mkOwners {
  ow_live r g : m_gs m !! r = Some g → live g → m_runners m !! g_target g = Some r ∨
    ∃ c p, m_callers m !! c = Some p ∧ joining p = Some (g_target g, r);
  ow_runner id r : m_runners m !! id = Some r → ∃ g, m_gs m !! r = Some g ∧ g_target g = id;
  ow_join c p id r : m_callers m !! c = Some p → joining p = Some (id, r) →
    ∃ g, m_gs m !! r = Some g ∧ g_target g = id;
  ow_cancel c id k r g : m_callers m !! c = Some (CJoin id k r) → m_gs m !! r = Some g →
    g_cancelled g = true;
  ow_new r g : m_gs m !! r = Some g → g_pc g = GNew →
    ∃ c ts, m_callers m !! c = Some (CSpawn r ts);
}.

Lemma owners0 : owners mgr0.
Proof. split; simpl; intros; simplify_map_eq. Qed.

Lemma owners_same m m' :
  m_gs m' = m_gs m → m_callers m' = m_callers m → m_runners m' = m_runners m →
  owners m → owners m'.
Proof. intros Hg Hc Hr [? ? ? ? ?]. split; rewrite ?Hg, ?Hc, ?Hr; done. Qed.

(** A goroutine changes itself. *)
Lemma owners_set_g m r g g' :
  owners m → m_gs m !! r = Some g → g_target g' = g_target g → (live g' → live g) →
  (g_cancelled g = true → g_cancelled g' = true) → (g_pc g' = GNew → g_pc g = GNew) →
  owners (set_g r g' m).
Proof.
  intros [Hl Hr Hj Hc Hn] Hg Ht Hlive Hcan Hnew. split; simpl.
  - intros r' x [[<- <-]|[Hne Hx]]%lookup_insert_Some Hx'; [|eauto]. rewrite Ht. eauto.
  - intros id r' Hid. destruct (Hr _ _ Hid) as (x & Hx & Hxt). destruct (decide (r' = r)) as [->|].
    + rewrite lookup_insert_eq. exists g'. split; [done|]. congruence.
    + rewrite lookup_insert_ne by done. eauto.
  - intros c p id r' Hp Hjo. destruct (Hj _ _ _ _ Hp Hjo) as (x & Hx & Hxt).
    destruct (decide (r' = r)) as [->|].
    + rewrite lookup_insert_eq. exists g'. split; [done|]. congruence.
    + rewrite lookup_insert_ne by done. eauto.
  - intros c id k r' x Hp [[<- <-]|[Hne Hx]]%lookup_insert_Some; eauto.
  - intros r' x [[<- <-]|[Hne Hx]]%lookup_insert_Some Hx'; eauto.
Qed.

(** A caller moves from [p] to [p'] and changes the registry to [rs]. *)
Record handover (m : mgr) (p : option cpc) (p' : cpc) (rs : gmap Z nat) : Prop := mkHandover {
  ho_kept id r : m_runners m !! id = Some r → rs !! id = Some r ∨ joining p' = Some (id, r);
  ho_from id r : rs !! id = Some r → m_runners m !! id = Some r;
  ho_joined q id r : p = Some q → joining q = Some (id, r) →
    joining p' = Some (id, r) ∨ ∀ g, m_gs m !! r = Some g → ¬ live g;
  ho_joins id r : joining p' = Some (id, r) →
    (∃ q, p = Some q ∧ joining q = Some (id, r)) ∨ m_runners m !! id = Some r;
  ho_cancel id k r g : p' = CJoin id k r → m_gs m !! r = Some g → g_cancelled g = true;
  ho_new r ts g : p = Some (CSpawn r ts) → m_gs m !! r = Some g → g_pc g ≠ GNew;
}.

Lemma owners_caller m c p p' rs :
  owners m → m_callers m !! c = p → handover m p p' rs →
  owners (set_caller c p' (set_registered (λ _, rs) m)).
Proof.
  intros [Hl Hr Hj Hc Hn] Hp [Hk Hf Hjd Hjs Hca Hnw]. split; simpl.
  - intros r g Hg Hlive. destruct (Hl _ _ Hg Hlive) as [Hrun|(c' & q & Hq & Hqj)].
    + destruct (Hk _ _ Hrun) as [?|?]; [by left|]. right. exists c, p'.
      by rewrite lookup_insert_eq.
    + destruct (decide (c' = c)) as [->|Hne].
      * destruct (Hjd q _ _ ltac:(congruence) Hqj) as [?|Hdead]; [|by apply Hdead in Hlive].
        right. exists c, p'. by rewrite lookup_insert_eq.
      * right. exists c', q. by rewrite lookup_insert_ne.
  - eauto.
  - intros c' q id r [[<- <-]|[Hne Hq]]%lookup_insert_Some Hjo; [|eauto].
    destruct (Hjs _ _ Hjo) as [(q & ? & ?)|?]; [|by apply Hr].
    eapply (Hj c q); congruence.
  - intros c' id k r g [[<- Hq]|[Hne Hq]]%lookup_insert_Some Hg; eauto.
  - intros r g Hg Hpc. destruct (Hn _ _ Hg Hpc) as (c' & ts & Hq).
    destruct (decide (c' = c)) as [->|Hne].
    + destruct (Hnw r ts g ltac:(congruence) Hg Hpc).
    + exists c', ts. by rewrite lookup_insert_ne.
Qed.

(** Most moves concern neither the registry nor a goroutine. *)
Lemma handover_idle m p p' :
  (∀ q, p = Some q → joining q = None ∧ (∀ r ts, q ≠ CSpawn r ts)) → joining p' = None →
  handover m p p' (m_runners m).
Proof.
  intros Hp Hp'. split; try by auto.
  - intros q id r ->. destruct (Hp q eq_refl) as [-> _]. done.
  - intros id r. by rewrite Hp'.
  - intros id k r g ->. done.
  - intros r ts g -> _ _. destruct (Hp _ eq_refl) as [_ Hn]. by destruct (Hn r ts).
Qed.

Lemma owners_step m l m' : control m → owners m → mstep m l m' → owners m'.
Proof.
  intros Hm Ho Hstep. destruct Hstep.
  - destruct (gstep_target _ _ _ H0) as [Ht Hc]. destruct (gstep_live _ _ _ H0) as (Hl & Hn & Hn').
    eapply owners_same; [..|eapply (owners_set_g m r g g')]; try done. by rewrite Hc.
  - eapply owners_set_g; [done..|]. done.
  - eapply owners_set_g; try done. unfold live. intros _. congruence.
  - by eapply owners_same; [..|exact Ho].
  - eapply owners_set_g; [done..|]. done.
  - eapply owners_same; [..|eapply (owners_caller m c None (CLock OpStart) (m_runners m))]; try done.
    by apply handover_idle.
  - eapply owners_same; [..|eapply (owners_caller m c None (CLock o) (m_runners m))]; try done.
    by apply handover_idle.
  - eapply owners_same; [..|eapply (owners_caller m c _ (entry o) (m_runners m))]; try done.
    apply handover_idle; [by intros ? [= <-]|by destruct o].
  - eapply owners_same; [..|eapply (owners_caller m c _ CReturned (m_runners m))]; try done.
    apply handover_idle; [by intros ? [= <-]|done].
  - eapply owners_same; [..|eapply (owners_caller m c _ p' (m_runners m))]; try done.
    apply handover_idle; [intros ? [= <-]|]; by destruct H0.
  - (* register *)
    destruct (ct_vacant _ Hm _ _ H) as [_ Hvac]. assert (m_runners m !! t = None) as Ht.
    { apply Hvac. left. }
    destruct Ho as [Hl Hr Hj Hc Hn]. split; simpl.
    + intros r' x [[<- <-]|[Hne Hx]]%lookup_insert_Some Hx'; [left; apply lookup_insert_eq|].
      destruct (Hl _ _ Hx Hx') as [Hrun|(c' & q & Hq & Hqj)].
      * left. rewrite lookup_insert_ne by congruence. done.
      * right. exists c', q. rewrite lookup_insert_ne; [done|]. intros <-. by simplify_eq.
    + intros id r' [[<- <-]|[Hne Hid]]%lookup_insert_Some.
      { rewrite lookup_insert_eq. by eexists. }
      destruct (Hr _ _ Hid) as (x & Hx & Hxt). rewrite lookup_insert_ne by congruence. eauto.
    + intros c' q id r' [[<- <-]|[Hne Hq]]%lookup_insert_Some Hjo; [done|].
      destruct (Hj _ _ _ _ Hq Hjo) as (x & Hx & Hxt). rewrite lookup_insert_ne by congruence. eauto.
    + intros c' id k r' x [[<- Hq]|[Hne Hq]]%lookup_insert_Some [[<- <-]|[Hne' Hx]]%lookup_insert_Some;
        try done; [|eauto].
      destruct (Hj _ _ id r Hq eq_refl) as (x & Hx & _). congruence.
    + intros r' x [[<- <-]|[Hne Hx]]%lookup_insert_Some Hx'.
      { exists c, ts. apply lookup_insert_eq. }
      destruct (Hn _ _ Hx Hx') as (c' & ts' & Hq). exists c', ts'.
      rewrite lookup_insert_ne; [done|]. intros <-. by simplify_eq.
  - (* spawn *)
    assert (owners (set_g r (at_pc GIncident g) m)) as Ho'.
    { eapply owners_set_g; try done. unfold live. intros _. congruence. }
    eapply owners_same; [..|eapply (owners_caller _ c _ (CStartAll ts) (m_runners m) Ho')]; try done.
    split; simpl; intros; simplify_eq; auto. by simplify_map_eq.
  - eapply owners_same; [..|eapply (owners_caller m c _ (CStore id k) (m_runners m))]; try done.
    apply handover_idle; [by intros ? [= <-]|done].
  - (* stop *)
    eapply owners_same; [..|eapply (owners_caller m c _ (CCancel id k r) (delete id (m_runners m)))];
      try done.
    split; simpl; intros; simplify_eq; auto.
    + destruct (decide (id0 = id)) as [->|Hne]; [right; congruence|]. left. by rewrite lookup_delete_ne.
    + by apply lookup_delete_Some in H1 as [_ ?].
  - (* cancel *)
    assert (owners (set_g r (cancelled g) m)) as Ho' by (by eapply owners_set_g).
    eapply owners_same; [..|eapply (owners_caller _ c _ (CJoin id k r) (m_runners m) Ho')]; try done.
    split; simpl; intros; simplify_map_eq; eauto.
  - (* join *)
    eapply owners_same; [..|eapply (owners_caller m c _ (CStore id k) (m_runners m))]; try done.
    split; simpl; intros; simplify_eq; auto.
    simplify_eq/=. right. unfold live. intros x Hx. simplify_eq. by intros [].
  - eapply owners_same; [..|eapply (owners_caller m c _ CUnlock (m_runners m))]; try done.
    apply handover_idle; [by intros ? [= <-]|done].
Qed.

(** ** The invariant of every execution *)

Record minv (m : mgr) : Prop := mkInv {
  mi_sem : sem_inv m;
  mi_control : control m;
  mi_owners : owners m;
}.

Lemma minv_step m l m' : minv m → mstep m l m' → minv m'.
Proof.
  intros [Hs Hc Ho] Hstep. split; [by eapply sem_inv_step|by eapply control_step|by eapply owners_step].
Qed.

Lemma minv_reachable m : reachable m → minv m.
Proof.
  intros [ls Hrun]. revert Hrun. apply (mrun_ind_inv minv); [apply minv_step|].
  split; [|apply control0|apply owners0]. split; [done|]. unfold maxParallel. simpl. lia.
Qed.

(** The lock [ops] has one holder. *)
Lemma one_holder m c c' p p' :
  control m → m_callers m !! c = Some p → m_callers m !! c' = Some p' →
  holder p = true → holder p' = true → c = c'.
Proof.
  intros Hm Hp Hp' Hh Hh'. pose proof (ct_lock _ Hm _ _ Hp Hh).
  pose proof (ct_lock _ Hm _ _ Hp' Hh'). congruence.
Qed.

Lemma joining_holder p x : joining p = Some x → holder p = true ∧ vacant p = [x.1].
Proof. destruct p; intros [= <-]; done. Qed.

(** One live goroutine per target. *)
Lemma live_unique m r r' g g' :
  minv m → m_gs m !! r = Some g → m_gs m !! r' = Some g' →
  live g → live g' → g_target g = g_target g' → r = r'.
Proof.
  intros [_ Hm Ho] Hg Hg' Hl Hl' Ht.
  assert (∀ r c p, m_runners m !! g_target g = Some r → m_callers m !! c = Some p →
    ∀ r', joining p = Some (g_target g, r') → False) as Hexcl.
  { intros r1 c p Hr Hp r2 Hj. destruct (joining_holder _ _ Hj) as [_ Hv].
    destruct (ct_vacant _ Hm _ _ Hp) as [_ Hvac]. rewrite Hv in Hvac.
    specialize (Hvac (g_target g)). simpl in Hvac. rewrite Hvac in Hr by left. done. }
  destruct (ow_live _ Ho _ _ Hg Hl) as [?|(c & p & Hp & Hj)],
    (ow_live _ Ho _ _ Hg' Hl') as [?|(c' & p' & Hp' & Hj')];
    rewrite <-Ht in *; try (exfalso; by eapply Hexcl); [congruence|].
  destruct (joining_holder _ _ Hj) as [Hh _]. destruct (joining_holder _ _ Hj') as [Hh' _].
  assert (c = c') as <- by by eapply (one_holder m c c'). congruence.
Qed.

(** A caller past its [stop] has the target to itself. *)
Lemma vacant_dead m c p id r g :
  minv m → m_callers m !! c = Some p → joining p = None → id ∈ vacant p →
  m_gs m !! r = Some g → g_target g = id → ¬ live g.
Proof.
  intros [_ Hm Ho] Hp Hj Hid Hg <- Hl. assert (holder p = true) as Hh.
  { destruct p; try done; by apply not_elem_of_nil in Hid. }
  destruct (ow_live _ Ho _ _ Hg Hl) as [Hr|(c' & p' & Hp' & Hj')].
  - destruct (ct_vacant _ Hm _ _ Hp) as [_ Hvac]. rewrite Hvac in Hr; done.
  - destruct (joining_holder _ _ Hj') as [Hh' _].
    assert (c = c') as <- by by eapply (one_holder m c c'). congruence.
Qed.

(** Inside start no caller waits to join, so nothing unspawned is joined. *)
Lemma joined_spawned m c id k r g :
  minv m → m_callers m !! c = Some (CJoin id k r) → m_gs m !! r = Some g → g_pc g ≠ GNew.
Proof.
  intros [_ Hm Ho] Hp Hg Hpc. destruct (ow_new _ Ho _ _ Hg Hpc) as (c' & ts & Hq).
  assert (c = c') as <- by by eapply (one_holder m c c'). congruence.
Qed.

(** ** Liveness

    A cancelled goroutine counts down: [potential] falls with each of its own
    steps, and only a firing timer raises it. *)

#[export] Instance label_eq_dec : EqDecision label.
Proof. solve_decision. Defined.

Definition rank (pc : gpc) : Z :=
  match pc with
  | GNew => 6
  | GIncident => 5 | GIncidentEnd => 4 | GLast => 3 | GTimer => 2
  | GSelect => 1 | GSem => 5 | GCheck => 4 | GErr => 3
  | GRecord => 7 | GInsert => 6 | GOpen => 5 | GClose => 5 | GMail => 4 | GMark => 3 | GFetch => 3
  | GReset => 2 | GDone => 0
  end.

Definition potential (g : goroutine) : Z := rank (g_pc g) + if g_fired g then 6 else 0.

Lemma potential_bounds g : 0 ≤ potential g ≤ 13.
Proof. unfold potential. destruct (g_pc g), (g_fired g); simpl; lia. Qed.

Lemma gstep_potential g o g' :
  gstep g o g' → g_cancelled g = true → potential g' + 1 ≤ potential g.
Proof.
  intros Hstep Hc. unfold potential.
  destruct Hstep; simpl; repeat match goal with E : g_pc g = _ |- _ => rewrite E; clear E end;
    simpl; destruct (g_fired g) eqn:?; try congruence; lia.
Qed.

(** No statement of a cancelled goroutine blocks: the send on the semaphore
    gives way to the end of the context. *)
Lemma gstep_enabled g :
  g_cancelled g = true → live g → g_pc g ≠ GNew → ∃ o g', gstep g o g' ∧ o ≠ Acquire.
Proof.
  intros Hc Hl Hn. unfold live in Hl. destruct (g_pc g) eqn:Hpc; try done.
  all: do 2 eexists; (split; [by constructor|done]).
Qed.

(** A goroutine that is cancelled and no longer registered. *)
Record retired (r : nat) (m : mgr) (g : goroutine) : Prop := mkRetired {
  re_g : m_gs m !! r = Some g;
  re_cancelled : g_cancelled g = true;
  re_spawned : g_pc g ≠ GNew;
  re_gone id : m_runners m !! id ≠ Some r;
}.

Definition spent (r : nat) (l : label) : Z := if decide (l = LRun r) then 1 else 0.
Definition fed (r : nat) (l : label) : Z := if decide (l = LTimer r) then 6 else 0.

Lemma spent_fed r l : 0 ≤ spent r l ∧ 0 ≤ fed r l.
Proof. unfold spent, fed. repeat case_decide; lia. Qed.

Lemma spent_other r l : l ≠ LRun r → spent r l = 0.
Proof. unfold spent. by intros; rewrite decide_False. Qed.

Lemma spent_run r : spent r (LRun r) = 1.
Proof. unfold spent. by rewrite decide_True. Qed.

Lemma fed_timer r : fed r (LTimer r) = 6.
Proof. unfold fed. by rewrite decide_True. Qed.

(** A step that leaves goroutine [r] alone. *)
Lemma retired_kept r m m' g l :
  retired r m g → m_gs m' !! r = Some g → (∀ id, m_runners m' !! id ≠ Some r) →
  l ≠ LRun r → ∃ g', retired r m' g' ∧ potential g' + spent r l ≤ potential g + fed r l.
Proof.
  intros [Hg Hc Hn Hr] Hg' Hr' Hl. exists g. split; [by split|].
  pose proof (spent_fed r l). rewrite spent_other by done. lia.
Qed.

(** A step that replaces goroutine [r]. *)
Lemma retired_set r m m' g g' l :
  retired r m g → m_gs m' = <[r := g']> (m_gs m) → m_runners m' = m_runners m →
  g_cancelled g' = true → g_pc g' ≠ GNew → potential g' + spent r l ≤ potential g + fed r l →
  ∃ g', retired r m' g' ∧ potential g' + spent r l ≤ potential g + fed r l.
Proof.
  intros [Hg Hc Hn Hr] Hgs Hrs Hc' Hn' Hp. exists g'. split; [|done].
  split; [by rewrite Hgs, lookup_insert_eq|done|done|by rewrite Hrs].
Qed.

Lemma retired_step r m l m' g :
  retired r m g → mstep m l m' →
  ∃ g', retired r m' g' ∧ potential g' + spent r l ≤ potential g + fed r l.
Proof.
  intros Hret Hstep. pose proof Hret as [Hg Hc Hn Hr].
  destruct Hstep; try (by apply (retired_kept r m)).
  all: try match goal with
    | |- context [set_g ?r' _ _] => destruct (decide (r' = r)) as [->|Hne];
        [|by apply (retired_kept r m); simpl;
            [done|rewrite lookup_insert_ne by done|try done; by (intros ?; apply Hr)|congruence]]
    end; simplify_eq; try (by destruct (Hr id)).
  - eapply retired_set; [done..| | |]; [destruct (gstep_target _ _ _ H0); congruence|
      by destruct (gstep_live _ _ _ H0) as (_ & _ & ?)|].
    pose proof (gstep_potential _ _ _ H0 Hc). pose proof (spent_fed r (LRun r)).
    rewrite spent_run. lia.
  - eapply retired_set; [done..|]. rewrite spent_other, fed_timer by done.
    unfold potential. simpl. match goal with |- context [g_fired ?x] => destruct (g_fired x) end; lia.
  - eapply retired_set; [done..|]. rewrite spent_other by done.
    pose proof (spent_fed r (LPropagate r)). unfold potential. simpl. lia.
  - apply (retired_kept r m); simpl; [done|by rewrite lookup_insert_ne by congruence| |done].
    intros id [[? ?]|[? ?]]%lookup_insert_Some; [congruence|by eapply Hr].
  - apply (retired_kept r m); try done. simpl. intros id' [? ?]%lookup_delete_Some. by eapply Hr.
  - eapply retired_set; [done..|]. rewrite spent_other by done.
    pose proof (spent_fed r (LCaller c)). unfold potential. simpl. lia.
Qed.

Lemma retired_run r m ls m' g :
  retired r m g → mrun m ls m' →
  ∃ g', retired r m' g' ∧ potential g' + sum_with (spent r) ls ≤ potential g + sum_with (fed r) ls.
Proof.
  intros Hret Hrun. revert g Hret. induction Hrun as [m|m1 l m2 ls m3 Hstep _ IH]; intros g Hret.
  { exists g. split; [done|]. simpl. lia. }
  destruct (retired_step _ _ _ _ _ Hret Hstep) as (g2 & Hret2 & Hp).
  destruct (IH _ Hret2) as (g3 & Hret3 & Hp3). exists g3. split; [done|]. simpl. lia.
Qed.

(** The goroutine a caller waits for is retired. *)
Lemma joined_retired m c id k r :
  minv m → m_callers m !! c = Some (CJoin id k r) → ∃ g, retired r m g ∧ g_target g = id.
Proof.
  intros Hm Hp. destruct (ow_join _ (mi_owners _ Hm) _ _ _ _ Hp eq_refl) as (g & Hg & Ht).
  exists g. split; [|done]. split; [done|by eapply ow_cancel; [apply mi_owners|..]|
    by eapply joined_spawned|].
  intros id' Hid. destruct (ow_runner _ (mi_owners _ Hm) _ _ Hid) as (g' & Hg' & Ht').
  destruct (ct_vacant _ (mi_control _ Hm) _ _ Hp) as [_ Hvac].
  assert (id' = id) as -> by congruence. rewrite Hvac in Hid by left. done.
Qed.

(** A caller waiting for a goroutine goes on waiting until it has joined. *)
Lemma joining_stays m l m' c id k r :
  mstep m l m' → m_callers m !! c = Some (CJoin id k r) →
  m_callers m' !! c = Some (CJoin id k r) ∨ m_callers m' !! c = Some (CStore id k).
Proof.
  intros Hstep Hp. destruct Hstep; simpl; try (by left);
    destruct (decide (c0 = c)) as [->|Hne]; rewrite ?lookup_insert_eq, ?lookup_insert_ne by done;
    simplify_eq; try (by left); try (by right).
  inversion H0.
Qed.

(** ** The end

    Once the context has ended and nothing is live, nothing starts again. *)

(** A caller about to start goroutines. *)
Definition spawning (p : cpc) : bool :=
  match p with CLock OpStart | CLoad | CStartAll (_ :: _) | CSpawn _ _ => true | _ => false end.

Record over (m : mgr) : Prop := mkOver {
  ov_root : m_root m = true;
  ov_phase : m_phase m = Running;
  ov_dead r g : m_gs m !! r = Some g → ¬ live g;
  ov_callers c p : m_callers m !! c = Some p → spawning p = false;
}.

Lemma over_caller m c p :
  over m → spawning p = false → ∀ c' q, <[c := p]> (m_callers m) !! c' = Some q → spawning q = false.
Proof. intros [_ _ _ Hc] Hp c' q [[<- <-]|[_ Hq]]%lookup_insert_Some; eauto. Qed.

Lemma over_set_g m r g g' :
  over m → m_gs m !! r = Some g → g_pc g' = g_pc g →
  ∀ r' x, <[r := g']> (m_gs m) !! r' = Some x → ¬ live x.
Proof.
  intros [_ _ Hd _] Hg Hpc r' x [[<- <-]|[_ Hx]]%lookup_insert_Some; [|by eapply Hd].
  unfold live. rewrite Hpc. by eapply Hd.
Qed.

Lemma cstep_spawning root p p' :
  cstep root p p' → root = true → spawning p = false → spawning p' = false.
Proof. destruct 1; simpl; congruence. Qed.

Lemma over_step m l m' : over m → mstep m l m' → over m' ∧ ∀ r, l ≠ LRun r.
Proof.
  intros Hm Hstep. pose proof Hm as [Hr Hph Hd Hc]. destruct Hstep.
  - destruct (Hd _ _ H). by destruct (gstep_live _ _ _ H0).
  - split; [|done]. split; simpl; try done. by eapply over_set_g.
  - destruct (Hd _ _ H0). unfold live. congruence.
  - split; [|done]. by split.
  - split; [|done]. split; simpl; try done. by eapply over_set_g.
  - congruence.
  - split; [|done]. split; simpl; try done. apply over_caller; [done|]. by destruct o.
  - split; [|done]. split; simpl; try done. apply over_caller; [done|].
    specialize (Hc _ _ H). by destruct o.
  - split; [|done]. split; simpl; try done. by apply over_caller.
  - split; [|done]. split; simpl; try done. apply over_caller; [done|].
    by eapply cstep_spawning; [..|eapply Hc].
  - by specialize (Hc _ _ H).
  - by specialize (Hc _ _ H).
  - split; [|done]. split; simpl; try done. by apply over_caller.
  - split; [|done]. split; simpl; try done. by apply over_caller.
  - split; [|done]. split; simpl; try done; [by eapply over_set_g|by apply over_caller].
  - split; [|done]. split; simpl; try done. by apply over_caller.
  - split; [|done]. split; simpl; try done. by apply over_caller.
Qed.

Lemma over_run m ls m' : over m → mrun m ls m' → over m' ∧ ∀ r, LRun r ∉ ls.
Proof.
  intros Hm Hrun. induction Hrun as [m|m1 l m2 ls m3 Hstep _ IH].
  { split; [done|]. intros r. apply not_elem_of_nil. }
  destruct (over_step _ _ _ Hm Hstep) as [Hm2 Hl]. destruct (IH Hm2) as [Hm3 Hls].
  split; [done|]. intros r [<-|?]%elem_of_cons; [by destruct (Hl r)|by destruct (Hls r)].
Qed.

(** Wait is called once the server runs, and while its caller holds the lock
    nobody else is about to start anything. *)
Definition waits_running (m : mgr) : Prop :=
  m_phase m = Running ∨
  ∀ c p, m_callers m !! c = Some p → p = CLock OpStart ∨ holder p = true ∧ p ≠ CWait.

Lemma waits_running_step m l m' : waits_running m → mstep m l m' → waits_running m'.
Proof.
  intros [Hm|Hm] Hstep.
  - destruct Hstep; try (by left). congruence.
  - destruct Hstep; try (by right); try (by left).
    all: right; simpl; intros c' q [[<- <-]|[Hne Hq]]%lookup_insert_Some; try (by apply (Hm c')).
    all: try (by left); try (right; by split).
    + destruct (Hm _ _ H) as [[= ->]|[[=] _]]. by right.
    + right. destruct (cstep_holder _ _ _ H0). split; [done|]. by destruct H0.
Qed.

Lemma over_after_wait m c :
  minv m → waits_running m → m_root m = true → m_callers m !! c = Some CWait →
  (∀ r g, m_gs m !! r = Some g → ¬ live g) → over (set_caller c CUnlock m).
Proof.
  intros Hm [Hph|Hw] Hr Hc Hd; [|by destruct (Hw _ _ Hc) as [?|[_ ?]]].
  split; simpl; try done.
  intros c' q [[<- <-]|[Hne Hq]]%lookup_insert_Some; [done|].
  destruct (holder q) eqn:Hh.
  { destruct Hne. by eapply (one_holder m c c'); [apply mi_control|..]. }
  destruct (starting q) eqn:Hs; [|by destruct q as [[]| | | | | | | | | | | | | |]].
  destruct (ct_starting _ (mi_control _ Hm) _ _ Hq Hs). congruence.
Qed.

(** ** Executions to try the properties on *)

(** Caller 0 has started targets [ts]. *)
Definition after_load (ts : list Z) : mgr :=
  set_caller 0 (CStartAll ts) (set_ops (Some 0%nat) (set_caller 0 CLoad
    (set_phase Starting (set_caller 0 (CLock OpStart) mgr0)))).

(** Target 1 has goroutine 0, spawned; Start has returned. *)
Definition after_start : mgr :=
  set_phase Running (set_ops None (set_caller 0 CReturned (set_caller 0 CUnlock
    (set_caller 0 (CStartAll []) (set_g 0 (mkG 1 GIncident false false)
      (set_caller 0 (CSpawn 0 []) (set_registered (insert 1 0%nat)
        (set_g 0 (mkG 1 GNew false false) (after_load [1]))))))))).

(** Caller 1 reloads target 1 and waits for goroutine 0. *)
Definition while_joining : mgr :=
  set_caller 1 (CJoin 1 KReload 0) (set_g 0 (mkG 1 GIncident true false)
    (set_caller 1 (CCancel 1 KReload 0) (set_registered (delete 1)
      (set_ops (Some 1%nat) (set_caller 1 (CStop 1 KReload)
        (set_caller 1 (CLock (OpReload 1)) after_start)))))).

(** Nothing to start; the context has ended and caller 1 is in Wait. *)
Definition while_waiting : mgr :=
  set_root (set_ops (Some 1%nat) (set_caller 1 CWait (set_caller 1 (CLock OpWait)
    (set_phase Running (set_ops None (set_caller 0 CReturned (set_caller 0 CUnlock
      (after_load [])))))))).

Lemma mrun_app m1 ls m2 ls' m3 : mrun m1 ls m2 → mrun m2 ls' m3 → mrun m1 (ls ++ ls') m3.
Proof. induction 1; simpl; [done|]. intros. by eapply mrun_cons; eauto. Qed.

Lemma reachable_step m l m' : reachable m → mstep m l m' → reachable m'.
Proof.
  intros [ls Hrun] Hstep. exists (ls ++ [l]). eapply mrun_app; [done|].
  eapply mrun_cons; [done|constructor].
Qed.

Lemma after_load_reachable ts : NoDup ts → reachable (after_load ts).
Proof.
  intros Hts. eapply reachable_step; [eapply reachable_step; [eapply reachable_step|]|].
  - exists []. constructor.
  - by apply (step_call_start _ 0).
  - by apply (step_lock _ 0 OpStart).
  - by apply (step_caller _ 0 CLoad); [|constructor].
Qed.

Lemma while_joining_reachable : reachable while_joining.
Proof.
  eapply reachable_step; [|by apply (step_cancel _ 1 1 KReload 0 (mkG 1 GIncident false false))].
  eapply reachable_step; [|by apply (step_stop _ 1)].
  eapply reachable_step; [|by apply (step_lock _ 1 (OpReload 1))].
  eapply reachable_step; [|by apply (step_call _ 1)].
  eapply reachable_step; [|by apply (step_unlock _ 0)].
  eapply reachable_step; [|by apply (step_caller _ 0 (CStartAll [])); [|constructor]].
  eapply reachable_step; [|by apply (step_spawn _ 0 0 [] (mkG 1 GNew false false))].
  eapply reachable_step; [|by apply (step_register (after_load [1]) 0 1 [] 0)].
  apply after_load_reachable, NoDup_singleton.
Qed.

Lemma while_waiting_reachable : reachable while_waiting.
Proof.
  eapply reachable_step; [|apply step_end].
  eapply reachable_step; [|by apply (step_lock _ 1 OpWait)].
  eapply reachable_step; [|by apply (step_call _ 1)].
  eapply reachable_step; [|by apply (step_unlock _ 0)].
  eapply reachable_step; [|by apply (step_caller _ 0 (CStartAll [])); [|constructor]].
  apply after_load_reachable, NoDup_nil_2.
Qed.

(** ** Properties *)

(** C3: in every interleaving of goroutines, timers and callers
    at most [maxParallel] checks run at a time, a target never has two live
    goroutines, and while Reload or Delete talks to the store about a target,
    none of the target's goroutines is live. *)
Theorem goroutines_safe m :
  reachable m →
  checking (m_gs m) ≤ maxParallel ∧
  (∀ r r' g g', m_gs m !! r = Some g → m_gs m !! r' = Some g' → live g → live g' →
    g_target g = g_target g' → r = r') ∧
  (∀ c id k r g, m_callers m !! c = Some (CStore id k) → m_gs m !! r = Some g →
    g_target g = id → ¬ live g).
Proof.
  intros Hm%minv_reachable. split_and!.
  - destruct (mi_sem _ Hm) as [<- ?]. done.
  - intros r r' g g'. by apply live_unique.
  - intros c id k r g Hp Hg Ht. by apply (vacant_dead m c (CStore id k) id r); [..|left| |].
Qed.

Lemma goroutines_safe_witness :
  reachable while_joining ∧ checking (m_gs while_joining) ≤ maxParallel.
Proof.
  split; [apply while_joining_reachable|].
  apply (goroutines_safe while_joining while_joining_reachable).
Defined.

(** C4: the wait for a cancelled goroutine ends: the goroutine has
    at most 13 steps left plus 6 for each time its timer fires, and until it
    is done no other goroutine can block it, since at every later moment
    either it can step or the caller can go on. *)
Theorem stop_returns m c id k r ls m' :
  reachable m → m_callers m !! c = Some (CJoin id k r) → mrun m ls m' →
  sum_with (spent r) ls ≤ 13 + sum_with (fed r) ls ∧
  ((∃ m'', mstep m' (LRun r) m'') ∨
   (m_callers m' !! c = Some (CJoin id k r) →
     ∃ m'', mstep m' (LCaller c) m'' ∧ m_callers m'' !! c = Some (CStore id k))).
Proof.
  intros Hm%minv_reachable Hp Hrun. destruct (joined_retired _ _ _ _ _ Hm Hp) as (g & Hret & _).
  destruct (retired_run _ _ _ _ _ Hret Hrun) as (g' & [Hg' Hc Hn Hr] & Hsum).
  pose proof (potential_bounds g). pose proof (potential_bounds g'). split; [lia|].
  destruct (decide (live g')) as [Hl|Hd].
  - left. destruct (gstep_enabled _ Hc Hl Hn) as (o & g2 & Hstep & Ho).
    eexists. eapply step_run; [done..|]. by destruct o.
  - right. intros Hq. eexists. split; [eapply step_join; [done..|]|apply lookup_insert_eq].
    by apply dec_stable.
Qed.

Lemma stop_returns_witness :
  m_callers while_joining !! 1%nat = Some (CJoin 1 KReload 0) ∧
  ((∃ m'', mstep while_joining (LRun 0) m'') ∨
   (m_callers while_joining !! 1%nat = Some (CJoin 1 KReload 0) →
     ∃ m'', mstep while_joining (LCaller 1) m'' ∧ m_callers m'' !! 1%nat = Some (CStore 1 KReload))).
Proof.
  split; [done|].
  apply (stop_returns while_joining 1 1 KReload 0 [] while_joining while_joining_reachable eq_refl
    (mrun_nil _)).
Defined.

(** C11: when Wait returns after the end of the context, every
    goroutine is done and stays so: whatever Reload, Delete and CheckNow do
    afterwards, no goroutine takes another step. *)
Theorem wait_is_final m c m1 ls m2 :
  reachable m → m_root m = true → m_callers m !! c = Some CWait →
  mstep m (LCaller c) m1 → mrun m1 ls m2 →
  (∀ r, LRun r ∉ ls) ∧ (∀ r g, m_gs m2 !! r = Some g → ¬ live g).
Proof.
  intros [ls0 Hrun0] Hroot Hc Hstep Hrun.
  assert (waits_running m) as Hw.
  { revert Hrun0. apply (mrun_ind_inv waits_running); [apply waits_running_step|].
    right. simpl. intros c' p Hp. by rewrite lookup_empty in Hp. }
  pose proof (minv_reachable _ (ex_intro _ _ Hrun0)) as Hm.
  assert (over m1) as Ho.
  { inversion Hstep; subst; simplify_eq; first
    [by match goal with E : cstep _ _ _ |- _ => inversion E end | by apply over_after_wait]. }
  destruct (over_run _ _ _ Ho Hrun) as [[] ?]. done.
Qed.

Lemma wait_is_final_witness :
  m_root while_waiting = true ∧ m_callers while_waiting !! 1%nat = Some CWait ∧
  (∀ r : nat, LRun r ∉ @nil label).
Proof.
  split_and!; [done|done|].
  refine (proj1 (wait_is_final while_waiting 1 _ [] _ while_waiting_reachable eq_refl eq_refl
    (step_wait while_waiting 1 eq_refl _) (mrun_nil _))).
  intros r g Hg. simpl in Hg. by rewrite lookup_empty in Hg.
Defined.
