(* ===== verification/Shutdown.v ===== *)
(** * The end of the process (internal/monitor/scheduler.go)

    After [m.ctx] ended, the goroutines and callers of [Goroutines] run out
    of things to do: with no further input from outside they stop after
    finitely many steps, and they only stop when every goroutine is done and
    every caller has returned.  So Wait returns, and nothing is deadlocked
    over the lock, the semaphore, or a goroutine somebody waits for. *)

From S2P Require Import Prelude Scheduler Goroutines.

(** ** Steps from inside *)

(** A step of a goroutine, of a caller that is there, or the end of the
    context reaching a goroutine; not a timer, a new caller, or CheckNow. *)
Definition from_inside (m : mgr) (l : label) : Prop :=
  match l with
  | LRun _ => True
  | LCaller c => is_Some (m_callers m !! c)
  | LPropagate r => ∀ g, m_gs m !! r = Some g → g_cancelled g = false
  | _ => False
  end.

Definition inner (m m' : mgr) : Prop := ∃ l, mstep m l m' ∧ from_inside m l.

(** ** Sums over a map *)

Definition wsum {A} (f : A → Z) (m : gmap nat A) : Z := sum_with (λ kv, f kv.2) (map_to_list m).

Section Sums.
Context {A : Type} (f : A → Z) (Hf : ∀ x, 0 ≤ f x).

Lemma wsum_insert_new (m : gmap nat A) k y :
  m !! k = None → wsum f (<[k := y]> m) = wsum f m + f y.
Proof.
  intros Hk. unfold wsum. rewrite (sum_with_Permutation _ _ _ (map_to_list_insert m k y Hk)). simpl. lia.
Qed.

Lemma wsum_delete (m : gmap nat A) k x : m !! k = Some x → wsum f m = wsum f (delete k m) + f x.
Proof.
  intros Hk. unfold wsum. rewrite <-(sum_with_Permutation _ _ _ (map_to_list_delete m k x Hk)). simpl. lia.
Qed.

Lemma wsum_insert (m : gmap nat A) k x y :
  m !! k = Some x → wsum f (<[k := y]> m) = wsum f m - f x + f y.
Proof.
  intros Hk. rewrite (wsum_delete m k x Hk), <-insert_delete_eq, wsum_insert_new; [lia|].
  apply lookup_delete_eq.
Qed.

Lemma wsum_nonneg (m : gmap nat A) : 0 ≤ wsum f m.
Proof.
  unfold wsum. induction (map_to_list m) as [|[k x] l IH]; simpl; [done|]. specialize (Hf x). lia.
Qed.
End Sums.

(** ** The measure *)

(** The steps a goroutine has before it needs its timer or the end of its
    context, plus one round if its timer fired. *)
Definition pc_weight (pc : gpc) : Z :=
  match pc with
  | GNew => 18 | GIncident => 17 | GIncidentEnd => 16 | GLast => 15 | GTimer => 14
  | GSem => 12 | GCheck => 11 | GErr => 10 | GRecord => 9 | GInsert => 8 | GOpen => 7
  | GClose => 6 | GMail => 5 | GMark => 4 | GFetch => 3 | GReset => 2 | GSelect => 1 | GDone => 0
  end.

Definition weight (g : goroutine) : Z :=
  pc_weight (g_pc g) + (if g_fired g then 13 else 0) + (if g_cancelled g then 0 else 1).

(** The steps of a caller that does not load the targets any more, and the
    goroutines it is still to start. *)
Definition op_weight (p : cpc) : Z :=
  match p with
  | CLock _ => 9
  | CStop _ _ => 8 | CCancel _ _ _ => 7 | CJoin _ _ _ => 6 | CStore _ _ => 5
  | CRefetch _ => 3 | CErr _ => 2 | CClosePaused _ => 2 | CForget _ => 2
  | CStartAll ts => 2 + 22 * Z.of_nat (length ts)
  | CSpawn _ ts => 3 + 22 * Z.of_nat (length ts)
  | CWait | CLoad => 2
  | CUnlock => 1
  | CReturned => 0
  end.

(** Start before its list of targets is known. *)
Definition loading (p : cpc) : Z := if starting p then 1 else 0.

Definition total (m : mgr) : Z := wsum weight (m_gs m) + wsum op_weight (m_callers m).

Lemma weight_nonneg g : 0 ≤ weight g.
Proof. unfold weight. destruct (g_pc g), (g_fired g), (g_cancelled g); simpl; lia. Qed.

Lemma op_weight_nonneg p : 0 ≤ op_weight p.
Proof. destruct p; simpl; lia. Qed.

Lemma loading_nonneg p : 0 ≤ loading p.
Proof. unfold loading. by destruct (starting p). Qed.

Lemma gstep_weight g o g' : gstep g o g' → weight g' < weight g.
Proof.
  intros Hstep. unfold weight.
  destruct Hstep; simpl; repeat match goal with
    | E : g_pc g = _ |- _ => rewrite E; clear E
    | E : g_fired g = _ |- _ => rewrite E; clear E
    end; simpl; destruct (g_fired g), (g_cancelled g); simpl; lia.
Qed.

(** A step from inside: the list of targets gets known, or that stays as it is
    and the sum falls. *)
Definition lighter (m m' : mgr) : Prop :=
  wsum loading (m_callers m') < wsum loading (m_callers m) ∨
  (wsum loading (m_callers m') = wsum loading (m_callers m) ∧ total m' < total m).

(** A caller moves, and perhaps a goroutine with it. *)
Lemma caller_lighter m c p p' gs' m' :
  m_callers m !! c = Some p → m_callers m' = <[c := p']> (m_callers m) → m_gs m' = gs' →
  loading p' = loading p → wsum weight gs' + op_weight p' < wsum weight (m_gs m) + op_weight p →
  lighter m m'.
Proof.
  intros Hp Hc Hg Hl Hw. right. unfold total. rewrite Hc, Hg, !(wsum_insert _ _ _ _ _ Hp). lia.
Qed.

Lemma goroutine_lighter m r g g' m' :
  m_gs m !! r = Some g → m_gs m' = <[r := g']> (m_gs m) → m_callers m' = m_callers m →
  weight g' < weight g → lighter m m'.
Proof.
  intros Hg Hgs Hc Hw. right. unfold total. rewrite Hc, Hgs, (wsum_insert _ _ _ _ _ Hg). lia.
Qed.

(** A caller learns what it has to start, or comes nearer to its end. *)
Lemma cstep_lighter m c p p' :
  m_root m = true → m_callers m !! c = Some p → cstep (m_root m) p p' → lighter m (set_caller c p' m).
Proof.
  intros Hroot Hp Hstep. destruct Hstep; try congruence.
  1: left; simpl; rewrite (wsum_insert _ _ _ _ _ Hp); unfold loading; simpl; lia.
  1: left; simpl; rewrite (wsum_insert _ _ _ _ _ Hp); unfold loading; simpl; lia.
  all: eapply caller_lighter; [exact Hp|done..|simpl; lia].
Qed.

Lemma loading_lock m c o :
  m_callers m !! c = Some (CLock o) → lighter m (set_ops (Some c) (set_caller c (entry o) m)).
Proof. intros Hp. eapply caller_lighter; [exact Hp|done..| |]; destruct o; simpl; done || lia. Qed.

Lemma inner_lighter m m' : m_root m = true → inner m m' → m_root m' = true ∧ lighter m m'.
Proof.
  intros Hroot (l & Hstep & Hin). destruct Hstep; simpl in Hin; try done; try congruence;
    try (by rewrite H in Hin; destruct Hin); (split; [done|]).
  - eapply goroutine_lighter; [done..|]. by eapply gstep_weight.
  - eapply goroutine_lighter; [done..|]. unfold weight. simpl. rewrite (Hin _ H0). lia.
  - by apply loading_lock.
  - eapply caller_lighter; [exact H|done..|simpl; lia].
  - by eapply cstep_lighter.
  - eapply caller_lighter; [exact H|done..|]. simpl. rewrite wsum_insert_new by done.
    unfold weight. simpl. rewrite Hroot. lia.
  - eapply caller_lighter; [exact H|done..|]. simpl. rewrite (wsum_insert _ _ _ _ _ H0).
    unfold weight. simpl. rewrite H1. simpl. lia.
  - eapply caller_lighter; [exact H|done..|simpl; lia].
  - eapply caller_lighter; [exact H|done..|simpl; lia].
  - eapply caller_lighter; [exact H|done..|]. simpl. rewrite (wsum_insert _ _ _ _ _ H0).
    unfold weight. simpl. destruct (g_cancelled g); lia.
  - eapply caller_lighter; [exact H|done..|simpl; lia].
  - eapply caller_lighter; [exact H|done..|simpl; lia].
Qed.

Lemma total_nonneg m : 0 ≤ total m.
Proof.
  unfold total. pose proof (wsum_nonneg _ weight_nonneg (m_gs m)).
  pose proof (wsum_nonneg _ op_weight_nonneg (m_callers m)). lia.
Qed.

(** So no execution from inside goes on for ever. *)
Lemma inner_sn m : m_root m = true → sn inner m.
Proof.
  remember (Z.to_nat (wsum loading (m_callers m))) as n eqn:Hn.
  revert m Hn. induction (lt_wf n) as [n _ IHn]. intros m.
  remember (Z.to_nat (total m)) as k eqn:Hk. revert m Hk.
  induction (lt_wf k) as [k _ IHk]. intros m Hk Hn Hroot. constructor. intros m' Hin.
  pose proof (wsum_nonneg _ loading_nonneg (m_callers m')). pose proof (total_nonneg m').
  destruct (inner_lighter _ _ Hroot Hin) as [Hroot' [Hlt|[Heq Hlt]]].
  - eapply (IHn (Z.to_nat (wsum loading (m_callers m')))); [lia|done..].
  - eapply (IHk (Z.to_nat (total m'))); [lia|done|lia|done].
Qed.

(** ** Where it ends *)

(** The holder of the lock is a caller at work, and who is about to spawn a
    goroutine has registered it. *)
Record helds (m : mgr) : Prop := mkHelds {
  hd_ops c : m_ops m = Some c → ∃ p, m_callers m !! c = Some p ∧ holder p = true;
  hd_spawn c r ts : m_callers m !! c = Some (CSpawn r ts) →
    ∃ g, m_gs m !! r = Some g ∧ g_pc g = GNew;
}.

Lemma helds0 : helds mgr0.
Proof. split; simpl; intros; simplify_map_eq. Qed.

(** A caller that holds the lock moves and keeps it. *)
Lemma helds_caller m m' c p p' :
  helds m → m_callers m !! c = Some p → holder p' = true →
  m_ops m' = m_ops m → m_callers m' = <[c := p']> (m_callers m) →
  (∀ r ts, p' = CSpawn r ts → ∃ g, m_gs m' !! r = Some g ∧ g_pc g = GNew) →
  (∀ c' r ts g, c' ≠ c → m_callers m !! c' = Some (CSpawn r ts) → m_gs m !! r = Some g →
    g_pc g = GNew → ∃ g', m_gs m' !! r = Some g' ∧ g_pc g' = GNew) → helds m'.
Proof.
  intros [Ho Hs] Hp Hh Hops Hcs Hnew Hkeep. split.
  - intros c0. rewrite Hops, Hcs. intros (q & Hq & Hqh)%Ho.
    destruct (decide (c0 = c)) as [->|]; [exists p'; by rewrite lookup_insert_eq|].
    exists q. by rewrite lookup_insert_ne.
  - intros c0 r ts. rewrite Hcs. intros [[<- E]|[Hne Hq]]%lookup_insert_Some; [eauto|].
    destruct (Hs _ _ _ Hq) as (g & Hg & Hpc). eauto.
Qed.

(** A goroutine that is spawned changes, or one that is not keeps its place. *)
Lemma helds_goroutine m m' r g g' :
  helds m → m_gs m !! r = Some g → m_gs m' = <[r := g']> (m_gs m) → m_callers m' = m_callers m →
  m_ops m' = m_ops m → (g_pc g = GNew → g_pc g' = GNew) → helds m'.
Proof.
  intros [Ho Hs] Hg Hgs Hcs Hops Hpc. split; [intros c0; rewrite Hops, Hcs; apply Ho|].
  intros c0 r0 ts. rewrite Hcs, Hgs. intros (x & Hx & Hn)%Hs.
  destruct (decide (r0 = r)) as [->|]; [|exists x; by rewrite lookup_insert_ne].
  exists g'. rewrite lookup_insert_eq. split; [done|]. apply Hpc. congruence.
Qed.

(** A caller that is not at work moves, and perhaps takes the lock. *)
Lemma helds_waiter m m' c p' :
  helds m → (∀ p, m_callers m !! c = Some p → holder p = false) →
  m_callers m' = <[c := p']> (m_callers m) → m_gs m' = m_gs m → (∀ r ts, p' ≠ CSpawn r ts) →
  (m_ops m' = m_ops m ∨ m_ops m' = Some c ∧ holder p' = true) → helds m'.
Proof.
  intros [Ho Hs] Hc Hcs Hgs Hns Hops. split.
  - intros c0 Hc0. rewrite Hcs. destruct Hops as [Hops|[Hops Hh]].
    + rewrite Hops in Hc0. destruct (Ho _ Hc0) as (q & Hq & Hqh). exists q.
      rewrite lookup_insert_ne; [done|]. intros <-. specialize (Hc _ Hq). congruence.
    + exists p'. rewrite Hops in Hc0. simplify_eq. by rewrite lookup_insert_eq.
  - intros c0 r ts. rewrite Hcs, Hgs. intros [[<- E]|[Hne Hq]]%lookup_insert_Some; [|eauto].
    by destruct (Hns r ts).
Qed.

Lemma helds_unlock m c :
  control m → helds m → m_callers m !! c = Some CUnlock →
  helds (set_phase Running (set_ops None (set_caller c CReturned m))).
Proof.
  intros Hm [Ho Hs] Hc. split; simpl; [done|].
  intros c0 r ts [[<- E]|[Hne Hq]]%lookup_insert_Some; [done|]. by eapply Hs.
Qed.

Lemma helds_step m l m' : control m → helds m → mstep m l m' → helds m'.
Proof.
  intros Hm Hh Hstep. destruct Hstep.
  - eapply helds_goroutine; [done..|]. by destruct (gstep_live _ _ _ H0) as (_ & ? & _).
  - by eapply helds_goroutine.
  - eapply helds_goroutine; [done..|]. congruence.
  - destruct Hh as [Ho Hs]. by split.
  - by eapply helds_goroutine.
  - eapply (helds_waiter m _ c (CLock OpStart)); try done; [by intros p; rewrite H|by left].
  - eapply (helds_waiter m _ c (CLock o)); try done; [by intros p; rewrite H|by left].
  - eapply (helds_waiter m _ c (entry o)); try done; [by intros p; rewrite H; intros [= <-]| |].
    + by destruct o.
    + right. split; [done|]. by destruct o.
  - by apply helds_unlock.
  - destruct (cstep_holder _ _ _ H0) as [_ Hp'].
    eapply (helds_caller m _ c p p'); try done; [|by eauto]. intros r ts ->. inversion H0.
  - eapply (helds_caller m _ c _ (CSpawn r ts)); try done; simpl.
    + intros ? ? [= <- <-]. eexists. by rewrite lookup_insert_eq.
    + intros c' r' ts' g _ _ Hg Hn. exists g. by rewrite lookup_insert_ne by congruence.
  - eapply (helds_caller m _ c _ (CStartAll ts)); try done; simpl.
    intros c' r' ts' x Hne Hc' _ _. destruct Hne. by eapply (one_holder m c' c).
  - eapply (helds_caller m _ c _ (CStore id k)); try done. by eauto.
  - eapply (helds_caller m _ c _ (CCancel id k r)); try done. by eauto.
  - eapply (helds_caller m _ c _ (CJoin id k r)); try done; simpl.
    intros c' r' ts' x Hne Hc' _ _. destruct Hne. by eapply (one_holder m c' c).
  - eapply (helds_caller m _ c _ (CStore id k)); try done. by eauto.
  - eapply (helds_caller m _ c _ CUnlock); try done. by eauto.
Qed.

Lemma helds_reachable m : reachable m → control m ∧ helds m.
Proof.
  intros [ls Hrun]. revert Hrun. apply (mrun_ind_inv (λ m, control m ∧ helds m)).
  - intros m1 l m2 [? ?] ?. split; [by eapply control_step|by eapply helds_step].
  - split; [apply control0|apply helds0].
Qed.

(** After the end of the context a goroutine that is not done has a step, or
    is about to be spawned. *)
Lemma live_enabled m r g :
  minv m → m_root m = true → m_gs m !! r = Some g → live g → ∃ m', inner m m'.
Proof.
  intros Hm Hroot Hg Hl. destruct (g_cancelled g) eqn:Hc.
  - destruct (decide (g_pc g = GNew)) as [Hpc|Hpc].
    + destruct (ow_new _ (mi_owners _ Hm) _ _ Hg Hpc) as (c & ts & Hp).
      eexists. exists (LCaller c). split; [by eapply step_spawn|]. by eexists.
    + destruct (gstep_enabled _ Hc Hl Hpc) as (o & g' & Hstep & Ho).
      eexists. exists (LRun r). split; [|done]. eapply step_run; [done..|]. by destruct o.
  - eexists. exists (LPropagate r). split; [by apply step_propagate|].
    intros x Hx. simpl. congruence.
Qed.

(** Unless every goroutine is done, or stuck behind nobody, the holder of the
    lock has a step. *)
Lemma holder_enabled m c p :
  minv m → helds m → (∀ r g, m_gs m !! r = Some g → ¬ live g) →
  m_callers m !! c = Some p → holder p = true → ∃ m', mstep m (LCaller c) m'.
Proof.
  intros Hm Hh Hd Hp Hhp.
  assert (∀ id r, joining p = Some (id, r) → ∃ g, m_gs m !! r = Some g ∧ g_pc g = GDone) as Hj.
  { intros id r Hj. destruct (ow_join _ (mi_owners _ Hm) _ _ _ _ Hp Hj) as (g & Hg & _).
    exists g. split; [done|]. apply dec_stable. by eapply Hd. }
  destruct p as [o| |[|t ts]|r ts|id k|id k r|id k r|id k|id|id|id|id| | |]; try done.
  all: try (eexists; eapply step_caller; [done|by constructor]).
  - eexists. eapply (step_register _ _ _ _ (fresh (dom (m_gs m)))); [done|].
    apply not_elem_of_dom, is_fresh.
  - destruct (hd_spawn _ Hh _ _ _ Hp) as (g & Hg & Hn). eexists. by eapply step_spawn.
  - destruct (m_runners m !! id) as [r|] eqn:Hr; eexists; [by eapply step_stop|by eapply step_stop_none].
  - destruct (Hj id r eq_refl) as (g & Hg & _). eexists. by eapply step_cancel.
  - destruct (Hj id r eq_refl) as (g & Hg & Hdone). eexists. by eapply step_join.
  - destruct k; eexists; (eapply step_caller; [done|]); by constructor.
  - destruct (m_root m) eqn:Hroot; eexists; (eapply step_caller; [done|]); rewrite Hroot; by constructor.
  - eexists. by eapply step_wait.
  - eexists. by eapply step_unlock.
Qed.

Lemma caller_enabled m c p :
  minv m → helds m → (∀ r g, m_gs m !! r = Some g → ¬ live g) →
  m_callers m !! c = Some p → p ≠ CReturned → ∃ m', inner m m'.
Proof.
  intros Hm Hh Hd Hp Hn. destruct (holder p) eqn:Hhp.
  { destruct (holder_enabled m c p Hm Hh Hd Hp Hhp) as [m' ?]. exists m', (LCaller c). split; [done|].
    by exists p. }
  destruct p as [o| | | | | | | | | | | | | |]; try done.
  destruct (m_ops m) as [c'|] eqn:Hops.
  - destruct (hd_ops _ Hh _ Hops) as (q & Hq & Hqh).
    destruct (holder_enabled m c' q Hm Hh Hd Hq Hqh) as [m' ?]. exists m', (LCaller c').
    split; [done|]. by exists q.
  - eexists. exists (LCaller c). split; [by apply (step_lock _ c o)|]. by eexists.
Qed.

Lemma inner_reachable m m' : reachable m → rtc inner m m' → reachable m' ∧ (m_root m = true → m_root m' = true).
Proof.
  intros Hm Hrun. induction Hrun as [m|m1 m2 m3 Hin _ IH]; [done|].
  assert (reachable m2) as Hm2 by (destruct Hin as (l & ? & _); by eapply reachable_step).
  destruct (IH Hm2) as [? Hroot]. split; [done|]. intros Hr. apply Hroot.
  by destruct (inner_lighter _ _ Hr Hin).
Qed.

(** ** Properties *)


