(* ===== verification/Limit.v ===== *)
(** * Login throttling (internal/web/limit.go)

    Fixed windows of fifteen minutes, one per client address and one for all
    of them.  [take] either grants an attempt or says how long to wait;
    [forgive] gives the attempt back after a successful login.  The theorems
    bound what an attacker gets out of it in any period of fifteen minutes. *)

From S2P Require Import Prelude GoTime.

(** ** State and operations *)

Definition loginWindow : Duration := 15 * Minute.
Definition loginPerIP : Z := 5.
Definition loginGlobal : Z := 30.
Definition loginIPs : Z := 10000.

(** [struct window]. *)
Record attempts : Type := mkAttempts { a_start : Time; a_n : Z; a_warned : bool }.

(** [struct limiter]. *)
Record limiter : Type := mkLimiter {
  ips : gmap string attempts;
  global : attempts;
  swept : Time
}.

Definition newLimiter : limiter := mkLimiter ∅ (mkAttempts zeroTime 0 false) zeroTime.

(** [now.Sub(w.start) >= loginWindow]. *)
Definition expired (now : Time) (w : attempts) : Prop := loginWindow ≤ Sub now (a_start w).

#[export] Instance expired_dec now w : Decision (expired now w).
Proof. unfold expired. apply _. Defined.

Definition warn (w : attempts) : attempts := mkAttempts (a_start w) (a_n w) true.
Definition bump (w : attempts) : attempts := mkAttempts (a_start w) (a_n w + 1) (a_warned w).

(** The sweep at the top of [take]. *)
Definition sweep (l : limiter) (now : Time) : limiter :=
  if decide (loginWindow ≤ Sub now (swept l) ∨ loginIPs ≤ Z.of_nat (size (ips l))) then
    mkLimiter (filter (λ r, ¬ expired now r.2) (ips l)) (global l) now
  else l.

(** The global window starts over when it expired. *)
Definition renew (l : limiter) (now : Time) : limiter :=
  if decide (expired now (global l)) then mkLimiter (ips l) (mkAttempts now 0 false) (swept l) else l.

Definition take (l : limiter) (ip : string) (now : Time) (knownDevice : bool) :
    (Duration * bool) * limiter :=
  let l := renew (sweep l now) now in
  let w := w ← ips l !! ip; if decide (expired now w) then None else Some w in
  let left (w : attempts) := Sub (Add (a_start w) loginWindow) now in
  let refuse_global := mkLimiter (ips l) (warn (global l)) (swept l) in
  let full := bool_decide (loginGlobal ≤ a_n (global l)) in
  match w with
  | Some w' =>
      if decide (loginPerIP ≤ a_n w') then
        ((left w', negb (a_warned w')), mkLimiter (<[ip := warn w']> (ips l)) (global l) (swept l))
      else if negb knownDevice && full then
        ((left (global l), negb (a_warned (global l))), refuse_global)
      else ((0, false), mkLimiter (<[ip := bump w']> (ips l)) (bump (global l)) (swept l))
  | None =>
      if negb knownDevice && full then
        ((left (global l), negb (a_warned (global l))), refuse_global)
      else if decide (loginIPs ≤ Z.of_nat (size (ips l))) then
        ((loginWindow, negb (a_warned (global l))), refuse_global)
      else ((0, false), mkLimiter (<[ip := bump (mkAttempts now 0 false)]> (ips l))
                          (bump (global l)) (swept l))
  end.

Definition forgive (l : limiter) (ip : string) : limiter :=
  mkLimiter (delete ip (ips l))
    (if decide (0 < a_n (global l))
     then mkAttempts (a_start (global l)) (a_n (global l) - 1) (a_warned (global l))
     else global l)
    (swept l).

(** The caller refuses the attempt exactly when the wait is positive. *)
Definition granted (r : Duration * bool) : bool := negb (bool_decide (0 < r.1)).

(** ** What a call decides *)

(** The live window of an address, and the live global count. *)
Definition live_window (l : limiter) (now : Time) (ip : string) : option attempts :=
  w ← ips l !! ip; if decide (expired now w) then None else Some w.

Definition global_count (l : limiter) (now : Time) : Z :=
  if decide (expired now (global l)) then 0 else a_n (global l).

Lemma expired_iff now w : expired now w ↔ loginWindow ≤ now - a_start w.
Proof. unfold expired. apply Sub_ge. done. Qed.

Lemma left_pos now w : ¬ expired now w → 0 < Sub (Add (a_start w) loginWindow) now.
Proof.
  rewrite expired_iff. intros H.
  assert (1 ≤ Sub (Add (a_start w) loginWindow) now); [|lia].
  apply Sub_ge; [done|]. unfold Add. lia.
Qed.

Lemma left_le now w :
  a_start w ≤ now → Sub (Add (a_start w) loginWindow) now ≤ loginWindow.
Proof.
  intros H. unfold Sub, sat64, Add, int64_min. unfold loginWindow, int64_max, Minute, Second,
    Millisecond, Nanosecond in *. lia.
Qed.

Lemma sweep_window l now ip : live_window (sweep l now) now ip = live_window l now ip.
Proof.
  unfold live_window, sweep. case_decide; [|done]. simpl.
  destruct (ips l !! ip) as [w|] eqn:Hw; simpl.
  - case_decide as He.
    + assert (filter (λ r, ¬ expired now r.2) (ips l) !! ip = None) as ->; [|done].
      apply map_lookup_filter_None. right. intros x Hx Hn. by simplify_eq/=.
    + assert (filter (λ r, ¬ expired now r.2) (ips l) !! ip = Some w) as ->.
      { by apply map_lookup_filter_Some. }
      simpl. by rewrite decide_False by done.
  - assert (filter (λ r, ¬ expired now r.2) (ips l) !! ip = None) as ->; [|done].
    apply map_lookup_filter_None. by left.
Qed.

Lemma sweep_global l now : global (sweep l now) = global l.
Proof. unfold sweep. by case_decide. Qed.

Lemma sweep_size l now : (size (ips (sweep l now)) ≤ size (ips l))%nat.
Proof. unfold sweep. case_decide; [|done]. simpl. apply map_size_filter. Qed.

Lemma renew_ips l now : ips (renew l now) = ips l.
Proof. unfold renew. by case_decide. Qed.

Lemma renew_live l now :
  ¬ expired now (global (renew l now)) ∧ a_n (global (renew l now)) = global_count l now.
Proof.
  unfold renew, global_count. case_decide; simpl; [|done]. split; [|done].
  rewrite expired_iff. simpl. unfold loginWindow, Minute, Second, Millisecond, Nanosecond. lia.
Qed.

(** The attempts counted against an address. *)
Definition ip_count (l : limiter) (now : Time) (ip : string) : Z :=
  from_option a_n 0 (live_window l now ip).

(** Room for the address in the table: it has a live window, or the table is
    not full after the sweep. *)
Definition has_room (l : limiter) (now : Time) (ip : string) : Prop :=
  is_Some (live_window l now ip) ∨ Z.of_nat (size (ips (sweep l now))) < loginIPs.

(** What the throttling counts with: a window without its warning flag. *)
Definition counted (w : attempts) : Time * Z := (a_start w, a_n w).

(** All the cases of [take], with the windows it leaves. *)
Inductive take_case (l : limiter) (ip : string) (now : Time) (known : bool) :
    (Duration * bool) * limiter → Prop :=
  | take_granted w l' :
      ip_count l now ip < loginPerIP → known = true ∨ global_count l now < loginGlobal →
      has_room l now ip →
      w = default (mkAttempts now 0 false) (live_window l now ip) →
      l' = renew (sweep l now) now →
      take_case l ip now known ((0, false),
        mkLimiter (<[ip := bump w]> (ips l')) (bump (global l')) (swept l'))
  | take_refused wait first l' :
      loginPerIP ≤ ip_count l now ip ∨ (known = false ∧ loginGlobal ≤ global_count l now) ∨
        ¬ has_room l now ip →
      0 < wait → swept l' = swept (sweep l now) →
      (∀ j, live_window l' now j = live_window l now j ∨
            ∃ w, live_window l now j = Some w ∧ live_window l' now j = Some (warn w)) →
      (a_start (global l') = a_start (global (renew (sweep l now) now)) ∧
       a_n (global l') = a_n (global (renew (sweep l now) now))) →
      (∀ j, counted <$> ips l' !! j = counted <$> ips (sweep l now) !! j) →
      size (ips l') = size (ips (sweep l now)) →
      take_case l ip now known ((wait, first), l').

Lemma live_window_ips l l' now ip : ips l = ips l' → live_window l now ip = live_window l' now ip.
Proof. unfold live_window. by intros ->. Qed.

Lemma live_Some l now ip w :
  live_window l now ip = Some w ↔ ips l !! ip = Some w ∧ ¬ expired now w.
Proof.
  unfold live_window. destruct (ips l !! ip) as [x|]; simpl; [|naive_solver].
  case_decide; naive_solver.
Qed.

Lemma take_cases l ip now known : take_case l ip now known (take l ip now known).
Proof.
  unfold take. set (l1 := renew (sweep l now) now).
  assert (Hw : (w ← ips l1 !! ip; if decide (expired now w) then None else Some w) =
    live_window l now ip).
  { rewrite <-(sweep_window l). unfold l1. by rewrite renew_ips. }
  rewrite Hw. pose proof (renew_live (sweep l now) now) as [Hlive Hn].
  assert (Hg : global_count (sweep l now) now = global_count l now).
  { unfold global_count. by rewrite sweep_global. }
  fold l1 in Hlive, Hn. rewrite Hg in Hn.
  assert (Hips : ips l1 = ips (sweep l now)) by (unfold l1; apply renew_ips).
  assert (Hkept : ∀ j, counted <$> ips l1 !! j = counted <$> ips (sweep l now) !! j)
    by (by rewrite Hips).
  assert (Hsame : ∀ g s, (∀ j, live_window (mkLimiter (ips l1) g s) now j = live_window l now j)).
  { intros g s j. rewrite <-(sweep_window l now j). by apply live_window_ips. }
  assert (Hsw : swept l1 = swept (sweep l now)).
  { unfold l1, renew. by case_decide. }
  rewrite Hn.
  assert (Href : ∀ wait first,
    loginPerIP ≤ ip_count l now ip ∨ (known = false ∧ loginGlobal ≤ global_count l now) ∨
      ¬ has_room l now ip → 0 < wait →
    take_case l ip now known ((wait, first), mkLimiter (ips l1) (warn (global l1)) (swept l1))).
  { intros wait first Hno Hwait. apply take_refused; simpl; auto. by rewrite Hips. }
  assert (Hleft : 0 < Sub (Add (a_start (global l1)) loginWindow) now) by by apply left_pos.
  destruct (live_window l now ip) as [w|] eqn:Hl.
  - assert (Hc : ip_count l now ip = a_n w) by (unfold ip_count; by rewrite Hl).
    assert (Hroom : has_room l now ip) by (left; by eexists).
    pose proof Hl as Hl'. rewrite <-(sweep_window l) in Hl'. apply live_Some in Hl' as [Hwi Hwe].
    destruct (decide (loginPerIP ≤ a_n w)) as [Hfull|Hfull].
    + apply take_refused; simpl; auto using left_pos.
      * left. lia.
      * intros j. destruct (decide (ip = j)) as [<-|Hne].
        -- right. exists w. split; [done|]. apply live_Some. simpl. by rewrite lookup_insert_eq.
        -- left. rewrite <-(sweep_window l now j). unfold live_window. simpl.
           by rewrite lookup_insert_ne, Hips by done.
      * intros j. rewrite lookup_insert. case_decide; [|apply Hkept].
        subst j. by rewrite Hwi.
      * rewrite map_size_insert_Some; [by rewrite Hips|]. exists w. by rewrite Hips.
    + assert (Hgrant : known = true ∨ global_count l now < loginGlobal →
        take_case l ip now known ((0, false),
          mkLimiter (<[ip := bump w]> (ips l1)) (bump (global l1)) (swept l1))).
      { intros. apply take_granted; [lia|done|done|by rewrite Hl|done]. }
      destruct known; simpl; [by auto|]. case_bool_decide; [by auto|]. apply Hgrant. right. lia.
  - assert (H0 : ip_count l now ip = 0) by (unfold ip_count; by rewrite Hl).
    assert (Hgrant : known = true ∨ global_count l now < loginGlobal →
      take_case l ip now known (if decide (loginIPs ≤ Z.of_nat (size (ips l1))) then
        ((loginWindow, negb (a_warned (global l1))),
         mkLimiter (ips l1) (warn (global l1)) (swept l1))
      else ((0, false), mkLimiter (<[ip := bump (mkAttempts now 0 false)]> (ips l1))
                          (bump (global l1)) (swept l1)))).
    { intros Hk. rewrite Hips. case_decide as Hs; rewrite <-Hips.
      - apply Href; [|done]. right; right. intros [[x Hx]|?]; [congruence|lia].
      - apply take_granted; [by rewrite H0|done|right; lia|by rewrite Hl|done]. }
    destruct known; simpl; [by auto|]. case_bool_decide; [by auto|]. apply Hgrant. right. lia.
Qed.

(** An attempt is let through exactly when its address has
    fewer than five attempts in its window, the device is known or fewer than
    thirty attempts are counted globally, and the table has room; it then
    counts once against both windows.  Otherwise the wait is positive, so the
    handler refuses, and no counter moves. *)
Theorem login_decision l ip now known :
  let '(r, l') := take l ip now known in
  (granted r = true ↔ ip_count l now ip < loginPerIP ∧
    (known = true ∨ global_count l now < loginGlobal) ∧ has_room l now ip) ∧
  ip_count l' now ip = ip_count l now ip + (if granted r then 1 else 0) ∧
  global_count l' now = global_count l now + (if granted r then 1 else 0).
Proof.
  pose proof (renew_live (sweep l now) now) as [Hlive Hn].
  assert (Hg : global_count (sweep l now) now = global_count l now).
  { unfold global_count. by rewrite sweep_global. }
  destruct (take_cases l ip now known) as [w l' Hip Hgl Hroom -> ->|wait first l' Hno Hpos _ Hw [Hs Hc] _ _].
  - unfold granted. rewrite bool_decide_false by (simpl; lia). simpl. split; [done|].
    split.
    + set (w := default (mkAttempts now 0 false) (live_window l now ip)).
      assert (live_window (mkLimiter (<[ip := bump w]> (ips (renew (sweep l now) now)))
        (bump (global (renew (sweep l now) now))) (swept (renew (sweep l now) now))) now ip =
        Some (bump w)) as Hb.
      { apply live_Some. simpl. rewrite lookup_insert_eq. split; [done|].
        rewrite expired_iff. simpl. unfold w.
        destruct (live_window l now ip) as [x|] eqn:Hx; simpl.
        - apply live_Some in Hx as [_ Hx]. by rewrite expired_iff in Hx.
        - unfold loginWindow, Minute, Second, Millisecond, Nanosecond. lia. }
      unfold ip_count at 1. rewrite Hb. simpl. unfold w, ip_count.
      by destruct (live_window l now ip).
    + unfold global_count at 1. simpl. rewrite decide_False; [by rewrite Hn, Hg|].
      rewrite expired_iff in Hlive |- *. done.
  - unfold granted. rewrite bool_decide_true by done. simpl. rewrite !Z.add_0_r. split; [|split].
    + split; [done|]. intros (? & ? & ?). destruct Hno as [?|[[-> ?]|?]]; [lia|naive_solver lia|done].
    + unfold ip_count. destruct (Hw ip) as [->|(w & -> & ->)]; done.
    + unfold global_count at 1. rewrite Hc, decide_False; [by rewrite Hn, Hg|].
      rewrite expired_iff in Hlive |- *. by rewrite Hs.
Qed.

(** ** Periods *)

(** The attempts let through in one window: its start, their times (latest
    first) and how many were given back meanwhile. *)
Record chunk : Type := mkChunk { c_start : Time; c_times : list Time; c_extra : Z }.

Definition chunk_ok (limit : Z) (c : chunk) : Prop :=
  Z.of_nat (length (c_times c)) ≤ limit + c_extra c ∧ 0 ≤ c_extra c ∧
  ∀ t, t ∈ c_times c → c_start c ≤ t < c_start c + loginWindow.

(** Windows of the same kind, latest first, do not overlap. *)
Definition chunks_ok (limit : Z) (cs : list chunk) : Prop :=
  Forall (chunk_ok limit) cs ∧
  StronglySorted (λ c c', c_start c' + loginWindow ≤ c_start c) cs.

Definition in_period (a t : Time) : bool := bool_decide (a ≤ t < a + loginWindow).

Lemma chunks_extra limit cs : Forall (chunk_ok limit) cs → 0 ≤ sum_with c_extra cs.
Proof. induction 1 as [|c cs (_ & ? & _)]; simpl; lia. Qed.

(** Windows that ended before the period contribute nothing. *)
Lemma chunks_before limit a cs :
  Forall (chunk_ok limit) cs → (∀ c, c ∈ cs → c_start c + loginWindow ≤ a) →
  count (in_period a) (cs ≫= c_times) = 0.
Proof.
  intros Hok Hb. apply count_none. intros t (c & Ht & Hc)%list_elem_of_bind.
  rewrite list.Forall_forall in Hok. destruct (Hok c Hc) as (_ & _ & Hin).
  specialize (Hin t Ht). specialize (Hb c Hc). apply bool_decide_eq_false. lia.
Qed.

(** A period of the length of a window meets at most two windows. *)
Lemma chunks_bound limit a cs :
  0 ≤ limit → chunks_ok limit cs →
  count (in_period a) (cs ≫= c_times) ≤ 2 * limit + sum_with c_extra cs.
Proof.
  intros Hl [Hok Hs]. induction Hs as [|c cs Hs IH Hc]; csimpl; [unfold count; simpl; lia|].
  apply list.Forall_cons in Hok as [[Hn [He Hin]] Hok]. specialize (IH Hok).
  rewrite count_app. pose proof (chunks_extra _ _ Hok) as Hex.
  pose proof (count_bounds (in_period a) (c_times c)) as Hb.
  rewrite list.Forall_forall in Hc.
  destruct (decide (c_start c < a + loginWindow)) as [Hlt|Hge].
  - assert (Htail : count (in_period a) (cs ≫= c_times) ≤ limit + sum_with c_extra cs).
    { clear IH Hin Hn Hb. destruct Hs as [|c' cs Hs Hc']; csimpl; [unfold count; simpl; lia|].
      apply list.Forall_cons in Hok as [[Hn' [He' Hin']] Hok].
      rewrite count_app, (chunks_before limit a cs Hok).
      - pose proof (count_bounds (in_period a) (c_times c')).
        pose proof (chunks_extra _ _ Hok). lia.
      - intros x Hx. rewrite list.Forall_forall in Hc'. specialize (Hc' x Hx).
        specialize (Hc c' ltac:(left)). lia. }
    lia.
  - assert (count (in_period a) (c_times c) = 0) as ->; [|lia].
    apply count_none. intros t Ht. specialize (Hin t Ht). apply bool_decide_eq_false. lia.
Qed.

(** ** Histories of logins *)

Inductive login_op : Type :=
  | Take (ip : string) (now : Time) (known : bool)
  | Forgive (ip : string).

(** An attempt let through. *)
Record grant : Type := mkGrant { g_ip : string; g_at : Time; g_known : bool }.

(** The limiter after the calls, and the attempts let through, latest first. *)
Definition step_op (s : limiter * list grant) (o : login_op) : limiter * list grant :=
  match o with
  | Take ip now known =>
      let '(r, l') := take s.1 ip now known in
      (l', if granted r then mkGrant ip now known :: s.2 else s.2)
  | Forgive ip => (forgive s.1 ip, s.2)
  end.

Definition run_ops (ops : list login_op) : limiter * list grant := foldl step_op (newLimiter, []) ops.

Definition op_times (ops : list login_op) : list Time :=
  omap (λ o, match o with Take _ now _ => Some now | Forgive _ => None end) ops.

(** The clock does not run backwards, nor start before the zero instant. *)
Definition clock_ok (ops : list login_op) : Prop := StronglySorted Z.le (zeroTime :: op_times ops).

(** The instant of the last call. *)
Definition clock_of (ops : list login_op) : Time := default zeroTime (last (op_times ops)).

Definition times_of (p : grant → bool) (log : list grant) : list Time :=
  g_at <$> filter (λ g, p g = true) log.

Definition of_ip (ip : string) (g : grant) : bool := bool_decide (g_ip g = ip).
Definition unknown (g : grant) : bool := negb (g_known g).

Definition forgives (ops : list login_op) : Z :=
  count (λ o, match o with Forgive _ => true | _ => false end) ops.

Lemma chunk_new limit t cs :
  0 ≤ limit → chunks_ok limit cs → (∀ c, head cs = Some c → c_start c + loginWindow ≤ t) →
  chunks_ok limit (mkChunk t [] 0 :: cs).
Proof.
  intros Hl [Hok Hs] Hh. split.
  - constructor; [|done]. split_and!; [simpl; lia|done|]. by intros x ?%not_elem_of_nil.
  - constructor; [done|]. apply list.Forall_forall. intros c Hc. simpl.
    destruct Hs as [|c0 cs Hs Hc0]; [by apply not_elem_of_nil in Hc|].
    specialize (Hh c0 eq_refl). apply elem_of_cons in Hc as [->|Hc]; [done|].
    rewrite list.Forall_forall in Hc0. specialize (Hc0 c Hc).
    unfold loginWindow, Minute, Second, Millisecond, Nanosecond in *. lia.
Qed.

Lemma chunk_grow limit t c cs :
  chunks_ok limit (c :: cs) → c_start c ≤ t < c_start c + loginWindow →
  Z.of_nat (length (c_times c)) + 1 ≤ limit + c_extra c →
  chunks_ok limit (mkChunk (c_start c) (t :: c_times c) (c_extra c) :: cs).
Proof.
  intros [Hok Hs] Ht Hn. apply list.Forall_cons in Hok as [(_ & He & Hin) Hok].
  apply StronglySorted_inv in Hs as [Hs Hc]. split; constructor; try done.
  split_and!; [simpl; lia|done|]. simpl. intros x [->|Hx]%elem_of_cons; [done|auto].
Qed.

Lemma chunk_forgive limit c cs :
  chunks_ok limit (c :: cs) → chunks_ok limit (mkChunk (c_start c) (c_times c) (c_extra c + 1) :: cs).
Proof.
  intros [Hok Hs]. apply list.Forall_cons in Hok as [(? & ? & Hin) Hok].
  apply StronglySorted_inv in Hs as [Hs Hc]. split; constructor; try done.
  split_and!; simpl; [lia|lia|done].
Qed.

(** The windows of one address, and where the table is. *)
Definition ip_inv (ip : string) (s : limiter * list grant) (now : Time) : Prop :=
  ∃ cs, chunks_ok loginPerIP cs ∧ sum_with c_extra cs = 0 ∧
    cs ≫= c_times = times_of (of_ip ip) s.2 ∧
    (∀ c, head cs = Some c → c_start c ≤ now) ∧
    match ips s.1 !! ip with
    | Some w => ∃ c rest, cs = c :: rest ∧ counted w = (c_start c, Z.of_nat (length (c_times c))) ∧
        c_extra c = 0
    | None => ∀ c, head cs = Some c → c_start c + loginWindow ≤ now
    end.

Lemma times_of_cons p g log :
  times_of p (g :: log) = if p g then g_at g :: times_of p log else times_of p log.
Proof. unfold times_of. rewrite filter_cons. destruct (p g); by csimpl. Qed.

Lemma sweep_lookup l now ip :
  ips (sweep l now) !! ip = ips l !! ip ∨
  (ips (sweep l now) !! ip = None ∧ ∃ w, ips l !! ip = Some w ∧ expired now w).
Proof.
  unfold sweep. case_decide; [|by left]. simpl.
  destruct (ips l !! ip) as [w|] eqn:Hw.
  - destruct (decide (expired now w)) as [He|He].
    + right. split; [|eauto]. apply map_lookup_filter_None. right.
      intros x Hx Hn. by simplify_eq/=.
    + left. by apply map_lookup_filter_Some.
  - left. apply map_lookup_filter_None. by left.
Qed.

(** Time passing and the sweep. *)
Lemma ip_inv_sweep ip l log now now' :
  now ≤ now' → ip_inv ip (l, log) now → ip_inv ip (sweep l now', log) now'.
Proof.
  intros Hle (cs & Hok & Hx & Hts & Hh & Hw). exists cs. split_and!; try done.
  { intros c Hc. specialize (Hh c Hc). lia. }
  simpl in *. destruct (sweep_lookup l now' ip) as [->|[-> (w & Hw' & He)]].
  - destruct (ips l !! ip); [done|]. intros c Hc. specialize (Hw c Hc). lia.
  - rewrite Hw' in Hw. destruct Hw as (c & rest & -> & Heq & _).
    intros c' Hc'. simpl in Hc'. simplify_eq. apply expired_iff in He. injection Heq as Ha _. lia.
Qed.

Lemma ip_inv_counted ip l l' log now :
  counted <$> ips l' !! ip = counted <$> ips l !! ip → ip_inv ip (l, log) now → ip_inv ip (l', log) now.
Proof.
  intros Hc (cs & Hok & Hx & Hts & Hh & Hw). exists cs. split_and!; try done. simpl in *.
  destruct (ips l' !! ip) as [w'|], (ips l !! ip) as [w|]; simpl in *; try done.
  destruct Hw as (c & rest & -> & Heq & ?). exists c, rest. split_and!; [done| |done].
  injection Hc as Ha Hn. unfold counted in *. congruence.
Qed.

Lemma ip_inv_take ip s now now' j known :
  now ≤ now' → ip_inv ip s now → ip_inv ip (step_op s (Take j now' known)) now'.
Proof.
  destruct s as [l log]. intros Hle Hinv. pose proof (ip_inv_sweep _ _ _ _ _ Hle Hinv) as Hsw.
  clear Hinv. simpl.
  destruct (take_cases l j now' known) as
    [w l' Hip Hgl Hroom -> ->|wait first l' Hno Hpos _ Hw _ Hcnt _].
  2: { unfold granted. rewrite bool_decide_true by done. simpl.
       apply (ip_inv_counted _ (sweep l now')); [apply Hcnt|done]. }
  unfold granted. rewrite bool_decide_false by (simpl; lia). simpl. rewrite renew_ips.
  destruct (decide (j = ip)) as [->|Hne].
  2: { assert (Hlog : ip_inv ip (sweep l now', mkGrant j now' known :: log) now').
       { destruct Hsw as (cs & ? & ? & Hts & ? & ?). exists cs. split_and!; try done. simpl.
         rewrite times_of_cons. unfold of_ip at 1. simpl. by rewrite bool_decide_false by done. }
       eapply ip_inv_counted; [|exact Hlog]. simpl. by rewrite lookup_insert_ne by done. }
  destruct Hsw as (cs & Hok & Hx & Hts & Hh & Hwin). simpl in *.
  assert (Hts' : now' :: (cs ≫= c_times) = times_of (of_ip ip) (mkGrant ip now' known :: log)).
  { rewrite times_of_cons. unfold of_ip at 1. simpl. rewrite bool_decide_true by done. by rewrite Hts. }
  rewrite <-(sweep_window l now' ip).
  destruct (live_window (sweep l now') now' ip) as [w|] eqn:Hl; simpl.
  - unfold ip_count in Hip. rewrite <-(sweep_window l), Hl in Hip. simpl in Hip.
    apply live_Some in Hl as [Hl He]. rewrite Hl in Hwin.
    destruct Hwin as (c & rest & -> & Heq & Hex). injection Heq as Ha Hn.
    rewrite expired_iff in He. specialize (Hh c eq_refl). csimpl in Hts'.
    exists (mkChunk (c_start c) (now' :: c_times c) (c_extra c) :: rest). split_and!.
    + apply chunk_grow; [done|lia|]. unfold loginPerIP in *. lia.
    + done.
    + done.
    + intros c' Hc'. simpl in Hc'. by simplify_eq.
    + simpl. rewrite lookup_insert_eq. eexists _, rest. split_and!; [done| |done].
      unfold counted. simpl. f_equal; lia.
  - exists (mkChunk now' [now'] 0 :: cs).
    assert (chunks_ok loginPerIP (mkChunk now' [] 0 :: cs)) as Hnew.
    { apply chunk_new; [done|done|]. intros c Hc. unfold live_window in Hl.
      destruct (ips (sweep l now') !! ip) as [w|]; simpl in Hl; [|by apply Hwin].
      case_decide as He; [|done]. destruct Hwin as (c' & rest & -> & Heq & _). simpl in Hc.
      simplify_eq. injection Heq as Ha _. apply expired_iff in He. lia. }
    apply (chunk_grow _ now') in Hnew; [|simpl; unfold loginWindow, Minute, Second, Millisecond,
      Nanosecond; lia|simpl; unfold loginPerIP; lia].
    split_and!; try done.
    + intros c' Hc'. simpl in Hc'. by simplify_eq.
    + simpl. rewrite lookup_insert_eq. eexists _, cs. by split_and!.
Qed.

(** ** Properties of histories *)

Lemma run_ops_snoc ops o : run_ops (ops ++ [o]) = step_op (run_ops ops) o.
Proof. unfold run_ops. by rewrite foldl_app. Qed.

Lemma clock_of_snoc ops o :
  clock_of (ops ++ [o]) = match o with Take _ now _ => now | Forgive _ => clock_of ops end.
Proof.
  unfold clock_of, op_times. rewrite omap_app. destruct o; csimpl; [by rewrite last_snoc|].
  by rewrite app_nil_r.
Qed.

Lemma clock_ok_snoc ops o :
  clock_ok (ops ++ [o]) → clock_ok ops ∧ clock_of ops ≤ clock_of (ops ++ [o]).
Proof.
  rewrite clock_of_snoc. unfold clock_ok, clock_of, op_times. rewrite omap_app. destruct o as [ip now k|ip]; csimpl.
  - intros Hs. assert (Hs' : StronglySorted Z.le ((zeroTime :: op_times ops) ++ [now])) by done.
    split; [by apply StronglySorted_app_1_l in Hs'|].
    change (default zeroTime (last (op_times ops)) ≤ now).
    assert (default zeroTime (last (op_times ops)) ∈ zeroTime :: op_times ops) as Hin.
    { destruct (last (op_times ops)) as [t|] eqn:Hl; simpl; [|left].
      right. by apply last_Some_elem_of. }
    revert Hs' Hin. generalize (zeroTime :: op_times ops). clear.
    intros l. generalize (default zeroTime (last (op_times ops))). intros t Hs Hin.
    induction l as [|x l IH]; [by apply not_elem_of_nil in Hin|].
    apply StronglySorted_inv in Hs as [Hs Hx]. apply elem_of_cons in Hin as [->|Hin]; [|by apply IH].
    rewrite list.Forall_forall in Hx. apply Hx, elem_of_app. right. left.
  - by rewrite app_nil_r.
Qed.

(** The global windows. *)
Definition global_inv (s : limiter * list grant) (now : Time) (forgiven : Z) : Prop :=
  ∃ c rest, chunks_ok loginGlobal (c :: rest) ∧
    (c :: rest) ≫= c_times = times_of unknown s.2 ∧
    c_start c = a_start (global s.1) ∧ a_start (global s.1) ≤ now ∧
    Z.of_nat (length (c_times c)) ≤ a_n (global s.1) + c_extra c ∧ 0 ≤ a_n (global s.1) ∧
    sum_with c_extra (c :: rest) ≤ forgiven.

Lemma global_inv_renew l log now now' f :
  now ≤ now' → global_inv (l, log) now f → global_inv (renew (sweep l now') now', log) now' f.
Proof.
  intros Hle (c & rest & Hok & Hts & Hst & Hnow & Hlen & Hn & Hf). simpl in *.
  unfold renew. rewrite sweep_global. case_decide as He.
  - exists (mkChunk now' [] 0), (c :: rest). simpl in *. split_and!; try done; try lia.
    apply chunk_new; [done|done|]. intros c' Hc'. simpl in Hc'. simplify_eq.
    apply expired_iff in He. lia.
  - exists c, rest. simpl. rewrite sweep_global. split_and!; try done; lia.
Qed.

Lemma global_inv_take s now now' j known f :
  now ≤ now' → global_inv s now f → global_inv (step_op s (Take j now' known)) now' f.
Proof.
  destruct s as [l log]. intros Hle Hinv.
  pose proof (global_inv_renew _ _ _ _ _ Hle Hinv) as Hr. clear Hinv. simpl.
  pose proof (renew_live (sweep l now') now') as [Hlive Hgn].
  assert (Hg : global_count (sweep l now') now' = global_count l now').
  { unfold global_count. by rewrite sweep_global. }
  rewrite Hg in Hgn. destruct Hr as (c & rest & Hok & Hts & Hst & Hnow & Hlen & Hn & Hf). simpl in *.
  destruct (take_cases l j now' known) as
    [w l' Hip Hgl Hroom -> ->|wait first l' Hno Hpos _ Hw [Hs Hc] _ _].
  - unfold granted. rewrite bool_decide_false by (simpl; lia). simpl.
    rewrite expired_iff in Hlive.
    destruct known.
    + exists c, rest. simpl. rewrite times_of_cons. simpl. split_and!; try done; lia.
    + destruct Hgl as [|Hgl]; [done|].
      exists (mkChunk (c_start c) (now' :: c_times c) (c_extra c)), rest. simpl.
      rewrite times_of_cons. simpl. split_and!; try done; try lia.
      * apply chunk_grow; [done|lia|lia].
      * by rewrite <-Hts.
  - unfold granted. rewrite bool_decide_true by done. simpl.
    exists c, rest. simpl. rewrite Hs, Hc. by split_and!.
Qed.

Lemma global_inv_forgive s now ip f :
  global_inv s now f → global_inv (step_op s (Forgive ip)) now (f + 1).
Proof.
  intros (c & rest & Hok & Hts & Hst & Hnow & Hlen & Hn & Hf).
  exists (mkChunk (c_start c) (c_times c) (c_extra c + 1)), rest. simpl in *.
  split_and!; try done; try (by case_decide); try (case_decide; simpl; lia); [|lia].
  by apply chunk_forgive.
Qed.

Lemma global_inv_run ops :
  clock_ok ops → global_inv (run_ops ops) (clock_of ops) (forgives ops).
Proof.
  induction ops as [|o ops IH] using rev_ind; intros Hck.
  - exists (mkChunk zeroTime [] 0), []. split_and!; try done. split; [|repeat constructor].
    constructor; [|done]. split_and!; [done|done|]. by intros ? ?%not_elem_of_nil.
  - pose proof (clock_ok_snoc _ _ Hck) as [Hck' Hle]. specialize (IH Hck').
    rewrite run_ops_snoc. rewrite clock_of_snoc in Hle |- *.
    unfold forgives in *. rewrite count_app. destruct o as [j now' known|j].
    + unfold count at 2. simpl. rewrite Z.add_0_r. by eapply global_inv_take.
    + unfold count at 2. simpl. by apply global_inv_forgive.
Qed.

Lemma ip_inv_run ip ops :
  clock_ok ops → Forgive ip ∉ ops → ip_inv ip (run_ops ops) (clock_of ops).
Proof.
  induction ops as [|o ops IH] using rev_ind; intros Hck Hno.
  - exists []. split; [by split; constructor|]. simpl. by rewrite lookup_empty.
  - pose proof (clock_ok_snoc _ _ Hck) as [Hck' Hle].
    rewrite elem_of_app, list_elem_of_singleton in Hno.
    specialize (IH Hck' ltac:(naive_solver)). rewrite run_ops_snoc.
    rewrite clock_of_snoc in Hle |- *. destruct o as [j now' known|j].
    + by eapply ip_inv_take.
    + assert (j ≠ ip) by (intros ->; naive_solver). destruct (run_ops ops) as [l log].
      apply (ip_inv_counted _ l); [|done]. simpl. by rewrite lookup_delete_ne by done.
Qed.

Lemma size_run ops : Z.of_nat (size (ips (run_ops ops).1)) ≤ loginIPs.
Proof.
  induction ops as [|o ops IH] using rev_ind; [done|]. rewrite run_ops_snoc.
  destruct (run_ops ops) as [l log]. destruct o as [j now known|j]; simpl in *.
  - pose proof (sweep_size l now) as Hs.
    destruct (take_cases l j now known) as
      [w l' Hip Hgl Hroom -> ->|wait first l' Hno Hpos _ Hw _ _ Hsz].
    + simpl. rewrite renew_ips.
      destruct Hroom as [[w Hw]|Hroom].
      * rewrite <-(sweep_window l) in Hw. apply live_Some in Hw as [Hw _].
        rewrite map_size_insert_Some by (by eexists). lia.
      * rewrite map_size_insert. destruct (ips (sweep l now) !! j); unfold id; lia.
    + simpl. lia.
  - unfold forgive. simpl. rewrite map_size_delete. destruct (ips l !! j); simpl; lia.
Qed.

(** Over any history of attempts and successful logins, in any
    period of fifteen minutes an address that never logged in is let through
    at most ten times, and unknown devices together at most sixty times plus
    once for each successful login; the table of addresses never exceeds its
    limit. *)
Theorem login_rates ops ip a :
  clock_ok ops →
  (Forgive ip ∉ ops → count (in_period a) (times_of (of_ip ip) (run_ops ops).2) ≤ 2 * loginPerIP) ∧
  count (in_period a) (times_of unknown (run_ops ops).2) ≤ 2 * loginGlobal + forgives ops ∧
  Z.of_nat (size (ips (run_ops ops).1)) ≤ loginIPs.
Proof.
  intros Hck. split_and!; [| |apply size_run].
  - intros Hno. destruct (ip_inv_run ip ops Hck Hno) as (cs & Hok & Hx & <- & _).
    pose proof (chunks_bound loginPerIP a cs ltac:(done) Hok). lia.
  - destruct (global_inv_run ops Hck) as (c & rest & Hok & <- & _ & _ & _ & _ & Hf).
    pose proof (chunks_bound loginGlobal a _ ltac:(done) Hok). lia.
Qed.

Lemma login_rates_witness :
  let ops := [Take "10.0.0.1" Second false; Forgive "10.0.0.2"; Take "10.0.0.1" Minute false] in
  clock_ok ops ∧ Forgive "10.0.0.1" ∉ ops ∧
  count (in_period 0) (times_of (of_ip "10.0.0.1") (run_ops ops).2) ≤ 10.
Proof.
  intros ops. assert (clock_ok ops) as Hck.
  { repeat constructor; vm_compute; discriminate. }
  assert (Forgive "10.0.0.1" ∉ ops) as Hno.
  { intros Hin. repeat (apply elem_of_cons in Hin as [?|Hin]; [done|]).
    by apply not_elem_of_nil in Hin. }
  split; [done|split; [done|]].
  destruct (login_rates ops "10.0.0.1" 0 Hck) as [H _]. by apply H.
Defined.
