(* ===== verification/Text.v ===== *)
(** * Bytes, base64 and decimal numbers

    What the program uses of the packages encoding/base64, strconv and
    strings.  A Go string is a sequence of bytes, the type [string] here. *)

From S2P Require Import Prelude.

(** ** Bytes *)

Definition bytes (s : string) : list Z :=
  (λ a, Z.of_nat (nat_of_ascii a)) <$> String.list_ascii_of_string s.

Definition byte_char (z : Z) : ascii := ascii_of_nat (Z.to_nat z).

Definition of_bytes (l : list Z) : string := String.string_of_list_ascii (byte_char <$> l).

Definition is_byte (z : Z) : Prop := 0 ≤ z < 256.

Lemma byte_char_code a : byte_char (Z.of_nat (nat_of_ascii a)) = a.
Proof. unfold byte_char. rewrite Nat2Z.id. apply ascii_nat_embedding. Qed.

Lemma code_byte_char z : is_byte z → Z.of_nat (nat_of_ascii (byte_char z)) = z.
Proof.
  unfold is_byte, byte_char. intros. rewrite nat_ascii_embedding by lia. lia.
Qed.

Lemma bytes_are_bytes s : Forall is_byte (bytes s).
Proof.
  unfold bytes. apply Forall_fmap, list.Forall_forall. intros a _. unfold is_byte. simpl.
  pose proof (nat_ascii_bounded a). lia.
Qed.

Lemma of_bytes_bytes s : of_bytes (bytes s) = s.
Proof.
  unfold of_bytes, bytes. rewrite <-list_fmap_compose.
  rewrite <-(String.string_of_list_ascii_of_string s) at 2. f_equal.
  rewrite <-(list_fmap_id (String.list_ascii_of_string s)) at 2.
  apply list_fmap_ext. intros i a _. apply byte_char_code.
Qed.

Lemma bytes_of_bytes l : Forall is_byte l → bytes (of_bytes l) = l.
Proof.
  intros Hl. unfold of_bytes, bytes. rewrite String.list_ascii_of_string_of_list_ascii.
  rewrite <-list_fmap_compose. induction Hl as [|z l Hz _ IH]; csimpl; [done|].
  by rewrite IH, code_byte_char.
Qed.

Lemma bytes_inj s s' : bytes s = bytes s' → s = s'.
Proof. intros H. by rewrite <-(of_bytes_bytes s), H, of_bytes_bytes. Qed.

Lemma length_bytes s : length (bytes s) = String.length s.
Proof.
  unfold bytes. rewrite length_fmap. induction s as [|a s IH]; simpl; [done|]. by rewrite IH.
Qed.

(** ** encoding/base64, without padding *)

(** The last two letters of the alphabet: the URL and the standard one. *)
Inductive alphabet : Type := url_alphabet | std_alphabet.

Definition letters : string := "ABCDEFGHIJKLMNOPQRSTUVWXYZabcdefghijklmnopqrstuvwxyz0123456789".

Definition alphabet_chars (a : alphabet) : list ascii :=
  String.list_ascii_of_string (letters ++ match a with url_alphabet => "-_" | std_alphabet => "+/" end).

Definition char_of (a : alphabet) (v : Z) : ascii :=
  default "A"%char (alphabet_chars a !! Z.to_nat v).

Definition value_of (a : alphabet) (c : ascii) : option Z :=
  (λ r, Z.of_nat r.1) <$> list_find (λ x, x = c) (alphabet_chars a).

(** Groups of three bytes become four values of six bits. *)
Fixpoint to_sextets (l : list Z) : list Z :=
  match l with
  | [] => []
  | [x] => [x / 4; (x mod 4) * 16]
  | [x; y] => [x / 4; (x mod 4) * 16 + y / 16; (y mod 16) * 4]
  | x :: y :: z :: l =>
      [x / 4; (x mod 4) * 16 + y / 16; (y mod 16) * 4 + z / 64; z mod 64] ++ to_sextets l
  end.

(** Back to bytes; a strict decoder refuses surplus bits that are not zero. *)
Fixpoint from_sextets (strict : bool) (l : list Z) : option (list Z) :=
  match l with
  | [] => Some []
  | [_] => None
  | [a; b] => if strict && negb (bool_decide (b mod 16 = 0)) then None
              else Some [a * 4 + b / 16]
  | [a; b; c] => if strict && negb (bool_decide (c mod 4 = 0)) then None
                 else Some [a * 4 + b / 16; (b mod 16) * 16 + c / 4]
  | a :: b :: c :: d :: l =>
      rest ← from_sextets strict l;
      Some ([a * 4 + b / 16; (b mod 16) * 16 + c / 4; (c mod 4) * 64 + d] ++ rest)
  end.

Definition base64_encode (a : alphabet) (l : list Z) : string :=
  String.string_of_list_ascii (char_of a <$> to_sextets l).

(** Line breaks in the input are ignored. *)
Definition is_newline (c : ascii) : bool :=
  bool_decide (c = "010"%char) || bool_decide (c = "013"%char).

Definition base64_decode (a : alphabet) (strict : bool) (s : string) : option (list Z) :=
  vs ← mapM (value_of a)
         (filter (λ c, is_newline c = false) (String.list_ascii_of_string s));
  from_sextets strict vs.

Definition is_sextet (z : Z) : Prop := 0 ≤ z < 64.

(** Induction by groups of three bytes. *)
Lemma list_ind3 {A} (Q : list A → Prop) :
  Q [] → (∀ x, Q [x]) → (∀ x y, Q [x; y]) →
  (∀ x y z l, Q l → Q (x :: y :: z :: l)) → ∀ l, Q l.
Proof.
  intros H0 H1 H2 H3 l. assert (Q l ∧ (∀ x, Q (x :: l)) ∧ ∀ x y, Q (x :: y :: l)) as [? _]; [|done].
  induction l as [|a l (IH0 & IH1 & IH2)]; [done|]. split_and!; auto.
Qed.

Lemma to_sextets_range l : Forall is_byte l → Forall is_sextet (to_sextets l).
Proof.
  induction l as [|x|x y|x y z l IH] using list_ind3; intros Hl; simpl;
    rewrite ?Forall_cons in *; unfold is_byte, is_sextet in *.
  - done.
  - destruct Hl as [? _]. split_and!; try done; Z.to_euclidean_division_equations; lia.
  - destruct Hl as (? & ? & _). split_and!; try done; Z.to_euclidean_division_equations; lia.
  - destruct Hl as (? & ? & ? & Hl). split_and!; [Z.to_euclidean_division_equations; lia..|auto].
Qed.

Lemma from_to_sextets strict l : Forall is_byte l → from_sextets strict (to_sextets l) = Some l.
Proof.
  induction l as [|x|x y|x y z l IH] using list_ind3; intros Hl; simpl;
    rewrite ?Forall_cons in Hl; unfold is_byte in *.
  - done.
  - rewrite bool_decide_true by (Z.to_euclidean_division_equations; lia).
    rewrite andb_false_r. do 2 f_equal. Z.to_euclidean_division_equations; lia.
  - rewrite bool_decide_true by (Z.to_euclidean_division_equations; lia).
    rewrite andb_false_r. repeat f_equal; Z.to_euclidean_division_equations; lia.
  - destruct Hl as (? & ? & ? & Hl). rewrite IH by done. simpl.
    repeat f_equal; Z.to_euclidean_division_equations; lia.
Qed.

Lemma sextet_cases (Q : Z → Prop) :
  Forall Q (Z.of_nat <$> seq 0 64) → ∀ v, is_sextet v → Q v.
Proof.
  rewrite list.Forall_forall. intros H v [H0 H1]. apply H, list_elem_of_fmap.
  exists (Z.to_nat v). rewrite elem_of_seq. lia.
Qed.

Lemma value_of_char a v : is_sextet v → value_of a (char_of a v) = Some v.
Proof.
  revert v. apply sextet_cases. destruct a; apply Forall_fmap; repeat constructor.
Qed.

Lemma char_not_newline a v : is_sextet v → is_newline (char_of a v) = false.
Proof. revert v. apply sextet_cases. destruct a; apply Forall_fmap; repeat constructor. Qed.

(** What is encoded decodes to itself. *)
Lemma base64_roundtrip a strict l :
  Forall is_byte l → base64_decode a strict (base64_encode a l) = Some l.
Proof.
  intros Hl. unfold base64_decode, base64_encode.
  rewrite String.list_ascii_of_string_of_list_ascii.
  pose proof (to_sextets_range l Hl) as Hs.
  assert (Hf : filter (λ c, is_newline c = false) (char_of a <$> to_sextets l) =
    char_of a <$> to_sextets l).
  { induction Hs as [|v vs Hv _ IH]; csimpl; [done|]. rewrite filter_cons, IH.
    by rewrite char_not_newline. }
  rewrite Hf. assert (Hm : mapM (value_of a) (char_of a <$> to_sextets l) = Some (to_sextets l)).
  { apply mapM_Some, Forall2_fmap_l. clear Hf.
    induction Hs as [|v vs Hv _ IH]; constructor; [by apply value_of_char|done]. }
  rewrite Hm. by apply from_to_sextets.
Qed.

(** ** strconv: decimal numbers *)

Definition digit_value (c : ascii) : option Z :=
  let n := Z.of_nat (nat_of_ascii c) in
  if decide (48 ≤ n ≤ 57) then Some (n - 48) else None.

Definition digit_char (d : Z) : ascii := byte_char (48 + d).

(** The digits of a natural number; twenty are enough for 64 bits. *)
Fixpoint digits (fuel : nat) (n : Z) : list ascii :=
  match fuel with
  | O => []
  | S fuel => if decide (n < 10) then [digit_char n]
              else digits fuel (n / 10) ++ [digit_char (n mod 10)]
  end.

Definition max_digits : nat := 20.

(** [strconv.Itoa], [strconv.FormatInt(n, 10)]. *)
Definition itoa (n : Z) : string :=
  String.string_of_list_ascii
    (if decide (n < 0) then "-"%char :: digits max_digits (- n) else digits max_digits n).

(** Only digits, at least one. *)
Definition parse_nat (l : list ascii) : option Z :=
  match l with
  | [] => None
  | _ => foldl (λ acc c, a ← acc; d ← digit_value c; Some (10 * a + d)) (Some 0) l
  end.

(** [strconv.ParseInt(s, 10, 64)] and [strconv.Atoi]: an optional sign, digits,
    and a value within 64 bits. *)
Definition parse_int (s : string) : option Z :=
  let l := String.list_ascii_of_string s in
  let '(neg, ds) := match l with
                    | "-"%char :: l => (true, l)
                    | "+"%char :: l => (false, l)
                    | l => (false, l)
                    end in
  n ← parse_nat ds;
  let v := if neg : bool then - n else n in
  if decide (in_int64 v) then Some v else None.

(** [strconv.ParseUint(s, 10, 16)]: digits only, a value within 16 bits. *)
Definition parse_uint16 (s : string) : option Z :=
  n ← parse_nat (String.list_ascii_of_string s);
  if decide (n < 65536) then Some n else None.

Definition step_digit (acc : option Z) (c : ascii) : option Z :=
  a ← acc; d ← digit_value c; Some (10 * a + d).

Lemma digit_value_char d : 0 ≤ d < 10 → digit_value (digit_char d) = Some d.
Proof.
  intros Hd. unfold digit_value, digit_char. rewrite code_byte_char by (unfold is_byte; lia).
  rewrite decide_True by lia. f_equal. lia.
Qed.

Lemma digits_value fuel n :
  0 ≤ n < 10 ^ Z.of_nat fuel → foldl step_digit (Some 0) (digits fuel n) = Some n.
Proof.
  revert n. induction fuel as [|fuel IH]; intros n Hn.
  { simpl in Hn. assert (n = 0) as -> by lia. done. }
  simpl. case_decide as Hlt.
  - simpl. rewrite digit_value_char by lia. done.
  - assert (Z.of_nat (S fuel) = Z.succ (Z.of_nat fuel)) as Hs by lia.
    rewrite Hs, Z.pow_succ_r in Hn by lia.
    rewrite foldl_app, IH by (Z.to_euclidean_division_equations; lia). simpl.
    rewrite digit_value_char by (Z.to_euclidean_division_equations; lia). simpl. f_equal.
    Z.to_euclidean_division_equations; lia.
Qed.

(** The first character is a digit. *)
Lemma digits_head fuel n :
  (0 < fuel)%nat → 0 ≤ n → ∃ d l, digits fuel n = digit_char d :: l ∧ 0 ≤ d < 10.
Proof.
  revert n. induction fuel as [|fuel IH]; intros n Hf Hn; [lia|]. simpl.
  case_decide as Hlt; [by exists n, []|].
  destruct fuel as [|fuel].
  - simpl. exists (n mod 10), []. split; [done|]. Z.to_euclidean_division_equations; lia.
  - destruct (IH (n / 10)) as (d & l & -> & Hd); [lia|Z.to_euclidean_division_equations; lia|].
    by exists d, (l ++ [digit_char (n mod 10)]).
Qed.

Lemma digit_char_sign d : 0 ≤ d < 10 → digit_char d ≠ "-"%char ∧ digit_char d ≠ "+"%char.
Proof.
  intros Hd. assert (digit_value (digit_char d) = Some d) as Hv by by apply digit_value_char.
  split; intros Heq; rewrite Heq in Hv; by vm_compute in Hv.
Qed.

Lemma parse_nat_digits n : 0 ≤ n < 10 ^ 20 → parse_nat (digits max_digits n) = Some n.
Proof.
  intros Hn. unfold parse_nat.
  destruct (digits_head max_digits n) as (d & l & Hd & _); [unfold max_digits; lia|lia|].
  rewrite Hd. rewrite <-Hd. by apply (digits_value max_digits).
Qed.

Lemma parse_int_unsigned l :
  (∀ l', l ≠ "-"%char :: l') → (∀ l', l ≠ "+"%char :: l') →
  parse_int (String.string_of_list_ascii l) =
  (n ← parse_nat l; if decide (in_int64 n) then Some n else None).
Proof.
  intros H1 H2. unfold parse_int. rewrite String.list_ascii_of_string_of_list_ascii.
  destruct l as [|c l]; [done|].
  assert (c ≠ "-"%char) as Hm by (intros ->; by apply (H1 l)).
  assert (c ≠ "+"%char) as Hp by (intros ->; by apply (H2 l)).
  destruct c as [[] [] [] [] [] [] [] []]; done.
Qed.

(** Formatting and parsing agree on 64-bit numbers. *)
Lemma parse_itoa n : in_int64 n → parse_int (itoa n) = Some n.
Proof.
  intros Hn. unfold itoa. case_decide as Hneg.
  - unfold parse_int. rewrite String.list_ascii_of_string_of_list_ascii.
    rewrite parse_nat_digits by (unfold in_int64, int64_min, int64_max in Hn; lia).
    simpl. rewrite decide_True; [f_equal; lia|]. by replace (- - n) with n by lia.
  - destruct (digits_head max_digits n) as (d & l & Hd & Hr); [unfold max_digits; lia|lia|].
    pose proof (digit_char_sign d Hr) as [Hm Hp].
    rewrite parse_int_unsigned.
    + rewrite parse_nat_digits by (unfold in_int64, int64_min, int64_max in Hn; lia).
      simpl. by rewrite decide_True by done.
    + rewrite Hd. intros l' Heq. by simplify_eq.
    + rewrite Hd. intros l' Heq. by simplify_eq.
Qed.

(** The characters of a number are neither spaces nor controls. *)
Definition visible (b : Z) : Prop := 33 ≤ b < 127.

Lemma digits_visible fuel n : 0 ≤ n → Forall (λ c, visible (Z.of_nat (nat_of_ascii c))) (digits fuel n).
Proof.
  assert (Hd : ∀ d, 0 ≤ d < 10 → visible (Z.of_nat (nat_of_ascii (digit_char d)))).
  { intros d Hd. unfold digit_char. rewrite code_byte_char by (unfold is_byte; lia). unfold visible. lia. }
  revert n. induction fuel as [|fuel IH]; intros n Hn; simpl; [constructor|].
  case_decide; [by repeat constructor; apply Hd|].
  apply Forall_app. split; [|by repeat constructor; apply Hd, Z.mod_pos_bound].
  apply IH. by apply Z.div_pos.
Qed.

Lemma itoa_visible n : Forall visible (bytes (itoa n)).
Proof.
  unfold bytes, itoa. rewrite String.list_ascii_of_string_of_list_ascii. apply Forall_fmap.
  case_decide; [constructor; [by vm_compute|]|]; apply digits_visible; lia.
Qed.

(** ** strings *)

(** The encodings of the characters [unicode.IsSpace] accepts. *)
Definition spaces : list (list Z) :=
  ((λ z, [z]) <$> [9; 10; 11; 12; 13; 32]) ++
  [[194; 133]; [194; 160]; [225; 154; 128]] ++
  ((λ z, [226; 128; z]) <$> [128; 129; 130; 131; 132; 133; 134; 135; 136; 137; 138; 168; 169; 175]) ++
  [[226; 129; 159]; [227; 128; 128]].

(** [l] without the prefix [p]. *)
Fixpoint strip (p l : list Z) : option (list Z) :=
  match p, l with
  | [], l => Some l
  | x :: p, y :: l => if decide (x = y) then strip p l else None
  | _ :: _, [] => None
  end.

Lemma strip_spec p l l' : strip p l = Some l' ↔ l = p ++ l'.
Proof.
  revert l. induction p as [|x p IH]; intros l; simpl; [naive_solver|].
  destruct l as [|y l]; [done|]. case_decide; [rewrite IH; naive_solver|naive_solver].
Qed.

(** Drop the patterns of [ps] from the front, as long as one matches. *)
Fixpoint trim_left (ps : list (list Z)) (fuel : nat) (l : list Z) : list Z :=
  match fuel with
  | O => l
  | S fuel => match head (omap (λ p, strip p l) ps) with
              | Some l' => trim_left ps fuel l'
              | None => l
              end
  end.

(** [strings.TrimSpace]: each step drops at least one byte. *)
Definition TrimSpace (s : string) : string :=
  let l := trim_left spaces (String.length s) (bytes s) in
  of_bytes (reverse (trim_left (reverse <$> spaces) (length l) (reverse l))).

(** [strings.Split(s, sep)] for a separator of one byte. *)
Fixpoint split_at (sep : Z) (l : list Z) : list (list Z) :=
  match l with
  | [] => [[]]
  | x :: l => if decide (x = sep) then [] :: split_at sep l
              else match split_at sep l with
                   | p :: ps => (x :: p) :: ps
                   | [] => [[x]]
                   end
  end.

Definition Split (s : string) (sep : ascii) : list string :=
  of_bytes <$> split_at (Z.of_nat (nat_of_ascii sep)) (bytes s).

(** [strings.Cut(s, sep)]: around the first separator. *)
Fixpoint cut_at (sep : Z) (l : list Z) : list Z * option (list Z) :=
  match l with
  | [] => ([], None)
  | x :: l => if decide (x = sep) then ([], Some l)
              else let '(p, r) := cut_at sep l in (x :: p, r)
  end.

Definition Cut (s : string) (sep : ascii) : string * option string :=
  let '(p, r) := cut_at (Z.of_nat (nat_of_ascii sep)) (bytes s) in (of_bytes p, of_bytes <$> r).

Definition HasPrefix (s p : string) : bool := bool_decide (is_Some (strip (bytes p) (bytes s))).

Lemma bytes_app s s' : bytes (s ++ s') = bytes s ++ bytes s'.
Proof.
  unfold bytes. induction s as [|a s IH]; [done|]. csimpl. by f_equal.
Qed.

(** Splitting after a part without the separator. *)
Lemma split_at_sep sep p l : sep ∉ p → split_at sep (p ++ sep :: l) = p :: split_at sep l.
Proof.
  induction p as [|x p IH]; intros Hp; simpl; [by rewrite decide_True|].
  apply not_elem_of_cons in Hp as [Hx Hp]. rewrite decide_False by done. by rewrite IH.
Qed.

Lemma split_at_last sep p : sep ∉ p → split_at sep p = [p].
Proof.
  induction p as [|x p IH]; intros Hp; simpl; [done|].
  apply not_elem_of_cons in Hp as [Hx Hp]. rewrite decide_False by done. by rewrite IH.
Qed.

(** The letters of an encoding are those of its alphabet. *)
Lemma base64_chars a l z :
  Forall is_byte l → z ∈ bytes (base64_encode a l) →
  ∃ v, is_sextet v ∧ z = Z.of_nat (nat_of_ascii (char_of a v)).
Proof.
  intros Hl Hz. unfold base64_encode, bytes in Hz.
  rewrite String.list_ascii_of_string_of_list_ascii in Hz.
  apply list_elem_of_fmap in Hz as (c & -> & Hc). apply list_elem_of_fmap in Hc as (v & -> & Hv).
  exists v. split; [|done]. pose proof (to_sextets_range l Hl) as Hs.
  rewrite list.Forall_forall in Hs. by apply Hs.
Qed.

(** ** UTF-8 *)

Definition RuneError : Z := 65533.

(** [0x80 <= b <= 0xBF]. *)
Definition is_cont (b : Z) : bool := bool_decide (128 ≤ b ≤ 191).

(** The first rune of [l] and the bytes it takes: an ill-formed sequence is
    [RuneError] and takes one byte. *)
Definition decode_rune (l : list Z) : Z * nat :=
  match l with
  | [] => (RuneError, 0%nat)
  | a :: l =>
      if decide (a < 128) then (a, 1%nat) else
      match l with
      | b :: l' =>
          if decide (194 ≤ a ≤ 223) then
            if is_cont b then ((a - 192) * 64 + (b - 128), 2%nat) else (RuneError, 1%nat)
          else
          match l' with
          | c :: l'' =>
              if decide (224 ≤ a ≤ 239) then
                let lo := if decide (a = 224) then 160 else 128 in
                let hi := if decide (a = 237) then 159 else 191 in
                if bool_decide (lo ≤ b ≤ hi) && is_cont c
                then ((a - 224) * 4096 + (b - 128) * 64 + (c - 128), 3%nat)
                else (RuneError, 1%nat)
              else
              match l'' with
              | d :: _ =>
                  let lo := if decide (a = 240) then 144 else 128 in
                  let hi := if decide (a = 244) then 143 else 191 in
                  if bool_decide (240 ≤ a ≤ 244) && bool_decide (lo ≤ b ≤ hi) && is_cont c && is_cont d
                  then ((a - 240) * 262144 + (b - 128) * 4096 + (c - 128) * 64 + (d - 128), 4%nat)
                  else (RuneError, 1%nat)
              | [] => (RuneError, 1%nat)
              end
          | [] => (RuneError, 1%nat)
          end
      | [] => (RuneError, 1%nat)
      end
  end.

(** The runes of a byte sequence, each with its bytes; every rune takes at
    least one byte. *)
Fixpoint runes_of (fuel : nat) (l : list Z) : list (Z * list Z) :=
  match fuel, l with
  | O, _ | _, [] => []
  | S fuel, _ => let '(r, n) := decode_rune l in (r, take n l) :: runes_of fuel (drop n l)
  end.

(** [for _, r := range s]. *)
Definition runes (s : string) : list (Z * list Z) := runes_of (String.length s) (bytes s).

(** [utf8.RuneCountInString]. *)
Definition RuneCount (s : string) : Z := Z.of_nat (length (runes s)).

(** [strings.ContainsFunc]. *)
Definition ContainsFunc (p : Z → bool) (s : string) : bool := existsb (λ r, p r.1) (runes s).

(** [unicode.IsControl]. *)
Definition IsControl (r : Z) : bool := bool_decide (0 ≤ r ≤ 31) || bool_decide (127 ≤ r ≤ 159).

(** The ranges of the category Cf, format characters. *)
Definition Cf_ranges : list (Z * Z) :=
  [(173, 173); (1536, 1541); (1564, 1564); (1757, 1757); (1807, 1807); (2192, 2193);
   (2274, 2274); (6158, 6158); (8203, 8207); (8234, 8238); (8288, 8292); (8294, 8303);
   (65279, 65279); (65529, 65531); (69821, 69821); (69837, 69837); (78896, 78911);
   (113824, 113827); (119155, 119162); (917505, 917505); (917536, 917631)].

Definition IsCf (r : Z) : bool := existsb (λ p, bool_decide (p.1 ≤ r ≤ p.2)) Cf_ranges.

(** [unicode.IsSpace]. *)
Definition IsSpace (r : Z) : bool :=
  bool_decide (9 ≤ r ≤ 13) ||
  bool_decide (r ∈ [32; 133; 160; 5760; 8232; 8233; 8239; 8287; 12288]) ||
  bool_decide (8192 ≤ r ≤ 8202).

(** *** Runes and bytes *)

(** What [decode_rune] finds: an ASCII character, a byte that is part of no
    rune, or a rune of several bytes, none of them ASCII. *)
Inductive rune_case (l : list Z) : Z * nat → Prop :=
  | rune_ascii a l' : l = a :: l' → a < 128 → rune_case l (a, 1%nat)
  | rune_bad a l' : l = a :: l' → 128 ≤ a → rune_case l (RuneError, 1%nat)
  | rune_multi r n : (2 ≤ n ≤ 4)%nat → 128 ≤ r → Forall (λ b, 128 ≤ b) (take n l) → rune_case l (r, n).

Lemma decode_rune_cases l : l ≠ [] → rune_case l (decode_rune l).
Proof.
  intros Hl. destruct l as [|a l]; [done|]. unfold decode_rune.
  destruct (decide (a < 128)); [by eapply rune_ascii|].
  assert (Hbad : rune_case (a :: l) (RuneError, 1%nat)) by (eapply rune_bad; [done|lia]).
  unfold is_cont. destruct l as [|x l]; [done|]. destruct (decide (194 ≤ a ≤ 223)).
  { case_bool_decide; [|done]. apply rune_multi; [lia|lia|]. repeat constructor; lia. }
  destruct l as [|y l]; [done|]. destruct (decide (224 ≤ a ≤ 239)).
  { match goal with |- context [if ?c then _ else _] => destruct c eqn:Hc; [|done] end.
    apply andb_true_iff in Hc as [Hx%bool_decide_eq_true Hy%bool_decide_eq_true].
    apply rune_multi; [lia|repeat case_decide; lia|].
    repeat constructor; repeat case_decide; lia. }
  destruct l as [|z l]; [done|].
  match goal with |- context [if ?c then _ else _] => destruct c eqn:Hc; [|done] end.
  apply andb_true_iff in Hc as [Hc Hz%bool_decide_eq_true].
  apply andb_true_iff in Hc as [Hc Hy%bool_decide_eq_true].
  apply andb_true_iff in Hc as [Ha%bool_decide_eq_true Hx%bool_decide_eq_true].
  apply rune_multi; [lia|repeat case_decide; lia|].
  repeat constructor; repeat case_decide; lia.
Qed.

(** The bytes of a rune: at most four, and one below 128 is the whole rune. *)
Lemma decode_rune_bytes l :
  l ≠ [] →
  let '(r, n) := decode_rune l in
  (1 ≤ n ≤ 4)%nat ∧ (r < 128 → take n l = [r]) ∧ ∀ b, b ∈ take n l → b < 128 → r = b.
Proof.
  intros Hl. destruct (decode_rune_cases l Hl) as [a l' -> Ha|a l' -> Ha|r n Hn Hr Hall].
  - split_and!; [lia..|done|]. by intros b ->%list_elem_of_singleton.
  - split_and!; [lia..|by intros|]. intros b ->%list_elem_of_singleton. lia.
  - split_and!; [lia..|]. rewrite list.Forall_forall in Hall. intros b Hb%Hall. lia.
Qed.

Lemma runes_of_bytes fuel l : (length l ≤ fuel)%nat → concat (runes_of fuel l).*2 = l.
Proof.
  revert l. induction fuel as [|fuel IH]; intros [|b l] Hl; simpl in Hl; try done; [lia|].
  cbn [runes_of]. pose proof (decode_rune_bytes (b :: l) ltac:(done)) as Hn.
  destruct (decode_rune (b :: l)) as [r n]. destruct Hn as [Hn _]. csimpl.
  rewrite IH; [apply take_drop|]. rewrite length_drop. simpl in *. lia.
Qed.

Lemma runes_bytes s : concat (runes s).*2 = bytes s.
Proof. apply runes_of_bytes. by rewrite length_bytes. Qed.

Lemma runes_of_elem fuel l r :
  Forall is_byte l → r ∈ runes_of fuel l →
  Forall is_byte r.2 ∧ (length r.2 ≤ 4)%nat ∧ (r.1 < 128 → r.2 = [r.1]) ∧
  ∀ b, b ∈ r.2 → b < 128 → r.1 = b.
Proof.
  revert l. induction fuel as [|fuel IH]; intros [|b l] Hl; cbn [runes_of];
    try by intros ?%not_elem_of_nil.
  pose proof (decode_rune_bytes (b :: l) ltac:(done)) as Hd.
  destruct (decode_rune (b :: l)) as [c n]. destruct Hd as (Hn & Ha & Hlow).
  intros [->|Hr]%elem_of_cons.
  - split_and!; [by apply Forall_take| |done|done]. cbn [snd]. rewrite length_take. lia.
  - eapply IH; [|done]. by apply Forall_drop.
Qed.

Lemma runes_elem s r :
  r ∈ runes s →
  Forall is_byte r.2 ∧ (length r.2 ≤ 4)%nat ∧ (r.1 < 128 → r.2 = [r.1]) ∧
  ∀ b, b ∈ r.2 → b < 128 → r.1 = b.
Proof. apply runes_of_elem, bytes_are_bytes. Qed.

(** A whole rune is found whatever follows it. *)
Lemma decode_rune_whole l m r n :
  l ≠ [] → decode_rune l = (r, n) → (r ≠ RuneError ∨ n ≠ 1%nat) → decode_rune (take n l ++ m) = (r, n).
Proof.
  intros Hl H Hr. destruct l as [|a l]; [done|]. unfold decode_rune in H.
  assert (∀ P : Prop, (RuneError, 1%nat) = (r, n) → P) as Hbad by (intros P [= <- <-]; naive_solver).
  destruct (decide (a < 128)) as [Ha|Ha].
  { injection H as <- <-. simpl. by rewrite decide_True. }
  destruct l as [|x l]; [by apply Hbad|]. destruct (decide (194 ≤ a ≤ 223)) as [Ha2|Ha2].
  { destruct (is_cont x) eqn:Hx; [|by apply Hbad]. injection H as <- <-. cbn [take app decode_rune].
    by rewrite decide_False, decide_True, Hx by lia. }
  destruct l as [|y l]; [by apply Hbad|]. destruct (decide (224 ≤ a ≤ 239)) as [Ha3|Ha3].
  { destruct (_ && _) eqn:Hc in H; [|by apply Hbad]. injection H as <- <-. cbn [take app decode_rune].
    rewrite !(decide_False (P := a < 128)), (decide_False (P := 194 ≤ a ≤ 223)), decide_True by lia.
    by rewrite Hc. }
  destruct l as [|z l]; [by apply Hbad|].
  destruct (_ && _) eqn:Hc in H; [|by apply Hbad]. injection H as <- <-. cbn [take app decode_rune].
  rewrite (decide_False (P := a < 128)), (decide_False (P := 194 ≤ a ≤ 223)),
    (decide_False (P := 224 ≤ a ≤ 239)) by lia.
  by rewrite Hc.
Qed.

(** ** net.SplitHostPort *)

Fixpoint index_byte (c : Z) (l : list Z) : option nat :=
  match l with
  | [] => None
  | x :: l => if decide (x = c) then Some 0%nat else S <$> index_byte c l
  end.

(** The last index of a byte. *)
Fixpoint last_index (c : Z) (l : list Z) : option nat :=
  match l with
  | [] => None
  | x :: l => match last_index c l with
              | Some i => Some (S i)
              | None => if decide (x = c) then Some 0%nat else None
              end
  end.

Definition colon : Z := 58.
Definition open_bracket : Z := 91.
Definition close_bracket : Z := 93.

Definition SplitHostPort (s : string) : option (string * string) :=
  let l := bytes s in
  i ← last_index colon l;
  '(host, j, k) ←
    (if decide (head l = Some open_bracket) then
       e ← index_byte close_bracket l;
       if decide (S e = i) then Some (take (e - 1) (drop 1 l), 1%nat, S e) else None
     else
       let host := take i l in
       match index_byte colon host with Some _ => None | None => Some (host, 0%nat, 0%nat) end);
  match index_byte open_bracket (drop j l), index_byte close_bracket (drop k l) with
  | None, None => Some (of_bytes host, of_bytes (drop (S i) l))
  | _, _ => None
  end.

Example split_host_port_v4 : SplitHostPort "127.0.0.1:80" = Some ("127.0.0.1", "80").
Proof. reflexivity. Qed.
Example split_host_port_v6 : SplitHostPort "[::1]:80" = Some ("::1", "80").
Proof. reflexivity. Qed.
Example split_host_port_bare : SplitHostPort "::1" = None.
Proof. reflexivity. Qed.
Example trim_space_example : TrimSpace "  a b	 " = "a b".
Proof. reflexivity. Qed.
