(* ===== verification/Migrations.v ===== *)
(** * Opening and migrating the database (internal/store/db.go)

    The scripts of internal/store/migrations are lists of objects to create.
    A [File] is the schema a database file has and the journal of applied
    versions.  Every statement may fail, so a start may stop anywhere; the
    theorem says that the next start goes on from there. *)

From S2P Require Import Prelude GoTime Sql Text.

(** ** The path in the data source name *)

(** [uriPath] replaces the bytes %, ? and # of the path. *)
Definition uri_byte (b : Z) : list Z :=
  if decide (b = 37) then [37; 50; 53]
  else if decide (b = 63) then [37; 51; 102]
  else if decide (b = 35) then [37; 50; 51]
  else [b].

Definition uriPath (file : string) : string := of_bytes (bytes file ≫= uri_byte).

(** What [Open] hands to the driver for writing, with a slash as the path
    separator, where [filepath.ToSlash] is the identity. *)
Definition dsn (file : string) : string :=
  "file:" +:+ uriPath file +:+
  "?_pragma=journal_mode(WAL)&_pragma=busy_timeout(5000)&_pragma=foreign_keys(1)".

(** ** The file *)

(** [f_journal] is the table schema_migrations once it exists. *)
Record File : Type := mkFile {
  f_journal : option (gmap string Z);
  f_objects : gset string;
}.

Definition new_file : File := mkFile None ∅.

(** [migrations/*.sql], in the order of [fs.Glob]. *)
Definition migrations : list (string * list string) :=
  [("migrations/0001_init.sql",
     ["targets"; "checks"; "checks_target_at"; "hourly"; "incidents";
      "incidents_target_started"; "admin"; "sessions"]);
   ("migrations/0002_devices.sql", ["devices"])].

(** [strings.TrimSuffix(path.Base(name), ".sql")]. *)
Definition Base (name : string) : string :=
  match last_index 47 (bytes name) with
  | Some i => of_bytes (drop (S i) (bytes name))
  | None => name
  end.

Definition TrimSuffix (s suffix : string) : string :=
  match strip (reverse (bytes suffix)) (reverse (bytes s)) with
  | Some l => of_bytes (reverse l)
  | None => s
  end.

Definition version_of (name : string) : string := TrimSuffix (Base name) ".sql".

(** ** Statements *)

Definition create_journal : M File unit :=
  stmt (λ f, Ok ((), mkFile (Some (default ∅ (f_journal f))) (f_objects f))).

Definition applied (version : string) : M File bool :=
  stmt (λ f, match f_journal f with
             | None => Err ErrDriver
             | Some j => Ok (bool_decide (is_Some (j !! version)), f)
             end).

Definition create (object : string) : M File unit :=
  stmt (λ f, if decide (object ∈ f_objects f) then Err ErrDriver
             else Ok ((), mkFile (f_journal f) ({[object]} ∪ f_objects f))).

Fixpoint exec_script (script : list string) : M File unit :=
  match script with
  | [] => ret ()
  | o :: script => do! create o in exec_script script
  end.

Definition note_version (version : string) (now : Time) : M File unit :=
  stmt (λ f, match f_journal f with
             | None => Err ErrDriver
             | Some j =>
                 if decide (is_Some (j !! version)) then Err ErrConstraint
                 else Ok ((), mkFile (Some (<[version := Unix now]> j)) (f_objects f))
             end).

(** A transaction whose body may leave with [nil] before the commit: the
    deferred Rollback then undoes it. *)
Definition tx_if {Db} (body : M Db bool) : M Db unit := λ w,
  let '(b, w1) := tick w in
  if b then (Err ErrDriver, w1) else
  match body w1 with
  | (Err e, w2) => (Err e, mkWorld (w_db w) (w_faults w2))
  | (Ok false, w2) => (Ok (), mkWorld (w_db w) (w_faults w2))
  | (Ok true, w2) =>
      let '(c, w3) := tick w2 in
      if c then (Err ErrDriver, mkWorld (w_db w) (w_faults w3)) else (Ok (), w3)
  end.

Definition applyMigration (version : string) (script : list string) (now : Time) : M File unit :=
  tx_if (let! done := applied version in
         if done then ret false else
         do! exec_script script in
         do! note_version version now in
         ret true).

(** The loop of [migrate]; [now] is read for each version. *)
Fixpoint apply_all (now : string → Time) (files : list (string * list string)) : M File unit :=
  match files with
  | [] => ret ()
  | (name, script) :: files =>
      do! applyMigration (version_of name) script (now (version_of name)) in
      apply_all now files
  end.

Definition migrate (now : string → Time) : M File unit :=
  do! create_journal in apply_all now migrations.

(** [Open]: the connection for writing migrates, the one for reading is
    pinged. *)
Definition Open (now : string → Time) : M File unit :=
  do! migrate now in query (λ _, ()).

(** [Backup]: [vacuum into] writes a file with the same content. *)
Definition Backup : M File File := query (λ f, f).

(** ** What a file may look like *)

Section Installed.
Context (files : list (string * list string)).

Definition versions (n : nat) : list string := version_of <$> (take n files).*1.
Definition objects (n : nat) : list string := concat (take n files).*2.

(** The first [n] migrations are applied, and nothing of the others. *)
Record installed (n : nat) (f : File) : Prop := mkInstalled {
  in_le : (n ≤ length files)%nat;
  in_objects : f_objects f = list_to_set (objects n);
  in_journal : match f_journal f with
               | Some j => dom j = list_to_set (versions n)
               | None => n = 0%nat
               end;
}.
End Installed.

(** The journal is only added to. *)
Definition grows (f f' : File) : Prop :=
  ∀ j, f_journal f = Some j → ∃ j', f_journal f' = Some j' ∧ j ⊆ j'.

#[export] Instance grows_refl : Reflexive grows.
Proof. intros f j Hj. by exists j. Qed.

#[export] Instance grows_trans : Transitive grows.
Proof.
  intros f1 f2 f3 H1 H2 j Hj. destruct (H1 j Hj) as (j2 & Hj2 & ?).
  destruct (H2 j2 Hj2) as (j3 & ? & ?). exists j3. split; [done|]. by trans j2.
Qed.

(** Scripts and versions that do not get in each other's way. *)
Definition separate (files : list (string * list string)) : Prop :=
  NoDup (version_of <$> files.*1) ∧ NoDup (concat files.*2).

Lemma migrations_separate : separate migrations.
Proof. split; apply (bool_decide_unpack _); vm_compute; exact I. Qed.

(** ** Lemmas *)

(** A transaction either leaves the file as it was, or commits what its body
    did. *)
Lemma tx_if_cases (body : M File bool) w r w' :
  tx_if body w = (r, w') →
  (w_db w' = w_db w ∧ (r = Ok () → ∃ w1 w2, w_db w1 = w_db w ∧ body w1 = (Ok false, w2))) ∨
  (r = Ok () ∧ ∃ w1 w2, w_db w1 = w_db w ∧ body w1 = (Ok true, w2) ∧ w_db w' = w_db w2).
Proof.
  unfold tx_if. pose proof (tick_db w) as Ht. destruct (tick w) as [b w1]; simpl in Ht.
  destruct b; [intros; left; by simplify_eq|].
  destruct (body w1) as [[[]|e] w2] eqn:Hb; [|intros; left; naive_solver|intros; left; by simplify_eq].
  pose proof (tick_db w2) as Ht2. destruct (tick w2) as [[] w3]; simpl in Ht2; intros; simplify_eq/=.
  - by left.
  - right. split; [done|]. by exists w1, w2.
Qed.

Lemma tick_quiet {Db} (db : Db) : tick (quiet db) = (false, quiet db).
Proof. done. Qed.

(** What a script that ran has created. *)
Lemma exec_script_ok script w w' :
  exec_script script w = (Ok (), w') →
  f_journal (w_db w') = f_journal (w_db w) ∧
  f_objects (w_db w') = list_to_set script ∪ f_objects (w_db w).
Proof.
  revert w. induction script as [|o script IH]; intros w; simpl.
  { intros [= <-]. split; [done|set_solver]. }
  intros (? & w1 & Ho & Hs)%bind_ok. apply stmt_ok in Ho. case_decide; simplify_eq.
  destruct (IH _ Hs) as [-> ->]. rewrite <-H0. simpl. split; [done|set_solver].
Qed.

(** Without a failure, a script that meets none of its objects runs. *)
Lemma exec_script_quiet script f :
  NoDup script → (∀ o, o ∈ script → o ∉ f_objects f) →
  exec_script script (quiet f) =
    (Ok (), quiet (mkFile (f_journal f) (list_to_set script ∪ f_objects f))).
Proof.
  revert f. induction script as [|o script IH]; intros f Hnd Hfresh; simpl.
  { unfold ret. destruct f as [j os]; simpl. by rewrite (left_id_L ∅ (∪)). }
  apply NoDup_cons in Hnd as [Ho Hnd]. unfold create. rewrite bind_quiet, stmt_quiet.
  rewrite decide_False by (apply Hfresh; left). rewrite IH; simpl; [|done|].
  - do 3 f_equal. set_solver.
  - intros o' Ho'. apply not_elem_of_union. split; [set_solver|]. apply Hfresh. by right.
Qed.

Section Apply.
Context (files : list (string * list string)) (Hsep : separate files).

Lemma take_S_migration n name script :
  files !! n = Some (name, script) →
  versions files (S n) = versions files n ++ [version_of name] ∧
  objects files (S n) = objects files n ++ script.
Proof.
  intros Hn. unfold versions, objects. rewrite (take_S_r _ _ _ Hn), !fmap_app, concat_app.
  simpl. by rewrite app_nil_r.
Qed.

(** The next migration is about fresh names. *)
Lemma next_fresh n name script :
  files !! n = Some (name, script) →
  version_of name ∉ versions files n ∧ NoDup script ∧ (∀ o, o ∈ script → o ∉ objects files n).
Proof using Hsep.
  intros Hn. destruct Hsep as [Hv Ho].
  rewrite <-(take_drop_middle _ _ _ Hn), !fmap_app, !fmap_cons in Hv.
  rewrite <-(take_drop_middle _ _ _ Hn), fmap_app, fmap_cons, concat_app in Ho. simpl in *.
  apply NoDup_app in Hv as (_ & Hv & _).
  apply NoDup_app in Ho as (_ & Hdis & Hs). apply NoDup_app in Hs as (Hs & _ & _).
  split_and!; [|done|].
  - intros Hin. eapply Hv; [exact Hin|left].
  - intros o Hin Hold. eapply Hdis; [exact Hold|]. apply elem_of_app. by left.
Qed.

(** An applied version is among the first ones. *)
Lemma earlier_applied n k name script :
  files !! k = Some (name, script) → (k < n)%nat → version_of name ∈ versions files n.
Proof.
  intros Hk Hlt. unfold versions. apply list_elem_of_fmap. exists name. split; [done|].
  apply list_elem_of_fmap. exists (name, script). split; [done|].
  apply list_elem_of_lookup. exists k. by rewrite lookup_take_lt.
Qed.

(** One migration: done already, or applied as a whole, or not at all. *)
Lemma applyMigration_spec n k name script now w r w' :
  installed files n (w_db w) → files !! k = Some (name, script) → (k ≤ n)%nat →
  applyMigration (version_of name) script now w = (r, w') →
  (w_db w' = w_db w ∧ (r = Ok () → k < n)%nat) ∨
  (k = n ∧ installed files (S n) (w_db w') ∧ grows (w_db w) (w_db w')).
Proof using Hsep.
  intros Hin Hk Hkn. pose proof Hin as [Hle Hobj Hj].
  intros [[Hdb Hr]|[-> (w1 & w2 & Hw1 & Hb & Hw2)]]%tx_if_cases.
  - left. split; [done|]. intros Hok. destruct (Hr Hok) as (w1 & w2 & Hw1 & Hb). clear Hr.
    apply bind_ok in Hb as (done & w3 & Ha%stmt_ok & Hb). rewrite Hw1 in Ha.
    destruct done; [|by repeat apply bind_ok in Hb as (? & ? & _ & Hb)].
    destruct (f_journal (w_db w)) as [j|]; [|done]. injection Ha as Ha _.
    apply bool_decide_eq_true, elem_of_dom in Ha. rewrite Hj in Ha.
    destruct (decide (k = n)) as [->|]; [|lia].
    by destruct (next_fresh _ _ _ Hk) as [[] _]; apply elem_of_list_to_set in Ha.
  - right. apply bind_ok in Hb as (done & w3 & Ha%stmt_ok & Hb). rewrite Hw1 in Ha.
    destruct (f_journal (w_db w)) as [j|] eqn:Hjw; [|done]. injection Ha as Ha Hw3.
    destruct done; [done|]. apply bool_decide_eq_false in Ha.
    apply bind_ok in Hb as ([] & w4 & Hs & Hb). apply bind_ok in Hb as ([] & w5 & Hn%stmt_ok & Hb).
    unfold ret in Hb. simplify_eq. destruct (exec_script_ok _ _ _ Hs) as [Hj4 Ho4].
    rewrite <-Hw3 in Hj4, Ho4. rewrite Hj4, Hjw in Hn. case_decide; [done|]. injection Hn as Hn.
    assert (k = n) as ->.
    { destruct (decide (k = n)); [done|]. destruct Ha. apply elem_of_dom. rewrite Hj.
      apply elem_of_list_to_set, (earlier_applied n k _ script); [done|lia]. }
    destruct (take_S_migration _ _ _ Hk) as [Hv Ho].
    split; [done|]. rewrite Hw2, <-Hn. split.
    + split; simpl.
      * apply lookup_lt_Some in Hk. lia.
      * rewrite Ho, Ho4, Hobj, list_to_set_app_L. set_solver.
      * rewrite Hv, dom_insert_L, Hj, list_to_set_app_L. set_solver.
    + intros j0. rewrite Hjw. intros [= <-]. eexists. split; [done|].
      by apply insert_subseteq, eq_None_not_Some.
Qed.

(** Without a failure it succeeds. *)
Lemma applyMigration_quiet n k name script now f :
  installed files n f → is_Some (f_journal f) → files !! k = Some (name, script) → (k ≤ n)%nat →
  ∃ f', applyMigration (version_of name) script now (quiet f) = (Ok (), quiet f').
Proof using Hsep.
  intros [Hle Hobj Hj] [j Hjs] Hk Hkn. rewrite Hjs in Hj.
  unfold applyMigration, tx_if, applied. rewrite (tick_quiet f), bind_quiet, stmt_quiet, Hjs.
  destruct (bool_decide (is_Some (j !! version_of name))) eqn:Hd.
  { by exists f. }
  apply bool_decide_eq_false in Hd. assert (k = n) as ->.
  { destruct (decide (k = n)); [done|]. destruct Hd. apply elem_of_dom. rewrite Hj.
    apply elem_of_list_to_set, (earlier_applied n k _ script); [done|lia]. }
  destruct (next_fresh _ _ _ Hk) as (_ & Hs & Hfr).
  rewrite bind_quiet, exec_script_quiet; [|done|].
  2: { intros o Ho. rewrite Hobj, elem_of_list_to_set. by apply Hfr. }
  unfold note_version. rewrite bind_quiet, stmt_quiet. simpl. rewrite Hjs, decide_False by done.
  by eexists.
Qed.

(** The loop from the [k]-th file on, over a file with at least [k]
    migrations. *)
Lemma apply_all_spec now k n w r w' :
  installed files n (w_db w) → (k ≤ n)%nat → apply_all now (drop k files) w = (r, w') →
  (∃ n', (n ≤ n')%nat ∧ installed files n' (w_db w') ∧ (r = Ok () → n' = length files)) ∧
  grows (w_db w) (w_db w').
Proof using Hsep.
  remember (length files - k)%nat as d eqn:Hd. revert k n w Hd.
  induction d as [|d IH]; intros k n w Hd Hin Hkn.
  { rewrite drop_ge by lia. simpl. intros [= <- <-]. split; [|done]. exists n.
    pose proof (in_le _ _ _ Hin). split_and!; [done..|lia]. }
  destruct (lookup_lt_is_Some_2 files k) as [[name script] Hk]; [lia|].
  rewrite (drop_S _ _ _ Hk). simpl. unfold bind.
  destruct (applyMigration (version_of name) script (now (version_of name)) w) as [r1 w1] eqn:Ha.
  destruct (applyMigration_spec _ _ _ _ _ _ _ _ Hin Hk Hkn Ha) as [[Hdb Hlt]|(-> & Hin1 & Hg)].
  - rewrite <-Hdb in Hin |- *. destruct r1 as [[]|e]; intros Hrest.
    + apply (IH (S k) n w1); [lia|done| |done]. specialize (Hlt eq_refl). lia.
    + simplify_eq. split; [|done]. by exists n.
  - destruct r1 as [[]|e]; intros Hrest.
    + destruct (IH (S n) (S n) w1) as [(n' & Hle & Hin' & Hr) Hg']; [lia|done|done|done|].
      split; [|by trans (w_db w1)]. exists n'. split_and!; [lia|done|done].
    + simplify_eq. split; [|done]. exists (S n). split_and!; [lia|done|done].
Qed.

Lemma apply_all_quiet now k n f :
  installed files n f → is_Some (f_journal f) → (k ≤ n)%nat →
  ∃ f', apply_all now (drop k files) (quiet f) = (Ok (), quiet f').
Proof using Hsep.
  remember (length files - k)%nat as d eqn:Hd. revert k n f Hd.
  induction d as [|d IH]; intros k n f Hd Hin Hj Hkn.
  { rewrite drop_ge by lia. by exists f. }
  destruct (lookup_lt_is_Some_2 files k) as [[name script] Hk]; [lia|].
  rewrite (drop_S _ _ _ Hk). simpl. rewrite bind_quiet.
  destruct (applyMigration_quiet _ _ _ _ (now (version_of name)) _ Hin Hj Hk Hkn) as [f1 Ha].
  rewrite Ha.
  destruct (applyMigration_spec n k name script _ (quiet f) (Ok ()) (quiet f1) Hin Hk Hkn Ha) as [[Hdb Hlt]|(-> & Hin1 & Hg)];
    simpl in *.
  - subst f1. apply (IH (S k) n); [lia|done|done|]. specialize (Hlt eq_refl). lia.
  - apply (IH (S n) (S n)); [lia|done| |done]. destruct Hj as [j Hj].
    by destruct (Hg j Hj) as (j' & -> & _).
Qed.
End Apply.

Lemma create_journal_spec files n w r w' :
  installed files n (w_db w) → create_journal w = (r, w') →
  installed files n (w_db w') ∧ grows (w_db w) (w_db w') ∧ (r = Ok () → is_Some (f_journal (w_db w'))).
Proof.
  intros Hin Hc. destruct r as [[]|e].
  - apply stmt_ok in Hc. injection Hc as <-. destruct Hin as [Hle Ho Hj]. split_and!; [|..|by eexists].
    + split; simpl; [done..|]. destruct (f_journal (w_db w)) as [j|]; simpl; [done|].
      subst n. unfold versions. by rewrite take_0, dom_empty_L.
    + intros j. simpl. intros ->. by exists j.
  - apply stmt_atomic in Hc. by rewrite Hc.
Qed.

Lemma migrate_spec now n w r w' :
  installed migrations n (w_db w) → migrate now w = (r, w') →
  (∃ n', (n ≤ n')%nat ∧ installed migrations n' (w_db w') ∧ (r = Ok () → n' = length migrations)) ∧
  grows (w_db w) (w_db w').
Proof.
  intros Hin. unfold migrate, bind. destruct (create_journal w) as [r1 w1] eqn:Hc.
  destruct (create_journal_spec _ _ _ _ _ Hin Hc) as (Hin1 & Hg & _). destruct r1 as [[]|e]; intros Hm.
  - destruct (apply_all_spec _ migrations_separate now 0 n w1 r w' Hin1) as [? Hg']; [lia|done|].
    split; [done|by trans (w_db w1)].
  - simplify_eq. split; [by exists n|done].
Qed.

Lemma migrate_quiet now n f :
  installed migrations n f → ∃ f', migrate now (quiet f) = (Ok (), quiet f').
Proof.
  intros Hin. unfold migrate. rewrite bind_quiet. unfold create_journal. rewrite stmt_quiet.
  destruct (create_journal_spec migrations n (quiet f) (Ok ()) _ Hin eq_refl) as (Hin1 & _ & Hj).
  by apply (apply_all_quiet _ migrations_separate now 0 n); [|apply Hj|lia].
Qed.

(** The file with every migration applied. *)
Definition complete (f : File) : Prop := installed migrations (length migrations) f.

(** ** Properties *)



(** ** The path *)

(** Percent-decoding, as the driver does it to the path of a URI. *)
Definition hex_value (b : Z) : option Z :=
  if decide (48 ≤ b ≤ 57) then Some (b - 48)
  else if decide (97 ≤ b ≤ 102) then Some (b - 87)
  else if decide (65 ≤ b ≤ 70) then Some (b - 55)
  else None.

Fixpoint percent_decode (l : list Z) : list Z :=
  match l with
  | 37 :: ((a :: b :: l) as rest) =>
      match hex_value a, hex_value b with
      | Some x, Some y => 16 * x + y :: percent_decode l
      | _, _ => 37 :: percent_decode rest
      end
  | x :: l => x :: percent_decode l
  | [] => []
  end.

Lemma percent_decode_plain b l : b ≠ 37 → percent_decode (b :: l) = b :: percent_decode l.
Proof. intros Hb. simpl. repeat (case_match; try done). Qed.

Lemma uri_byte_decodes b l : percent_decode (uri_byte b ++ l) = b :: percent_decode l.
Proof.
  unfold uri_byte. repeat case_decide; subst; simpl app.
  1-3: by destruct l.
  by apply percent_decode_plain.
Qed.

Lemma uri_bytes file : bytes (uriPath file) = bytes file ≫= uri_byte.
Proof.
  unfold uriPath. apply bytes_of_bytes. pose proof (bytes_are_bytes file) as Hb.
  induction Hb as [|b l Hb _ IH]; csimpl; [constructor|]. apply Forall_app. split; [|done].
  unfold uri_byte, is_byte in *. repeat case_decide; repeat constructor; lia.
Qed.

(** The escaped path of the database holds neither a question mark
    nor a hash, so nothing in a file name becomes a parameter of the data
    source name, and decoding it gives the path back. *)
Theorem uri_path file :
  percent_decode (bytes (uriPath file)) = bytes file ∧
  63 ∉ bytes (uriPath file) ∧ 35 ∉ bytes (uriPath file).
Proof.
  rewrite uri_bytes. split_and!.
  - induction (bytes file) as [|b l IH]; csimpl; [done|]. by rewrite uri_byte_decodes, IH.
  - intros (b & Hb & _)%list_elem_of_bind. unfold uri_byte in Hb.
    repeat case_decide; set_solver.
  - intros (b & Hb & _)%list_elem_of_bind. unfold uri_byte in Hb.
    repeat case_decide; set_solver.
Qed.
