(* ===== verification/Texts.v ===== *)
(** * The texts of the pages (internal/web/i18n.go)

    The two tables, [T] with its fallback, and what the code uses of
    [fmt.Sprintf]: the verbs %d and %s. *)

From S2P Require Import Prelude Text.

(** ** The tables *)

(** [texts["de"]] *)
Definition texts_de : list (string * string) :=
  [ ("meta.desc", "Verfügbarkeit und Vorfälle der Dienste von DMN Software, gemessen von einem eigenen Go-Dienst.");
    ("skip", "Zum Inhalt");
    ("main.id", "inhalt");
    ("nav.label", "Abschnitte");
    ("lang.label", "Sprache");
    ("nav.svc", "Dienste");
    ("nav.inc", "Vorfälle");
    ("nav.how", "So funktioniert's");
    ("id.svc", "dienste");
    ("id.inc", "vorfaelle");
    ("id.how", "so-funktionierts");
    ("crumb.proj", "Projekte");
    ("url.proj", "https://dmn-software.com/#projekte");
    ("foot.label", "Rechtliches");
    ("foot.imp", "Impressum");
    ("url.imp", "https://dmn-software.com/impressum.html");
    ("foot.priv", "Datenschutz");
    ("url.priv", "https://dmn-software.com/datenschutz.html");
    ("state.up", "erreichbar");
    ("state.down", "nicht erreichbar");
    ("state.unknown", "keine Daten");
    ("state.paused", "pausiert");
    ("overall.up", "Alle Dienste erreichbar");
    ("overall.down1", "1 Dienst nicht erreichbar");
    ("overall.downN", "%d Dienste nicht erreichbar");
    ("overall.unknown", "Noch keine Daten");
    ("overall.paused", "Prüfungen pausiert");
    ("overall.empty", "Noch keine Dienste eingetragen");
    ("stand", "Stand: %s Uhr");
    ("stand.none", "Stand: unbekannt");
    ("svc.h", "Dienste");
    ("svc.note", "Je Segment eine Stunde, die letzten 90 Stunden");
    ("leg.up", "erreichbar");
    ("leg.down", "Ausfall");
    ("leg.none", "keine Daten");
    ("up.24h", "24 h");
    ("up.7d", "7 T");
    ("up.30d", "30 T");
    ("up.label", "Uptime");
    ("players", "Spieler %d/%d");
    ("version", "Version %s");
    ("inc.h", "Vorfälle");
    ("inc.none", "Keine Vorfälle in den letzten 30 Tagen");
    ("inc.none.r", "Keine Vorfälle in diesem Zeitraum");
    ("inc.live", "läuft");
    ("inc.done", "beendet");
    ("inc.since", "seit %s");
    ("inc.span", "%s bis %s");
    ("how.h", "So funktioniert's");
    ("how.lead", "Ein Go-Binary ohne Framework, die Messwerte liegen in SQLite.");
    ("how.cap", "Weg einer Prüfung vom Ziel bis zur Statusseite und zur Mail.");
    ("how.checks.t", "Checks");
    ("how.checks", "HTTP prüft den Statuscode und auf Wunsch ein Stichwort im Antworttext. TCP prüft nur, ob der Port eine Verbindung annimmt. FiveM fragt info.json und players.json des FXServers ab, angezeigt werden nur Spielerzahl und Version.");
    ("how.sched.t", "Scheduler");
    ("how.sched", "Jedes Ziel läuft in einer eigenen Goroutine mit eigenem Intervall. Ein kleiner zufälliger Versatz (Jitter) verhindert, dass alle Prüfungen im selben Moment starten.");
    ("how.inc.t", "Vorfälle");
    ("how.inc", "Ein Vorfall beginnt erst nach mehreren Fehlschlägen in Folge, ein einzelner Aussetzer löst keinen Alarm aus. Bei Ausfall und bei Wiederkehr geht eine Mail raus.");
    ("how.sec.t", "Sicherheit");
    ("how.sec", "Passwörter mit argon2id, CSRF-Token in jedem Formular, Prüfungen auf interne Adressen sind gesperrt (SSRF), dazu eine strenge CSP ohne Inline-Skripte. Öffentlich erscheinen weder Adressen noch Fehlertexte.");
    ("arch.targets", "Ziele");
    ("arch.sched", "Goroutine je Ziel");
    ("arch.checks", "mit Timeout");
    ("arch.db", "Checks, Stunden");
    ("arch.page", "Statusseite");
    ("arch.inc", "Vorfall");
    ("arch.inc.sub", "ab n Fehlschlägen");
    ("arch.mail", "Ausfall, Wiederkehr");
    ("range.label", "Zeitraum");
    ("range.24h", "24 Stunden");
    ("range.7d", "7 Tage");
    ("range.30d", "30 Tage");
    ("lat.h", "Antwortzeit");
    ("lat.max", "max %d ms");
    ("lat.latest", "Letzte Antwortzeit");
    ("lat.none", "Noch keine Messwerte");
    ("lat.label", "Antwortzeit im Zeitraum, höchster Wert %d ms");
    ("avail.h", "Verfügbarkeit");
    ("ago.24h", "vor 24 h");
    ("ago.7d", "vor 7 T");
    ("ago.30d", "vor 30 T");
    ("now", "jetzt");
    ("paused.note", "Die Prüfung ist pausiert, es kommen keine neuen Messwerte dazu.");
    ("bars.h", "Letzte %d Stunden: %d erreichbar, %d mit Ausfall, %d ohne Daten");
    ("bars.d", "Letzte %d Tage: %d erreichbar, %d mit Ausfall, %d ohne Daten");
    ("bars.none", "keine Daten");
    ("nf.title", "Seite nicht gefunden");
    ("nf.lead", "Diese Adresse gibt es hier nicht. Vielleicht ist der Link veraltet oder hat sich ein Tippfehler eingeschlichen.");
    ("nf.back", "Zur Statusseite");
    ("err.title", "Interner Fehler");
    ("err.lead", "Beim Aufbau dieser Seite ist etwas schiefgegangen. Bitte in ein paar Minuten erneut versuchen.");
    ("adm.login.bad", "Benutzername oder Passwort falsch.");
    ("adm.login.locked", "Zu viele Fehlversuche. Bitte später erneut versuchen.");
    ("adm.csrf", "Das Formular ist abgelaufen. Bitte erneut absenden.");
    ("adm.saved", "Ziel gespeichert.");
    ("adm.deleted", "Ziel gelöscht.");
    ("adm.mail.sent", "Testmail verschickt.");
    ("adm.mail.failed", "Testmail konnte nicht verschickt werden.");
    ("adm.mail.off", "Mailversand ist nicht eingerichtet.");
    ("adm.checked", "Prüfung angestoßen.");
    ("adm.check.paused", "Das Ziel ist pausiert und wurde nicht geprüft.");
    ("adm.check.rate", "Die Prüfung wurde gerade erst angestoßen. Bitte kurz warten.") ].

(** [texts["en"]] *)
Definition texts_en : list (string * string) :=
  [ ("meta.desc", "Availability and incidents of the DMN Software services, measured by a small Go service.");
    ("skip", "Skip to content");
    ("main.id", "content");
    ("nav.label", "Sections");
    ("lang.label", "Language");
    ("nav.svc", "Services");
    ("nav.inc", "Incidents");
    ("nav.how", "How it works");
    ("id.svc", "services");
    ("id.inc", "incidents");
    ("id.how", "how-it-works");
    ("crumb.proj", "Projects");
    ("url.proj", "https://dmn-software.com/en/#projects");
    ("foot.label", "Legal");
    ("foot.imp", "Legal notice");
    ("url.imp", "https://dmn-software.com/en/impressum.html");
    ("foot.priv", "Privacy policy");
    ("url.priv", "https://dmn-software.com/en/datenschutz.html");
    ("state.up", "reachable");
    ("state.down", "not reachable");
    ("state.unknown", "no data");
    ("state.paused", "paused");
    ("overall.up", "All services reachable");
    ("overall.down1", "1 service not reachable");
    ("overall.downN", "%d services not reachable");
    ("overall.unknown", "No data yet");
    ("overall.paused", "Checks paused");
    ("overall.empty", "No services added yet");
    ("stand", "Updated %s");
    ("stand.none", "Status unknown");
    ("svc.h", "Services");
    ("svc.note", "One segment per hour, last 90 hours");
    ("leg.up", "reachable");
    ("leg.down", "outage");
    ("leg.none", "no data");
    ("up.24h", "24h");
    ("up.7d", "7d");
    ("up.30d", "30d");
    ("up.label", "Uptime");
    ("players", "Players %d/%d");
    ("version", "Version %s");
    ("inc.h", "Incidents");
    ("inc.none", "No incidents in the last 30 days");
    ("inc.none.r", "No incidents in this range");
    ("inc.live", "ongoing");
    ("inc.done", "resolved");
    ("inc.since", "since %s");
    ("inc.span", "%s to %s");
    ("how.h", "How it works");
    ("how.lead", "A single Go binary without a framework, measurements are stored in SQLite.");
    ("how.cap", "Path of a check from the target to the status page and the mail.");
    ("how.checks.t", "Checks");
    ("how.checks", "HTTP checks the status code and optionally a keyword in the response body. TCP only checks whether the port accepts a connection. FiveM queries info.json and players.json of the FXServer, only the player count and version are shown.");
    ("how.sched.t", "Scheduler");
    ("how.sched", "Every target runs in its own goroutine with its own interval. A small random offset (jitter) keeps all checks from starting at the same moment.");
    ("how.inc.t", "Incidents");
    ("how.inc", "An incident only starts after several failed checks in a row, a single hiccup does not raise an alert. A mail goes out when a service goes down and when it is back.");
    ("how.sec.t", "Security");
    ("how.sec", "Passwords hashed with argon2id, a CSRF token in every form, checks against internal addresses are blocked (SSRF), plus a strict CSP without inline scripts. Addresses and error messages are never shown publicly.");
    ("arch.targets", "Targets");
    ("arch.sched", "goroutine per target");
    ("arch.checks", "with timeout");
    ("arch.db", "checks, hours");
    ("arch.page", "Status page");
    ("arch.inc", "Incident");
    ("arch.inc.sub", "after n failures");
    ("arch.mail", "down and recovery");
    ("range.label", "Range");
    ("range.24h", "24 hours");
    ("range.7d", "7 days");
    ("range.30d", "30 days");
    ("lat.h", "Response time");
    ("lat.max", "max %d ms");
    ("lat.latest", "Latest response time");
    ("lat.none", "No measurements yet");
    ("lat.label", "Response time in this range, peak %d ms");
    ("avail.h", "Availability");
    ("ago.24h", "24h ago");
    ("ago.7d", "7d ago");
    ("ago.30d", "30d ago");
    ("now", "now");
    ("paused.note", "Checks are paused, no new measurements are recorded.");
    ("bars.h", "Last %d hours: %d reachable, %d with outage, %d without data");
    ("bars.d", "Last %d days: %d reachable, %d with outage, %d without data");
    ("bars.none", "no data");
    ("nf.title", "Page not found");
    ("nf.lead", "This address does not exist here. The link may be outdated or contain a typo.");
    ("nf.back", "To the status page");
    ("err.title", "Internal error");
    ("err.lead", "Something went wrong while building this page. Please try again in a few minutes.") ].

(** [texts[lang]]: a language without a table has an empty one. *)
Definition texts (lang : string) : gmap string string :=
  if decide (lang = "de") then list_to_map texts_de
  else if decide (lang = "en") then list_to_map texts_en
  else ∅.

Definition T (lang key : string) : string :=
  match texts lang !! key with
  | Some s => s
  | None => default key (texts "de" !! key)
  end.

(** ** fmt.Sprintf *)

Inductive arg : Type := AInt (z : Z) | AStr (s : string).

Inductive verb : Type := VInt | VStr.

#[export] Instance verb_eq_dec : EqDecision verb.
Proof. solve_decision. Defined.

(** A format: text and verbs, [None] for anything but %d and %s. *)
Fixpoint format_of (l : list Z) : option (list (Z + verb)) :=
  match l with
  | 37 :: 100 :: l => cons (inr VInt) <$> format_of l
  | 37 :: 115 :: l => cons (inr VStr) <$> format_of l
  | 37 :: _ => None
  | x :: l => cons (inl x) <$> format_of l
  | [] => Some []
  end.

Definition verbs_of (f : list (Z + verb)) : list verb :=
  omap (λ x, match x with inr v => Some v | inl _ => None end) f.

(** The verbs of a text. *)
Definition verbs (s : string) : option (list verb) := verbs_of <$> format_of (bytes s).

Fixpoint fill (f : list (Z + verb)) (args : list arg) : option (list Z) :=
  match f, args with
  | [], [] => Some []
  | inl x :: f, _ => cons x <$> fill f args
  | inr VInt :: f, AInt z :: args => app (bytes (itoa z)) <$> fill f args
  | inr VStr :: f, AStr s :: args => app (bytes s) <$> fill f args
  | _, _ => None
  end.

(** [fmt.Sprintf]; [None] where Go writes one of its %! notes about the
    arguments. *)
Definition Sprintf (format : string) (args : list arg) : option string :=
  f ← format_of (bytes format); of_bytes <$> fill f args.

Definition verb_of (a : arg) : verb := match a with AInt _ => VInt | AStr _ => VStr end.

(** ** Lemmas *)

(** Arguments of the right kinds leave no note. *)
Lemma fill_total f args : verbs_of f = verb_of <$> args → is_Some (fill f args).
Proof.
  unfold verbs_of. revert args. induction f as [|[x|v] f IH]; intros args; csimpl.
  - destruct args; [by eexists|done].
  - intros Hv. destruct (IH _ Hv) as [s ->]. by eexists.
  - destruct args as [|a args]; csimpl; [done|]. intros [= -> Hv]. destruct (IH _ Hv) as [s Hs].
    destruct a; simpl; rewrite Hs; by eexists.
Qed.

Lemma Sprintf_total format args :
  verbs format = Some (verb_of <$> args) → is_Some (Sprintf format args).
Proof.
  unfold verbs, Sprintf. destruct (format_of (bytes format)) as [f|]; [|done].
  simpl. intros [= Hv]. destruct (fill_total _ _ Hv) as [s ->]. by eexists.
Qed.

(** ** The tables agree *)

Definition agree (key : string) : bool :=
  match texts "de" !! key, texts "en" !! key with
  | Some de, Some en => bool_decide (verbs de = verbs en) && bool_decide (is_Some (verbs de))
  | Some de, None => HasPrefix key "adm." && bool_decide (verbs de = Some [])
  | None, _ => false
  end.

Lemma tables_agree : forallb (λ p, agree p.1) (texts_de ++ texts_en) = true.
Proof. vm_compute. reflexivity. Qed.

Lemma table_keys lang key s :
  texts lang !! key = Some s → key ∈ (texts_de ++ texts_en).*1.
Proof.
  unfold texts. intros Hs. rewrite fmap_app. apply elem_of_app.
  repeat case_decide; [left|right|by rewrite lookup_empty in Hs].
  all: apply elem_of_list_to_map_2 in Hs; apply list_elem_of_fmap; by exists (key, s).
Qed.

Lemma key_agrees lang key : is_Some (texts lang !! key) → agree key = true.
Proof.
  intros [s Hk%table_keys]. apply list_elem_of_fmap in Hk as (p & -> & Hp).
  pose proof tables_agree as Hall. rewrite forallb_forall in Hall.
  apply Hall. by apply list_elem_of_In.
Qed.

Lemma agree_facts key :
  agree key = true →
  is_Some (texts "de" !! key) ∧ (is_Some (texts "en" !! key) ∨ HasPrefix key "adm." = true) ∧
  ∀ lang', verbs (T lang' key) = verbs (T "de" key).
Proof.
  unfold agree. intros Hk. destruct (texts "de" !! key) as [de|] eqn:Hde; [|done].
  assert (∀ lang', texts lang' !! key = texts "de" !! key ∨ texts lang' !! key = None ∨
    texts lang' !! key = texts "en" !! key) as Hcases.
  { intros lang'. destruct (decide (lang' = "de")) as [->|]; [by left|].
    destruct (decide (lang' = "en")) as [->|]; [by right; right|].
    right; left. unfold texts. by rewrite !decide_False by done. }
  assert (∀ lang', texts lang' !! key = Some de ∨ texts lang' !! key = None ∨
    ∃ en, texts "en" !! key = Some en ∧ texts lang' !! key = Some en) as Hcases'.
  { intros lang'. destruct (Hcases lang') as [->|[->|E]]; [by left|by right; left|].
    destruct (texts "en" !! key) as [en|]; [right; right; by exists en|by right; left]. }
  split; [by eexists|]. split.
  - destruct (texts "en" !! key); [left; by eexists|right]. by apply andb_true_iff in Hk as [? _].
  - intros lang'. unfold T. rewrite Hde.
    destruct (Hcases' lang') as [->|[->|(en & Hen & ->)]]; [done|done|].
    rewrite Hen in Hk. apply andb_true_iff in Hk as [Hk _]. by apply bool_decide_eq_true in Hk.
Qed.

(** Arguments that fit the German text fit it in every language. *)
Lemma Sprintf_fits lang key args :
  is_Some (texts "de" !! key) → verbs (T "de" key) = Some (verb_of <$> args) →
  is_Some (Sprintf (T lang key) args).
Proof.
  intros Hk%key_agrees Hargs. apply Sprintf_total.
  by destruct (agree_facts _ Hk) as (_ & _ & ->).
Qed.

(** ** Properties *)

(** The two tables have the same keys, except that the texts of
    the German admin area are not translated; wherever a text is shown in a
    language it takes the arguments its German version takes, so a call of
    Sprintf that fits one language fits both. *)
Theorem texts_agree lang key :
  is_Some (texts lang !! key) →
  is_Some (texts "de" !! key) ∧
  (is_Some (texts "en" !! key) ∨ HasPrefix key "adm." = true) ∧
  (∀ lang', verbs (T lang' key) = verbs (T "de" key)) ∧
  (∀ args, verbs (T "de" key) = Some (verb_of <$> args) →
    ∀ lang', is_Some (Sprintf (T lang' key) args)).
Proof.
  intros Hk. destruct (agree_facts _ (key_agrees _ _ Hk)) as (Hde & Hen & Hv).
  split_and!; [done..|]. intros args Hargs lang'. by apply Sprintf_fits.
Qed.

Lemma texts_agree_witness :
  is_Some (texts "en" !! "inc.span") ∧
  ∀ lang', is_Some (Sprintf (T lang' "inc.span") [AStr "a"; AStr "b"]).
Proof.
  assert (is_Some (texts "en" !! "inc.span")) as Hk by (vm_compute; by eexists).
  split; [exact Hk|]. apply (texts_agree "en" "inc.span" Hk). vm_compute. reflexivity.
Defined.
