(* ===== verification/Quoted.v ===== *)
(** * Encoding text for mails (mime, mime/quotedprintable)

    The two encoders of the standard library internal/alert/mail.go uses: the
    quoted-printable writer for the body, and the Q encoding of RFC 2047 for
    the subject.  Each is proved against a reader: what a mail program decodes
    is what was written, and what is written keeps to lines and words of the
    lengths the standards allow. *)

From S2P Require Import Prelude Text.

(** ** Shared *)

(** [upperhex]. *)
Definition upperhex (n : Z) : Z := if decide (n < 10) then 48 + n else 55 + n.

Definition unhex (c : Z) : option Z :=
  if decide (48 ≤ c ≤ 57) then Some (c - 48)
  else if decide (65 ≤ c ≤ 70) then Some (c - 55)
  else None.

(** [=XX]. *)
Definition hex_escape (b : Z) : list Z := [61; upperhex (b / 16); upperhex (b mod 16)].

Lemma unhex_upperhex n : 0 ≤ n < 16 → unhex (upperhex n) = Some n.
Proof. intros Hn. unfold upperhex, unhex. repeat case_decide; f_equal; lia. Qed.

Lemma upperhex_range n : 0 ≤ n < 16 → 48 ≤ upperhex n ≤ 70.
Proof. intros Hn. unfold upperhex. case_decide; lia. Qed.

Lemma byte_nibbles b : is_byte b → 0 ≤ b / 16 < 16 ∧ 0 ≤ b mod 16 < 16.
Proof.
  intros [? ?]. split; [|apply Z.mod_pos_bound; lia].
  split; [apply Z.div_pos; lia|apply Z.div_lt_upper_bound; lia].
Qed.

(** ** quotedprintable.Writer *)

Definition lineMaxLen : Z := 76.

(** [struct Writer]: the buffered line, the flag [cr], and what was written. *)
Record qp_writer : Type := mkQp { qp_line : list Z; qp_cr : bool; qp_out : list Z }.

Definition qp_new : qp_writer := mkQp [] false [].

Definition isWhitespace (b : Z) : bool := bool_decide (b = 32 ∨ b = 9).

Definition qp_append (l : list Z) (w : qp_writer) : qp_writer :=
  mkQp (qp_line w ++ l) (qp_cr w) (qp_out w).

Definition qp_flush (w : qp_writer) : qp_writer := mkQp [] (qp_cr w) (qp_out w ++ qp_line w).

Definition insertCRLF (w : qp_writer) : qp_writer := qp_flush (qp_append [13; 10] w).

Definition insertSoftLineBreak (w : qp_writer) : qp_writer := insertCRLF (qp_append [61] w).

Definition qp_i (w : qp_writer) : Z := Z.of_nat (length (qp_line w)).

(** [Writer.encode]. *)
Definition qp_encode (b : Z) (w : qp_writer) : qp_writer :=
  qp_append (hex_escape b) (if decide (lineMaxLen - 1 - qp_i w < 3) then insertSoftLineBreak w else w).

Definition checkLastByte (w : qp_writer) : qp_writer :=
  match last (qp_line w) with
  | Some b =>
      if isWhitespace b
      then qp_encode b (mkQp (take (length (qp_line w) - 1) (qp_line w)) (qp_cr w) (qp_out w))
      else w
  | None => w
  end.

Definition set_cr (cr : bool) (w : qp_writer) : qp_writer := mkQp (qp_line w) cr (qp_out w).

(** One byte of [Writer.write]. *)
Definition qp_put (b : Z) (w : qp_writer) : qp_writer :=
  if decide (b = 10 ∨ b = 13) then
    if qp_cr w && bool_decide (b = 10) then set_cr false w
    else
      let w := insertCRLF (checkLastByte w) in
      if decide (b = 13) then set_cr true w else w
  else
    set_cr false
      (qp_append [b] (if decide (qp_i w = lineMaxLen - 1) then insertSoftLineBreak w else w)).

(** The bytes [Writer.Write] passes on in batches. *)
Definition qp_simple (b : Z) : bool :=
  bool_decide (33 ≤ b ≤ 126 ∧ b ≠ 61) || isWhitespace b || bool_decide (b = 10 ∨ b = 13).

Definition qp_byte (w : qp_writer) (b : Z) : qp_writer :=
  if qp_simple b then qp_put b w else qp_encode b w.

Definition qp_Close (w : qp_writer) : list Z := qp_out (qp_flush (checkLastByte w)).

(** A writer that is given one text and closed. *)
Definition quoted (l : list Z) : list Z := qp_Close (foldl qp_byte qp_new l).

(** ** A reader of quoted-printable text (RFC 2045) *)

Fixpoint unquote (l : list Z) : option (list Z) :=
  match l with
  | [] => Some []
  | b :: l1 =>
      if decide (b = 61) then
        match l1 with
        | x :: y :: l2 =>
            if decide (x = 13 ∧ y = 10) then unquote l2
            else match unhex x, unhex y with
                 | Some h, Some k => cons (h * 16 + k) <$> unquote l2
                 | _, _ => None
                 end
        | _ => None
        end
      else cons b <$> unquote l1
  end.

(** The line breaks of a text as mails write them. *)
Definition crlf (l : list Z) : list Z := l ≫= λ b, if decide (b = 10) then [13; 10] else [b].

(** The tokens of an encoded text and what they stand for. *)
Inductive stands_for : list Z → list Z → Prop :=
  | sf_nil : stands_for [] []
  | sf_soft l d : stands_for l d → stands_for (l ++ [61; 13; 10]) d
  | sf_hex l d b : is_byte b → stands_for l d → stands_for (l ++ hex_escape b) (d ++ [b])
  | sf_plain l d b : b ≠ 61 → stands_for l d → stands_for (l ++ [b]) (d ++ [b]).

Lemma unquote_app l d : stands_for l d → ∀ l', unquote (l ++ l') = app d <$> unquote l'.
Proof.
  induction 1 as [|l d H IH|l d b Hb H IH|l d b Hb H IH]; intros l'.
  - simpl. by destruct (unquote l').
  - rewrite <-app_assoc, IH. done.
  - rewrite <-app_assoc, IH. apply byte_nibbles in Hb as Hn. destruct Hn as [H1 H2].
    cbn [hex_escape app unquote]. rewrite decide_True by done.
    rewrite decide_False by (pose proof (upperhex_range _ H1); lia).
    rewrite !unhex_upperhex by done. rewrite (Z.mul_comm (b / 16)), <-Z.div_mod by lia.
    destruct (unquote l'); simpl; [by rewrite <-app_assoc|done].
  - rewrite <-app_assoc, IH. simpl. rewrite decide_False by done.
    destruct (unquote l'); simpl; [by rewrite <-app_assoc|done].
Qed.

(** A last byte that ends neither a break nor an escape stands for itself. *)
Lemma stands_for_last l b d :
  stands_for (l ++ [b]) d → isWhitespace b = true →
  ∃ d', d = d' ++ [b] ∧ stands_for l d'.
Proof.
  intros H Hb%bool_decide_eq_true. remember (l ++ [b]) as l' eqn:Hl.
  destruct H as [|l0 d H|l0 d c Hc H|l0 d c Hc H].
  - by destruct l.
  - change [61; 13; 10] with ([61; 13] ++ [10]) in Hl. rewrite app_assoc in Hl.
    apply app_inj_tail in Hl as [_ ?]. lia.
  - apply byte_nibbles in Hc as [_ Hc%upperhex_range].
    change (hex_escape c) with ([61; upperhex (c / 16)] ++ [upperhex (c mod 16)]) in Hl.
    rewrite app_assoc in Hl. apply app_inj_tail in Hl as [_ ?]. lia.
  - apply app_inj_tail in Hl as [-> ->]. by exists d.
Qed.

(** What a mail program may be sent as one line. *)
Definition line_char (b : Z) : Prop := b = 9 ∨ 32 ≤ b ≤ 126.

#[export] Instance line_char_dec b : Decision (line_char b).
Proof. unfold line_char. apply _. Defined.

Definition good_line (l : list Z) : Prop :=
  Forall line_char l ∧ Z.of_nat (length l) ≤ lineMaxLen ∧
  ∀ b, last l = Some b → isWhitespace b = false.

Definition lines_text (ls : list (list Z)) : list Z := ls ≫= λ l, l ++ [13; 10].

(** The writer after a text: what it wrote and buffers stands for [d]. *)
Record qp_ok (w : qp_writer) (d : list Z) : Prop := mkQpOk {
  qo_text : stands_for (qp_out w ++ qp_line w) d;
  qo_lines : ∃ ls, qp_out w = lines_text ls ∧ Forall good_line ls;
  qo_line : Forall line_char (qp_line w);
  qo_len : qp_i w ≤ lineMaxLen - 1;
  qo_cr : qp_cr w = false
}.

(** The buffered line does not end in white space. *)
Definition tight (l : list Z) : Prop := ∀ b, last l = Some b → isWhitespace b = false.

Lemma upperhex_char n : 0 ≤ n < 16 → line_char (upperhex n).
Proof. intros ?%upperhex_range. right. lia. Qed.

Lemma hex_escape_chars b : is_byte b → Forall line_char (hex_escape b).
Proof.
  intros [H1 H2]%byte_nibbles. unfold hex_escape. rewrite !list.Forall_cons.
  split_and!; [by right|by apply upperhex_char..|constructor].
Qed.

Lemma hex_escape_tight l b : is_byte b → tight (l ++ hex_escape b).
Proof.
  intros [_ H%upperhex_range]%byte_nibbles c. change (hex_escape b) with
    ([61; upperhex (b / 16)] ++ [upperhex (b mod 16)]).
  rewrite app_assoc, last_snoc. intros [= <-]. apply bool_decide_eq_false. lia.
Qed.

(** Flushing a complete line, hard or soft. *)
Lemma qp_ok_line w l :
  (∃ ls, qp_out w = lines_text ls ∧ Forall good_line ls) → good_line l →
  ∃ ls, qp_out w ++ l ++ [13; 10] = lines_text ls ∧ Forall good_line ls.
Proof.
  intros (ls & -> & Hls) Hl. exists (ls ++ [l]). split; [|by apply Forall_app; split; [|constructor]].
  unfold lines_text. rewrite bind_app. csimpl. by rewrite app_nil_r.
Qed.

Lemma qp_ok_break w d : qp_ok w d → tight (qp_line w) → qp_ok (insertCRLF w) (d ++ [13; 10]).
Proof.
  intros [Ht Hls Hl Hlen Hcr] Hw. split; simpl; [|apply qp_ok_line|done|done|done].
  - rewrite app_nil_r, !app_assoc. change [13; 10] with ([13] ++ [10]). rewrite !app_assoc.
    by repeat apply sf_plain.
  - done.
  - split_and!; [done| |done]. unfold qp_i, lineMaxLen in *. lia.
Qed.

Lemma qp_ok_soft w d : qp_ok w d → qp_ok (insertSoftLineBreak w) d.
Proof.
  intros [Ht Hls Hl Hlen Hcr]. split; simpl; [| |done|done|done].
  - rewrite app_nil_r, <-(app_assoc (qp_line w)), app_assoc. by apply sf_soft.
  - apply qp_ok_line; [done|]. split_and!.
    + apply Forall_app. split; [done|]. constructor; [by right|constructor].
    + rewrite length_app. unfold qp_i in Hlen. simpl. lia.
    + intros b. rewrite last_snoc. by intros [= <-].
Qed.

Lemma qp_ok_encode w d b : is_byte b → qp_ok w d → qp_ok (qp_encode b w) (d ++ [b]).
Proof.
  intros Hb Hw. unfold qp_encode.
  set (w' := if decide _ then _ else w).
  assert (Hw' : qp_ok w' d ∧ qp_i w' + 3 ≤ lineMaxLen - 1).
  { unfold w'. case_decide; [split; [by apply qp_ok_soft|done]|]. split; [done|lia]. }
  destruct Hw' as [[Ht Hls Hl Hlen Hcr] Hroom]. split; simpl; [|done| | |done].
  - rewrite app_assoc. by apply sf_hex.
  - apply Forall_app. split; [done|by apply hex_escape_chars].
  - unfold qp_i in *. simpl. rewrite length_app. simpl. lia.
Qed.

Lemma qp_encode_tight w b : is_byte b → tight (qp_line (qp_encode b w)).
Proof. intros Hb. by apply hex_escape_tight. Qed.

Lemma qp_ok_check w d : qp_ok w d → qp_ok (checkLastByte w) d ∧ tight (qp_line (checkLastByte w)).
Proof.
  intros Hw. unfold checkLastByte. destruct (last (qp_line w)) as [b|] eqn:Hb.
  2: { split; [done|]. intros c. by rewrite Hb. }
  destruct (isWhitespace b) eqn:Hws.
  2: { split; [done|]. intros c. rewrite Hb. by intros [= <-]. }
  apply last_Some in Hb as (l & Hl). destruct w as [line cr out]. simpl in *. subst line.
  replace (take (length (l ++ [b]) - 1) (l ++ [b])) with l.
  2: { rewrite length_app. simpl. rewrite Nat.add_sub. by rewrite take_app_length. }
  destruct Hw as [Ht Hls Hl Hlen Hcr]. simpl in *.
  rewrite app_assoc in Ht. apply stands_for_last in Ht as (d' & -> & Ht); [|done].
  assert (Hbyte : is_byte b) by (apply bool_decide_eq_true in Hws; unfold is_byte; lia).
  split; [|by apply qp_encode_tight]. apply qp_ok_encode; [done|].
  apply Forall_app in Hl as [Hl _]. split; simpl; try done.
  unfold qp_i in *. simpl in *. rewrite length_app in Hlen. simpl in Hlen. lia.
Qed.

Lemma qp_ok_byte w d b : is_byte b → b ≠ 13 → qp_ok w d → qp_ok (qp_byte w b) (d ++ crlf [b]).
Proof.
  intros Hb Hr Hw. unfold qp_byte, crlf. csimpl. rewrite app_nil_r.
  destruct (qp_simple b) eqn:Hs.
  2: { rewrite decide_False by (intros ->; by vm_compute in Hs). by apply qp_ok_encode. }
  unfold qp_put. destruct (decide (b = 10)) as [->|Hn].
  - rewrite (qo_cr _ _ Hw). simpl. destruct (qp_ok_check _ _ Hw) as [Hc Ht].
    by apply qp_ok_break.
  - rewrite decide_False by lia. set (w' := if decide _ then _ else w).
    assert (Hw' : qp_ok w' d ∧ qp_i w' + 1 ≤ lineMaxLen - 1).
    { unfold w'. case_decide; [split; [by apply qp_ok_soft|done]|]. destruct Hw. split; [done|lia]. }
    destruct Hw' as [[Ht Hls Hl Hlen Hcr] Hroom]. split; simpl; [|done| | |done].
    + rewrite app_assoc. apply sf_plain; [|done]. intros ->. by vm_compute in Hs.
    + apply Forall_app. split; [done|]. constructor; [|constructor].
      unfold qp_simple, isWhitespace in Hs. unfold line_char.
      repeat (apply orb_true_iff in Hs as [Hs|Hs]); apply bool_decide_eq_true in Hs; lia.
    + unfold qp_i in *. simpl. rewrite length_app. simpl. lia.
Qed.

Lemma crlf_app l l' : crlf (l ++ l') = crlf l ++ crlf l'.
Proof. apply bind_app. Qed.

Lemma qp_ok_run l :
  Forall is_byte l → 13 ∉ l → qp_ok (foldl qp_byte qp_new l) (crlf l).
Proof.
  induction l as [|b l IH] using rev_ind; intros Hl Hr.
  - split; simpl; [constructor| |constructor|done|done]. by exists [].
  - apply Forall_app in Hl as [Hl Hb]. apply list.Forall_cons in Hb as [Hb _]. rewrite elem_of_app in Hr.
    rewrite foldl_app, crlf_app. cbn [foldl]. apply qp_ok_byte; [done|set_solver|]. apply IH; [done|set_solver].
Qed.

(** What is written reads as the text with line breaks of mails, in lines of at
    most 76 printable characters that do not end in white space; the last line
    has no break. *)
Lemma quoted_spec l :
  Forall is_byte l → 13 ∉ l →
  unquote (quoted l) = Some (crlf l) ∧
  ∃ ls rest, quoted l = lines_text ls ++ rest ∧ Forall good_line ls ∧ good_line rest.
Proof.
  intros Hl Hr. pose proof (qp_ok_run l Hl Hr) as Hw. apply qp_ok_check in Hw as [Hw Ht].
  unfold quoted, qp_Close. simpl. destruct Hw as [Htext (ls & Hout & Hls) Hline Hlen _]. split.
  - rewrite <-(app_nil_r (_ ++ _)), (unquote_app _ _ Htext). simpl. by rewrite app_nil_r.
  - exists ls, (qp_line (checkLastByte (foldl qp_byte qp_new l))). rewrite Hout.
    split_and!; [done|done|]. split_and!; [done| |done]. unfold qp_i in Hlen. lia.
Qed.

(** A text that ends its last line is written in whole lines. *)
Lemma quoted_lines l :
  Forall is_byte l → 13 ∉ l → ∃ ls, quoted (l ++ [10]) = lines_text ls ∧ Forall good_line ls.
Proof.
  intros Hl Hr. pose proof (qp_ok_run l Hl Hr) as Hw. pose proof (qo_cr _ _ Hw) as Hcr.
  apply qp_ok_check in Hw as [Hw Ht]. pose proof (qo_lines _ _ (qp_ok_break _ _ Hw Ht)) as Hls.
  unfold quoted. rewrite foldl_app. cbn [foldl]. set (w := foldl qp_byte qp_new l) in *.
  assert (Hb : qp_byte w 10 = insertCRLF (checkLastByte w)).
  { unfold qp_byte, qp_put. simpl. by rewrite Hcr. }
  rewrite Hb. unfold qp_Close, checkLastByte at 1. simpl. by rewrite app_nil_r.
Qed.

(** ** mime.QEncoding *)

Definition openWord : list Z := bytes "=?utf-8?q?".
Definition closeWord : list Z := bytes "?=".
Definition splitWord : list Z := closeWord ++ [32] ++ openWord.

Definition maxEncodedWordLen : Z := 75.
Definition maxContentLen : Z := maxEncodedWordLen - 10 - 2.

(** [needsEncoding]. *)
Definition needsEncoding (s : string) : bool :=
  existsb (λ r, bool_decide ((r.1 < 32 ∨ 126 < r.1) ∧ r.1 ≠ 9)) (runes s).

(** The bytes a word holds as they are, the space apart. *)
Definition q_plain (b : Z) : bool := bool_decide (33 ≤ b ≤ 126 ∧ b ≠ 61 ∧ b ≠ 63 ∧ b ≠ 95).

Definition writeQByte (b : Z) : list Z :=
  if decide (b = 32) then [95] else if q_plain b then [b] else hex_escape b.

Definition writeQString (l : list Z) : list Z := l ≫= writeQByte.

(** The room a rune takes, given by its bytes. *)
Definition encLen (l : list Z) : Z :=
  match l with
  | [b] => if bool_decide (b = 32) || q_plain b then 1 else 3
  | _ => 3 * Z.of_nat (length l)
  end.

(** [WordEncoder.qEncode]. *)
Fixpoint qEncode (currentLen : Z) (rs : list (Z * list Z)) : list Z :=
  match rs with
  | [] => []
  | r :: rs =>
      let n := encLen r.2 in
      if decide (maxContentLen < currentLen + n)
      then splitWord ++ writeQString r.2 ++ qEncode n rs
      else writeQString r.2 ++ qEncode (currentLen + n) rs
  end.

(** [mime.QEncoding.Encode] of the charset utf-8. *)
Definition QEncode (s : string) : list Z :=
  if needsEncoding s then openWord ++ qEncode 0 (runes s) ++ closeWord else bytes s.

(** ** A reader of header values (RFC 2047)

    [inside]: within an encoded word.  Adjacent words are joined without the
    space between them. *)

Fixpoint read_words (fuel : nat) (inside : bool) (l : list Z) : option (list Z) :=
  match fuel with
  | O => None
  | S fuel =>
      if inside then
        match strip closeWord l with
        | Some l' =>
            match strip (32 :: openWord) l' with
            | Some l'' => read_words fuel true l''
            | None => read_words fuel false l'
            end
        | None =>
            match l with
            | [] => None
            | b :: l1 =>
                if decide (b = 95) then cons 32 <$> read_words fuel true l1
                else if decide (b = 61) then
                  match l1 with
                  | x :: y :: l2 =>
                      match unhex x, unhex y with
                      | Some h, Some k => cons (h * 16 + k) <$> read_words fuel true l2
                      | _, _ => None
                      end
                  | _ => None
                  end
                else cons b <$> read_words fuel true l1
            end
        end
      else
        match strip openWord l with
        | Some l' => read_words fuel true l'
        | None =>
            match l with
            | [] => Some []
            | b :: l1 => cons b <$> read_words fuel false l1
            end
        end
  end.

Definition read_header (l : list Z) : option (list Z) := read_words (S (length l)) false l.

(** What the reader does, without fuel. *)
Inductive reads : bool → list Z → list Z → Prop :=
  | rd_end : reads false [] []
  | rd_open l d : reads true l d → reads false (openWord ++ l) d
  | rd_text b l d : strip openWord (b :: l) = None → reads false l d → reads false (b :: l) (b :: d)
  | rd_close : reads true closeWord []
  | rd_split l d : reads true l d → reads true (splitWord ++ l) d
  | rd_space l d : reads true l d → reads true (95 :: l) (32 :: d)
  | rd_plain b l d : q_plain b = true → reads true l d → reads true (b :: l) (b :: d)
  | rd_hex b l d : is_byte b → reads true l d → reads true (hex_escape b ++ l) (b :: d).

Lemma strip_self p l : strip p (p ++ l) = Some l.
Proof. by apply strip_spec. Qed.

Lemma strip_close_not b l : b ≠ 63 → strip closeWord (b :: l) = None.
Proof.
  intros Hb. destruct (strip closeWord (b :: l)) as [l'|] eqn:Hs; [|done].
  apply strip_spec in Hs. by injection Hs as -> _.
Qed.

Lemma read_words_reads inside l d :
  reads inside l d → ∀ fuel, (length l < fuel)%nat → read_words fuel inside l = Some d.
Proof.
  induction 1 as [|l d H IH|b l d Hb H IH| |l d H IH|l d H IH|b l d Hb H IH|b l d Hb H IH];
    intros [|fuel] Hf; try (by (simpl in Hf; lia)); cbn [read_words].
  - done.
  - rewrite strip_self. apply IH. rewrite length_app in Hf. simpl in Hf. lia.
  - rewrite Hb, IH; [done|simpl in Hf; lia].
  - destruct fuel; [simpl in Hf; lia|]. done.
  - unfold splitWord. rewrite <-app_assoc, strip_self.
    change (([32] ++ openWord) ++ l) with ((32 :: openWord) ++ l). rewrite strip_self. apply IH.
    rewrite length_app in Hf. simpl in Hf. lia.
  - rewrite strip_close_not by lia. cbn. rewrite IH; [done|simpl in Hf; lia].
  - apply bool_decide_eq_true in Hb. rewrite strip_close_not by lia.
    rewrite !decide_False by lia. rewrite IH; [done|simpl in Hf; lia].
  - apply byte_nibbles in Hb as [H1 H2]. cbn [hex_escape app].
    rewrite strip_close_not by lia. cbn [decide]. rewrite decide_False, decide_True by lia.
    rewrite !unhex_upperhex by done. rewrite (Z.mul_comm (b / 16)), <-Z.div_mod by lia.
    rewrite IH; [done|simpl in Hf; lia].
Qed.

(** *** Reading back an encoded value *)

Lemma reads_byte b l d : is_byte b → reads true l d → reads true (writeQByte b ++ l) (b :: d).
Proof.
  intros Hb H. unfold writeQByte. case_decide as Hs; [subst; by apply rd_space|].
  destruct (q_plain b) eqn:Hp; [by apply rd_plain|by apply rd_hex].
Qed.

Lemma reads_string bs l d :
  Forall is_byte bs → reads true l d → reads true (writeQString bs ++ l) (bs ++ d).
Proof.
  intros Hb H. induction Hb as [|b bs Hb _ IH]; [done|]. unfold writeQString. csimpl.
  rewrite <-app_assoc. by apply reads_byte.
Qed.

Lemma reads_encoded rs : ∀ n,
  (∀ r, r ∈ rs → Forall is_byte r.2) → reads true (qEncode n rs ++ closeWord) (concat rs.*2).
Proof.
  induction rs as [|r rs IH]; intros n Hb; [constructor|]. cbn [qEncode fmap list_fmap concat].
  assert (Hrest : ∀ m, reads true (qEncode m rs ++ closeWord) (concat rs.*2)).
  { intros m. apply IH. set_solver. }
  assert (Hr : Forall is_byte r.2) by (apply Hb; left).
  case_decide; rewrite <-!app_assoc; [apply rd_split|]; by apply reads_string.
Qed.

(** [s] does not contain the beginning of an encoded word. *)
Definition no_words (s : string) : Prop := ∀ p l, bytes s ≠ p ++ [61; 63] ++ l.

Lemma reads_plain l : (∀ p l', l ≠ p ++ [61; 63] ++ l') → reads false l l.
Proof.
  induction l as [|b l IH]; intros Hno; [constructor|]. apply rd_text.
  - destruct (strip openWord (b :: l)) as [l'|] eqn:Hs; [|done]. apply strip_spec in Hs.
    by apply (Hno [] (bytes "utf-8?q?" ++ l')) in Hs.
  - apply IH. intros p l' ->. by apply (Hno (b :: p) l').
Qed.

(** *** Words and characters *)

(** A value in encoded words, given by what they contain. *)
Definition more_words (ws : list (list Z)) : list Z := ws ≫= λ w, splitWord ++ w.

Definition word_text (w : list Z) (ws : list (list Z)) : list Z :=
  openWord ++ w ++ more_words ws ++ closeWord.

Definition q_char (b : Z) : Prop := 33 ≤ b ≤ 126.

Lemma write_byte_chars b : is_byte b → Forall q_char (writeQByte b).
Proof.
  intros Hc. unfold writeQByte. destruct (decide (b = 32)); [by repeat constructor|].
  destruct (q_plain b) eqn:Hp.
  - apply bool_decide_eq_true in Hp. constructor; [|constructor]. unfold q_char. lia.
  - apply byte_nibbles in Hc as [?%upperhex_range ?%upperhex_range]. unfold hex_escape, q_char.
    repeat constructor; lia.
Qed.

Lemma write_chars bs : Forall is_byte bs → Forall q_char (writeQString bs).
Proof.
  intros Hb. unfold writeQString. induction Hb; csimpl; [constructor|].
  apply Forall_app. split; [by apply write_byte_chars|done].
Qed.

Lemma write_byte_length b : (length (writeQByte b) ≤ 3)%nat.
Proof. unfold writeQByte. destruct (decide (b = 32)), (q_plain b); simpl; lia. Qed.

Lemma write_length bs : Z.of_nat (length (writeQString bs)) ≤ encLen bs.
Proof.
  assert (Hall : Z.of_nat (length (writeQString bs)) ≤ 3 * Z.of_nat (length bs)).
  { induction bs as [|b bs IH]; [done|]. change (writeQString (b :: bs)) with
      (writeQByte b ++ writeQString bs). pose proof (write_byte_length b).
    rewrite length_app. simpl. lia. }
  destruct bs as [|b [|b' bs]]; [done| |done].
  revert Hall. change (writeQString [b]) with (writeQByte b ++ []). rewrite app_nil_r.
  unfold encLen, writeQByte. destruct (decide (b = 32)) as [->|Hb]; [done|].
  rewrite bool_decide_eq_false_2 by done. by destruct (q_plain b).
Qed.

Lemma encLen_bounds bs : (length bs ≤ 4)%nat → 0 ≤ encLen bs ≤ 12.
Proof. intros Hl. unfold encLen. destruct bs as [|b [|b' bs]]; [done|case_match; lia|]. lia. Qed.

(** The contents of the words. *)
Lemma qEncode_words rs : ∀ n,
  (∀ r, r ∈ rs → Forall is_byte r.2 ∧ (length r.2 ≤ 4)%nat) → 0 ≤ n ≤ maxContentLen →
  ∃ w ws, qEncode n rs = w ++ more_words ws ∧ n + Z.of_nat (length w) ≤ maxContentLen ∧
    Forall (λ w, Z.of_nat (length w) ≤ maxContentLen) ws ∧ Forall (Forall q_char) (w :: ws).
Proof.
  induction rs as [|r rs IH]; intros n Hb Hn.
  { exists [], []. split_and!; [done|simpl; lia|done|by repeat constructor]. }
  cbn [qEncode]. destruct (Hb r ltac:(left)) as [Hr Hl].
  pose proof (encLen_bounds _ Hl). pose proof (write_length r.2). pose proof (write_chars _ Hr) as Hc.
  case_decide as Hd.
  - destruct (IH (encLen r.2)) as (w & ws & -> & Hw & Hws & Hq); [set_solver|unfold maxContentLen, maxEncodedWordLen; lia|].
    apply list.Forall_cons in Hq as [Hq Hqs].
    exists [], ((writeQString r.2 ++ w) :: ws). split_and!.
    + unfold more_words. cbn [mbind list_bind]. by rewrite <-!app_assoc.
    + simpl. lia.
    + constructor; [|done]. rewrite length_app. lia.
    + constructor; [constructor|]. constructor; [by apply Forall_app|done].
  - destruct (IH (n + encLen r.2)) as (w & ws & -> & Hw & Hws & Hq); [set_solver|lia|].
    apply list.Forall_cons in Hq as [Hq Hqs].
    exists (writeQString r.2 ++ w), ws. split_and!; [by rewrite <-app_assoc| |done|].
    + rewrite length_app. lia.
    + constructor; [by apply Forall_app|done].
Qed.

(** What [QEncode] writes: either the value itself, which is printable ASCII,
    or encoded words of at most 75 characters; a reader gets the value back. *)
Lemma QEncode_spec s :
  needsEncoding s = true ∨ no_words s →
  read_header (QEncode s) = Some (bytes s).
Proof.
  intros Hs. apply read_words_reads; [|lia]. unfold QEncode. destruct (needsEncoding s).
  - apply rd_open. rewrite <-runes_bytes. apply reads_encoded. intros r Hr. by apply runes_elem in Hr as [? _].
  - destruct Hs as [?|Hno]; [done|]. by apply reads_plain.
Qed.

Lemma QEncode_words s :
  needsEncoding s = true →
  ∃ w ws, QEncode s = word_text w ws ∧ Forall (Forall q_char) (w :: ws) ∧
    Forall (λ w, Z.of_nat (length (openWord ++ w ++ closeWord)) ≤ maxEncodedWordLen) (w :: ws).
Proof.
  intros He. unfold QEncode. rewrite He.
  destruct (qEncode_words (runes s) 0) as (w & ws & -> & Hw & Hws & Hq); [|done|].
  { intros r (? & ? & _ & _)%runes_elem. done. }
  exists w, ws. split_and!; [unfold word_text; by rewrite <-!app_assoc|done|].
  constructor; [|apply (Forall_impl _ _ _ Hws); intros w' Hw']; rewrite !length_app; simpl;
    unfold maxContentLen, maxEncodedWordLen in *; lia.
Qed.

Lemma plain_chars s : needsEncoding s = false → Forall line_char (bytes s).
Proof.
  intros He. rewrite <-runes_bytes. apply Forall_concat, Forall_fmap, list.Forall_forall.
  intros r Hr. destruct (runes_elem s r Hr) as (_ & _ & Ha & _).
  assert (Hin : ¬ ((r.1 < 32 ∨ 126 < r.1) ∧ r.1 ≠ 9)).
  { intros Hbad. assert (needsEncoding s = true); [|congruence]. unfold needsEncoding.
    apply existsb_exists. exists r. split; [by apply list_elem_of_In|by apply bool_decide_eq_true]. }
  simpl. rewrite Ha by lia. constructor; [|constructor]. unfold line_char. lia.
Qed.

Lemma QEncode_chars s : Forall line_char (QEncode s).
Proof.
  destruct (needsEncoding s) eqn:He.
  2: { unfold QEncode. rewrite He. by apply plain_chars. }
  destruct (QEncode_words s He) as (w & ws & -> & Hq & _). apply list.Forall_cons in Hq as [Hw Hws].
  assert (Hopen : Forall line_char openWord) by by apply (bool_decide_eq_true_1 _).
  assert (Hclose : Forall line_char closeWord) by by apply (bool_decide_eq_true_1 _).
  assert (Hc : ∀ w, Forall q_char w → Forall line_char w).
  { intros w' H'. apply (Forall_impl _ _ _ H'). unfold q_char, line_char. lia. }
  assert (Hsplit : Forall line_char splitWord) by by apply (bool_decide_eq_true_1 _).
  unfold word_text. rewrite !Forall_app. split_and!; [done|by apply Hc| |done].
  induction Hws as [|w' ws Hw' _ IH]; [constructor|].
  change (more_words (w' :: ws)) with ((splitWord ++ w') ++ more_words ws).
  rewrite !Forall_app. split_and!; [done|by apply Hc|done].
Qed.
