(* ===== verification/Csrf.v ===== *)
(** * Form tokens (internal/web/admin.go)

    A form carries the session's token masked with fresh random bytes, so that
    no two pages show the same bytes; [validToken] unmasks and compares. *)

From S2P Require Import Prelude Text Crypto.

(** [b[i] ^ c[i]] for each index. *)
Definition xor_bytes (l m : list Z) : list Z := zip_with Z.lxor l m.

(** [mask], where [pad] is what [rand.Read] wrote. *)
Definition mask (pad : list Z) (token : string) : string :=
  base64_encode url_alphabet (pad ++ xor_bytes (bytes token) pad).

Definition validToken (masked want : string) : bool :=
  match base64_decode url_alphabet false masked with
  | None => false
  | Some b =>
      if bool_decide (want = "") || bool_decide (length b = 0%nat) ||
         bool_decide (Nat.modulo (length b) 2 ≠ 0%nat) then false
      else
        let n := Nat.div (length b) 2 in
        ct_equal (of_bytes (xor_bytes (drop n b) (take n b))) want
  end.

Lemma lxor_byte x y : is_byte x → is_byte y → is_byte (Z.lxor x y).
Proof.
  unfold is_byte. intros Hx Hy. assert (0 ≤ Z.lxor x y) as H0 by (apply Z.lxor_nonneg; lia).
  split; [done|]. destruct (decide (Z.lxor x y = 0)) as [->|Hne]; [lia|].
  apply (Z.log2_lt_pow2 _ 8); [lia|].
  assert (Hlog : ∀ z, 0 ≤ z < 256 → Z.log2 z < 8).
  { intros z [Hz1 Hz2]. destruct (decide (z = 0)) as [->|]; [done|].
    apply Z.log2_lt_pow2; [lia|]. by change (2 ^ 8) with 256. }
  pose proof (Z.log2_lxor x y ltac:(lia) ltac:(lia)).
  pose proof (Hlog x Hx). pose proof (Hlog y Hy). lia.
Qed.

Lemma xor_bytes_bytes l m : Forall is_byte l → Forall is_byte m → Forall is_byte (xor_bytes l m).
Proof.
  intros Hl. revert m. induction Hl as [|x l Hx _ IH]; intros m Hm; [constructor|].
  destruct Hm as [|y m Hy Hm]; constructor; [by apply lxor_byte|by apply IH].
Qed.

(** Masking twice with the same bytes is the identity. *)
Lemma xor_bytes_cancel l m : length l = length m → xor_bytes (xor_bytes l m) m = l.
Proof.
  revert m. induction l as [|x l IH]; intros [|y m] Hlen; simpl in *; try done.
  f_equal; [|apply IH; lia]. by rewrite Z.lxor_assoc, Z.lxor_nilpotent, Z.lxor_0_r.
Qed.

Lemma length_xor_bytes l m : length l = length m → length (xor_bytes l m) = length m.
Proof. intros H. unfold xor_bytes. rewrite length_zip_with. lia. Qed.

Lemma mask_decodes pad token :
  Forall is_byte pad →
  base64_decode url_alphabet false (mask pad token) = Some (pad ++ xor_bytes (bytes token) pad).
Proof.
  intros Hp. apply base64_roundtrip, Forall_app. split; [done|].
  apply xor_bytes_bytes; [apply bytes_are_bytes|done].
Qed.

(** C38: the token printed into a form is accepted for the token it
    was made from, whatever the random bytes were, and for no other; an empty
    token is never accepted. *)
Theorem csrf_exact pad token want :
  Forall is_byte pad → length pad = String.length token →
  validToken (mask pad token) want = true ↔ want = token ∧ token ≠ "".
Proof.
  intros Hp Hlen. unfold validToken. rewrite mask_decodes by done.
  rewrite <-length_bytes in Hlen.
  rewrite length_app, length_xor_bytes by done.
  replace (length pad + length pad)%nat with (length pad * 2)%nat by lia.
  rewrite Nat.div_mul, Nat.Div0.mod_mul by lia.
  rewrite drop_app_length, take_app_length, xor_bytes_cancel, of_bytes_bytes by done.
  rewrite (bool_decide_false (0%nat ≠ 0%nat)), orb_false_r by auto.
  destruct (decide (want = "")) as [->|Hw].
  { rewrite bool_decide_true by done. simpl. naive_solver. }
  rewrite (bool_decide_false (want = "")) by done. simpl.
  case_bool_decide as H0.
  - assert (bytes token = []) as Ht.
    { apply nil_length_inv. lia. }
    assert (token = "") as -> by by apply bytes_inj. naive_solver.
  - rewrite ct_equal_true. split; [intros ->; done|by intros [-> _]].
Qed.

Lemma csrf_exact_witness :
  validToken (mask [1; 254; 3] "abc") "abc" = true ∧
  validToken (mask [1; 254; 3] "abc") "abd" = false.
Proof.
  assert (Forall is_byte [1; 254; 3]) as Hp by (repeat constructor; done).
  split.
  - by apply (csrf_exact [1; 254; 3] "abc" "abc" Hp eq_refl).
  - apply not_true_is_false. rewrite (csrf_exact [1; 254; 3] "abc" "abd" Hp eq_refl).
    by intros [? _].
Defined.
