(* ===== verification/Password.v ===== *)
(** * Password hashes (internal/auth/password.go)

    The PHC string of an argon2id key: [Hash] writes it, [Verify] reads it
    back and refuses any other spelling, and any cost beyond fixed limits. *)

From S2P Require Import Prelude Text Crypto.

Definition memKiB : Z := 19456.
Definition passes : Z := 2.
Definition threads : Z := 1.
Definition saltLen : Z := 16.
Definition keyLen : Z := 32.

(** [argon2.Version]. *)
Definition argon2_Version : Z := 19.

(** [fmt.Sprintf("m=%d,t=%d,p=%d", m, t, p)]. *)
Definition params_text (m t p : Z) : string :=
  "m=" ++ itoa m ++ ",t=" ++ itoa t ++ ",p=" ++ itoa p.

(** The number after a prefix of two bytes. *)
Definition field (key : string) (bound : Z) (s : list Z) : option Z :=
  l ← strip (bytes key) s;
  n ← parse_nat (String.list_ascii_of_string (of_bytes l));
  if decide (n < bound) then Some n else None.

(** [fmt.Sscanf] into a [uint32], a [uint32] and a [uint8], accepted only when
    printing the numbers gives the same text back. *)
Definition parse_params (s : string) : option (Z * Z * Z) :=
  match split_at 44 (bytes s) with
  | [a; b; c] =>
      m ← field "m=" (2 ^ 32) a;
      t ← field "t=" (2 ^ 32) b;
      p ← field "p=" (2 ^ 8) c;
      if decide (params_text m t p = s) then Some (m, t, p) else None
  | _ => None
  end.

Inductive hasherr : Type := ErrBadHash.

(** The limits [Verify] puts on the cost of a stored hash. *)
Definition params_ok (m t p : Z) : bool :=
  bool_decide (8 ≤ m ≤ 32768) && bool_decide (1 ≤ t ≤ 5) && bool_decide (1 ≤ p ≤ 4).

Section Password.
Context `{!Crypto}.

(** [salt] is what [rand.Read] wrote. *)
Definition Hash (password : string) (salt : list Z) : string :=
  let key := IDKey password (of_bytes salt) passes memKiB threads keyLen in
  "$argon2id$v=" ++ itoa argon2_Version ++ "$" ++ params_text memKiB passes threads ++ "$" ++
  base64_encode std_alphabet salt ++ "$" ++ base64_encode std_alphabet (bytes key).

Definition Verify (password encoded : string) : res hasherr bool :=
  match Split encoded "$" with
  | [p0; p1; p2; p3; p4; p5] =>
      if bool_decide (p0 = "") && bool_decide (p1 = "argon2id") &&
         bool_decide (p2 = "v=" +:+ itoa argon2_Version) then
        match parse_params p3 with
        | None => Err ErrBadHash
        | Some (m, t, p) =>
            if negb (params_ok m t p) then Err ErrBadHash else
            match base64_decode std_alphabet true p4 with
            | None => Err ErrBadHash
            | Some salt =>
                if bool_decide (Z.of_nat (length salt) < 8) then Err ErrBadHash else
                match base64_decode std_alphabet true p5 with
                | None => Err ErrBadHash
                | Some key =>
                    let n := Z.of_nat (length key) in
                    if bool_decide (n < 16) || bool_decide (64 < n) then Err ErrBadHash else
                    Ok (ct_equal (IDKey password (of_bytes salt) t m p n) (of_bytes key))
                end
            end
        end
      else Err ErrBadHash
  | _ => Err ErrBadHash
  end.

Definition dummyHash : string :=
  "$argon2id$v=19$m=19456,t=2,p=1$eMChjSfz96mvasvn2JDzWg$p7siaGhJhOm6Y70NEtq54KgArBJ2PnRa83vSoAywPes".

Definition DummyVerify (password : string) : res hasherr bool := Verify password dummyHash.
End Password.

(** ** Lemmas *)

Lemma std_not_dollar v : is_sextet v → Z.of_nat (nat_of_ascii (char_of std_alphabet v)) ≠ 36.
Proof. revert v. apply sextet_cases. apply Forall_fmap. repeat constructor; discriminate. Qed.

Lemma encoded_no_dollar l : Forall is_byte l → 36 ∉ bytes (base64_encode std_alphabet l).
Proof.
  intros Hl Hin. apply (base64_chars _ _ _ Hl) in Hin as (v & Hv & Heq).
  by destruct (std_not_dollar v Hv).
Qed.

(** The parts of a hash, as [Verify] finds them. *)
Lemma split_hash `{!Crypto} password salt :
  Forall is_byte salt →
  Split (Hash password salt) "$" =
  ["";  "argon2id"; "v=19"; "m=19456,t=2,p=1"; base64_encode std_alphabet salt;
   base64_encode std_alphabet (bytes (IDKey password (of_bytes salt) passes memKiB threads keyLen))].
Proof.
  intros Hs. unfold Hash, Split.
  set (key := IDKey password (of_bytes salt) passes memKiB threads keyLen).
  change (Z.of_nat (nat_of_ascii "$")) with 36.
  replace (bytes _) with ([] ++ 36 :: bytes "argon2id" ++ 36 :: bytes "v=19" ++ 36 ::
    bytes "m=19456,t=2,p=1" ++ 36 :: bytes (base64_encode std_alphabet salt) ++ 36 ::
    bytes (base64_encode std_alphabet (bytes key))).
  - rewrite !split_at_sep; [rewrite split_at_last|..].
    + csimpl. by rewrite !of_bytes_bytes.
    + apply encoded_no_dollar, bytes_are_bytes.
    + by apply encoded_no_dollar.
    + apply (bool_decide_eq_true_1 _). reflexivity.
    + apply (bool_decide_eq_true_1 _). reflexivity.
    + apply (bool_decide_eq_true_1 _). reflexivity.
    + apply not_elem_of_nil.
  - rewrite !bytes_app. vm_compute (params_text _ _ _). vm_compute (itoa _). done.
Qed.

Lemma hash_params : parse_params "m=19456,t=2,p=1" = Some (memKiB, passes, threads).
Proof. reflexivity. Qed.

(** What [Verify] makes of a hash of [Hash]. *)
Lemma Verify_Hash `{!Crypto} password salt pw :
  Forall is_byte salt → Z.of_nat (length salt) = saltLen →
  (∀ pw s t m p n, 0 ≤ n → Z.of_nat (String.length (IDKey pw s t m p n)) = n) →
  Verify pw (Hash password salt) =
  Ok (bool_decide (IDKey pw (of_bytes salt) passes memKiB threads keyLen =
                   IDKey password (of_bytes salt) passes memKiB threads keyLen)).
Proof.
  intros Hs Hlen Hkey. unfold Verify. rewrite (split_hash password salt Hs).
  rewrite hash_params. simpl (params_ok _ _ _). cbn [negb].
  rewrite !bool_decide_true by done. cbn [andb].
  rewrite base64_roundtrip by done. rewrite bool_decide_false by (unfold saltLen in *; lia).
  rewrite base64_roundtrip by apply bytes_are_bytes.
  rewrite length_bytes, Hkey by done. rewrite !bool_decide_false by done. cbn [orb].
  by rewrite of_bytes_bytes.
Qed.

(** ** Properties *)

(** C37: a stored hash is accepted exactly for the passwords that
    derive the same key under its salt, the one it was made from included, as
    long as argon2id returns as many bytes as it is asked for. *)
Theorem hash_verify `{!Crypto} password salt pw :
  Forall is_byte salt → Z.of_nat (length salt) = saltLen →
  (∀ pw s t m p n, 0 ≤ n → Z.of_nat (String.length (IDKey pw s t m p n)) = n) →
  Verify pw (Hash password salt) =
  Ok (bool_decide (IDKey pw (of_bytes salt) passes memKiB threads keyLen =
                   IDKey password (of_bytes salt) passes memKiB threads keyLen)).
Proof. apply Verify_Hash. Qed.

Lemma hash_verify_witness :
  let salt := repeat 7 16 in
  @Verify toy_crypto "geheim" (@Hash toy_crypto "geheim" salt) = Ok true.
Proof.
  intros salt. rewrite (@hash_verify toy_crypto "geheim" salt "geheim").
  - by rewrite bool_decide_true.
  - repeat constructor; discriminate.
  - reflexivity.
  - intros pw s t m p n Hn. simpl.
    assert (∀ c, Z.of_nat (String.length (String.string_of_list_ascii (repeat c (Z.to_nat n)))) = n)
      as Hc.
    { intros c. rewrite <-length_bytes. unfold bytes.
      rewrite length_fmap, String.list_ascii_of_string_of_list_ascii, repeat_length. lia. }
    destruct pw; apply Hc.
Defined.

(** Whatever is stored as the hash, verifying a password
    asks argon2id for at most 32 MiB, five passes, four lanes and 64 bytes:
    two implementations that agree within these limits give the same verdict. *)
Theorem verify_cost_bounded (C1 C2 : Crypto) pw encoded :
  (∀ pw salt t m p n, 8 ≤ m ≤ 32768 → 1 ≤ t ≤ 5 → 1 ≤ p ≤ 4 → 16 ≤ n ≤ 64 →
     @IDKey C1 pw salt t m p n = @IDKey C2 pw salt t m p n) →
  @Verify C1 pw encoded = @Verify C2 pw encoded.
Proof.
  intros Hag. unfold Verify. repeat (case_match; try done).
  - rewrite negb_false_iff in *. unfold params_ok in *. rewrite !andb_true_iff, !bool_decide_eq_true in *.
    rewrite orb_false_iff, !bool_decide_eq_false in *. destruct_and!. rewrite Hag; [done|lia..].
Qed.

Lemma verify_cost_bounded_witness :
  let other := mkCrypto (λ s, s) (λ pw s t m p n,
    if decide (m ≤ 32768) then @IDKey toy_crypto pw s t m p n else "") in
  @Verify other "geheim" dummyHash = @Verify toy_crypto "geheim" dummyHash.
Proof.
  intros other. apply (verify_cost_bounded other toy_crypto).
  intros pw salt t m p n Hm _ _ _. simpl. by rewrite decide_True by lia.
Defined.

(** The stand-in hash of an unknown user is well formed: its verification runs
    argon2id with the cost of a real one. *)
Lemma dummy_hash_ok `{!Crypto} pw : is_ok (DummyVerify pw) = true.
Proof.
  unfold DummyVerify, Verify.
  replace (Split dummyHash "$") with ["";  "argon2id"; "v=19"; "m=19456,t=2,p=1";
    "eMChjSfz96mvasvn2JDzWg"; "p7siaGhJhOm6Y70NEtq54KgArBJ2PnRa83vSoAywPes"] by reflexivity.
  rewrite !bool_decide_true by done. rewrite hash_params. reflexivity.
Qed.
