(* ===== verification/Netip.v ===== *)
(** * IP addresses (net/netip)

    What the program uses of [netip.Addr] and [netip.Prefix]: an address is
    its number of 32 or 128 bits, with a zone for IPv6.  [AddrText] parses and
    prints them; parsing URLs and mail addresses stays with the standard
    library, the class [NetLib]. *)

From S2P Require Import Prelude.

Inductive Addr : Type :=
  | NoAddr
  | Addr4 (bits : Z)
  | Addr6 (bits : Z) (zone : string).

#[export] Instance Addr_eq_dec : EqDecision Addr.
Proof. solve_decision. Defined.

Definition IsValid (a : Addr) : bool := match a with NoAddr => false | _ => true end.

Definition Zone (a : Addr) : string := match a with Addr6 _ z => z | _ => "" end.

(** [ip.WithZone("")]. *)
Definition WithoutZone (a : Addr) : Addr := match a with Addr6 b _ => Addr6 b "" | a => a end.

(** [::ffff:0:0/96], the IPv4-mapped addresses. *)
Definition Is4In6 (a : Addr) : bool :=
  match a with Addr6 b _ => bool_decide (b / 2 ^ 32 = 65535) | _ => false end.

Definition Unmap (a : Addr) : Addr :=
  match a with
  | Addr6 b _ => if Is4In6 a then Addr4 (b mod 2 ^ 32) else a
  | a => a
  end.

(** [ip.As16()] as a number: an IPv4 address in its mapped form. *)
Definition As16 (a : Addr) : Z :=
  match a with NoAddr => 0 | Addr4 b => 65535 * 2 ^ 32 + b | Addr6 b _ => b end.

(** A prefix: the family, the bits of its address and its length. *)
Record NetPrefix : Type := mkPrefix { pf_v4 : bool; pf_bits : Z; pf_len : Z }.

(** [b] and [p] agree on the leading [len] of [width] bits. *)
Definition same_prefix (width len b p : Z) : bool :=
  bool_decide (b / 2 ^ (width - len) = p / 2 ^ (width - len)).

Definition Contains (p : NetPrefix) (a : Addr) : bool :=
  match a with
  | NoAddr => false
  | Addr4 b => pf_v4 p && same_prefix 32 (pf_len p) b (pf_bits p)
  | Addr6 b z => bool_decide (z = "") && negb (pf_v4 p) && same_prefix 128 (pf_len p) b (pf_bits p)
  end.

Definition ip4 (a b c d : Z) : Z := ((a * 256 + b) * 256 + c) * 256 + d.

Definition IsUnspecified (a : Addr) : bool :=
  bool_decide (a = Addr4 0) || bool_decide (a = Addr6 0 "").

(** [b[0] == 127], and [::1]. *)
Definition IsLoopback (a : Addr) : bool :=
  match a with
  | NoAddr => false
  | Addr4 b => bool_decide (b / 2 ^ 24 = 127)
  | Addr6 b _ => bool_decide (b = 1)
  end.

(** 169.254.0.0/16 and fe80::/10. *)
Definition IsLinkLocalUnicast (a : Addr) : bool :=
  match a with
  | NoAddr => false
  | Addr4 b => bool_decide (b / 2 ^ 16 = 43518)
  | Addr6 b _ => bool_decide (b / 2 ^ 118 = 1018)
  end.

(** 224.0.0.0/4 and ff00::/8. *)
Definition IsMulticast (a : Addr) : bool :=
  match a with
  | NoAddr => false
  | Addr4 b => bool_decide (b / 2 ^ 28 = 14)
  | Addr6 b _ => bool_decide (b / 2 ^ 120 = 255)
  end.

(** 10.0.0.0/8, 172.16.0.0/12, 192.168.0.0/16 and fc00::/7. *)
Definition IsPrivate (a : Addr) : bool :=
  match a with
  | NoAddr => false
  | Addr4 b => bool_decide (b / 2 ^ 24 = 10) || bool_decide (b / 2 ^ 20 = 2753) ||
               bool_decide (b / 2 ^ 16 = 49320)
  | Addr6 b _ => bool_decide (b / 2 ^ 121 = 126)
  end.

(** [net/url.URL], the parts the program looks at. *)
Record URL : Type := mkURL {
  u_Scheme : string;
  u_Opaque : string;
  u_HasUser : bool;
  u_Host : string;
  u_Hostname : string;
  u_Port : string;
  u_Path : string;
  u_RawQuery : string;
  u_Fragment : string
}.

(** The parsers of net/url and net/mail. *)
Class NetLib : Type := {
  url_Parse : string → option URL;
  (** [mail.ParseAddress] and [mail.ParseAddressList]: the bare addresses. *)
  ParseMail : string → option string;
  ParseMailList : string → option (list string)
}.
