(* ===== verification/AddrText.v ===== *)
(** * Addresses as text (net/netip)

    [netip.ParseAddr], [Addr.String] and [netip.ParsePrefix], written out from
    the standard library.  Proved is that every address reads back from its
    text, so that two addresses never share one. *)

From S2P Require Import Prelude Text Netip.

(** ** Reading *)

Definition is_digit (c : Z) : bool := bool_decide (48 ≤ c ≤ 57).

(** [parseIPv4Fields]: [val] and [digLen] are those of the current octet, [pos]
    the octets before it. *)
Fixpoint v4_fields (l : list Z) (val : Z) (digLen : nat) (pos : list Z) : option (list Z) :=
  match l with
  | [] => if decide (length pos < 3)%nat then None else Some (pos ++ [val])
  | c :: l =>
      if is_digit c then
        if decide (digLen = 1%nat ∧ val = 0) then None
        else
          let val := val * 10 + (c - 48) in
          if decide (255 < val) then None else v4_fields l val (S digLen) pos
      else if decide (c = 46) then
        if decide (digLen = 0%nat ∨ l = []) then None
        else if decide (length pos = 3%nat) then None
        else v4_fields l 0 0 (pos ++ [val])
      else None
  end.

(** A number from its bytes, the most significant first. *)
Definition big (l : list Z) : Z := foldl (λ acc b, acc * 256 + b) 0 l.

Definition parseIPv4 (l : list Z) : option Addr := Addr4 ∘ big <$> v4_fields l 0 0 [].

Definition hex_value (c : Z) : option Z :=
  if decide (48 ≤ c ≤ 57) then Some (c - 48)
  else if decide (97 ≤ c ≤ 102) then Some (c - 97 + 10)
  else if decide (65 ≤ c ≤ 70) then Some (c - 65 + 10)
  else None.

(** The hex digits in front: their value, their number, and the rest. *)
Fixpoint hex_run (s : list Z) (acc : Z) (off : nat) : option (Z * nat * list Z) :=
  match s with
  | [] => Some (acc, off, [])
  | c :: s' =>
      match hex_value c with
      | None => Some (acc, off, s)
      | Some d =>
          let acc := acc * 16 + d in
          if decide (3 < off)%nat then None
          else if decide (65535 < acc) then None
          else hex_run s' acc (S off)
      end
  end.

(** The loop of [parseIPv6]: [ip] holds the bytes so far, [ell] is the
    position of the ellipsis.  Each round adds at least two bytes. *)
Fixpoint v6_loop (fuel : nat) (s ip : list Z) (ell : option nat) :
    option (list Z * list Z * option nat) :=
  match fuel with
  | O => None
  | S fuel =>
      if decide (16 ≤ length ip)%nat then Some (s, ip, ell) else
      match hex_run s 0 0 with
      | None | Some (_, O, _) => None
      | Some (acc, _, rest) =>
          if decide (head rest = Some 46) then
            if decide (ell = None ∧ length ip ≠ 12%nat) then None
            else if decide (16 < length ip + 4)%nat then None
            else fields ← v4_fields s 0 0 []; Some ([], ip ++ fields, ell)
          else
            let ip := ip ++ [acc / 256; acc mod 256] in
            match rest with
            | [] => Some ([], ip, ell)
            | c :: rest =>
                if decide (c ≠ 58) then None
                else match rest with
                     | [] => None
                     | c :: rest' =>
                         if decide (c = 58) then
                           match ell with
                           | Some _ => None
                           | None =>
                               if decide (rest' = []) then Some ([], ip, Some (length ip))
                               else v6_loop fuel rest' ip (Some (length ip))
                           end
                         else v6_loop fuel rest ip ell
                     end
            end
      end
  end.

Definition v6_rounds : nat := 9.

(** The end of [parseIPv6]: the ellipsis becomes zeros. *)
Definition v6_expand (r : list Z * list Z * option nat) : option Z :=
  match r with
  | ([], ip, ell) =>
      if decide (length ip < 16)%nat then
        e ← ell; Some (big (take e ip ++ replicate (16 - length ip) 0 ++ drop e ip))
      else match ell with None => Some (big ip) | Some _ => None end
  | _ => None
  end.

Definition v6_bits (s : list Z) : option Z :=
  match strip [58; 58] s with
  | Some [] => Some 0
  | Some s => v6_loop v6_rounds s [] (Some 0%nat) ≫= v6_expand
  | None => v6_loop v6_rounds s [] None ≫= v6_expand
  end.

(** The address and the zone behind the first percent sign. *)
Definition parseIPv6 (l : list Z) : option Addr :=
  match index_byte 37 l with
  | None => (λ b, Addr6 b "") <$> v6_bits l
  | Some i =>
      let zone := drop (S i) l in
      if decide (zone = []) then None else (λ b, Addr6 b (of_bytes zone)) <$> v6_bits (take i l)
  end.

(** The first dot, colon or percent sign decides. *)
Fixpoint kind_of (l : list Z) : option Z :=
  match l with
  | [] => None
  | c :: l => if decide (c = 46 ∨ c = 58 ∨ c = 37) then Some c else kind_of l
  end.

Definition ParseAddr (s : string) : option Addr :=
  let l := bytes s in
  match kind_of l with
  | Some 46 => parseIPv4 l
  | Some 58 => parseIPv6 l
  | _ => None
  end.

(** [netip.ParsePrefix]: no zone, no sign and no leading zero in the length. *)
Definition plain_bits (s : string) : bool :=
  match bytes s with
  | c :: _ :: _ => bool_decide (49 ≤ c ≤ 57)
  | _ => true
  end.

Definition is_v4 (a : Addr) : bool := match a with Addr4 _ => true | _ => false end.

Definition bits_of (a : Addr) : Z := match a with NoAddr => 0 | Addr4 b => b | Addr6 b _ => b end.

Definition ParsePrefix (s : string) : option NetPrefix :=
  i ← last_index 47 (bytes s);
  ip ← ParseAddr (of_bytes (take i (bytes s)));
  if decide (Zone ip ≠ "") then None else
  let len := of_bytes (drop (S i) (bytes s)) in
  if negb (plain_bits len) then None else
  n ← parse_int len;
  if decide (n < 0 ∨ (if is_v4 ip then 32 else 128) < n) then None
  else Some (mkPrefix (is_v4 ip) (bits_of ip) n).

(** ** Writing *)

Definition hex_char (d : Z) : Z := if decide (d < 10) then 48 + d else 97 + (d - 10).

(** [appendHex]: no leading zeros. *)
Definition hex_text (v : Z) : list Z :=
  (if decide (4096 ≤ v) then [hex_char (v / 4096)] else []) ++
  (if decide (256 ≤ v) then [hex_char (v / 256 mod 16)] else []) ++
  (if decide (16 ≤ v) then [hex_char (v / 16 mod 16)] else []) ++
  [hex_char (v mod 16)].

Definition octet (b : Z) (i : Z) : Z := b / 256 ^ i mod 256.

Definition decimal3 (v : Z) : list Z := bytes (itoa v).

Definition v4_text (b : Z) : list Z :=
  decimal3 (octet b 3) ++ [46] ++ decimal3 (octet b 2) ++ [46] ++
  decimal3 (octet b 1) ++ [46] ++ decimal3 (octet b 0).

(** The eight groups of sixteen bits, the last [n] of them. *)
Fixpoint last_groups (n : nat) (b : Z) : list Z :=
  match n with
  | O => []
  | S n => last_groups n (b / 65536) ++ [b mod 65536]
  end.

Definition groups (b : Z) : list Z := last_groups 8 b.

(** The length of the run of zeros in front. *)
Fixpoint zeros (l : list Z) : nat :=
  match l with v :: l => if decide (v = 0) then S (zeros l) else O | [] => O end.

(** The first of the longest runs of at least two zeros: where it starts and
    ends; [i] counts the groups before [l]. *)
Fixpoint longest (i : nat) (l : list Z) (best : option (nat * nat)) : option (nat * nat) :=
  match l with
  | [] => best
  | v :: l' =>
      let n := zeros l in
      let width := match best with Some (a, b) => b - a | None => 0 end%nat in
      longest (S i) l' (if decide (2 ≤ n ∧ width < n)%nat then Some (i, i + n)%nat else best)
  end.

(** Groups with colons between them. *)
Fixpoint joined_groups (l : list Z) : list Z :=
  match l with
  | [] => []
  | [v] => hex_text v
  | v :: l => hex_text v ++ [58] ++ joined_groups l
  end.

(** [appendTo6]. *)
Definition v6_text (b : Z) : list Z :=
  let gs := groups b in
  match longest 0 gs None with
  | Some (a, e) => joined_groups (take a gs) ++ [58; 58] ++ joined_groups (drop e gs)
  | None => joined_groups gs
  end.

Definition zone_suffix (z : string) : list Z := if decide (z = "") then [] else 37 :: bytes z.

(** [Addr.String]. *)
Definition AddrString (a : Addr) : string :=
  of_bytes match a with
           | NoAddr => bytes "invalid IP"
           | Addr4 b => v4_text b
           | Addr6 b z =>
               (if Is4In6 a then bytes "::ffff:" ++ v4_text (b mod 2 ^ 32) else v6_text b) ++ zone_suffix z
           end.

Example parse_addr_4 : ParseAddr "192.0.2.7" = Some (Addr4 3221225991).
Proof. by vm_compute. Qed.
Example parse_addr_zero : ParseAddr "192.0.2.07" = None.
Proof. by vm_compute. Qed.
Example parse_addr_6 : ParseAddr "2001:db8::1%eth0" = Some (Addr6 42540766411282592856903984951653826561 "eth0").
Proof. by vm_compute. Qed.
Example parse_addr_mixed : ParseAddr "::ffff:192.0.2.7" = Some (Addr6 (As16 (Addr4 3221225991)) "").
Proof. by vm_compute. Qed.
Example addr_text_6 : AddrString (Addr6 42540766411282592856903984951653826561 "eth0") = "2001:db8::1%eth0".
Proof. by vm_compute. Qed.
Example addr_text_runs : AddrString (Addr6 (1 * 2 ^ 64 + 5) "") = "::1:0:0:0:5".
Proof. by vm_compute. Qed.
Example addr_text_mapped : AddrString (Addr6 (As16 (Addr4 3221225991)) "") = "::ffff:192.0.2.7".
Proof. by vm_compute. Qed.
Example parse_prefix_4 : ParsePrefix "172.20.0.0/24" = Some (mkPrefix true (ip4 172 20 0 0) 24).
Proof. by vm_compute. Qed.
Example parse_prefix_bad : ParsePrefix "172.20.0.0/+24" = None.
Proof. by vm_compute. Qed.

(** ** Octets *)

Lemma octet_cases (Q : Z → Prop) : Forall Q (Z.of_nat <$> seq 0 256) → ∀ v, is_byte v → Q v.
Proof.
  rewrite list.Forall_forall. intros HQ v Hv. apply HQ, list_elem_of_fmap.
  exists (Z.to_nat v). rewrite elem_of_seq. unfold is_byte in Hv. lia.
Qed.

(** An octet is read digit by digit, whatever follows. *)
Lemma v4_octet v rest pos :
  is_byte v → ∃ n, v4_fields (decimal3 v ++ rest) 0 0 pos = v4_fields rest v (S n) pos.
Proof.
  intros Hv. exists (length (decimal3 v) - 1)%nat. revert v Hv rest pos.
  refine (octet_cases (λ v, ∀ rest pos, v4_fields (decimal3 v ++ rest) 0 0 pos =
    v4_fields rest v (S (length (decimal3 v) - 1)) pos) _).
  apply Forall_fmap. unfold compose. repeat (constructor; [reflexivity|]). constructor.
Qed.

Lemma octet_byte b i : is_byte (octet b i).
Proof. unfold octet, is_byte. by apply Z.mod_pos_bound. Qed.

Lemma v4_dot v n pos rest :
  rest ≠ [] → (length pos < 3)%nat → v4_fields (46 :: rest) v (S n) pos = v4_fields rest 0 0 (pos ++ [v]).
Proof.
  intros Hr Hp. cbn [v4_fields]. change (is_digit 46) with false. cbv iota.
  rewrite decide_True by done. rewrite decide_False by (intros [?|?]; done).
  by rewrite decide_False by lia.
Qed.

Lemma decimal3_nonempty v : decimal3 v ≠ [].
Proof.
  unfold decimal3, itoa, bytes. rewrite String.list_ascii_of_string_of_list_ascii.
  case_decide; [done|]. destruct (digits_head max_digits v) as (d & l & -> & _); [unfold max_digits; lia|lia|done].
Qed.

Lemma v4_reads b :
  v4_fields (v4_text b) 0 0 [] = Some [octet b 3; octet b 2; octet b 1; octet b 0].
Proof.
  unfold v4_text. pose proof (decimal3_nonempty (octet b 0)). pose proof (decimal3_nonempty (octet b 1)).
  pose proof (decimal3_nonempty (octet b 2)).
  assert (∀ v l, decimal3 v ++ l ≠ []) as Hne.
  { intros v l [? _]%app_nil. by destruct (decimal3_nonempty v). }
  destruct (v4_octet (octet b 3) ([46] ++ decimal3 (octet b 2) ++ [46] ++ decimal3 (octet b 1) ++ [46] ++
    decimal3 (octet b 0)) [] (octet_byte _ _)) as [n3 ->].
  cbn [app]. rewrite v4_dot by (done || simpl; lia).
  destruct (v4_octet (octet b 2) (46 :: decimal3 (octet b 1) ++ 46 :: decimal3 (octet b 0))
    ([] ++ [octet b 3]) (octet_byte _ _)) as [n2 ->].
  rewrite v4_dot by (done || simpl; lia).
  destruct (v4_octet (octet b 1) (46 :: decimal3 (octet b 0))
    (([] ++ [octet b 3]) ++ [octet b 2]) (octet_byte _ _)) as [n1 ->].
  rewrite v4_dot by (done || simpl; lia).
  destruct (v4_octet (octet b 0) [] ((([] ++ [octet b 3]) ++ [octet b 2]) ++ [octet b 1]) (octet_byte _ _))
    as [n0 Hn0].
  rewrite app_nil_r in Hn0. rewrite Hn0. done.
Qed.

Lemma big_octets b : 0 ≤ b < 2 ^ 32 → big [octet b 3; octet b 2; octet b 1; octet b 0] = b.
Proof.
  intros Hb. unfold big, octet. simpl foldl. change (256 ^ 3) with (256 * (256 * 256)).
  change (256 ^ 2) with (256 * 256). change (256 ^ 1) with 256. change (256 ^ 0) with 1.
  rewrite Z.div_1_r, <-!Z.div_div by done. Z.to_euclidean_division_equations. lia.
Qed.

(** ** Groups of sixteen bits *)

Definition is_group (v : Z) : Prop := 0 ≤ v < 65536.

Lemma hex_value_char d : 0 ≤ d < 16 → hex_value (hex_char d) = Some d.
Proof.
  intros Hd. assert (d ∈ Z.of_nat <$> seq 0 16) as Hin.
  { apply list_elem_of_fmap. exists (Z.to_nat d). rewrite elem_of_seq. lia. }
  clear Hd. revert d Hin. apply list.Forall_forall. repeat constructor.
Qed.

(** No hex digit in front. *)
Definition stops (l : list Z) : Prop := match l with c :: _ => hex_value c = None | [] => True end.

Lemma hex_run_stop rest acc off : stops rest → hex_run rest acc off = Some (acc, off, rest).
Proof. destruct rest as [|c l]; simpl; [done|]. by intros ->. Qed.

Lemma hex_run_digit d rest acc off :
  0 ≤ d < 16 → (off ≤ 3)%nat → 0 ≤ acc * 16 + d < 65536 →
  hex_run (hex_char d :: rest) acc off = hex_run rest (acc * 16 + d) (S off).
Proof.
  intros Hd Ho Ha. cbn [hex_run]. rewrite hex_value_char by done.
  rewrite decide_False by lia. by rewrite decide_False by lia.
Qed.

Lemma hex_text_run v rest :
  is_group v → stops rest → ∃ off, hex_run (hex_text v ++ rest) 0 0 = Some (v, S off, rest).
Proof.
  unfold is_group. intros Hv Hs. unfold hex_text.
  assert (0 ≤ v mod 16 < 16) by (by apply Z.mod_pos_bound).
  assert (0 ≤ v / 16 mod 16 < 16) by (by apply Z.mod_pos_bound).
  assert (0 ≤ v / 256 mod 16 < 16) by (by apply Z.mod_pos_bound).
  assert (v = v / 16 * 16 + v mod 16) by (Z.to_euclidean_division_equations; lia).
  assert (v / 16 = v / 256 * 16 + v / 16 mod 16) by (Z.to_euclidean_division_equations; lia).
  assert (v / 256 = v / 4096 * 16 + v / 256 mod 16) by (Z.to_euclidean_division_equations; lia).
  repeat case_decide; try lia; cbn [app];
    eexists; repeat (rewrite hex_run_digit by (Z.to_euclidean_division_equations; lia));
    (rewrite hex_run_stop by done); do 3 f_equal; Z.to_euclidean_division_equations; lia.
Qed.

Definition gbytes (gs : list Z) : list Z := gs ≫= λ v, [v / 256; v mod 256].

Lemma gbytes_length gs : length (gbytes gs) = (2 * length gs)%nat.
Proof. unfold gbytes. induction gs as [|v gs IH]; [done|]. csimpl. lia. Qed.

Lemma gbytes_app gs gs' : gbytes (gs ++ gs') = gbytes gs ++ gbytes gs'.
Proof. apply bind_app. Qed.

Lemma hex_text_head v : is_group v → ∃ c l, hex_text v = c :: l ∧ c ≠ 58.
Proof.
  intros Hv. assert (∀ d, hex_char d ≠ 58 ∨ ¬ 0 ≤ d) as Hc by (intros d; unfold hex_char; case_decide; lia).
  unfold is_group in Hv. unfold hex_text.
  repeat case_decide; cbn [app]; do 2 eexists; (split; [done|]);
    match goal with |- hex_char ?d ≠ _ => destruct (Hc d) as [?|[]]; [done|] end;
    Z.to_euclidean_division_equations; lia.
Qed.

Lemma joined_groups_head gs : gs ≠ [] → Forall is_group gs → ∃ c l, joined_groups gs = c :: l ∧ c ≠ 58.
Proof.
  destruct gs as [|v [|w gs]]; [done|..]; intros _ [Hv _]%list.Forall_cons;
    destruct (hex_text_head v Hv) as (c & l & Ht & Hc); cbn [joined_groups]; rewrite Ht; eauto.
Qed.

Lemma joined_groups_cons v gs :
  gs ≠ [] → joined_groups (v :: gs) = hex_text v ++ 58 :: joined_groups gs.
Proof. by destruct gs. Qed.

(** One round over a group that a colon and more follow. *)
Lemma v6_round fuel v c rest ip ell :
  is_group v → (length ip < 16)%nat → c ≠ 58 →
  v6_loop (S fuel) (hex_text v ++ 58 :: c :: rest) ip ell =
  v6_loop fuel (c :: rest) (ip ++ [v / 256; v mod 256]) ell.
Proof.
  intros Hv Hip Hc. cbn [v6_loop]. rewrite decide_False by lia.
  destruct (hex_text_run v (58 :: c :: rest) Hv eq_refl) as [off ->].
  rewrite decide_False by done. cbv zeta. rewrite decide_False by (intros Hn; done).
  by rewrite decide_False by done.
Qed.

(** The last groups of an address. *)
Lemma v6_last gs : ∀ fuel ip ell,
  gs ≠ [] → Forall is_group gs → (length ip + 2 * length gs ≤ 16)%nat → (length gs ≤ fuel)%nat →
  v6_loop fuel (joined_groups gs) ip ell = Some ([], ip ++ gbytes gs, ell).
Proof.
  induction gs as [|v gs IH]; intros fuel ip ell Hne Hgs Hlen Hfuel; [done|].
  apply list.Forall_cons in Hgs as [Hv Hgs]. destruct fuel as [|fuel]; [simpl in Hfuel; lia|].
  simpl in Hlen, Hfuel. destruct (decide (gs = [])) as [->|Hgs0].
  - cbn [joined_groups v6_loop]. rewrite decide_False by lia.
    destruct (hex_text_run v [] Hv I) as [off Hr]. rewrite app_nil_r in Hr. rewrite Hr.
    by rewrite decide_False by done.
  - rewrite joined_groups_cons by done.
    destruct (joined_groups_head gs Hgs0 Hgs) as (c & l & Hj & Hc). rewrite Hj.
    rewrite v6_round by (done || lia). rewrite <-Hj.
    rewrite IH by first [done|rewrite ?length_app; simpl; lia].
    by rewrite <-app_assoc.
Qed.

(** The groups up to an ellipsis, and those after it. *)
Lemma v6_gap gs post : ∀ fuel ip,
  gs ≠ [] → Forall is_group gs → Forall is_group post →
  (length ip + 2 * length gs + 2 * length post < 16)%nat → (length gs + length post ≤ fuel)%nat →
  v6_loop fuel (joined_groups gs ++ [58; 58] ++ joined_groups post) ip None =
    Some ([], ip ++ gbytes gs ++ gbytes post, Some (length ip + 2 * length gs)%nat).
Proof.
  induction gs as [|v gs IH]; intros fuel ip Hne Hgs Hpost Hlen Hfuel; [done|].
  apply list.Forall_cons in Hgs as [Hv Hgs]. destruct fuel as [|fuel]; [simpl in Hfuel; lia|].
  simpl in Hlen, Hfuel. destruct (decide (gs = [])) as [->|Hgs0].
  - cbn [joined_groups v6_loop]. rewrite decide_False by lia.
    destruct (hex_text_run v ([58; 58] ++ joined_groups post) Hv eq_refl) as [off ->].
    cbn [app]. rewrite decide_False by done. cbv zeta.
    rewrite decide_False by (intros Hn; done). rewrite decide_True by done.
    rewrite length_app. simpl length. destruct post as [|w post].
    + rewrite decide_True by done. unfold gbytes. simpl. by rewrite Nat.add_comm.
    + destruct (joined_groups_head (w :: post)) as (c & l & Hj & Hc); [done..|].
      rewrite decide_False by (by rewrite Hj).
      rewrite v6_last by first [done|rewrite ?length_app; simpl in *; lia].
      by rewrite <-app_assoc.
  - rewrite joined_groups_cons by done. rewrite <-app_assoc. cbn [app].
    destruct (joined_groups_head gs Hgs0 Hgs) as (c & l & Hj & Hc). rewrite Hj. cbn [app].
    rewrite v6_round by (done || lia).
    change (c :: l ++ 58 :: 58 :: joined_groups post) with ((c :: l) ++ [58; 58] ++ joined_groups post).
    rewrite <-Hj, IH by first [done|rewrite ?length_app; simpl; lia].
    rewrite length_app, <-app_assoc. do 3 f_equal. simpl. lia.
Qed.

(** ** The number behind the groups *)

Lemma big_gbytes_acc gs acc :
  foldl (λ acc b, acc * 256 + b) acc (gbytes gs) = foldl (λ acc v, acc * 65536 + v) acc gs.
Proof.
  revert acc. unfold gbytes. induction gs as [|v gs IH]; intros acc; csimpl; [done|].
  rewrite IH. f_equal. pose proof (Z.div_mod v 256). lia.
Qed.

Lemma last_groups_ok n b : Forall is_group (last_groups n b) ∧ length (last_groups n b) = n.
Proof.
  revert b. induction n as [|n IH]; intros b; simpl; [done|].
  destruct (IH (b / 65536)) as [Hg Hl]. rewrite length_app, Hl. simpl. split; [|lia].
  apply Forall_app. split; [done|]. constructor; [by apply Z.mod_pos_bound|constructor].
Qed.

Lemma last_groups_value n b :
  0 ≤ b < 65536 ^ Z.of_nat n → foldl (λ acc v, acc * 65536 + v) 0 (last_groups n b) = b.
Proof.
  revert b. induction n as [|n IH]; intros b Hb; cbn [last_groups].
  { simpl in *. lia. }
  rewrite Nat2Z.inj_succ, Z.pow_succ_r in Hb by lia.
  rewrite foldl_app, IH; simpl; [pose proof (Z.div_mod b 65536); lia|].
  split; [apply Z.div_pos; lia|]. apply Z.div_lt_upper_bound; lia.
Qed.

Lemma big_groups b : 0 ≤ b < 2 ^ 128 → big (gbytes (groups b)) = b.
Proof. intros Hb. unfold big, groups. rewrite big_gbytes_acc. by apply last_groups_value. Qed.

(** ** The run of zeros *)

Lemma zeros_spec l : take (zeros l) l = replicate (zeros l) 0 ∧ (zeros l ≤ length l)%nat.
Proof.
  induction l as [|v l [IH IHl]]; simpl; [done|]. case_decide as Hv; [|simpl; split; [done|lia]].
  subst. simpl. rewrite IH. split; [done|lia].
Qed.

(** What [longest] finds is a run of at least two zeros. *)
Definition zero_run (gs : list Z) (r : nat * nat) : Prop :=
  (r.1 + 2 ≤ r.2 ≤ length gs)%nat ∧ gs = take r.1 gs ++ replicate (r.2 - r.1) 0 ++ drop r.2 gs.

Lemma longest_spec gs l i best r :
  l = drop i gs → (∀ r, best = Some r → zero_run gs r) → longest i l best = Some r → zero_run gs r.
Proof.
  revert i best. induction l as [|v l IH]; intros i best Hl Hbest; cbn [longest]; [by auto|].
  cbv zeta. apply IH.
  { assert (drop 1 (v :: l) = drop (S i) gs) as <-; [|done]. rewrite Hl, drop_drop. f_equal. lia. }
  intros r' Hr'. case_decide as Hn; [|by auto]. assert (r' = (i, i + zeros (v :: l))%nat) as -> by congruence.
  destruct Hn as [Hn _]. destruct (zeros_spec (v :: l)) as [Hz Hlen].
  pose proof (length_drop gs i) as Hld. rewrite <-Hl in Hld.
  split; cbn [fst snd]; [lia|].
  replace (i + zeros (v :: l) - i)%nat with (zeros (v :: l)) by lia.
  rewrite <-Hz, Hl. rewrite <-(take_drop i gs) at 1. f_equal.
  rewrite <-(take_drop (zeros (drop i gs)) (drop i gs)) at 1. f_equal. by rewrite drop_drop.
Qed.

Lemma longest_zeros b r : longest 0 (groups b) None = Some r → zero_run (groups b) r.
Proof. by apply longest_spec. Qed.

(** ** Reading back *)

Lemma gbytes_zeros n : gbytes (replicate n 0) = replicate (2 * n) 0.
Proof.
  induction n as [|n IH]; [done|]. replace (2 * S n)%nat with (S (S (2 * n))) by lia.
  cbn [replicate]. by rewrite <-IH.
Qed.

Lemma zero_run_bytes gs a e :
  zero_run gs (a, e) → length gs = 8%nat →
  gbytes gs = gbytes (take a gs) ++ replicate (2 * (e - a)) 0 ++ gbytes (drop e gs) ∧
  (a + 2 ≤ e ≤ 8)%nat.
Proof.
  intros [Hr Hgs] Hl. rewrite Hl in Hr. split; [|done]. rewrite Hgs at 1. rewrite !gbytes_app.
  by rewrite gbytes_zeros.
Qed.

Lemma strip_joined gs rest :
  gs ≠ [] → Forall is_group gs → strip [58; 58] (joined_groups gs ++ rest) = None.
Proof.
  intros Hne Hgs. destruct (joined_groups_head gs Hne Hgs) as (c & l & -> & Hc).
  simpl. by rewrite decide_False by congruence.
Qed.

(** The ellipsis stands for the zeros that were left out. *)
Lemma expand_gap pre post n :
  (2 * length pre + n + 2 * length post = 16)%nat → (0 < n)%nat →
  v6_expand ([], gbytes pre ++ gbytes post, Some (2 * length pre)%nat) =
    Some (big (gbytes pre ++ replicate n 0 ++ gbytes post)).
Proof.
  intros Hl Hn. unfold v6_expand. rewrite length_app, !gbytes_length. rewrite decide_True by lia.
  cbn [option_bind mbind]. rewrite take_app_length', drop_app_length' by (by rewrite gbytes_length).
  do 5 f_equal. lia.
Qed.

Lemma v6_reads b : 0 ≤ b < 2 ^ 128 → v6_bits (v6_text b) = Some b.
Proof.
  intros Hb. destruct (last_groups_ok 8 b) as [Hg Hl]. fold (groups b) in Hg, Hl.
  unfold v6_text, v6_bits. cbv zeta. destruct (longest 0 (groups b) None) as [[a e]|] eqn:Hz.
  - apply longest_zeros in Hz. destruct (zero_run_bytes _ _ _ Hz Hl) as [Hbytes Hae].
    set (pre := take a (groups b)) in *. set (post := drop e (groups b)) in *.
    assert (Hpre : length pre = a) by (unfold pre; rewrite length_take; lia).
    assert (Hpost : length post = (8 - e)%nat) by (unfold post; rewrite length_drop; lia).
    assert (Hgpre : Forall is_group pre) by by apply Forall_take.
    assert (Hgpost : Forall is_group post) by by apply Forall_drop.
    assert (Hv : v6_expand ([], gbytes pre ++ gbytes post, Some (2 * length pre)%nat) = Some b).
    { rewrite (expand_gap _ _ (2 * (e - a))) by lia. by rewrite <-Hbytes, big_groups. }
    clearbody pre post. destruct (decide (pre = [])) as [->|Hne].
    + cbn [joined_groups app]. 
      rewrite (proj2 (strip_spec [58; 58] (58 :: 58 :: joined_groups post) (joined_groups post)) eq_refl).
      destruct (decide (post = [])) as [->|Hne'].
      * cbn [joined_groups]. by vm_compute in Hv.
      * destruct (joined_groups_head post Hne' Hgpost) as (c & l & Hj & _). rewrite Hj, <-Hj.
        rewrite v6_last by first [done|unfold v6_rounds; simpl; lia]. done.
    + rewrite strip_joined by done.
      rewrite v6_gap by first [done|unfold v6_rounds; simpl; lia]. done.
  - pose proof (big_groups b Hb) as Hv. clear Hz. revert Hg Hl Hv. generalize (groups b). intros gs Hg Hl Hv.
    assert (gs ≠ []) as Hne by (intros ->; done).
    pose proof (strip_joined gs [] Hne Hg) as Hs. rewrite app_nil_r in Hs. rewrite Hs.
    rewrite v6_last by first [done|unfold v6_rounds; simpl; lia].
    cbn [option_bind mbind app]. unfold v6_expand. rewrite gbytes_length, Hl.
    rewrite decide_False by lia. by rewrite Hv.
Qed.

(** The mapped form. *)
Lemma hex_run_octet v rest :
  is_byte v → ∃ acc off, hex_run (decimal3 v ++ 46 :: rest) 0 0 = Some (acc, S off, 46 :: rest).
Proof.
  intros Hv.
  assert (match hex_run (decimal3 v ++ 46 :: rest) 0 0 with
          | Some (_, S _, r) => r = 46 :: rest
          | _ => False
          end) as Hr.
  { revert v Hv rest. refine (octet_cases (λ v, ∀ rest, match hex_run (decimal3 v ++ 46 :: rest) 0 0 with
      | Some (_, S _, r) => r = 46 :: rest | _ => False end) _).
    apply Forall_fmap. unfold compose. repeat (constructor; [reflexivity|]). constructor. }
  destruct (hex_run _ _ _) as [[[acc [|off]] r]|]; [done| |done]. subst. eauto.
Qed.

Lemma mapped_reads b :
  0 ≤ b < 2 ^ 32 → v6_bits (bytes "::ffff:" ++ v4_text b) = Some (65535 * 2 ^ 32 + b).
Proof.
  intros Hb. unfold v6_bits. change (bytes "::ffff:" ++ v4_text b) with
    ([58; 58] ++ hex_text 65535 ++ 58 :: v4_text b).
  rewrite (proj2 (strip_spec [58; 58] _ (hex_text 65535 ++ 58 :: v4_text b)) eq_refl).
  change (hex_text 65535) with (102 :: [102; 102; 102]). cbn [app].
  change (102 :: 102 :: 102 :: 102 :: 58 :: v4_text b) with (hex_text 65535 ++ 58 :: v4_text b).
  assert (∃ c l, v4_text b = c :: l ∧ c ≠ 58) as (c & l & Hc & Hne).
  { unfold v4_text. generalize ([46] ++ decimal3 (octet b 2) ++ [46] ++ decimal3 (octet b 1) ++ [46] ++
      decimal3 (octet b 0)). intros rest. generalize (octet_byte b 3). generalize (octet b 3).
    refine (octet_cases (λ v, ∃ c l, decimal3 v ++ rest = c :: l ∧ c ≠ 58) _).
    apply Forall_fmap. unfold compose. repeat (constructor; [by do 2 eexists|]). constructor. }
  unfold v6_rounds. rewrite Hc, v6_round, <-Hc by (done || simpl; lia).
  change ([] ++ [65535 / 256; 65535 mod 256]) with [255; 255].
  cbn [v6_loop]. rewrite decide_False by (simpl; lia).
  destruct (hex_run_octet (octet b 3) (decimal3 (octet b 2) ++ [46] ++ decimal3 (octet b 1) ++ [46] ++
    decimal3 (octet b 0)) (octet_byte _ _)) as (acc & off & Hr).
  unfold v4_text at 1. cbn [app] in *. rewrite Hr. rewrite decide_True by done.
  rewrite decide_False by (by intros [? _]). rewrite decide_False by (simpl; lia).
  rewrite v4_reads. cbn [option_bind mbind app]. unfold v6_expand.
  rewrite decide_True by (simpl; lia). cbn [option_bind mbind]. f_equal.
  pose proof (big_octets b Hb) as Hbig. revert Hbig.
  generalize (octet b 3), (octet b 2), (octet b 1), (octet b 0). intros o3 o2 o1 o0 <-.
  unfold big. simpl. lia.
Qed.

(** ** The kind of an address and its zone *)

Definition is_mark (c : Z) : Prop := c = 46 ∨ c = 58 ∨ c = 37.

(** Digits, small letters up to f. *)
Definition is_hex (c : Z) : Prop := 48 ≤ c ≤ 57 ∨ 97 ≤ c ≤ 102.

#[export] Instance is_hex_dec c : Decision (is_hex c).
Proof. unfold is_hex. apply _. Defined.

Lemma kind_of_first l1 c l2 : Forall is_hex l1 → is_mark c → kind_of (l1 ++ c :: l2) = Some c.
Proof.
  intros Hl Hc. induction Hl as [|x l1 Hx _ IH]; simpl; [by rewrite decide_True|].
  rewrite decide_False; [done|]. unfold is_hex in Hx. lia.
Qed.

Lemma decimal3_hex v : is_byte v → Forall is_hex (decimal3 v).
Proof.
  revert v. refine (octet_cases (λ v, Forall is_hex (decimal3 v)) _).
  apply (bool_decide_eq_true_1 _). vm_compute. reflexivity.
Qed.

Lemma hex_text_hex v : is_group v → Forall is_hex (hex_text v).
Proof.
  intros Hv. unfold is_group in Hv.
  assert (∀ d, 0 ≤ d < 16 → is_hex (hex_char d)) as Hd.
  { intros d Hd. unfold hex_char, is_hex. case_decide; lia. }
  assert (∀ x, is_hex (hex_char (x mod 16))) as Hm by (intros x; by apply Hd, Z.mod_pos_bound).
  unfold hex_text. rewrite !Forall_app. split_and!; [..|by constructor; [apply Hm|constructor]].
  all: case_decide; [|constructor]; constructor; [|constructor]; try apply Hm.
  apply Hd. split; [apply Z.div_pos; lia|]. apply Z.div_lt_upper_bound; lia.
Qed.

Definition text6_char (c : Z) : Prop := is_hex c ∨ c = 58.

Lemma joined_chars gs : Forall is_group gs → Forall text6_char (joined_groups gs).
Proof.
  induction 1 as [|v gs Hv Hgs IH]; [constructor|].
  assert (Forall text6_char (hex_text v)) as Ht.
  { apply (Forall_impl _ _ _ (hex_text_hex v Hv)). by left. }
  destruct (decide (gs = [])) as [->|Hne]; [done|]. rewrite joined_groups_cons by done.
  apply Forall_app. split; [done|]. constructor; [by right|done].
Qed.

Lemma v6_text_chars b : Forall text6_char (v6_text b).
Proof.
  destruct (last_groups_ok 8 b) as [Hg _]. fold (groups b) in Hg. unfold v6_text. cbv zeta.
  destruct (longest _ _ _) as [[a e]|]; [|by apply joined_chars].
  apply Forall_app. split; [by apply joined_chars, Forall_take|].
  repeat (constructor; [by right|]). by apply joined_chars, Forall_drop.
Qed.

Lemma v6_text_kind b rest : kind_of (v6_text b ++ rest) = Some 58.
Proof.
  destruct (last_groups_ok 8 b) as [Hg Hl]. fold (groups b) in Hg, Hl. unfold v6_text. cbv zeta.
  assert (∀ gs rest', gs ≠ [] → Forall is_group gs → kind_of (joined_groups gs ++ 58 :: rest') = Some 58) as Hk.
  { intros [|v gs] rest' Hne Hall; [done|]. apply list.Forall_cons in Hall as [Hv _].
    destruct (decide (gs = [])) as [->|Hgs].
    - apply kind_of_first; [by apply hex_text_hex|unfold is_mark; lia].
    - rewrite joined_groups_cons, <-app_assoc by done.
      apply kind_of_first; [by apply hex_text_hex|unfold is_mark; lia]. }
  destruct (longest _ _ _) as [[a e]|].
  - rewrite <-app_assoc. destruct (decide (take a (groups b) = [])) as [->|Hne]; [done|].
    apply Hk; [done|by apply Forall_take].
  - destruct (groups b) as [|v gs]; [done|]. apply list.Forall_cons in Hg as [Hv Hg].
    assert (gs ≠ []) by (by intros ->). rewrite joined_groups_cons, <-app_assoc by done.
    apply kind_of_first; [by apply hex_text_hex|unfold is_mark; lia].
Qed.

Lemma index_byte_none c l : c ∉ l → index_byte c l = None.
Proof.
  induction l as [|x l IH]; [done|]. intros [Hx Hl]%not_elem_of_cons. simpl.
  rewrite decide_False by congruence. by rewrite IH.
Qed.

Lemma index_byte_first c l l' : c ∉ l → index_byte c (l ++ c :: l') = Some (length l).
Proof.
  induction l as [|x l IH]; simpl; [by rewrite decide_True|]. intros [Hx Hl]%not_elem_of_cons.
  rewrite decide_False by congruence. by rewrite IH.
Qed.

(** The zone is what follows the first percent sign. *)
Lemma parseIPv6_zone text b z :
  37 ∉ text → v6_bits text = Some b → parseIPv6 (text ++ zone_suffix z) = Some (Addr6 b z).
Proof.
  intros Hno Hb. unfold parseIPv6, zone_suffix. case_decide as Hz.
  - rewrite app_nil_r, index_byte_none, Hb by done. by subst.
  - rewrite index_byte_first by done. rewrite take_app_length, Hb.
    assert (drop (S (length text)) (text ++ 37 :: bytes z) = bytes z) as ->.
    { rewrite <-Nat.add_1_r, <-drop_drop. by rewrite drop_app_length. }
    rewrite decide_False; [simpl; by rewrite of_bytes_bytes|]. intros E. apply Hz.
    by apply bytes_inj.
Qed.

(** ** Every address reads back *)

Definition valid_addr (a : Addr) : Prop :=
  match a with
  | NoAddr => False
  | Addr4 b => 0 ≤ b < 2 ^ 32
  | Addr6 b _ => 0 ≤ b < 2 ^ 128
  end.

Lemma v4_text_hex_dot b c : c ∈ v4_text b → is_hex c ∨ c = 46.
Proof.
  assert (∀ i, Forall is_hex (decimal3 (octet b i))) as Hd by (intros i; apply decimal3_hex, octet_byte).
  assert (∀ i x, x ∈ decimal3 (octet b i) → is_hex x) as Hin.
  { intros i x Hx. specialize (Hd i). rewrite list.Forall_forall in Hd. by apply Hd. }
  unfold v4_text. rewrite !elem_of_app, !list_elem_of_singleton. naive_solver.
Qed.

Lemma v4_text_bytes b : Forall is_byte (v4_text b).
Proof.
  apply list.Forall_forall. intros c [Hc|Hc]%v4_text_hex_dot; unfold is_hex, is_byte in *; lia.
Qed.

Lemma v6_text_bytes b : Forall is_byte (v6_text b).
Proof.
  apply (Forall_impl _ _ _ (v6_text_chars b)). intros c. unfold text6_char, is_hex, is_byte. lia.
Qed.

Lemma zone_suffix_bytes z : Forall is_byte (zone_suffix z).
Proof. unfold zone_suffix. case_decide; [constructor|]. constructor; [done|apply bytes_are_bytes]. Qed.

Lemma Addr_reads_back a : valid_addr a → ParseAddr (AddrString a) = Some a.
Proof.
  destruct a as [|b|b z]; intros Ha; [done| |].
  - unfold ParseAddr, AddrString. rewrite bytes_of_bytes by apply v4_text_bytes.
    assert (kind_of (v4_text b) = Some 46) as ->.
    { apply kind_of_first; [apply decimal3_hex, octet_byte|by left]. }
    unfold parseIPv4. rewrite v4_reads. simpl. unfold compose. by rewrite big_octets.
  - unfold ParseAddr, AddrString. destruct (Is4In6 (Addr6 b z)) eqn:Hm.
    + rewrite bytes_of_bytes.
      2: { apply Forall_app_2; [apply Forall_app_2|apply zone_suffix_bytes];
             [apply bytes_are_bytes|apply v4_text_bytes]. }
      change (kind_of ((bytes "::ffff:" ++ v4_text (b mod 2 ^ 32)) ++ zone_suffix z)) with (Some 58).
      cbv iota. apply parseIPv6_zone.
      * rewrite elem_of_app. intros [Hin|Hin].
        { by apply (bool_decide_eq_false_1 (37 ∈ bytes "::ffff:")) in Hin. }
        apply v4_text_hex_dot in Hin. unfold is_hex in Hin. lia.
      * rewrite mapped_reads by (by apply Z.mod_pos_bound). f_equal.
        unfold Is4In6 in Hm. apply bool_decide_eq_true in Hm. pose proof (Z.div_mod b (2 ^ 32)). lia.
    + rewrite bytes_of_bytes by (apply Forall_app; split; [apply v6_text_bytes|apply zone_suffix_bytes]).
      rewrite v6_text_kind. apply parseIPv6_zone; [|by apply v6_reads].
      intros Hin. pose proof (v6_text_chars b) as Hc. rewrite list.Forall_forall in Hc.
      apply Hc in Hin. unfold text6_char, is_hex in Hin. lia.
Qed.

Lemma AddrString_inj a a' : valid_addr a → valid_addr a' → AddrString a = AddrString a' → a = a'.
Proof.
  intros Ha Ha' E. apply Addr_reads_back in Ha, Ha'. rewrite E in Ha. congruence.
Qed.

(** ** What is read is an address *)

Lemma big_bound l : Forall is_byte l → 0 ≤ big l < 256 ^ Z.of_nat (length l).
Proof.
  unfold big. induction l as [|x l IH] using rev_ind; [done|]. intros [Hl Hx]%Forall_app.
  specialize (IH Hl). apply list.Forall_cons in Hx as [Hx _]. unfold is_byte in Hx.
  rewrite foldl_app, length_app. simpl. rewrite Nat2Z.inj_add, Z.pow_add_r by lia.
  change (256 ^ Z.of_nat 1) with 256. lia.
Qed.

Lemma v4_fields_ok l val digLen pos fields :
  is_byte val → Forall is_byte pos → (length pos ≤ 3)%nat →
  v4_fields l val digLen pos = Some fields → Forall is_byte fields ∧ length fields = 4%nat.
Proof.
  revert val digLen pos. induction l as [|c l IH]; intros val digLen pos Hv Hp Hl; cbn [v4_fields].
  - case_decide; [done|]. intros [= <-]. rewrite length_app, Forall_app. simpl.
    split; [split; [done|by apply Forall_singleton]|lia].
  - unfold is_digit. destruct (bool_decide (48 ≤ c ≤ 57)) eqn:Hc.
    + apply bool_decide_eq_true in Hc. destruct (decide (digLen = 1%nat ∧ val = 0)); [done|]. cbv zeta. case_decide; [done|].
      apply IH; [|done..]. unfold is_byte in *. lia.
    + destruct (decide (c = 46)); [|done]. destruct (decide (digLen = 0%nat ∨ l = [])); [done|].
      destruct (decide (length pos = 3%nat)); [done|].
      apply IH; [done|apply Forall_app; split; [done|by apply Forall_singleton]|]. rewrite length_app. simpl. lia.
Qed.

Lemma hex_value_range c d : hex_value c = Some d → 0 ≤ d < 16.
Proof. unfold hex_value. repeat case_decide; intros; simplify_eq; lia. Qed.

Lemma hex_run_range s acc off v n rest :
  0 ≤ acc → hex_run s acc off = Some (v, n, rest) → acc < 65536 → is_group v.
Proof.
  revert acc off. induction s as [|c s IH]; intros acc off Ha; cbn [hex_run].
  { intros [= <- _ _] ?. by split. }
  destruct (hex_value c) as [d|] eqn:Hd; [|by intros [= <- _ _] ?; split].
  apply hex_value_range in Hd. cbv zeta. case_decide; [done|]. case_decide; [done|].
  intros Hr _. eapply IH; [|exact Hr|]; lia.
Qed.

Lemma group_bytes v : is_group v → Forall is_byte [v / 256; v mod 256].
Proof.
  unfold is_group, is_byte. intros Hv. repeat (constructor; [Z.to_euclidean_division_equations; lia|]).
  constructor.
Qed.

Lemma v6_loop_ok fuel s ip ell r :
  Forall is_byte ip → (length ip ≤ 16)%nat → (length ip `mod` 2 = 0)%nat →
  v6_loop fuel s ip ell = Some r → Forall is_byte r.1.2 ∧ (length r.1.2 ≤ 16)%nat.
Proof.
  revert s ip ell. induction fuel as [|fuel IH]; intros s ip ell Hip Hl Hm; cbn [v6_loop]; [done|].
  case_decide; [by intros [= <-]|].
  destruct (hex_run s 0 0) as [[[v [|n]] rest]|] eqn:Hr; [done| |done].
  apply hex_run_range in Hr; [|done..].
  assert (Forall is_byte (ip ++ [v / 256; v mod 256])) as Hip' by (apply Forall_app; split; [done|by apply group_bytes]).
  assert (length (ip ++ [v / 256; v mod 256]) = (length ip + 2)%nat) as Hl' by (by rewrite length_app).
  assert (length ip + 2 ≤ 16)%nat as Hb.
  { pose proof (Nat.div_mod_eq (length ip) 2). lia. }
  assert ((length ip + 2) `mod` 2 = 0)%nat as Hm'.
  { change 2%nat with (1 * 2)%nat at 1. by rewrite Nat.Div0.mod_add. }
  cbv zeta. repeat case_decide; try done.
  - intros (fields & Hf & [= <-])%bind_Some. cbn [fst snd].
    apply v4_fields_ok in Hf as [Hf Hlf]; [|by vm_compute; split|constructor|simpl; lia].
    rewrite Forall_app, length_app. split; [done|lia].
  - destruct rest as [|c [|c' rest]]; [intros [= <-]; cbn [fst snd]; split; [done|lia]|by repeat case_decide|].
    repeat case_decide; try done; try (destruct ell; [done|]); repeat case_decide; try done.
    all: first [intros [= <-]; cbn [fst snd]; split; [done|lia]|apply IH; [done|lia|by rewrite Hl']].
Qed.

Lemma big_16 l : Forall is_byte l → length l = 16%nat → 0 ≤ big l < 2 ^ 128.
Proof. intros Hl Hn. pose proof (big_bound l Hl) as Hb. by rewrite Hn in Hb. Qed.

Lemma v6_expand_ok r b :
  Forall is_byte r.1.2 → (length r.1.2 ≤ 16)%nat → v6_expand r = Some b → 0 ≤ b < 2 ^ 128.
Proof.
  destruct r as [[[|c s] ip] ell]; cbn [fst snd]; intros Hip Hl; unfold v6_expand; [|done].
  case_decide.
  - intros (e & _ & [= <-])%bind_Some. apply big_16.
    + apply Forall_app. split; [by apply Forall_take|]. apply Forall_app.
      split; [|by apply Forall_drop]. apply Forall_replicate. by vm_compute; split.
    + rewrite !length_app, length_take, length_drop, length_replicate. lia.
  - destruct ell; [done|]. intros [= <-]. apply big_16; [done|lia].
Qed.

Lemma v6_bits_ok s b : v6_bits s = Some b → 0 ≤ b < 2 ^ 128.
Proof.
  unfold v6_bits. assert (∀ s ell, v6_loop v6_rounds s [] ell ≫= v6_expand = Some b → 0 ≤ b < 2 ^ 128) as Hr.
  { intros s' ell (r & Hr & He)%bind_Some.
    apply v6_loop_ok in Hr as [? ?]; [by eapply v6_expand_ok|constructor|simpl; lia|done]. }
  destruct (strip _ s) as [[|c l]|]; [by intros [= <-]|apply Hr..].
Qed.

Lemma ParseAddr_ok s a : ParseAddr s = Some a → valid_addr a.
Proof.
  unfold ParseAddr. destruct (kind_of (bytes s)) as [k|]; [|done].
  assert (∀ l, parseIPv4 l = Some a → valid_addr a) as H4.
  { intros l. unfold parseIPv4. intros (f & Hf & [= ->])%fmap_Some.
    apply v4_fields_ok in Hf as [Hf Hl]; [|by vm_compute; split|constructor|simpl; lia].
    pose proof (big_bound f Hf) as Hb. by rewrite Hl in Hb. }
  assert (∀ l, parseIPv6 l = Some a → valid_addr a) as H6.
  { intros l. unfold parseIPv6. destruct (index_byte 37 l); [case_decide; [done|]|];
      intros (b & Hb & ->)%fmap_Some; by apply v6_bits_ok in Hb. }
  do 7 try (destruct k as [|k|k] || destruct k as [k|k|]; try done); first [apply H4|apply H6].
Qed.
