(* ===== verification/Dial.v ===== *)
(** * Which addresses a check may reach (internal/check/dial.go)

    The dialer looks at every address right before it connects, after name
    resolution.  [allowed] decides; the theorem says what an attacker who may
    add targets, or control the names they point to, cannot reach. *)

From S2P Require Import Prelude Netip AddrText Text.

Definition cgnat : NetPrefix := mkPrefix true (ip4 100 64 0 0) 10.
Definition nat64 : NetPrefix := mkPrefix false (6619035 * 2 ^ 96) 96.
Definition sixTo4 : NetPrefix := mkPrefix false (8194 * 2 ^ 112) 16.

(** In the order of the source; 64:ff9b:1::/48 last. *)
Definition blocked : list NetPrefix :=
  [mkPrefix true (ip4 0 0 0 0) 8;
   mkPrefix true (ip4 192 0 0 0) 24;
   mkPrefix true (ip4 198 18 0 0) 15;
   mkPrefix true (ip4 240 0 0 0) 4;
   mkPrefix false 0 96;
   mkPrefix false (65535 * 2 ^ 48) 96;
   mkPrefix false (8193 * 2 ^ 112) 32;
   mkPrefix false (65216 * 2 ^ 112) 10;
   mkPrefix false (6619035 * 2 ^ 96 + 2 ^ 80) 48].

(** The address behind a translation prefix: bytes 12 to 15 for NAT64, 2 to 5
    for 6to4. *)
Definition embedded (ip : Addr) : Addr :=
  if Contains nat64 ip then Addr4 (As16 ip mod 2 ^ 32)
  else if Contains sixTo4 ip then Addr4 ((As16 ip / 2 ^ 80) mod 2 ^ 32)
  else ip.

(** The switch and the loop at the end of [allowed]; [exempt] says whether the
    address is in [extra]. *)
Definition verdict (ip : Addr) (loopback exempt : bool) : bool :=
  if negb (IsValid ip) || IsUnspecified ip || IsLinkLocalUnicast ip || IsMulticast ip then false
  else if IsLoopback ip then loopback
  else if IsPrivate ip || Contains cgnat ip then exempt
  else negb (existsb (λ p, Contains p ip) blocked).

Definition allowed (ip : Addr) (loopback : bool) (extra block : list Addr) : bool :=
  let orig := Unmap (WithoutZone ip) in
  let ip := embedded orig in
  if bool_decide (orig ∈ block) || bool_decide (ip ∈ block) then false
  else verdict ip loopback (bool_decide (orig ∈ extra)).

(** ** Connecting *)

(** The network as a check sees it: the addresses a host:port resolves to when
    it is dialed, the resolver's answer for a host, and whether the connection
    to an address comes about. *)
Class Network : Type := {
  Resolve : string → list Addr;
  LookupNetIP : string → option (list Addr);
  Connects : Addr → bool
}.

Inductive dialerr : Type := ErrBlocked | ErrResolve | ErrConnect.

(** [strings.EqualFold] on ASCII; other bytes must be the same. *)
Definition fold_byte (b : Z) : Z := if decide (65 ≤ b ≤ 90) then b + 32 else b.

Definition EqualFold (s t : string) : bool :=
  bool_decide (fold_byte <$> bytes s = fold_byte <$> bytes t).

Section Connect.
Context `{!Network}.

(** [dialer(loopback, extra, block).DialContext]: the addresses in the order
    the dialer tries them, each shown to [Control] first; a refused one fails
    like an unreachable one, and the first error is reported. *)
Definition try_addr (loopback : bool) (extra block : list Addr) (a : Addr) : res dialerr Addr :=
  if negb (allowed a loopback extra block) then Err ErrBlocked
  else if Connects a then Ok a else Err ErrConnect.

Fixpoint dial_addrs (loopback : bool) (extra block : list Addr) (l : list Addr) :
    res dialerr Addr :=
  match l with
  | [] => Err ErrResolve
  | a :: l =>
      match try_addr loopback extra block a with
      | Ok c => Ok c
      | Err e => match dial_addrs loopback extra block l with Ok c => Ok c | Err _ => Err e end
      end
  end.

Definition dial (loopback : bool) (extra block : list Addr) (address : string) : res dialerr Addr :=
  dial_addrs loopback extra block (Resolve address).

(** [net.JoinHostPort]. *)
Definition JoinHostPort (host port : string) : string :=
  if bool_decide (is_Some (index_byte colon (bytes host)))
  then "[" +:+ host +:+ "]:" +:+ port else host +:+ ":" +:+ port.

(** The loop of [dialConnectTo] over the resolved addresses. *)
Fixpoint dial_each (loopback : bool) (extra block : list Addr) (port : string)
    (l : list Addr) (err : dialerr) : res dialerr Addr :=
  match l with
  | [] => Err err
  | ip :: l =>
      match dial loopback extra block (JoinHostPort (AddrString ip) port) with
      | Ok c => Ok c
      | Err e => dial_each loopback extra block port l e
      end
  end.

Definition dialConnectTo (privateAllow : list string) (loopback : bool) (block : list Addr)
    (connectTo : string) : res dialerr Addr :=
  if negb (existsb (λ s, EqualFold s connectTo) privateAllow) then
    dial loopback [] block connectTo
  else
    match SplitHostPort connectTo with
    | None => Err ErrBlocked
    | Some (host, port) =>
        match LookupNetIP host with
        | None => Err ErrResolve
        | Some ips =>
            let ips := (λ ip, Unmap (WithoutZone ip)) <$> ips in
            dial_each loopback ips block port ips ErrBlocked
        end
    end.
End Connect.

(** ** What is public *)

(** The reserved blocks of IPv4, as intervals of numbers, and their purpose. *)
Definition reserved4 : list (Z * Z) :=
  [(ip4 0 0 0 0, ip4 0 255 255 255);             (* this network *)
   (ip4 127 0 0 0, ip4 127 255 255 255);         (* loopback *)
   (ip4 169 254 0 0, ip4 169 254 255 255);       (* link local, cloud metadata *)
   (ip4 192 0 0 0, ip4 192 0 0 255);             (* protocol assignments *)
   (ip4 198 18 0 0, ip4 198 19 255 255);         (* benchmarking *)
   (ip4 224 0 0 0, ip4 239 255 255 255);         (* multicast *)
   (ip4 240 0 0 0, ip4 255 255 255 255)].        (* reserved, broadcast *)

Definition private4 : list (Z * Z) :=
  [(ip4 10 0 0 0, ip4 10 255 255 255);
   (ip4 172 16 0 0, ip4 172 31 255 255);
   (ip4 192 168 0 0, ip4 192 168 255 255);
   (ip4 100 64 0 0, ip4 100 127 255 255)].       (* carrier-grade NAT *)

Definition within (l : list (Z * Z)) (b : Z) : Prop := ∃ r, r ∈ l ∧ r.1 ≤ b ≤ r.2.

(** The IPv4 address a packet sent to [a] ends up at, through the forms that
    embed one: mapped, NAT64, 6to4, compatible, translated. *)
Definition reaches4 (a : Addr) : option Z :=
  match a with
  | NoAddr => None
  | Addr4 b => Some b
  | Addr6 b _ =>
      if decide (b / 2 ^ 32 = 65535) then Some (b mod 2 ^ 32)
      else if decide (b / 2 ^ 32 = 6619035 * 2 ^ 64) then Some (b mod 2 ^ 32)
      else if decide (b / 2 ^ 112 = 8194) then Some ((b / 2 ^ 80) mod 2 ^ 32)
      else if decide (b / 2 ^ 32 = 0) then Some (b mod 2 ^ 32)
      else if decide (b / 2 ^ 32 = 65535 * 2 ^ 16) then Some (b mod 2 ^ 32)
      else None
  end.

(** The reserved blocks of IPv6 that embed no IPv4 address: unspecified and
    loopback, unique local, link local, site local, multicast, Teredo, local
    NAT64. *)
Definition reserved6 : list (Z * Z) :=
  [(0, 1);
   (65152 * 2 ^ 112, 65216 * 2 ^ 112 - 1);
   (65216 * 2 ^ 112, 65280 * 2 ^ 112 - 1);
   (65280 * 2 ^ 112, 65536 * 2 ^ 112 - 1);
   (8193 * 2 ^ 112, 8193 * 2 ^ 112 + 2 ^ 96 - 1);
   (6619035 * 2 ^ 96 + 2 ^ 80, 6619035 * 2 ^ 96 + 2 * 2 ^ 80 - 1)].

Definition private6 : list (Z * Z) := [(64512 * 2 ^ 112, 65024 * 2 ^ 112 - 1)].

Definition addr_ok (a : Addr) : Prop :=
  match a with NoAddr => True | Addr4 b => 0 ≤ b < 2 ^ 32 | Addr6 b _ => 0 ≤ b < 2 ^ 128 end.

(** ** Prefixes as intervals *)

Lemma div_interval b q k : 0 < k → b / k = q ↔ q * k ≤ b < q * k + k.
Proof.
  intros Hk. split.
  - intros <-. pose proof (Z.mul_div_le b k Hk). pose proof (Z.mul_succ_div_gt b k Hk). lia.
  - intros H. symmetry. apply (Z.div_unique b k q (b - q * k)); lia.
Qed.

Lemma within_cons r l b : within (r :: l) b ↔ r.1 ≤ b ≤ r.2 ∨ within l b.
Proof.
  unfold within. split.
  - intros (x & [->|Hx]%elem_of_cons & Hb); [by left|right; eauto].
  - intros [Hb|(x & Hx & Hb)]; [exists r; split; [left|done]|exists x; split; [by right|done]].
Qed.

Lemma within_nil b : within [] b ↔ False.
Proof. unfold within. split; [|done]. by intros (x & ?%not_elem_of_nil & _). Qed.

Lemma div_within b q k lo hi :
  0 < k → lo = q * k → hi = q * k + k - 1 → bool_decide (b / k = q) = bool_decide (lo ≤ b ≤ hi).
Proof. intros Hk -> ->. apply bool_decide_ext. rewrite div_interval by done. lia. Qed.

Lemma same_prefix_within width len b p lo hi :
  0 ≤ width - len → lo = p / 2 ^ (width - len) * 2 ^ (width - len) →
  hi = lo + 2 ^ (width - len) - 1 → same_prefix width len b p = bool_decide (lo ≤ b ≤ hi).
Proof.
  intros Hw Hlo Hhi. unfold same_prefix. apply div_within; [|done|lia].
  apply Z.pow_pos_nonneg; lia.
Qed.

(** Every test of [verdict], as an interval. *)
Definition refused4 : list (Z * Z) :=
  [(0, 0); (ip4 169 254 0 0, ip4 169 254 255 255); (ip4 224 0 0 0, ip4 239 255 255 255)].

Definition tests4 (b : Z) (l : list (Z * Z)) : bool :=
  existsb (λ r, bool_decide (r.1 ≤ b ≤ r.2)) l.

Lemma tests4_within b l : tests4 b l = true ↔ within l b.
Proof.
  induction l as [|r l IH]; simpl; [by rewrite within_nil|].
  by rewrite within_cons, orb_true_iff, bool_decide_eq_true, IH.
Qed.

Lemma tests4_outside b l : tests4 b l = false ↔ ¬ within l b.
Proof. rewrite <-tests4_within. by destruct (tests4 b l). Qed.

(** [verdict] on an IPv4 address, with every test as an interval. *)
Lemma verdict4_tests b exempt :
  verdict (Addr4 b) false exempt =
  if tests4 b refused4 then false
  else if tests4 b [(ip4 127 0 0 0, ip4 127 255 255 255)] then false
  else if tests4 b private4 then exempt
  else negb (tests4 b [(ip4 0 0 0 0, ip4 0 255 255 255); (ip4 192 0 0 0, ip4 192 0 0 255);
    (ip4 198 18 0 0, ip4 198 19 255 255); (ip4 240 0 0 0, ip4 255 255 255 255)]).
Proof.
  unfold verdict, tests4, refused4, private4, IsUnspecified, IsLinkLocalUnicast, IsMulticast,
    IsLoopback, IsPrivate, Contains, cgnat, blocked.
  cbn [existsb fst snd pf_v4 pf_bits pf_len IsValid negb orb andb].
  rewrite (div_within b 43518 (2 ^ 16) (ip4 169 254 0 0) (ip4 169 254 255 255)) by done.
  rewrite (div_within b 14 (2 ^ 28) (ip4 224 0 0 0) (ip4 239 255 255 255)) by done.
  rewrite (div_within b 127 (2 ^ 24) (ip4 127 0 0 0) (ip4 127 255 255 255)) by done.
  rewrite (div_within b 10 (2 ^ 24) (ip4 10 0 0 0) (ip4 10 255 255 255)) by done.
  rewrite (div_within b 2753 (2 ^ 20) (ip4 172 16 0 0) (ip4 172 31 255 255)) by done.
  rewrite (div_within b 49320 (2 ^ 16) (ip4 192 168 0 0) (ip4 192 168 255 255)) by done.
  rewrite (same_prefix_within 32 10 b _ (ip4 100 64 0 0) (ip4 100 127 255 255)) by done.
  rewrite (same_prefix_within 32 8 b _ (ip4 0 0 0 0) (ip4 0 255 255 255)) by done.
  rewrite (same_prefix_within 32 24 b _ (ip4 192 0 0 0) (ip4 192 0 0 255)) by done.
  rewrite (same_prefix_within 32 15 b _ (ip4 198 18 0 0) (ip4 198 19 255 255)) by done.
  rewrite (same_prefix_within 32 4 b _ (ip4 240 0 0 0) (ip4 255 255 255 255)) by done.
  assert (bool_decide (Addr4 b = Addr4 0) = bool_decide (0 ≤ b ≤ 0)) as ->.
  { apply bool_decide_ext. split; [intros; simplify_eq; lia|intros; f_equal; lia]. }
  rewrite (bool_decide_false (Addr4 b = Addr6 0 "")) by done.
  by rewrite !orb_false_r, !orb_assoc.
Qed.

(** The decision on an IPv4 address: nothing reserved, and private addresses
    only when exempt. *)
Lemma verdict4 b exempt :
  verdict (Addr4 b) false exempt = true ↔
  ¬ within reserved4 b ∧ (within private4 b → exempt = true).
Proof.
  rewrite verdict4_tests.
  assert (Hp : within private4 b → ¬ within reserved4 b).
  { unfold private4, reserved4. rewrite !within_cons, !within_nil. unfold ip4. simpl. lia. }
  assert (Hr : within reserved4 b ↔ within refused4 b ∨
    within [(ip4 127 0 0 0, ip4 127 255 255 255)] b ∨
    within [(ip4 0 0 0 0, ip4 0 255 255 255); (ip4 192 0 0 0, ip4 192 0 0 255);
      (ip4 198 18 0 0, ip4 198 19 255 255); (ip4 240 0 0 0, ip4 255 255 255 255)] b).
  { unfold reserved4, refused4. rewrite !within_cons, !within_nil. unfold ip4. simpl. lia. }
  destruct (tests4 b refused4) eqn:H1; [apply tests4_within in H1; naive_solver|].
  apply tests4_outside in H1.
  destruct (tests4 b [(ip4 127 0 0 0, _)]) eqn:H2; [apply tests4_within in H2; naive_solver|].
  apply tests4_outside in H2.
  destruct (tests4 b private4) eqn:H3.
  { apply tests4_within in H3. specialize (Hp H3). tauto. }
  apply tests4_outside in H3. rewrite negb_true_iff, tests4_outside. tauto.
Qed.

(** [verdict] on an IPv6 address, with every test as an interval. *)
Lemma verdict6_tests b exempt :
  verdict (Addr6 b "") false exempt =
  if tests4 b [(0, 0); (65152 * 2 ^ 112, 65216 * 2 ^ 112 - 1);
               (65280 * 2 ^ 112, 65536 * 2 ^ 112 - 1)] then false
  else if bool_decide (b = 1) then false
  else if tests4 b private6 then exempt
  else negb (tests4 b [(0, 2 ^ 32 - 1); (65535 * 2 ^ 48, 65535 * 2 ^ 48 + 2 ^ 32 - 1);
    (8193 * 2 ^ 112, 8193 * 2 ^ 112 + 2 ^ 96 - 1);
    (65216 * 2 ^ 112, 65280 * 2 ^ 112 - 1);
    (6619035 * 2 ^ 96 + 2 ^ 80, 6619035 * 2 ^ 96 + 2 * 2 ^ 80 - 1)]).
Proof.
  unfold verdict, tests4, private6, IsUnspecified, IsLinkLocalUnicast, IsMulticast,
    IsLoopback, IsPrivate, Contains, cgnat, blocked.
  cbn [existsb fst snd pf_v4 pf_bits pf_len IsValid negb orb andb].
  rewrite (bool_decide_true ("" = "")) by done. cbn [andb].
  rewrite (div_within b 1018 (2 ^ 118) (65152 * 2 ^ 112) (65216 * 2 ^ 112 - 1)) by done.
  rewrite (div_within b 255 (2 ^ 120) (65280 * 2 ^ 112) (65536 * 2 ^ 112 - 1)) by done.
  rewrite (div_within b 126 (2 ^ 121) (64512 * 2 ^ 112) (65024 * 2 ^ 112 - 1)) by done.
  rewrite (same_prefix_within 128 96 b 0 0 (2 ^ 32 - 1)) by done.
  rewrite (same_prefix_within 128 96 b _ (65535 * 2 ^ 48) (65535 * 2 ^ 48 + 2 ^ 32 - 1)) by done.
  rewrite (same_prefix_within 128 32 b _ (8193 * 2 ^ 112) (8193 * 2 ^ 112 + 2 ^ 96 - 1)) by done.
  rewrite (same_prefix_within 128 10 b _ (65216 * 2 ^ 112) (65280 * 2 ^ 112 - 1)) by done.
  rewrite (same_prefix_within 128 48 b _ (6619035 * 2 ^ 96 + 2 ^ 80)
    (6619035 * 2 ^ 96 + 2 * 2 ^ 80 - 1)) by done.
  assert (bool_decide (Addr6 b "" = Addr6 0 "") = bool_decide (0 ≤ b ≤ 0)) as ->.
  { apply bool_decide_ext. split; [intros; simplify_eq; lia|intros; f_equal; lia]. }
  rewrite (bool_decide_false (Addr6 b "" = Addr4 0)) by done. cbn [orb].
  by rewrite !orb_false_r, !orb_assoc.
Qed.

Lemma verdict6 b exempt :
  0 ≤ b → verdict (Addr6 b "") false exempt = true →
  ¬ within reserved6 b ∧ (within private6 b → exempt = true) ∧
  b / 2 ^ 32 ≠ 0 ∧ b / 2 ^ 32 ≠ 65535 * 2 ^ 16.
Proof.
  intros H0. rewrite verdict6_tests.
  assert (Hc : b / 2 ^ 32 = 0 → within [(0, 2 ^ 32 - 1)] b).
  { rewrite div_interval by done. rewrite within_cons. simpl. lia. }
  assert (Ht : b / 2 ^ 32 = 65535 * 2 ^ 16 →
    within [(65535 * 2 ^ 48, 65535 * 2 ^ 48 + 2 ^ 32 - 1)] b).
  { rewrite div_interval by done. rewrite within_cons. simpl. lia. }
  assert (Hr : within reserved6 b →
    within [(0, 0); (65152 * 2 ^ 112, 65216 * 2 ^ 112 - 1); (65280 * 2 ^ 112, 65536 * 2 ^ 112 - 1)] b ∨
    b = 1 ∨ within [(8193 * 2 ^ 112, 8193 * 2 ^ 112 + 2 ^ 96 - 1);
    (65216 * 2 ^ 112, 65280 * 2 ^ 112 - 1);
    (6619035 * 2 ^ 96 + 2 ^ 80, 6619035 * 2 ^ 96 + 2 * 2 ^ 80 - 1)] b).
  { unfold reserved6. rewrite !within_cons, !within_nil. simpl. lia. }
  assert (Hp : within private6 b → ¬ within reserved6 b ∧ ¬ within [(0, 2 ^ 32 - 1)] b ∧
    ¬ within [(65535 * 2 ^ 48, 65535 * 2 ^ 48 + 2 ^ 32 - 1)] b).
  { unfold private6, reserved6. rewrite !within_cons, !within_nil. simpl. lia. }
  destruct (tests4 b [(0, 0); _; _]) eqn:H1; [done|]. apply tests4_outside in H1.
  case_bool_decide as H2; [done|].
  destruct (tests4 b private6) eqn:H3.
  - apply tests4_within in H3. intros ->. destruct (Hp H3) as (? & ? & ?). tauto.
  - apply tests4_outside in H3. rewrite negb_true_iff, tests4_outside.
    rewrite (within_cons (0, 2 ^ 32 - 1)), (within_cons (65535 * 2 ^ 48, _)).
    rewrite within_cons, within_nil in Hc, Ht. intros H4. tauto.
Qed.

Lemma embedded_cases b :
  embedded (Addr6 b "") =
  if decide (b / 2 ^ 32 = 6619035 * 2 ^ 64) then Addr4 (b mod 2 ^ 32)
  else if decide (b / 2 ^ 112 = 8194) then Addr4 ((b / 2 ^ 80) mod 2 ^ 32)
  else Addr6 b "".
Proof.
  unfold embedded, Contains, nat64, sixTo4, same_prefix.
  cbn [pf_v4 pf_bits pf_len negb andb As16].
  change (128 - 96) with 32. change (128 - 16) with 112.
  replace (6619035 * 2 ^ 96 / 2 ^ 32) with (6619035 * 2 ^ 64) by reflexivity.
  replace (8194 * 2 ^ 112 / 2 ^ 112) with 8194 by reflexivity.
  rewrite (bool_decide_true ("" = "")) by done. cbn [andb].
  rewrite !decide_bool_decide. done.
Qed.

(** What passes [allowed], in terms of where the packets end up. *)
Lemma allowed_spec ip extra block :
  addr_ok ip → allowed ip false extra block = true →
  let orig := Unmap (WithoutZone ip) in
  orig ∉ block ∧
  match reaches4 ip with
  | Some b => ¬ within reserved4 b ∧ (within private4 b → orig ∈ extra)
  | None => ∃ b z, ip = Addr6 b z ∧ ¬ within reserved6 b ∧ (within private6 b → orig ∈ extra)
  end.
Proof.
  intros Hok. unfold allowed. case_bool_decide as Hb1; [done|].
  case_bool_decide as Hb2; [done|]. cbn [orb]. intros Hv.
  split; [done|]. destruct ip as [|b|b z]; [done| |].
  - cbn [WithoutZone Unmap] in *. unfold embedded in Hv. cbn [Contains nat64 sixTo4 pf_v4 andb] in Hv.
    apply verdict4 in Hv as [Hr Hp]. rewrite bool_decide_eq_true in Hp. done.
  - cbn [WithoutZone] in *. unfold reaches4. cbn [addr_ok] in Hok.
    cbn [Unmap Is4In6] in *. case_bool_decide as Hm.
    + rewrite decide_True by done. unfold embedded in Hv.
      cbn [Contains nat64 sixTo4 pf_v4 andb] in Hv.
      apply verdict4 in Hv as [Hr Hp]. rewrite bool_decide_eq_true in Hp. done.
    + rewrite decide_False by done. rewrite embedded_cases in Hv.
      destruct (decide (b / 2 ^ 32 = 6619035 * 2 ^ 64)) as [Hn|Hn].
      { apply verdict4 in Hv as [Hr Hp]. rewrite bool_decide_eq_true in Hp. done. }
      destruct (decide (b / 2 ^ 112 = 8194)) as [H6|H6].
      { apply verdict4 in Hv as [Hr Hp]. rewrite bool_decide_eq_true in Hp. done. }
      apply verdict6 in Hv as (Hr & Hp & Hc & Ht); [|lia]. rewrite bool_decide_eq_true in Hp.
      rewrite !decide_False by done. by exists b, z.
Qed.

(** ** Properties *)

(** C29: an address the dialer lets through (outside the test-only
    loopback mode) is neither blocked nor, in whichever form it embeds an IPv4
    address, a way to a reserved network: loopback, link-local and cloud
    metadata, multicast, "this network", benchmarking and the like; private
    and carrier-grade NAT networks are reached only through an address the
    operator exempted.  The same holds of the reserved and unique-local blocks
    of IPv6. *)
Theorem allowed_safe ip extra block :
  addr_ok ip → allowed ip false extra block = true →
  let orig := Unmap (WithoutZone ip) in
  orig ∉ block ∧
  match reaches4 ip with
  | Some b => ¬ within reserved4 b ∧ (within private4 b → orig ∈ extra)
  | None => ∃ b z, ip = Addr6 b z ∧ ¬ within reserved6 b ∧ (within private6 b → orig ∈ extra)
  end.
Proof. apply allowed_spec. Qed.

Lemma allowed_safe_witness :
  let ip := Addr4 (ip4 93 184 216 34) in
  allowed ip false [] [] = true ∧ ¬ within reserved4 (ip4 93 184 216 34) ∧
  allowed (Addr6 (65535 * 2 ^ 32 + ip4 169 254 169 254) "") false [] [] = false.
Proof.
  intros ip. assert (allowed ip false [] [] = true) as Ha by reflexivity.
  split; [done|]. split; [|reflexivity].
  apply (allowed_safe ip [] [] ltac:(by vm_compute) Ha).
Defined.

(** Nothing else is refused: an IPv4 address is let through
    exactly when it is not blocked, not reserved, and public or exempt. *)
Theorem allowed_public b extra block :
  allowed (Addr4 b) false extra block = true ↔
  Addr4 b ∉ block ∧ ¬ within reserved4 b ∧ (within private4 b → Addr4 b ∈ extra).
Proof.
  unfold allowed. cbn [WithoutZone Unmap]. unfold embedded.
  cbn [Contains nat64 sixTo4 pf_v4 andb]. case_bool_decide as Hb; cbn [orb]; [naive_solver|].
  rewrite verdict4, bool_decide_eq_true. naive_solver.
Qed.

Section ConnectSafe.
Context `{!Network}.

Lemma dial_addrs_allowed loopback extra block l a :
  dial_addrs loopback extra block l = Ok a → allowed a loopback extra block = true ∧ a ∈ l.
Proof.
  induction l as [|x l IH]; simpl; [done|]. unfold try_addr.
  destruct (allowed x loopback extra block) eqn:Hx; simpl; [destruct (Connects x)|].
  - intros; simplify_eq. split; [done|left].
  - destruct (dial_addrs _ _ _ l); [|done]. intros [? ?]%IH. split; [done|by right].
  - destruct (dial_addrs _ _ _ l); [|done]. intros [? ?]%IH. split; [done|by right].
Qed.

Lemma dial_each_allowed loopback extra block port l err a :
  dial_each loopback extra block port l err = Ok a → allowed a loopback extra block = true.
Proof.
  revert err. induction l as [|x l IH]; intros err; simpl; [done|].
  destruct (dial _ _ _ _) as [c|e] eqn:Hd; [|apply IH].
  intros; simplify_eq. by apply dial_addrs_allowed in Hd as [? _].
Qed.

(** A check connects to a private IPv4 network only
    through a connect-to value the operator listed in PRIVATE_ALLOW, and then
    only to an address its host resolved to; a reserved network or a blocked
    address it never connects to. *)
Theorem connect_exemption privateAllow block connectTo a b :
  dialConnectTo privateAllow false block connectTo = Ok a →
  addr_ok a → reaches4 a = Some b →
  ¬ within reserved4 b ∧ Unmap (WithoutZone a) ∉ block ∧
  (within private4 b →
   (∃ s, s ∈ privateAllow ∧ EqualFold s connectTo = true) ∧
   ∃ host port l, SplitHostPort connectTo = Some (host, port) ∧ LookupNetIP host = Some l ∧
     Unmap (WithoutZone a) ∈ (λ ip, Unmap (WithoutZone ip)) <$> l).
Proof.
  unfold dialConnectTo. intros Hd Hok Hb.
  destruct (existsb (λ s, EqualFold s connectTo) privateAllow) eqn:Hex; cbn [negb] in Hd.
  - destruct (SplitHostPort connectTo) as [[host port]|]; [|done].
    destruct (LookupNetIP host) as [l|] eqn:Hl; [|done].
    apply dial_each_allowed in Hd. destruct (allowed_spec _ _ _ Hok Hd) as [Hnb Hr].
    rewrite Hb in Hr. destruct Hr as [Hres Hpriv]. split_and!; [done|done|].
    intros Hp. split; [|by exists host, port, l; auto].
    apply existsb_exists in Hex as (x & Hx%list_elem_of_In & Hf). eauto.
  - apply dial_addrs_allowed in Hd as [Hd _]. destruct (allowed_spec _ _ _ Hok Hd) as [Hnb Hr].
    rewrite Hb in Hr. destruct Hr as [Hres Hpriv]. split_and!; [done|done|].
    intros Hp%Hpriv. by apply not_elem_of_nil in Hp.
Qed.
End ConnectSafe.

(** A network in which "intern" is a private address. *)
Definition toy_network : Network :=
  {| Resolve := λ _, [Addr4 (ip4 10 0 0 7)];
     LookupNetIP := λ _, Some [Addr4 (ip4 10 0 0 7)];
     Connects := λ _, true |}.

Lemma connect_exemption_witness :
  let a := Addr4 (ip4 10 0 0 7) in
  @dialConnectTo toy_network ["Intern:80"] false [] "intern:80" = Ok a ∧
  @dialConnectTo toy_network [] false [] "intern:80" = Err ErrBlocked ∧
  ¬ within reserved4 (ip4 10 0 0 7).
Proof.
  intros a.
  assert (@dialConnectTo toy_network ["Intern:80"] false [] "intern:80" = Ok a) as H
    by reflexivity.
  split; [done|]. split; [reflexivity|].
  apply (@connect_exemption toy_network ["Intern:80"] [] "intern:80" a (ip4 10 0 0 7)
    H ltac:(by vm_compute) eq_refl).
Defined.
