(* ===== verification/Validate.v ===== *)
(** * Checking a target's settings (internal/check/validate.go, http.go)

    [Validate] is what stands between the admin's form and the table of
    targets; [parseStatus] and [statusOK] interpret the expected status. *)

From S2P Require Import Prelude Text Netip AddrText GoTime Sql Schema WellFormed.

(** ** Expected status codes (http.go) *)

Record statusRange : Type := mkRange { lo : Z; hi : Z }.

(** One element of the list. *)
Definition parse_range (part : string) : option statusRange :=
  let '(l, h) := Cut (TrimSpace part) "-" in
  a ← parse_int (TrimSpace l);
  b ← match h with Some h => parse_int (TrimSpace h) | None => Some a end;
  if decide (a < 100 ∨ 599 < b ∨ b < a) then None else Some (mkRange a b).

Definition parseStatus (s : string) : option (list statusRange) := mapM parse_range (Split s ",").

Definition statusOK (ranges : list statusRange) (code : Z) : bool :=
  existsb (λ r, bool_decide (lo r ≤ code ≤ hi r)) ranges.

(** ** Hosts, ports and text (validate.go) *)

Definition is_alnum (b : Z) : bool :=
  bool_decide (48 ≤ b ≤ 57) || bool_decide (65 ≤ b ≤ 90) || bool_decide (97 ≤ b ≤ 122).

(** [[A-Za-z0-9_]([A-Za-z0-9_-]{0,61}[A-Za-z0-9])?]. *)
Definition is_label (l : list Z) : bool :=
  match l with
  | [] => false
  | [a] => is_alnum a || bool_decide (a = 95)
  | a :: l =>
      (is_alnum a || bool_decide (a = 95)) && bool_decide (length l ≤ 62)%nat &&
      forallb (λ b, is_alnum b || bool_decide (b = 95) || bool_decide (b = 45)) l &&
      from_option is_alnum false (last l)
  end.

(** The expression [hostname]: labels separated by dots, and perhaps a final
    dot. *)
Definition hostname (s : string) : bool :=
  let ls := split_at 46 (bytes s) in
  match reverse ls with
  | [] :: (_ :: _) as ls' => forallb is_label (tail ls')
  | ls' => forallb is_label ls'
  end.

Definition hidden (r : Z) : bool := IsControl r || IsCf r.

Definition validPort (p : string) : bool :=
  match parse_uint16 p with Some n => bool_decide (0 < n) | None => false end.

Section Validate.
Context `{!NetLib}.

Definition validHost (h : string) : bool :=
  match ParseAddr h with
  | Some ip => bool_decide (Zone ip = "")
  | None => bool_decide (String.length h ≤ 253)%nat && hostname h
  end.

Definition hostPort (s : string) : bool :=
  match SplitHostPort s with
  | Some (host, port) => validHost host && validPort port
  | None => false
  end.

Definition checkURL (s : string) : string :=
  if decide (2000 < String.length s)%nat then "Adresse zu lang" else
  match url_Parse s with
  | None => "Adresse mit http:// oder https:// erwartet"
  | Some u =>
      if decide ((u_Scheme u ≠ "http" ∧ u_Scheme u ≠ "https") ∨ u_Opaque u ≠ "")
      then "Adresse mit http:// oder https:// erwartet"
      else if u_HasUser u then "Keine Zugangsdaten in der Adresse"
      else if negb (validHost (u_Hostname u)) then "Host ungültig"
      else if negb (bool_decide (u_Port u = "")) && negb (validPort (u_Port u))
      then "Port 1 bis 65535" else ""
  end.

(** Set a message when the condition holds. *)
Definition complain (b : bool) (key msg : string) (errs : gmap string string) : gmap string string :=
  if b then <[key := msg]> errs else errs.

Definition timeout_max (t : Target) : Z := Z.min 60000 (wrap64 (IntervalS t * 1000) - 1).

Definition check_kind (t : Target) (errs : gmap string string) : gmap string string :=
  if decide (Kind t = KindHTTP) then
    let msg := checkURL (Address t) in
    let errs := complain (negb (bool_decide (msg = ""))) "address" msg errs in
    complain (negb (bool_decide (is_Some (parseStatus (ExpectStatus t)))) ||
              bool_decide (100 < String.length (ExpectStatus t))%nat)
      "expect_status" "Unbekanntes Format, erlaubt sind Codes, Bereiche und Listen" errs
  else if decide (Kind t = KindTCP ∨ Kind t = KindFiveM) then
    complain (negb (hostPort (Address t))) "address" "Adresse als host:port erwartet" errs
  else <["kind" := "HTTP, TCP oder FiveM"]> errs.

Definition check_keyword (t : Target) (errs : gmap string string) : gmap string string :=
  if decide (200 < RuneCount (Keyword t)) then <["keyword" := "Höchstens 200 Zeichen"]> errs
  else complain (negb (bool_decide (Keyword t = "")) && negb (bool_decide (Kind t = KindHTTP)))
         "keyword" "Nur bei HTTP" errs.

Definition check_connect (t : Target) (errs : gmap string string) : gmap string string :=
  if decide (ConnectTo t = "") then errs
  else if decide (Kind t = KindTCP) then <["connect_to" := "Nur bei HTTP und FiveM"]> errs
  else complain (negb (hostPort (ConnectTo t))) "connect_to" "Leer oder host:port" errs.

Definition check_numbers (t : Target) (errs : gmap string string) : gmap string string :=
  let errs :=
    if decide (IntervalS t < 30 ∨ 86400 < IntervalS t)
    then <["interval_s" := "Liegt außerhalb von 30 bis 86400"]> errs
    else complain (bool_decide (TimeoutMs t < 500 ∨ timeout_max t < TimeoutMs t))
           "timeout_ms" ("500 bis " +:+ itoa (timeout_max t) +:+ " ms") errs in
  complain (bool_decide (FailThreshold t < 1 ∨ 20 < FailThreshold t))
    "fail_threshold" "Liegt außerhalb von 1 bis 20" errs.

(** The loop over the four text fields. *)
Definition check_hidden (t : Target) (errs : gmap string string) : gmap string string :=
  foldl (λ errs kv, complain (ContainsFunc hidden kv.2) kv.1 "Keine Steuer- oder Formatzeichen" errs)
    errs [("name", Name t); ("address", Address t); ("keyword", Keyword t); ("connect_to", ConnectTo t)].

Definition Validate (t : Target) : gmap string string :=
  let name := TrimSpace (Name t) in
  let errs := complain (bool_decide (name = "") || bool_decide (60 < RuneCount name))
                "name" "1 bis 60 Zeichen" ∅ in
  check_hidden t (check_numbers t (check_connect t (check_keyword t (check_kind t errs)))).
End Validate.

(** ** Lemmas *)

Lemma complain_empty b key msg errs : complain b key msg errs = ∅ ↔ b = false ∧ errs = ∅.
Proof.
  unfold complain. destruct b; [|naive_solver]. split; [|by intros [? _]].
  intros He. by apply insert_non_empty in He.
Qed.

Lemma insert_empty_iff (key msg : string) (errs : gmap string string) :
  <[key := msg]> errs = ∅ ↔ False.
Proof. split; [|done]. apply insert_non_empty. Qed.

Section Lemmas.
Context `{!NetLib}.

Lemma check_hidden_empty t errs :
  check_hidden t errs = ∅ ↔ errs = ∅ ∧
    ∀ s, s ∈ [Name t; Address t; Keyword t; ConnectTo t] → ContainsFunc hidden s = false.
Proof.
  unfold check_hidden. simpl. rewrite !complain_empty. split.
  - intros (? & ? & ? & ? & ?). split; [done|]. intros s Hs.
    repeat (apply elem_of_cons in Hs as [->|Hs]; [done|]). by apply not_elem_of_nil in Hs.
  - intros [-> Hh]. repeat split; apply Hh; rewrite !elem_of_cons; auto 6.
Qed.

(** The settings a target without complaints has. *)
Record valid_target (t : Target) : Prop := mkValid {
  va_row : target_row_ok t = true;
  va_timeout : TimeoutMs t < IntervalS t * 1000 ∧ TimeoutMs t ≤ 60000;
  va_interval : IntervalS t ≤ 86400;
  va_name : TrimSpace (Name t) ≠ "" ∧ RuneCount (TrimSpace (Name t)) ≤ 60;
  va_address : if decide (Kind t = KindHTTP)
               then checkURL (Address t) = "" ∧ is_Some (parseStatus (ExpectStatus t)) ∧
                    (String.length (ExpectStatus t) ≤ 100)%nat
               else hostPort (Address t) = true;
  va_keyword : RuneCount (Keyword t) ≤ 200 ∧ (Keyword t ≠ "" → Kind t = KindHTTP);
  va_connect : ConnectTo t ≠ "" → Kind t ≠ KindTCP ∧ hostPort (ConnectTo t) = true;
  va_hidden : ∀ s, s ∈ [Name t; Address t; Keyword t; ConnectTo t] → ContainsFunc hidden s = false
}.

Lemma check_numbers_empty t errs :
  in_int64 (TimeoutMs t) →
  check_numbers t errs = ∅ ↔ errs = ∅ ∧ 30 ≤ IntervalS t ≤ 86400 ∧
    500 ≤ TimeoutMs t ≤ Z.min 60000 (IntervalS t * 1000 - 1) ∧ 1 ≤ FailThreshold t ≤ 20.
Proof.
  intros Ht. unfold check_numbers. rewrite complain_empty, bool_decide_eq_false.
  case_decide as Hi.
  - rewrite insert_empty_iff. lia.
  - rewrite complain_empty, bool_decide_eq_false. unfold timeout_max.
    rewrite wrap64_id by (unfold in_int64, int64_min, int64_max; lia). naive_solver lia.
Qed.

Lemma check_kind_empty t errs :
  check_kind t errs = ∅ ↔ errs = ∅ ∧ Kind t ∈ [KindHTTP; KindTCP; KindFiveM] ∧
    if decide (Kind t = KindHTTP)
    then checkURL (Address t) = "" ∧ is_Some (parseStatus (ExpectStatus t)) ∧
         (String.length (ExpectStatus t) ≤ 100)%nat
    else hostPort (Address t) = true.
Proof.
  unfold check_kind. rewrite !elem_of_cons. case_decide as Hk.
  - rewrite !complain_empty, orb_false_iff, !negb_false_iff, !bool_decide_eq_true,
      bool_decide_eq_false, Nat.nlt_ge. naive_solver.
  - case_decide as Hk2.
    + rewrite complain_empty, negb_false_iff. naive_solver.
    + rewrite insert_empty_iff. split; [done|].
      intros (_ & [?|[?|[?|?%not_elem_of_nil]]] & _); naive_solver.
Qed.

Lemma check_keyword_empty t errs :
  check_keyword t errs = ∅ ↔ errs = ∅ ∧
    (RuneCount (Keyword t) ≤ 200 ∧ (Keyword t ≠ "" → Kind t = KindHTTP)).
Proof.
  unfold check_keyword. case_decide; [rewrite insert_empty_iff; lia|].
  rewrite complain_empty, andb_false_iff, !negb_false_iff, !bool_decide_eq_true.
  destruct (decide (Keyword t = "")); naive_solver lia.
Qed.

Lemma check_connect_empty t errs :
  check_connect t errs = ∅ ↔ errs = ∅ ∧
    (ConnectTo t ≠ "" → Kind t ≠ KindTCP ∧ hostPort (ConnectTo t) = true).
Proof.
  unfold check_connect. case_decide as Hc; [naive_solver|].
  case_decide as Hc2; [rewrite insert_empty_iff; naive_solver|].
  rewrite complain_empty, negb_false_iff. naive_solver.
Qed.
End Lemmas.

(** What passes is valid, and only that. *)
Lemma Validate_valid `{!NetLib} t :
  in_int64 (TimeoutMs t) → Validate t = ∅ ↔ valid_target t.
Proof.
  intros Ht. unfold Validate.
  rewrite check_hidden_empty, check_numbers_empty, check_connect_empty, check_keyword_empty, check_kind_empty by done.
  rewrite complain_empty, orb_false_iff, !bool_decide_eq_false. split.
  - intros ((((((Hn & _) & Hk & Ha) & Hw) & Hc) & Hi & Hm & Hf) & Hh).
    split; try done; [|lia..|naive_solver lia]. rewrite target_row_ok_spec. naive_solver lia.
  - intros [Hrow Hm Hi Hn Ha Hw Hc Hh]. rewrite target_row_ok_spec in Hrow.
    destruct Hrow as (Hk & Hi' & Hm' & Hf). repeat split; try done; try lia; naive_solver lia.
Qed.

(** ** Properties *)

(** C36: a target passes validation exactly when its settings are
    consistent: a known kind with an address of that kind, a name of one to
    sixty characters, bounded texts without control or format characters, and
    an interval, timeout and threshold within limits, the timeout shorter than
    the interval.  In particular every target that passes satisfies the CHECK
    constraints of the table. *)
Theorem validate_exact `{!NetLib} t :
  in_int64 (TimeoutMs t) → Validate t = ∅ ↔ valid_target t.
Proof. apply Validate_valid. Qed.

(** A library that parses no address and every URL as one of example.org. *)
Definition plain_netlib : NetLib := {|
  url_Parse := λ _, None; ParseMail := λ _, None; ParseMailList := λ _, None
|}.

Definition tcp_target : Target :=
  mkTarget 1 "db" KindTCP "db.example.org:5432" "" "" "" 60 5000 2 false true 0 0 0.

Lemma validate_exact_witness :
  @Validate plain_netlib tcp_target = ∅ ∧ @valid_target plain_netlib tcp_target.
Proof.
  assert (Hv : @Validate plain_netlib tcp_target = ∅) by (vm_compute; reflexivity).
  split; [exact Hv|]. apply (@validate_exact plain_netlib); [|exact Hv].
  split; vm_compute; congruence.
Defined.
