(* ===== verification/Json.v ===== *)
(** * JSON

    What the program uses of encoding/json: a [Decoder] that reads the first
    value of a stream, with the errors it gives, the matching of keys to
    fields, and [Marshal] for the values the fake FiveM server sends.  Texts
    are sequences of bytes. *)

From S2P Require Import Prelude Text.

(** ** Scanning *)

(** What is read and what follows; or an error of the syntax; or the text
    ends too early. *)
Inductive parsed (A : Type) : Type :=
| Got (x : A) (rest : list Z)
| Wrong
| Short.
Arguments Got {A}.
Arguments Wrong {A}.
Arguments Short {A}.

Definition then_ {A B} (p : parsed A) (f : A → list Z → parsed B) : parsed B :=
  match p with Got x rest => f x rest | Wrong => Wrong | Short => Short end.

(** A value.  Numbers are not looked into; a member of an object has its key,
    the text of its value and the value. *)
Inductive value : Type :=
| VNull
| VBool (b : bool)
| VNumber (text : list Z)
| VString (s : list Z)
| VArray (l : list value)
| VObject (l : list (list Z * (list Z * value))).

Definition is_json_space (c : Z) : bool := bool_decide (c ∈ [32; 9; 10; 13]).

Fixpoint skip_space (l : list Z) : list Z :=
  match l with
  | c :: l' => if is_json_space c then skip_space l' else l
  | [] => []
  end.

(** The rest of a literal such as null. *)
Fixpoint literal {A} (x : A) (p l : list Z) : parsed A :=
  match p, l with
  | [], _ => Got x l
  | _ :: _, [] => Short
  | c :: p, d :: l => if decide (c = d) then literal x p l else Wrong
  end.

(** *** Numbers *)

Definition is_digit (c : Z) : bool := bool_decide (48 ≤ c ≤ 57).

Fixpoint skip_digits (l : list Z) : list Z :=
  match l with
  | c :: l' => if is_digit c then skip_digits l' else l
  | [] => []
  end.

(** At least one digit. *)
Definition some_digits (l : list Z) : parsed () :=
  match l with
  | c :: l => if is_digit c then Got () (skip_digits l) else Wrong
  | [] => Short
  end.

Definition fraction (l : list Z) : parsed () :=
  match l with
  | c :: l' => if decide (c = 46) then some_digits l' else Got () l
  | [] => Got () l
  end.

Definition exponent (l : list Z) : parsed () :=
  match l with
  | c :: l' =>
      if decide (c = 101 ∨ c = 69) then
        match l' with
        | d :: l'' => some_digits (if decide (d = 43 ∨ d = 45) then l'' else l')
        | [] => Short
        end
      else Got () l
  | [] => Got () l
  end.

(** No digit follows a leading zero. *)
Definition integer (l : list Z) : parsed () :=
  match l with
  | c :: l' => if decide (c = 48) then Got () l' else some_digits l
  | [] => some_digits l
  end.

Definition unsigned (l : list Z) : list Z :=
  match l with
  | c :: l' => if decide (c = 45) then l' else l
  | [] => l
  end.

Definition number (l : list Z) : parsed () :=
  then_ (integer (unsigned l)) (λ _ l,
  then_ (fraction l) (λ _ l, exponent l)).

(** *** Strings *)

(** A byte as it stands or the code unit of an escape. *)
Inductive item : Type := Byte (b : Z) | Unit (u : Z).

Definition hex_digit (c : Z) : option Z :=
  if decide (48 ≤ c ≤ 57) then Some (c - 48)
  else if decide (97 ≤ c ≤ 102) then Some (c - 87)
  else if decide (65 ≤ c ≤ 70) then Some (c - 55)
  else None.

(** The byte after the backslash of a short escape. *)
Definition short_escape (c : Z) : option Z :=
  if decide (c = 34 ∨ c = 92 ∨ c = 47) then Some c
  else if decide (c = 98) then Some 8
  else if decide (c = 102) then Some 12
  else if decide (c = 110) then Some 10
  else if decide (c = 114) then Some 13
  else if decide (c = 116) then Some 9
  else None.

(** Where the scanner is in a string: in the text, after a backslash, or
    with [n] digits of a code unit to come. *)
Inductive strstate : Type := SText | SEscape | SHex (n : nat) (u : Z).

Definition add_item (i : item) (p : parsed (list item)) : parsed (list item) :=
  then_ p (λ l rest, Got (i :: l) rest).

Fixpoint items (st : strstate) (l : list Z) : parsed (list item) :=
  match l with
  | [] => Short
  | c :: l =>
      match st with
      | SText =>
          if decide (c = 34) then Got [] l
          else if decide (c = 92) then items SEscape l
          else if decide (c < 32) then Wrong
          else add_item (Byte c) (items SText l)
      | SEscape =>
          if decide (c = 117) then items (SHex 4 0) l
          else match short_escape c with
               | Some b => add_item (Unit b) (items SText l)
               | None => Wrong
               end
      | SHex n u =>
          match hex_digit c with
          | Some d =>
              match n with
              | S (S n) => items (SHex (S n) (16 * u + d)) l
              | _ => add_item (Unit (16 * u + d)) (items SText l)
              end
          | None => Wrong
          end
      end
  end.

(** [utf8.AppendRune]. *)
Definition encode_rune (r : Z) : list Z :=
  if decide (r < 128) then [r]
  else if decide (r < 2048) then [192 + r / 64; 128 + r mod 64]
  else if decide (r < 65536) then [224 + r / 4096; 128 + r / 64 mod 64; 128 + r mod 64]
  else [240 + r / 262144; 128 + r / 4096 mod 64; 128 + r / 64 mod 64; 128 + r mod 64].

Definition surrogate (u : Z) : bool := bool_decide (55296 ≤ u < 57344).

(** [utf16.DecodeRune]. *)
Definition pair_rune (u u' : Z) : option Z :=
  if decide (55296 ≤ u < 56320 ∧ 56320 ≤ u' < 57344)
  then Some ((u - 55296) * 1024 + (u' - 56320) + 65536) else None.

Definition as_byte (i : item) : option Z := match i with Byte b => Some b | Unit _ => None end.

(** The bytes up to the next escape. *)
Fixpoint leading_bytes (l : list item) : list Z :=
  match l with
  | Byte b :: l => b :: leading_bytes l
  | _ => []
  end.

(** [unquote]: what is not UTF-8 and a surrogate without its pair become
    U+FFFD.  Every round takes at least one item. *)
Fixpoint unquote (fuel : nat) (l : list item) : list Z :=
  match fuel, l with
  | O, _ | _, [] => []
  | S fuel, Unit u :: l =>
      if surrogate u then
        match l with
        | Unit u' :: l' =>
            match pair_rune u u' with
            | Some r => encode_rune r ++ unquote fuel l'
            | None => encode_rune RuneError ++ unquote fuel l
            end
        | _ => encode_rune RuneError ++ unquote fuel l
        end
      else encode_rune u ++ unquote fuel l
  | S fuel, _ =>
      let '(r, n) := decode_rune (leading_bytes l) in encode_rune r ++ unquote fuel (drop n l)
  end.

(** What follows an opening quote. *)
Definition text (l : list Z) : parsed (list Z) :=
  then_ (items SText l) (λ its rest, Got (unquote (length its) its) rest).

(** *** Values *)

(** The text between [l] and its tail [rest]. *)
Definition span (l rest : list Z) : list Z := take (length l - length rest) l.

Section Loops.
Variable read : list Z → parsed value.

(** The values up to the end of an array; each takes at least one byte. *)
Fixpoint elements (fuel : nat) (l : list Z) : parsed (list value) :=
  match fuel with
  | O => Short
  | S fuel =>
      then_ (read (skip_space l)) (λ v l,
      match skip_space l with
      | 44 :: l => then_ (elements fuel l) (λ vs rest, Got (v :: vs) rest)
      | 93 :: l => Got [v] l
      | [] => Short
      | _ => Wrong
      end)
  end.

(** The members up to the end of an object. *)
Fixpoint members (fuel : nat) (l : list Z) : parsed (list (list Z * (list Z * value))) :=
  match fuel with
  | O => Short
  | S fuel =>
      match skip_space l with
      | 34 :: l =>
          then_ (text l) (λ k l,
          match skip_space l with
          | 58 :: l =>
              let l := skip_space l in
              then_ (read l) (λ v rest,
              let m := (k, (span l rest, v)) in
              match skip_space rest with
              | 44 :: l => then_ (members fuel l) (λ ms rest, Got (m :: ms) rest)
              | 125 :: l => Got [m] l
              | [] => Short
              | _ => Wrong
              end)
          | [] => Short
          | _ => Wrong
          end)
      | [] => Short
      | _ => Wrong
      end
  end.
End Loops.

(** A value without space before it, in at most [depth] arrays and objects. *)
Fixpoint read_value (depth : nat) (l : list Z) : parsed value :=
  match l with
  | [] => Short
  | c :: l' =>
      if decide (c = 123) then
        match depth with
        | O => Wrong
        | S depth =>
            let l := skip_space l' in
            if decide (head l = Some 125) then Got (VObject []) (tail l)
            else then_ (members (read_value depth) (length l) l) (λ ms rest, Got (VObject ms) rest)
        end
      else if decide (c = 91) then
        match depth with
        | O => Wrong
        | S depth =>
            let l := skip_space l' in
            if decide (head l = Some 93) then Got (VArray []) (tail l)
            else then_ (elements (read_value depth) (length l) l) (λ vs rest, Got (VArray vs) rest)
        end
      else if decide (c = 34) then then_ (text l') (λ s rest, Got (VString s) rest)
      else if decide (c = 116) then literal (VBool true) (bytes "rue") l'
      else if decide (c = 102) then literal (VBool false) (bytes "alse") l'
      else if decide (c = 110) then literal VNull (bytes "ull") l'
      else if bool_decide (c = 45) || is_digit c then
        then_ (number l) (λ _ rest, Got (VNumber (span l rest)) rest)
      else Wrong
  end.

(** [maxNestingDepth]. *)
Definition max_depth : nat := Z.to_nat 10000.

(** ** Decoding *)

(** The errors of [Decode]: a syntax or type error, a value that is cut off,
    no value at all, and that of the reader. *)
Inductive jsonerr (E : Type) : Type :=
| ErrJson
| ErrUnexpectedEOF
| ErrEOF
| ErrReader (e : E).
Arguments ErrJson {E}.
Arguments ErrUnexpectedEOF {E}.
Arguments ErrEOF {E}.
Arguments ErrReader {E}.

Definition is_scalar (v : value) : bool :=
  match v with VArray _ | VObject _ | VString _ => false | _ => true end.

(** The first value of what a reader gives before it ends or fails.  The end
    of a number or a literal shows in the byte after it. *)
Definition first_value {E} (body : list Z) (err : option E) : res (jsonerr E) value :=
  let l := skip_space body in
  match read_value max_depth l with
  | Wrong => Err ErrJson
  | Short => Err (match err with
                  | Some e => ErrReader e
                  | None => if decide (l = []) then ErrEOF else ErrUnexpectedEOF
                  end)
  | Got v rest =>
      match err, rest with
      | Some e, [] => if is_scalar v then Err (ErrReader e) else Ok v
      | _, _ => Ok v
      end
  end.

(** [foldName], as far as it leads to ASCII: besides the letters only U+017F
    and U+212A fold to an ASCII character. *)
Definition fold_rune (r : Z) : Z :=
  if decide (97 ≤ r ≤ 122) then r - 32
  else if decide (r = 383) then 83
  else if decide (r = 8490) then 75
  else r.

Definition foldName (l : list Z) : list Z := fold_rune ∘ fst <$> runes_of (length l) l.

(** A key is that of a field with an ASCII name. *)
Definition names (field : string) (key : list Z) : bool :=
  bool_decide (foldName key = foldName (bytes field)).

(** ** Encoding *)

(** The values that are written. *)
Inductive any : Type :=
| ANull
| ABool (b : bool)
| AInt (n : Z)
| AString (s : list Z)
| AArray (l : list any)
| AObject (l : list (list Z * any)).

Definition hex_char (d : Z) : Z := if decide (d < 10) then 48 + d else 87 + d.

Definition u_escape (u : Z) : list Z :=
  [92; 117; hex_char (u / 4096); hex_char (u / 256 mod 16); hex_char (u / 16 mod 16); hex_char (u mod 16)].

(** The escape of a rune that takes [n] bytes, if it is written as one. *)
Definition escape_of (r : Z) (n : nat) : option (list Z) :=
  if decide (r = 34 ∨ r = 92) then Some [92; r]
  else if decide (r = 8) then Some [92; 98]
  else if decide (r = 12) then Some [92; 102]
  else if decide (r = 10) then Some [92; 110]
  else if decide (r = 13) then Some [92; 114]
  else if decide (r = 9) then Some [92; 116]
  else if decide (r < 32 ∨ r = 60 ∨ r = 62 ∨ r = 38 ∨ r = 8232 ∨ r = 8233) then Some (u_escape r)
  else if decide (r = RuneError ∧ n = 1%nat) then Some (u_escape r)
  else None.

Definition write_rune (r : Z * list Z) : list Z := default r.2 (escape_of r.1 (length r.2)).

Definition write_string (s : list Z) : list Z :=
  [34] ++ (runes_of (length s) s ≫= write_rune) ++ [34].

Fixpoint separated (l : list (list Z)) : list Z :=
  match l with
  | [] => []
  | [x] => x
  | x :: l => x ++ [44] ++ separated l
  end.

(** [Marshal]; an object's keys are in order. *)
Fixpoint write (v : any) : list Z :=
  match v with
  | ANull => bytes "null"
  | ABool b => bytes (if b then "true" else "false")
  | AInt n => bytes (itoa n)
  | AString s => write_string s
  | AArray l => [91] ++ separated (write <$> l) ++ [93]
  | AObject l => [123] ++ separated ((λ m, write_string m.1 ++ [58] ++ write m.2) <$> l) ++ [125]
  end.

Definition quotes (s : string) : list Z := (λ b, if decide (b = 39) then 34 else b) <$> bytes s.

Example read_example :
  read_value max_depth (quotes "{'a': [1, -2.5e+3 ,null],'b':'x\u0041\ud83d\ude00\n'}, ") =
  Got (VObject [(bytes "a", (quotes "[1, -2.5e+3 ,null]",
                  VArray [VNumber (bytes "1"); VNumber (bytes "-2.5e+3"); VNull]));
                (bytes "b", (quotes "'x\u0041\ud83d\ude00\n'",
                  VString ([120; 65; 240; 159; 152; 128; 10])))])
      (bytes ", ").
Proof. vm_compute. reflexivity. Qed.

Example read_bad :
  (λ s, match read_value max_depth (quotes s) with Got _ _ => 0 | Wrong => 1 | Short => 2 end) <$>
    ["[1,]"; "[01]"; "[1"; "{'a'}"; "{'a':1,}"; "'\x'"; "nul"; "nil"; "1."; "-"; "+1"; "01"; "{'a':"] =
  [1; 1; 2; 1; 1; 1; 2; 1; 2; 2; 1; 0; 2].
Proof. vm_compute. reflexivity. Qed.

Example write_example :
  write (AObject [(bytes "a", AArray [AInt 1; AString (bytes "<x>")]); (bytes "b", AObject [])]) =
  quotes "{'a':[1,'\u003cx\u003e'],'b':{}}".
Proof. vm_compute. reflexivity. Qed.

(** ** What is written is read

    A string comes back as its runes, so that bytes that are no UTF-8 become
    U+FFFD; every reader is stated with what follows on the stream. *)

Definition valid_utf8 (s : list Z) : list Z := runes_of (length s) s ≫= encode_rune ∘ fst.

(** The items a rune is scanned into. *)
Definition rune_items (r : Z * list Z) : list item :=
  match escape_of r.1 (length r.2) with Some _ => [Unit r.1] | None => Byte <$> r.2 end.

Lemma hex_digit_char d : 0 ≤ d < 16 → hex_digit (hex_char d) = Some d.
Proof.
  intros Hd. unfold hex_digit, hex_char. destruct (decide (d < 10)).
  - rewrite decide_True by lia. f_equal. lia.
  - rewrite decide_False, decide_True by lia. f_equal. lia.
Qed.

Lemma items_u_escape u l its rest :
  0 ≤ u < 65536 → items SText l = Got its rest → items SText (u_escape u ++ l) = Got (Unit u :: its) rest.
Proof.
  intros Hu Hl. unfold u_escape. cbn [app items].
  rewrite (decide_False (P := 92 = 34)), (decide_True (P := 92 = 92)), (decide_True (P := 117 = 117)) by done.
  rewrite !hex_digit_char by (Z.to_euclidean_division_equations; lia). rewrite Hl. cbn. do 3 f_equal.
  Z.to_euclidean_division_equations; lia.
Qed.

Lemma items_escape r n e l its rest :
  0 ≤ r → escape_of r n = Some e → items SText l = Got its rest →
  items SText (e ++ l) = Got (Unit r :: its) rest ∧ surrogate r = false.
Proof.
  intros Hr He Hl. unfold escape_of in He.
  assert (∀ u, 0 ≤ u < 55296 ∨ u = RuneError → surrogate u = false) as Hs.
  { intros u Hu. apply bool_decide_eq_false. unfold RuneError in Hu. lia. }
  assert (∀ c b, short_escape c = Some b → c ≠ 117 → items SText ([92; c] ++ l) = Got (Unit b :: its) rest) as Hshort.
  { intros c b Hc Hu. cbn [app items]. rewrite decide_False, decide_True by done.
    by rewrite decide_False, Hc, Hl by done. }
  repeat case_decide; simplify_eq.
  all: split; [|apply Hs; lia].
  all: try (apply items_u_escape; [unfold RuneError in *; lia|done]).
  all: destruct_or?; subst; by apply Hshort.
Qed.

Lemma items_plain b l its rest :
  Forall (λ c, 32 ≤ c ∧ c ≠ 34 ∧ c ≠ 92) b → items SText l = Got its rest →
  items SText (b ++ l) = Got ((Byte <$> b) ++ its) rest.
Proof.
  intros Hb Hl. induction Hb as [|c b (H1 & H2 & H3) _ IH]; [done|]. csimpl.
  by rewrite !decide_False, IH by (done || lia).
Qed.

Lemma decode_rune_length l : l ≠ [] → ((decode_rune l).2 ≤ length l)%nat.
Proof.
  intros Hl. destruct l as [|a l]; [done|]. unfold decode_rune.
  case_decide; [simpl; lia|]. destruct l as [|x l]; [done|].
  case_decide; [case_match; simpl; lia|]. destruct l as [|y l]; [simpl; lia|].
  case_decide; [case_match; simpl; lia|]. destruct l as [|z l]; [simpl; lia|].
  case_match; simpl; lia.
Qed.

(** The first rune of a text: it is written as an escape, or as it stands. *)
Inductive written (s : list Z) (r : Z) (n : nat) : Prop :=
| written_escape e : 0 ≤ r → escape_of r n = Some e → written s r n
| written_plain :
    escape_of r n = None → Forall (λ c, 32 ≤ c ∧ c ≠ 34 ∧ c ≠ 92) (take n s) →
    (r ≠ RuneError ∨ n ≠ 1%nat) → written s r n.

Lemma escape_none r n : escape_of r n = None → 32 ≤ r ∧ r ≠ 34 ∧ r ≠ 92 ∧ (r ≠ RuneError ∨ n ≠ 1%nat).
Proof.
  unfold escape_of. intros H. repeat case_decide; try done. split_and!; lia.
Qed.

Lemma first_rune s : s ≠ [] → Forall is_byte s → written s (decode_rune s).1 (decode_rune s).2.
Proof.
  intros Hs Hb. destruct (decode_rune_cases s Hs) as [a l -> Ha|a l -> Ha|r n Hn Hr Hall]; cbn [fst snd].
  - apply list.Forall_cons in Hb as [Ha0 _]. unfold is_byte in Ha0.
    destruct (escape_of a 1) as [e|] eqn:He; [by eapply written_escape; [lia|]|].
    destruct (escape_none _ _ He) as (? & ? & ? & ?). apply written_plain; [done| |done].
    by apply list.Forall_cons; split; [|constructor].
  - by eapply written_escape.
  - destruct (escape_of r n) as [e|] eqn:He; [by eapply written_escape; [lia|]|].
    destruct (escape_none _ _ He) as (? & ? & ? & ?). apply written_plain; [done| |right; lia].
    apply (Forall_impl _ _ _ Hall). intros c Hc. lia.
Qed.

(** Induction over the runes of a text. *)
Lemma runes_ind (Q : list (Z * list Z) → Prop) :
  Q [] →
  (∀ s rs, s ≠ [] → Forall is_byte s → length (take (decode_rune s).2 s) = (decode_rune s).2 →
     Q rs → Q (((decode_rune s).1, take (decode_rune s).2 s) :: rs)) →
  ∀ fuel s, Forall is_byte s → Q (runes_of fuel s).
Proof.
  intros H0 HS fuel. induction fuel as [|fuel IH]; intros [|c s] Hs; cbn [runes_of]; try done.
  rewrite (surjective_pairing (decode_rune (c :: s))). apply HS; [done|done| |by apply IH, Forall_drop].
  rewrite length_take. pose proof (decode_rune_length (c :: s) ltac:(done)). lia.
Qed.

Lemma items_runes fuel s l its rest :
  Forall is_byte s → items SText l = Got its rest →
  items SText ((runes_of fuel s ≫= write_rune) ++ l) = Got ((runes_of fuel s ≫= rune_items) ++ its) rest.
Proof.
  intros Hs Hl. revert fuel s Hs. apply (runes_ind (λ rs,
    items SText ((rs ≫= write_rune) ++ l) = Got ((rs ≫= rune_items) ++ its) rest)); [done|].
  intros s rs Hne Hb Hn IH. csimpl. rewrite <-!app_assoc.
  unfold write_rune at 1, rune_items at 1. cbn [fst snd]. rewrite Hn.
  destruct (first_rune s Hne Hb) as [e Hr He|He Hp _]; rewrite He; cbn [default].
  - by eapply items_escape.
  - by apply items_plain.
Qed.

Lemma leading_bytes_app b l : leading_bytes ((Byte <$> b) ++ l) = b ++ leading_bytes l.
Proof. induction b as [|c b IH]; [done|]. csimpl. by rewrite IH. Qed.

Lemma unquote_runes fuel s f :
  Forall is_byte s → (length (runes_of fuel s ≫= rune_items) ≤ f)%nat →
  unquote f (runes_of fuel s ≫= rune_items) = runes_of fuel s ≫= encode_rune ∘ fst.
Proof.
  intros Hs. revert fuel s Hs f. apply (runes_ind (λ rs, ∀ f, (length (rs ≫= rune_items) ≤ f)%nat →
    unquote f (rs ≫= rune_items) = rs ≫= encode_rune ∘ fst)); [by intros []|].
  intros s rs Hne Hb Hn IH f. csimpl. unfold rune_items at 1 3. cbn [fst snd]. rewrite Hn.
  destruct (first_rune s Hne Hb) as [e Hr He|He _ Hw]; rewrite He, length_app; intros Hf.
  - simpl in Hf. destruct f as [|f]; [lia|]. cbn [app unquote].
    destruct (items_escape _ _ _ [34] [] [] Hr He) as [_ ->]; [done|]. rewrite IH by lia. done.
  - rewrite length_fmap, Hn in Hf.
    pose proof (decode_rune_bytes s Hne) as Hd. destruct (decode_rune s) as [r n] eqn:Er.
    cbn [fst snd] in *. destruct Hd as (H1 & _).
    destruct f as [|f]; [lia|].
    destruct (take n s) as [|c b] eqn:Ht; [simpl in Hn; lia|].
    assert (unquote (S f) ((Byte <$> c :: b) ++ (rs ≫= rune_items)) =
      let '(r, n) := decode_rune (leading_bytes ((Byte <$> c :: b) ++ (rs ≫= rune_items))) in
      encode_rune r ++ unquote f (drop n ((Byte <$> c :: b) ++ (rs ≫= rune_items)))) as -> by done.
    rewrite leading_bytes_app, <-Ht, (decode_rune_whole s _ r n Hne Er Hw).
    rewrite drop_app_length' by (rewrite length_fmap, Ht, Hn; done). f_equal. apply IH. lia.
Qed.

(** A string comes back as its runes. *)
Lemma text_write s rest :
  Forall is_byte s → text ((runes_of (length s) s ≫= write_rune) ++ 34 :: rest) = Got (valid_utf8 s) rest.
Proof.
  intros Hs. unfold text. rewrite (items_runes _ _ (34 :: rest) [] rest) by done.
  rewrite app_nil_r. cbn [then_]. by rewrite unquote_runes.
Qed.

(** *** Numbers *)

(** What may follow a value that is written. *)
Definition ends (rest : list Z) : Prop :=
  match rest with [] => True | c :: _ => c = 44 ∨ c = 93 ∨ c = 125 end.

Lemma skip_digits_app ds rest :
  Forall (λ c, is_digit c = true) ds → ends rest → skip_digits (ds ++ rest) = rest.
Proof.
  intros Hds Hr. induction Hds as [|c ds Hc _ IH]; cbn [app skip_digits]; [|by rewrite Hc].
  destruct rest as [|c rest]; [done|]. simpl in *. unfold is_digit.
  rewrite bool_decide_eq_false_2 by lia. done.
Qed.

Definition char_codes (l : list ascii) : list Z := (λ a, Z.of_nat (nat_of_ascii a)) <$> l.

Lemma digit_char_code d : 0 ≤ d < 10 → Z.of_nat (nat_of_ascii (digit_char d)) = 48 + d.
Proof. intros Hd. apply code_byte_char. unfold is_byte. lia. Qed.

Lemma digits_are_digits fuel n :
  0 ≤ n → Forall (λ c, is_digit c = true) (char_codes (digits fuel n)).
Proof.
  assert (∀ d, 0 ≤ d < 10 → is_digit (Z.of_nat (nat_of_ascii (digit_char d))) = true) as Hd.
  { intros d Hd. rewrite digit_char_code by done. apply bool_decide_eq_true. lia. }
  revert n. induction fuel as [|fuel IH]; intros n Hn; cbn [digits]; [constructor|].
  case_decide; [apply list.Forall_cons; split; [apply Hd; lia|constructor]|].
  unfold char_codes. rewrite fmap_app, Forall_app. split.
  - apply IH. by apply Z.div_pos.
  - apply list.Forall_cons. split; [by apply Hd, Z.mod_pos_bound|constructor].
Qed.

(** A positive number does not begin with zero. *)
Lemma digits_first fuel n :
  0 < n < 10 ^ Z.of_nat fuel → ∃ d l, digits fuel n = digit_char d :: l ∧ 1 ≤ d < 10.
Proof.
  revert n. induction fuel as [|fuel IH]; intros n Hn; [simpl in Hn; lia|]. cbn [digits].
  case_decide; [by exists n, []; split; [|lia]|].
  destruct (IH (n / 10)) as (d & l & -> & Hd).
  { rewrite Nat2Z.inj_succ, Z.pow_succ_r in Hn by lia. Z.to_euclidean_division_equations; lia. }
  by exists d, (l ++ [digit_char (n mod 10)]).
Qed.

Lemma number_digits n rest :
  0 ≤ n < 10 ^ 20 → ends rest → integer (char_codes (digits max_digits n) ++ rest) = Got () rest.
Proof.
  intros Hn Hr. destruct (decide (n = 0)) as [->|Hz]; [done|].
  pose proof (digits_are_digits max_digits n ltac:(lia)) as Hd.
  destruct (digits_first max_digits n) as (d & l & E & Hd1); [unfold max_digits; lia|].
  rewrite E in *. unfold char_codes in *. csimpl. csimpl in Hd. rewrite digit_char_code in * by lia.
  apply list.Forall_cons in Hd as [Hd Hl]. cbn [app].
  cbn [integer]. rewrite decide_False by lia.
  cbn [some_digits]. rewrite Hd. by rewrite skip_digits_app.
Qed.

Lemma number_tail rest : ends rest → then_ (fraction rest) (λ _ l, exponent l) = Got () rest.
Proof. destruct rest as [|c rest]; [done|]. simpl. by intros [->|[->| ->]]. Qed.

#[local] Opaque digits.

Lemma number_itoa n rest :
  in_int64 n → ends rest → number (bytes (itoa n) ++ rest) = Got () rest.
Proof.
  unfold in_int64, int64_min, int64_max. intros Hn Hr. unfold number, bytes, itoa.
  rewrite String.list_ascii_of_string_of_list_ascii. case_decide as Hs.
  - pose proof (number_digits (- n) rest ltac:(lia) Hr) as Hi. unfold char_codes in Hi.
    rewrite fmap_cons. cbn [app unsigned]. rewrite decide_True, Hi by done. by apply number_tail.
  - pose proof (number_digits n rest ltac:(lia) Hr) as Hi. unfold char_codes in Hi.
    destruct ((λ a, Z.of_nat (nat_of_ascii a)) <$> digits max_digits n) as [|c l] eqn:E.
    { destruct (digits_head max_digits n) as (d & l & Hd & _); [unfold max_digits; lia|lia|].
      by rewrite Hd in E. }
    pose proof (digits_are_digits max_digits n ltac:(lia)) as Hd. unfold char_codes in Hd. rewrite E in Hd.
    apply list.Forall_cons in Hd as [Hc _]. unfold is_digit in Hc. apply bool_decide_eq_true in Hc.
    cbn [app unsigned] in *. rewrite decide_False, Hi by lia. by apply number_tail.
Qed.

(** *** Values *)

Section AnyInd.
Variable Q : any → Prop.
Hypothesis Hnull : Q ANull.
Hypothesis Hbool : ∀ b, Q (ABool b).
Hypothesis Hint : ∀ n, Q (AInt n).
Hypothesis Hstring : ∀ s, Q (AString s).
Hypothesis Harray : ∀ l, Forall Q l → Q (AArray l).
Hypothesis Hobject : ∀ l, Forall (λ m, Q m.2) l → Q (AObject l).

(** Induction with the values inside arrays and objects. *)
Fixpoint any_ind' (a : any) : Q a :=
  match a with
  | ANull => Hnull
  | ABool b => Hbool b
  | AInt n => Hint n
  | AString s => Hstring s
  | AArray l => Harray l ((fix go l : Forall Q l :=
      match l with
      | [] => Forall_nil_2 _
      | a :: l => Forall_cons_2 _ _ _ (any_ind' a) (go l)
      end) l)
  | AObject l => Hobject l ((fix go l : Forall (λ m, Q m.2) l :=
      match l with
      | [] => Forall_nil_2 _
      | m :: l => Forall_cons_2 _ _ _ (any_ind' m.2) (go l)
      end) l)
  end.
End AnyInd.

(** What a decoder makes of a value that was written. *)
Fixpoint read_back (a : any) : value :=
  match a with
  | ANull => VNull
  | ABool b => VBool b
  | AInt n => VNumber (bytes (itoa n))
  | AString s => VString (valid_utf8 s)
  | AArray l => VArray (read_back <$> l)
  | AObject l => VObject ((λ m, (valid_utf8 m.1, (write m.2, read_back m.2))) <$> l)
  end.

(** The nesting of a value is within [d], its numbers have 64 bits. *)
Fixpoint fits (d : nat) (a : any) : Prop :=
  match a with
  | ANull | ABool _ => True
  | AInt n => in_int64 n
  | AString s => Forall is_byte s
  | AArray l => match d with O => False | S d => Forall (fits d) l end
  | AObject l => match d with O => False | S d => Forall (λ m, Forall is_byte m.1 ∧ fits d m.2) l end
  end.

(** How the text of a value begins. *)
Definition starts (l : list Z) : Prop :=
  match l with
  | [] => False
  | c :: _ => c ∈ [34; 91; 123; 110; 116; 102; 45] ∨ 48 ≤ c ≤ 57
  end.

Lemma itoa_head n : in_int64 n → ∃ c l, bytes (itoa n) = c :: l ∧ (c = 45 ∨ 48 ≤ c ≤ 57).
Proof.
  unfold in_int64, int64_min, int64_max. intros Hn. unfold bytes, itoa.
  rewrite String.list_ascii_of_string_of_list_ascii. case_decide as Hs.
  - rewrite fmap_cons. eexists _, _. split; [done|by left].
  - destruct (digits_head max_digits n) as (d & l & -> & Hd); [unfold max_digits; lia|lia|].
    rewrite fmap_cons, digit_char_code by done. eexists _, _. split; [done|lia].
Qed.

Lemma itoa_starts n : in_int64 n → starts (bytes (itoa n)).
Proof. intros (c & l & -> & [->|Hc])%itoa_head; [left; set_solver|by right]. Qed.

Lemma write_starts d a : fits d a → starts (write a).
Proof.
  destruct a as [|[]|n|s|l|l]; intros Ha; try (by left; set_solver).
  destruct d; by apply itoa_starts.
Qed.

Lemma skip_starts l rest : starts l → skip_space (l ++ rest) = l ++ rest.
Proof.
  destruct l as [|c l]; [done|]. intros Hc. cbn [app skip_space]. simpl in Hc.
  replace (is_json_space c) with false; [done|]. symmetry. apply bool_decide_eq_false.
  rewrite !elem_of_cons, elem_of_nil in *. lia.
Qed.

Lemma span_app l rest : span (l ++ rest) rest = l.
Proof. unfold span. rewrite length_app. replace (_ - _)%nat with (length l) by lia. by apply take_app_length. Qed.

Lemma read_string d s rest :
  Forall is_byte s → read_value d (write_string s ++ rest) = Got (VString (valid_utf8 s)) rest.
Proof.
  intros Hs. unfold write_string. rewrite <-!app_assoc. destruct d; cbn [app read_value];
    rewrite 2!decide_False, decide_True by done; by rewrite text_write.
Qed.

Lemma read_int d n rest :
  in_int64 n → ends rest → read_value d (bytes (itoa n) ++ rest) = Got (VNumber (bytes (itoa n))) rest.
Proof.
  intros Hn Hr. pose proof (number_itoa n rest Hn Hr) as Hnum. destruct (itoa_head n Hn) as (c & l & E & Hc).
  assert (bool_decide (c = 45) || is_digit c = true) as Hb.
  { unfold is_digit. apply orb_true_iff. rewrite !bool_decide_eq_true. lia. }
  rewrite E in *. assert (span ((c :: l) ++ rest) rest = c :: l) as Hspan by apply span_app.
  cbn [app] in *. destruct d; cbn [read_value]; rewrite !decide_False, Hb, Hnum by lia;
    cbn [then_]; by rewrite Hspan.
Qed.

Lemma separated_cons x y l rest : separated (x :: y :: l) ++ rest = x ++ 44 :: separated (y :: l) ++ rest.
Proof. cbn [separated]. by rewrite <-!app_assoc. Qed.

Lemma read_elements read l rest fuel :
  l ≠ [] → (length l ≤ fuel)%nat →
  Forall (λ a, starts (write a) ∧
    ∀ rest, ends rest → read (write a ++ rest) = Got (read_back a) rest) l →
  elements read fuel (separated (write <$> l) ++ 93 :: rest) = Got (read_back <$> l) rest.
Proof.
  revert fuel. induction l as [|a l IH]; intros [|fuel] Hne Hf Hl; [done..|simpl in Hf; lia|].
  apply list.Forall_cons in Hl as [[Hs Ha] Hl]. cbn [elements].
  destruct l as [|a' l].
  - csimpl. cbn [separated]. rewrite skip_starts, Ha by (done || (simpl; lia)). done.
  - rewrite !fmap_cons, separated_cons, skip_starts, Ha by (done || (simpl; lia)). cbn [then_].
    change (skip_space (44 :: ?l)) with (44 :: l). rewrite <-fmap_cons, IH by (done || (simpl in *; lia)). done.
Qed.

Definition write_member (m : list Z * any) : list Z := write_string m.1 ++ [58] ++ write m.2.

Definition member_back (m : list Z * any) : list Z * (list Z * value) :=
  (valid_utf8 m.1, (write m.2, read_back m.2)).

Lemma read_members read l rest fuel :
  l ≠ [] → (length l ≤ fuel)%nat →
  Forall (λ m, Forall is_byte m.1 ∧ starts (write m.2) ∧
    ∀ rest, ends rest → read (write m.2 ++ rest) = Got (read_back m.2) rest) l →
  members read fuel (separated (write_member <$> l) ++ 125 :: rest) = Got (member_back <$> l) rest.
Proof.
  revert fuel. induction l as [|m l IH]; intros [|fuel] Hne Hf Hl; [done..|simpl in Hf; lia|].
  apply list.Forall_cons in Hl as [(Hk & Hs & Hm) Hl]. cbn [members].
  assert (∀ t, skip_space (write_member m ++ t) =
    34 :: (runes_of (length m.1) m.1 ≫= write_rune) ++ 34 :: 58 :: write m.2 ++ t) as Hstart.
  { intros t. unfold write_member, write_string. rewrite <-!app_assoc. done. }
  destruct l as [|m' l].
  - change (separated (write_member <$> [m])) with (write_member m). rewrite Hstart, text_write by done. cbn [then_].
    change (skip_space (58 :: ?l)) with (58 :: l). cbv beta iota zeta.
    rewrite skip_starts, Hm by (done || (simpl; lia)). cbn [then_]. by rewrite span_app.
  - rewrite !fmap_cons, separated_cons, Hstart, text_write by done. cbn [then_].
    change (skip_space (58 :: ?l)) with (58 :: l). cbv beta iota zeta.
    rewrite skip_starts, Hm by (done || (simpl; lia)). cbn [then_]. rewrite span_app.
    change (skip_space (44 :: ?l)) with (44 :: l).
    rewrite <-fmap_cons, IH by (done || (simpl in *; lia)). done.
Qed.

Lemma separated_length {A} (f : A → list Z) l :
  Forall (λ a, starts (f a)) l → (length l ≤ length (separated (f <$> l)))%nat.
Proof.
  induction 1 as [|a l Ha _ IH]; [simpl; lia|]. rewrite fmap_cons.
  assert (1 ≤ length (f a))%nat by (destruct (f a); [done|simpl; lia]).
  destruct l as [|a' l]; [simpl in *; lia|]. rewrite fmap_cons in *. cbn [separated length] in *.
  rewrite !length_app in *. simpl in *. lia.
Qed.

Lemma separated_starts {A} (f : A → list Z) a l :
  Forall (λ a, starts (f a)) (a :: l) → starts (separated (f <$> a :: l)).
Proof.
  intros [Ha _]%list.Forall_cons. rewrite fmap_cons. destruct l as [|b l]; [done|].
  rewrite fmap_cons. cbn [separated]. by destruct (f a).
Qed.

Lemma starts_head {B} l rest c (x y : B) :
  starts l → c = 93 ∨ c = 125 → (if decide (head (l ++ rest) = Some c) then x else y) = y.
Proof. destruct l as [|b l]; [done|]. simpl. intros Hb Hc. rewrite decide_False; [done|].
  intros [=]. rewrite !elem_of_cons, elem_of_nil in Hb. lia. Qed.

Lemma member_starts l : Forall (λ m, starts (write_member m)) l.
Proof. apply list.Forall_forall. intros m _. left. set_solver. Qed.

(** A value that is written is read back, up to the UTF-8 of its strings. *)
Lemma read_write a d rest :
  fits d a → ends rest → read_value d (write a ++ rest) = Got (read_back a) rest.
Proof.
  revert d rest. induction a as [|b|n|s|l IH|l IH] using any_ind'; intros d rest Hd Hr.
  - by destruct d.
  - by destruct d, b.
  - apply read_int; [by destruct d|done].
  - apply read_string. by destruct d.
  - destruct d as [|d]; [done|]. cbn [fits] in Hd. destruct l as [|a l]; [done|].
    assert (Forall (λ a, starts (write a) ∧
      ∀ rest, ends rest → read_value d (write a ++ rest) = Got (read_back a) rest) (a :: l)) as Hall.
    { rewrite list.Forall_forall in *. intros b Hb. split; [by eapply write_starts, Hd|].
      intros r Hre. apply IH; [done|by apply Hd|done]. }
    pose proof (Forall_impl _ _ _ Hall (λ a H, proj1 H)) as Hst.
    pose proof (separated_length write _ Hst) as Hlen.
    cbn [write]. rewrite <-!app_assoc. cbn [app read_value]. rewrite decide_False, decide_True by done.
    cbv zeta. rewrite skip_starts, starts_head by (by apply separated_starts || lia).
    rewrite read_elements by (done || (rewrite length_app; lia)). done.
  - destruct d as [|d]; [done|]. cbn [fits] in Hd. destruct l as [|m l]; [done|].
    assert (Forall (λ m, Forall is_byte m.1 ∧ starts (write m.2) ∧
      ∀ rest, ends rest → read_value d (write m.2 ++ rest) = Got (read_back m.2) rest) (m :: l)) as Hall.
    { rewrite list.Forall_forall in *. intros b Hb. destruct (Hd b Hb) as [Hk Hf].
      split_and!; [done|by eapply write_starts|]. intros r Hre. by apply IH. }
    pose proof (member_starts (m :: l)) as Hst. pose proof (separated_length write_member _ Hst) as Hlen.
    cbn [write]. fold write_member. rewrite <-!app_assoc. cbn [app read_value]. rewrite decide_True by done.
    cbv zeta. rewrite skip_starts, starts_head by (by apply separated_starts || lia).
    rewrite read_members by (done || (rewrite length_app; lia)). done.
Qed.

Fixpoint fits_dec (d : nat) (a : any) : bool :=
  match a with
  | ANull | ABool _ => true
  | AInt n => bool_decide (int64_min ≤ n ≤ int64_max)
  | AString s => forallb (λ b, bool_decide (0 ≤ b < 256)) s
  | AArray l => match d with O => false | S d => forallb (fits_dec d) l end
  | AObject l =>
      match d with
      | O => false
      | S d => forallb (λ m, forallb (λ b, bool_decide (0 ≤ b < 256)) m.1 && fits_dec d m.2) l
      end
  end.

Lemma bytes_dec s : forallb (λ b, bool_decide (0 ≤ b < 256)) s = true → Forall is_byte s.
Proof.
  intros H. apply list.Forall_forall. intros b Hb. rewrite forallb_forall in H.
  by apply list_elem_of_In, H, bool_decide_eq_true in Hb.
Qed.

Lemma fits_dec_fits a d : fits_dec d a = true → fits d a.
Proof.
  revert d. induction a as [|b|n|s|l IH|l IH] using any_ind'; intros [|d]; cbn [fits_dec fits]; try done.
  1,2: by intros ?%bool_decide_eq_true.
  1,2: apply bytes_dec.
  - rewrite forallb_forall, list.Forall_forall in *. intros H b Hb. apply IH; [done|]. by apply H, list_elem_of_In.
  - rewrite forallb_forall, list.Forall_forall in *. intros H b Hb.
    apply list_elem_of_In in Hb as Hb'. apply H, andb_true_iff in Hb' as [Hk Ha]. split; [by apply bytes_dec|by apply IH].
Qed.

(** Text without a character that is escaped is written as it is. *)
Lemma write_plain l :
  Forall (λ c, c = 45 ∨ 48 ≤ c ≤ 57) l → runes_of (length l) l ≫= write_rune = l.
Proof.
  induction 1 as [|c l Hc _ IH]; [done|]. cbn [length runes_of decode_rune].
  rewrite decide_True by lia. csimpl. rewrite drop_0, IH. unfold write_rune, escape_of. cbn [fst snd].
  rewrite !decide_False by (unfold RuneError; lia). done.
Qed.

Lemma itoa_chars n : in_int64 n → Forall (λ c, c = 45 ∨ 48 ≤ c ≤ 57) (bytes (itoa n)).
Proof.
  unfold in_int64, int64_min, int64_max. intros Hn. unfold bytes, itoa.
  rewrite String.list_ascii_of_string_of_list_ascii.
  assert (∀ m, 0 ≤ m → Forall (λ c, c = 45 ∨ 48 ≤ c ≤ 57) (char_codes (digits max_digits m))) as Hd.
  { intros m Hm. apply (Forall_impl _ _ _ (digits_are_digits max_digits m Hm)).
    intros c Hc%bool_decide_eq_true. lia. }
  case_decide; [rewrite fmap_cons; apply list.Forall_cons; split; [by left|]|]; apply Hd; lia.
Qed.

(** *** The bytes of a decoded string *)

Lemma decode_rune_range l : Forall is_byte l → 0 ≤ (decode_rune l).1 < 1114112.
Proof.
  intros Hl. destruct l as [|a l]; [done|]. apply list.Forall_cons in Hl as [Ha Hl]. unfold is_byte in *.
  unfold decode_rune, is_cont, RuneError. case_decide; [simpl; lia|]. destruct l as [|x l]; [done|].
  case_decide; [case_bool_decide; simpl; lia|]. destruct l as [|y l]; [done|].
  case_decide.
  { destruct (_ && _) eqn:E; [|done]. apply andb_true_iff in E as [E1%bool_decide_eq_true E2%bool_decide_eq_true].
    simpl. repeat case_decide; lia. }
  destruct l as [|z l]; [done|]. destruct (_ && _) eqn:E; [|done].
  apply andb_true_iff in E as [E E4%bool_decide_eq_true].
  apply andb_true_iff in E as [E E3%bool_decide_eq_true].
  apply andb_true_iff in E as [E1%bool_decide_eq_true E2%bool_decide_eq_true].
  simpl. repeat case_decide; lia.
Qed.

Lemma encode_rune_bytes r : 0 ≤ r < 1114112 → Forall is_byte (encode_rune r).
Proof.
  intros Hr. unfold encode_rune, is_byte. repeat case_decide; repeat (apply list.Forall_cons; split);
    try constructor; Z.to_euclidean_division_equations; lia.
Qed.

Lemma valid_utf8_bytes s : Forall is_byte s → Forall is_byte (valid_utf8 s).
Proof.
  unfold valid_utf8. generalize (length s) as fuel. intros fuel. revert s.
  induction fuel as [|fuel IH]; intros [|c s] Hs; cbn [runes_of]; try constructor.
  pose proof (decode_rune_range (c :: s) Hs) as Hr. destruct (decode_rune (c :: s)) as [r n]. csimpl.
  apply Forall_app. split; [by apply encode_rune_bytes|by apply IH, Forall_drop].
Qed.
