(* ===== verification/Checker.v ===== *)
(** * Performing a check (internal/check/check.go, http.go, tcp.go, fivem.go)

    [Run] and the three kinds of checks.  The HTTP exchange with a connected
    peer is a parameter ([Peers]); the connection itself is made by the guarded
    dialer of [Dial], and the answers of a FiveM server are read with [Json]. *)

From S2P Require Import Prelude Text Netip GoTime Sql Schema WellFormed Dial Validate Json.

(** ** Errors *)

(** What [errors.Is] and [errors.As] find in an error. *)
Record neterr : Type := mkNetErr {
  e_blocked : bool;   (* errBlocked *)
  e_deadline : bool;  (* context.DeadlineExceeded *)
  e_timeout : bool;   (* net.Error with Timeout() *)
  e_refused : bool;   (* errRefused *)
  e_dns : bool;       (* *net.DNSError *)
  e_cert : bool;      (* *tls.CertificateVerificationError *)
  e_json : bool;      (* *json.SyntaxError, *json.UnmarshalTypeError *)
  e_eof : bool        (* io.ErrUnexpectedEOF *)
}.

Definition blocked_error : neterr := mkNetErr true false false false false false false false.

(** An error that is none of these, such as that of a URL that does not parse. *)
Definition plain_error : neterr := mkNetErr false false false false false false false false.

Definition errText (e : neterr) : string :=
  if e_blocked e then "ziel gesperrt"
  else if e_deadline e || e_timeout e then "zeitüberschreitung"
  else if e_refused e then "verbindung abgelehnt"
  else if e_dns e then "name nicht auflösbar"
  else if e_cert e then "zertifikat ungültig"
  else if e_json e || e_eof e then "antwort ungültig"
  else "verbindungsfehler".

(** ** Peers *)

(** A response: the body as it arrives, and the error that ends it early. *)
Record response : Type := mkResponse {
  rs_Status : Z;
  rs_Body : list Z;
  rs_Err : option neterr
}.

(** [fivemInfo]; [Vars.MaxClients] is raw JSON. *)
Record fivemInfo : Type := mkInfo { Server : string; MaxClients : string }.

Class Peers : Type := {
  (** [http.NewRequestWithContext] accepts the URL. *)
  NewRequest : string → bool;
  (** The host:port the transport dials for a URL. *)
  HostOf : string → string;
  (** The error of a failed attempt to connect to a host:port. *)
  Failure : string → dialerr → neterr;
  (** A GET of a URL over a connection to an address. *)
  Exchange : Addr → string → res neterr response
}.

(** [io.LimitReader]: the first [n] bytes, then the end. *)
Definition LimitReader (n : Z) (r : response) : list Z * option neterr :=
  if decide (n ≤ Z.of_nat (length (rs_Body r))) then (take (Z.to_nat n) (rs_Body r), None)
  else (rs_Body r, rs_Err r).

(** [bytes.Contains]. *)
Fixpoint bytes_Contains (l sub : list Z) : bool :=
  bool_decide (is_Some (strip sub l)) ||
  match l with [] => false | _ :: l => bytes_Contains l sub end.

(** ** JSON of a FiveM server *)

(** *json.SyntaxError or *json.UnmarshalTypeError, io.ErrUnexpectedEOF. *)
Definition json_error : neterr := mkNetErr false false false false false false true false.
Definition cut_error : neterr := mkNetErr false false false false false false false true.

Definition as_neterr (e : jsonerr neterr) : neterr :=
  match e with
  | ErrJson => json_error
  | ErrUnexpectedEOF => cut_error
  | ErrEOF => plain_error
  | ErrReader e => e
  end.

(** A field: null leaves it as it is, a value of another type is an error. *)
Definition string_field (v : value) (old : string) : option string :=
  match v with VNull => Some old | VString s => Some (of_bytes s) | _ => None end.

Definition vars_member (i : fivemInfo) (m : list Z * (list Z * value)) : fivemInfo :=
  if names "sv_maxClients" m.1 then mkInfo (Server i) (of_bytes m.2.1) else i.

Definition info_member (i : option fivemInfo) (m : list Z * (list Z * value)) : option fivemInfo :=
  i ← i;
  if names "server" m.1 then (λ s, mkInfo s (MaxClients i)) <$> string_field m.2.2 (Server i)
  else if names "vars" m.1 then
    match m.2.2 with
    | VNull => Some i
    | VObject ms => Some (foldl vars_member i ms)
    | _ => None
    end
  else Some i.

(** Into a [fivemInfo]. *)
Definition info_of (v : value) : option fivemInfo :=
  match v with
  | VNull => Some (mkInfo "" "")
  | VObject ms => foldl info_member (Some (mkInfo "" "")) ms
  | _ => None
  end.

Definition is_struct (v : value) : bool := match v with VNull | VObject _ => true | _ => false end.

(** Into a [[]struct{}], of which the length is kept. *)
Definition players_of (v : value) : option nat :=
  match v with
  | VNull => Some 0%nat
  | VArray l => if forallb is_struct l then Some (length l) else None
  | _ => None
  end.

(** [json.NewDecoder(r).Decode(v)] of what the reader gives. *)
Definition Decode {A} (into : value → option A) (body : list Z) (err : option neterr) : res neterr A :=
  match first_value body err with
  | Err e => Err (as_neterr e)
  | Ok v => match into v with Some x => Ok x | None => Err json_error end
  end.

(** ** The checker *)

Record Checker : Type := mkChecker {
  PrivateAllow : list string;
  Block : list Addr;
  loopback : bool
}.

(** What the clock shows: the milliseconds to the first byte of the answer and
    those since the start. *)
Record timing : Type := mkTiming { t_first : Z; t_since : Z }.

Definition maxBody : Z := 2 ^ 20.
Definition fivemLimit : Z := 256 * 2 ^ 10.
Definition maxVersion : Z := 64.

Section Checker.
Context `{!Network, !Peers}.
Variable c : Checker.
Variable clock : timing.

(** [client(connectTo)]: where its transport connects to. *)
Definition client (connectTo address : string) : res dialerr Addr :=
  if decide (connectTo = "") then dial (loopback c) [] (Block c) address
  else dialConnectTo (PrivateAllow c) (loopback c) (Block c) connectTo.

Definition dial_failure (address : string) (e : dialerr) : neterr :=
  match e with ErrBlocked => blocked_error | e => Failure address e end.

Definition Do (connectTo url : string) : res neterr response :=
  match client connectTo (HostOf url) with
  | Err e => Err (dial_failure (HostOf url) e)
  | Ok a => Exchange a url
  end.

Definition checkTCP (t : Target) : Result :=
  match dial (loopback c) [] (Block c) (Address t) with
  | Err e => mkResult false (t_since clock) 0 (errText (dial_failure (Address t) e)) None None ""
  | Ok _ => mkResult true (t_since clock) 0 "" None None ""
  end.

Definition status_text (code : Z) : string := "status " +:+ itoa code.

Definition checkHTTP (t : Target) : Result :=
  match parseStatus (ExpectStatus t) with
  | None => failed "statusangabe ungültig"
  | Some ranges =>
      if negb (NewRequest (Address t)) then failed "adresse ungültig" else
      match Do (ConnectTo t) (Address t) with
      | Err e => mkResult false (t_since clock) 0 (errText e) None None ""
      | Ok resp =>
          let res ok err := mkResult ok (t_first clock) (rs_Status resp) err None None "" in
          if negb (statusOK ranges (rs_Status resp))
          then res false (status_text (rs_Status resp))
          else if decide (Keyword t = "") then res true ""
          else
            match LimitReader maxBody resp with
            | (_, Some e) => res false (errText e)
            | (body, None) =>
                if bytes_Contains body (bytes (Keyword t)) then res true ""
                else res false "stichwort fehlt"
            end
      end
  end.

(** The two errors of [getJSON] that [checkFiveM] tells apart. *)
Inductive geterr : Type := ErrStatus | ErrNet (e : neterr).

Definition getJSON {A} (into : value → option A) (connectTo url : string) : Z * res geterr A :=
  if negb (NewRequest url) then (0, Err (ErrNet plain_error)) else
  match Do connectTo url with
  | Err e => (0, Err (ErrNet e))
  | Ok resp =>
      if decide (rs_Status resp = 200) then
        let '(body, err) := LimitReader fivemLimit resp in
        (200, match Decode into body err with Ok v => Ok v | Err e => Err (ErrNet e) end)
      else (rs_Status resp, Err ErrStatus)
  end.

(** The bytes of a rune in a Go string; an ill-formed byte becomes U+FFFD. *)
Definition rune_bytes (r : Z * list Z) : list Z :=
  if decide (r.1 = RuneError) then [239; 191; 189] else r.2.

Definition of_runes (l : list (Z * list Z)) : string := of_bytes (concat (rune_bytes <$> l)).

Definition version (s : string) : string :=
  let s := TrimSpace (of_runes (filter (λ r, hidden r.1 = false) (runes s))) in
  if decide (maxVersion < RuneCount s) then of_runes (take (Z.to_nat maxVersion) (runes s)) else s.

(** [strings.Trim] of double quotes. *)
Fixpoint drop_quotes (l : list Z) : list Z :=
  match l with
  | b :: l' => if decide (b = 34) then drop_quotes l' else l
  | [] => []
  end.

Definition trim_quotes (s : string) : string :=
  of_bytes (reverse (drop_quotes (reverse (drop_quotes (bytes s))))).

Definition max_players (info : fivemInfo) : option Z :=
  match parse_int (trim_quotes (MaxClients info)) with
  | Some n => if decide (0 ≤ n ≤ 2048) then Some n else None
  | None => None
  end.

Definition checkFiveM (t : Target) : Result :=
  let base := "http://" +:+ Address t in
  let '(status, r) := getJSON info_of (ConnectTo t) (base +:+ "/info.json") in
  let bad err := mkResult false (t_since clock) status err None None "" in
  match r with
  | Err ErrStatus => bad (status_text status)
  | Err (ErrNet e) => bad (errText e)
  | Ok info =>
      if decide (Server info = "") then bad "antwort ungültig" else
      let players :=
        match (getJSON players_of (ConnectTo t) (base +:+ "/players.json")).2 with
        | Ok n => Some (Z.of_nat n)
        | Err _ => None
        end in
      mkResult true (t_since clock) status "" players (max_players info) (version (Server info))
  end.

Definition Run (t : Target) : Result :=
  if decide (Kind t = KindHTTP) then checkHTTP t
  else if decide (Kind t = KindTCP) then checkTCP t
  else if decide (Kind t = KindFiveM) then checkFiveM t
  else failed "unbekannte art".
End Checker.

(** ** Lemmas *)

Lemma errText_nonempty e : errText e ≠ "".
Proof. unfold errText. by repeat case_match. Qed.

Lemma status_text_nonempty code : status_text code ≠ "".
Proof. done. Qed.

#[export] Hint Resolve errText_nonempty status_text_nonempty : dmn.

(** A result that says OK and one that gives a cause exclude each other. *)
Definition decided (r : Result) : Prop := OK r = bool_decide (ErrText r = "").

Lemma decided_ok l s p m v : decided (mkResult true l s "" p m v).
Proof. done. Qed.

Lemma decided_bad l s e p m v : e ≠ "" → decided (mkResult false l s e p m v).
Proof. intros He. unfold decided. simpl. by rewrite bool_decide_eq_false_2. Qed.

Lemma decided_failed e : e ≠ "" → decided (failed e).
Proof. apply decided_bad. Qed.

#[export] Hint Resolve decided_ok decided_bad decided_failed : dmn.
#[export] Hint Extern 0 (String _ _ ≠ "") => discriminate : dmn.

Lemma bytes_Contains_spec l sub :
  bytes_Contains l sub = true ↔ ∃ l1 l2, l = l1 ++ sub ++ l2.
Proof.
  assert (Hp : ∀ l, is_Some (strip sub l) ↔ ∃ l2, l = sub ++ l2).
  { intros l0. unfold is_Some. by setoid_rewrite strip_spec. }
  induction l as [|x l IH]; simpl; rewrite orb_true_iff, bool_decide_eq_true, Hp.
  - split; [intros [[l2 ->]|?]; [by exists [], l2|done]|].
    intros (l1 & l2 & Hl). left. destruct l1; [by exists l2|done].
  - rewrite IH. split.
    + intros [[l2 ->]|(l1 & l2 & ->)]; [by exists [], l2|by exists (x :: l1), l2].
    + intros ([|y l1] & l2 & Hl); [left; by exists l2|right]. simplify_eq/=. by exists l1, l2.
Qed.

Lemma statusOK_spec ranges code :
  statusOK ranges code = true ↔ ∃ r, r ∈ ranges ∧ lo r ≤ code ≤ hi r.
Proof.
  unfold statusOK. rewrite existsb_exists. setoid_rewrite bool_decide_eq_true.
  by setoid_rewrite list_elem_of_In.
Qed.

Lemma LimitReader_spec n resp body :
  0 ≤ n → LimitReader n resp = (body, None) ↔
  body = take (Z.to_nat n) (rs_Body resp) ∧
  (rs_Err resp = None ∨ n ≤ Z.of_nat (length (rs_Body resp))).
Proof.
  intros Hn. unfold LimitReader. case_decide as Hl; [naive_solver|].
  rewrite take_ge by lia. split; [intros [= -> ->]; auto|]. by intros [-> [->|?]].
Qed.

Section Results.
Context `{!Network, !Peers}.
Variable c : Checker.
Variable clock : timing.

Lemma checkTCP_decided t : decided (checkTCP c clock t).
Proof. unfold checkTCP. case_match; auto with dmn. Qed.

Lemma checkHTTP_decided t : decided (checkHTTP c clock t).
Proof. unfold checkHTTP. cbv zeta. repeat case_match; auto with dmn. Qed.

Lemma checkFiveM_decided t : decided (checkFiveM c clock t).
Proof. unfold checkFiveM. cbv zeta. repeat case_match; auto with dmn. Qed.

Lemma max_players_bounds info n : max_players info = Some n → 0 ≤ n ≤ 2048.
Proof. unfold max_players. repeat case_match; naive_solver. Qed.

(** The players and the version come from FiveM servers that answered. *)
Definition figures_ok (t : Target) (r : Result) : Prop :=
  (Kind t ≠ KindFiveM ∨ OK r = false → Players r = None ∧ MaxPlayers r = None ∧ Version r = "") ∧
  (∀ n, Players r = Some n → 0 ≤ n) ∧ (∀ n, MaxPlayers r = Some n → 0 ≤ n ≤ 2048).

Lemma figures_none t ok l s e : figures_ok t (mkResult ok l s e None None "").
Proof. done. Qed.

Lemma Run_figures t : figures_ok t (Run c clock t).
Proof.
  unfold Run. destruct (decide (Kind t = KindHTTP)); [|destruct (decide (Kind t = KindTCP))].
  - unfold checkHTTP. cbv zeta. repeat case_match; apply figures_none.
  - unfold checkTCP. case_match; apply figures_none.
  - case_decide as Hk; [|apply figures_none].
    unfold checkFiveM. cbv zeta. repeat case_match; try apply figures_none.
    all: split_and!; simpl; [naive_solver|naive_solver lia|apply max_players_bounds].
Qed.
End Results.

(** ** Confinement *)

(** The addresses a connect-to value opens although they are private. *)
Definition exempt_addrs `{!Network} (c : Checker) (connectTo : string) : list Addr :=
  if existsb (λ s, EqualFold s connectTo) (PrivateAllow c) then
    match SplitHostPort connectTo with
    | Some (host, _) => (λ ip, Unmap (WithoutZone ip)) <$> default [] (LookupNetIP host)
    | None => []
    end
  else [].

(** The addresses a check of [t] may connect to. *)
Definition may_contact `{!Network} (c : Checker) (t : Target) (a : Addr) : Prop :=
  allowed a (loopback c) (exempt_addrs c (ConnectTo t)) (Block c) = true.

(** Two worlds that differ only in what lies behind the other addresses. *)
Record same_to (ok : Addr → Prop) (n n' : Network) (p p' : Peers) : Prop := mkSame {
  sm_resolve : ∀ s, @Resolve n s = @Resolve n' s;
  sm_lookup : ∀ s, @LookupNetIP n s = @LookupNetIP n' s;
  sm_connects : ∀ a, ok a → @Connects n a = @Connects n' a;
  sm_request : ∀ s, @NewRequest p s = @NewRequest p' s;
  sm_host : ∀ s, @HostOf p s = @HostOf p' s;
  sm_failure : ∀ s e, @Failure p s e = @Failure p' s e;
  sm_exchange : ∀ a url, ok a → @Exchange p a url = @Exchange p' a url
}.

(** A longer list of exempt addresses only allows more. *)
Lemma allowed_extra a lb extra block :
  allowed a lb [] block = true → allowed a lb extra block = true.
Proof.
  unfold allowed, verdict. rewrite bool_decide_eq_false_2 with (P := _ ∈ []) by apply not_elem_of_nil.
  repeat case_match; done.
Qed.

Section Confined.
Context (ok : Addr → Prop) (n n' : Network) (p p' : Peers).
Variable c : Checker.
Variable clock : timing.
Hypothesis Hsame : same_to ok n n' p p'.

Lemma dial_addrs_same lb extra block l :
  (∀ a, allowed a lb extra block = true → ok a) →
  @dial_addrs n lb extra block l = @dial_addrs n' lb extra block l.
Proof.
  intros Hok. induction l as [|a l IH]; simpl; [done|]. rewrite IH. unfold try_addr.
  destruct (allowed a lb extra block) eqn:Ha; simpl; [|done].
  by rewrite (sm_connects _ _ _ _ _ Hsame a (Hok a Ha)).
Qed.

Lemma dial_same lb extra block address :
  (∀ a, allowed a lb extra block = true → ok a) →
  @dial n lb extra block address = @dial n' lb extra block address.
Proof.
  intros Hok. unfold dial. rewrite (sm_resolve _ _ _ _ _ Hsame). by apply dial_addrs_same.
Qed.

Lemma dial_each_same lb extra block port l e :
  (∀ a, allowed a lb extra block = true → ok a) →
  @dial_each n lb extra block port l e = @dial_each n' lb extra block port l e.
Proof.
  intros Hok. revert e. induction l as [|a l IH]; intros e; simpl; [done|].
  rewrite dial_same by done. case_match; [done|apply IH].
Qed.

Lemma client_same connectTo address :
  (∀ a, allowed a (loopback c) (@exempt_addrs n c connectTo) (Block c) = true → ok a) →
  @client n c connectTo address = @client n' c connectTo address.
Proof.
  intros Hok. unfold client, dialConnectTo, exempt_addrs in *.
  case_decide; [apply dial_same; intros; by apply Hok, allowed_extra|].
  destruct (existsb _ _); cbn [negb]; [|by apply dial_same].
  destruct (SplitHostPort connectTo) as [[host port]|]; [|done].
  rewrite <-(sm_lookup _ _ _ _ _ Hsame).
  destruct (@LookupNetIP n host) as [l|]; [|done]. by apply dial_each_same.
Qed.

Lemma client_allowed connectTo address a :
  @client n c connectTo address = Ok a →
  allowed a (loopback c) (@exempt_addrs n c connectTo) (Block c) = true.
Proof.
  unfold client, dialConnectTo, exempt_addrs. case_decide.
  { intros [? _]%dial_addrs_allowed. by apply allowed_extra. }
  destruct (existsb _ _); cbn [negb]; [|by intros [? _]%dial_addrs_allowed].
  destruct (SplitHostPort connectTo) as [[host port]|]; [|done].
  destruct (LookupNetIP host); [|done]. simpl. by intros ?%dial_each_allowed.
Qed.

Lemma Do_same connectTo url :
  (∀ a, allowed a (loopback c) (@exempt_addrs n c connectTo) (Block c) = true → ok a) →
  @Do n p c connectTo url = @Do n' p' c connectTo url.
Proof.
  intros Hok. unfold Do. rewrite <-(sm_host _ _ _ _ _ Hsame), <-(client_same _ _ Hok).
  destruct (client c connectTo (HostOf url)) as [a|e] eqn:Hc.
  - apply (sm_exchange _ _ _ _ _ Hsame), Hok. by eapply client_allowed.
  - unfold dial_failure. by destruct e; rewrite ?(sm_failure _ _ _ _ _ Hsame).
Qed.

Lemma getJSON_same {A} (into : value → option A) connectTo url :
  (∀ a, allowed a (loopback c) (@exempt_addrs n c connectTo) (Block c) = true → ok a) →
  @getJSON n p c _ into connectTo url = @getJSON n' p' c _ into connectTo url.
Proof.
  intros Hok. unfold getJSON. rewrite (sm_request _ _ _ _ _ Hsame), Do_same by done.
  done.
Qed.
End Confined.

(** ** Properties *)


(** Two toy worlds: behind the private address 10.0.0.7 there is a server in
    one and nothing in the other. *)
Definition toy_peers (answer : res neterr response) : Peers :=
  {| NewRequest := λ _, true; HostOf := λ _, "intern:80"; Failure := λ _ _, plain_error;
     Exchange := λ a _, if decide (a = Addr4 (ip4 10 0 0 7)) then answer else Err plain_error |}.

Definition http_target : Target :=
  mkTarget 1 "web" KindHTTP "http://intern/" "200-399" "" "" 60 5000 2 true false 0 0 0.

Definition lone_checker : Checker := mkChecker [] [] false.


(** Every check gives a verdict: its result says OK or names
    a cause, never both and never neither; the numbers of players and the
    version come only from FiveM servers that answered, and are in range. *)
Theorem check_decides `{!Network, !Peers} c clock t :
  let r := Run c clock t in
  (OK r = true ↔ ErrText r = "") ∧ figures_ok t r.
Proof.
  intros r. split; [|apply Run_figures].
  assert (decided r) as ->; [|by rewrite bool_decide_eq_true].
  unfold r, Run. repeat case_decide.
  - apply checkHTTP_decided.
  - apply checkTCP_decided.
  - apply checkFiveM_decided.
  - auto with dmn.
Qed.

(** A response an HTTP target accepts: an expected status and, if a keyword is
    set, a first mebibyte that arrives and contains it. *)
Definition accepts (t : Target) (resp : response) : Prop :=
  (∃ ranges r, parseStatus (ExpectStatus t) = Some ranges ∧ r ∈ ranges ∧
     lo r ≤ rs_Status resp ≤ hi r) ∧
  (Keyword t = "" ∨
   (rs_Err resp = None ∨ maxBody ≤ Z.of_nat (length (rs_Body resp))) ∧
   ∃ l1 l2, take (Z.to_nat maxBody) (rs_Body resp) = l1 ++ bytes (Keyword t) ++ l2).

Lemma keyword_found t resp :
  match LimitReader maxBody resp with
  | (_, Some _) => false
  | (body, None) => bytes_Contains body (bytes (Keyword t))
  end = true ↔
  (rs_Err resp = None ∨ maxBody ≤ Z.of_nat (length (rs_Body resp))) ∧
  ∃ l1 l2, take (Z.to_nat maxBody) (rs_Body resp) = l1 ++ bytes (Keyword t) ++ l2.
Proof.
  rewrite <-bytes_Contains_spec.
  destruct (LimitReader maxBody resp) as [body [e|]] eqn:Hl.
  - split; [done|]. intros [He _].
    assert (LimitReader maxBody resp = (take (Z.to_nat maxBody) (rs_Body resp), None)) as Hl'
      by (by apply LimitReader_spec).
    by rewrite Hl' in Hl.
  - apply LimitReader_spec in Hl as [-> He]; [|done]. naive_solver.
Qed.

Lemma accepts_found t resp :
  accepts t resp ↔
  ∃ ranges, parseStatus (ExpectStatus t) = Some ranges ∧ statusOK ranges (rs_Status resp) = true ∧
    (Keyword t = "" ∨ match LimitReader maxBody resp with
                      | (_, Some _) => false
                      | (body, None) => bytes_Contains body (bytes (Keyword t))
                      end = true).
Proof.
  unfold accepts. pose proof (keyword_found t resp) as Hf. split.
  - intros [(ranges & r & Hp & Hr) Hk]. exists ranges. rewrite statusOK_spec.
    split_and!; [done|by exists r|]. destruct Hk as [?|Hk]; [by left|right; by apply Hf].
  - intros (ranges & Hp & (r & Hr)%statusOK_spec & Hk). split; [by exists ranges, r|].
    destruct Hk as [?|Hk]; [by left|right; by apply Hf].
Qed.

(** An HTTP check succeeds exactly when the request can be
    made, a permitted address answers it, and the answer has an expected
    status and contains the keyword in its first mebibyte. *)
Theorem http_accepts `{!Network, !Peers} c clock t :
  Kind t = KindHTTP →
  OK (Run c clock t) = true ↔
  NewRequest (Address t) = true ∧
  ∃ resp, Do c (ConnectTo t) (Address t) = Ok resp ∧ accepts t resp.
Proof.
  intros Hk. unfold Run. rewrite decide_True by done.
  setoid_rewrite accepts_found. unfold checkHTTP. cbv zeta.
  destruct (parseStatus _) as [ranges|]; [|split; [done|by intros (_ & _ & _ & _ & [=] & _)]].
  destruct (NewRequest _); [|split; [done|by intros [[=] _]]]. cbn [negb].
  destruct (Do _ _ _) as [resp|e]; [|split; [done|by intros (_ & _ & [=] & _)]].
  destruct (statusOK ranges _) eqn:Es; cbn [negb];
    [|by split; [|intros (_ & _ & [= <-] & _ & [= <-] & Hs & _); rewrite Es in Hs]].
  case_decide as Hw.
  { split; [|done]. intros _. split; [done|]. exists resp. split; [done|]. exists ranges. auto. }
  destruct (LimitReader _ _) as [body [e|]] eqn:El.
  { split; [done|]. intros (_ & _ & [= <-] & _ & _ & _ & [?|Hm]); [done|]. by rewrite El in Hm. }
  destruct (bytes_Contains _ _) eqn:Eb.
  - split; [|done]. intros _. split; [done|]. exists resp. split; [done|]. exists ranges.
    rewrite El, Eb. auto.
  - split; [done|]. intros (_ & _ & [= <-] & _ & _ & _ & [?|Hm]); [done|]. by rewrite El, Eb in Hm.
Qed.

Lemma http_accepts_witness :
  let n := Build_Network (λ _, [Addr4 (ip4 93 184 216 34)]) (λ _, None) (λ _, true) in
  let p := Build_Peers (λ _, true) (λ s, s) (λ _ _, plain_error)
    (λ _ _, Ok (mkResponse 204 [] None)) in
  accepts http_target (mkResponse 204 [] None) ∧
  ∃ resp, @Do n p lone_checker "" "http://intern/" = Ok resp ∧ accepts http_target resp.
Proof.
  intros n p.
  pose proof (proj1 (@http_accepts n p lone_checker (mkTiming 3 5) http_target eq_refl)
    ltac:(vm_compute; reflexivity)) as [_ (resp & Hd & Ha)].
  split; [|by exists resp]. vm_compute in Hd. by injection Hd as <-.
Defined.
