(* ===== verification/FiveM.v ===== *)
(** * The figures of a FiveM server (internal/check/fivem.go)

    What a check shows of a server whose answers are JSON: the number of
    players, the slots and the version, for any names, players and further
    fields the answers hold.  [Checker] has the definitions. *)

From S2P Require Import Prelude Text Netip GoTime Sql Schema WellFormed Dial Validate Json Checker.

(** ** Reading the information *)

(** The values of the members a field reads. *)
Definition named (f : string) (l : list (list Z * any)) : list any :=
  omap (λ m, if names f (valid_utf8 m.1) then Some m.2 else None) l.

Lemma named_bytes d f l s : fits d (AObject l) → AString s ∈ named f l → Forall is_byte s.
Proof.
  destruct d as [|d]; [done|]. cbn [fits]. rewrite list.Forall_forall.
  intros Hl (m & Hm & Hs)%list_elem_of_omap. apply Hl in Hm as [_ Hm].
  case_match; [|done]. injection Hs as Hs. rewrite Hs in Hm. by destruct d.
Qed.

Lemma names_exclusive f g key : foldName (bytes f) ≠ foldName (bytes g) → names f key = true → names g key = false.
Proof.
  intros Hfg Hf%bool_decide_eq_true. apply bool_decide_eq_false. by rewrite Hf.
Qed.

Lemma vars_fold i vs ms :
  named "sv_maxClients" vs = ms →
  foldl vars_member i (member_back <$> vs) =
  mkInfo (Server i) (foldl (λ _ a, of_bytes (write a)) (MaxClients i) ms).
Proof.
  intros <-. revert i. induction vs as [|[k a] vs IH]; intros i; [by destruct i|].
  rewrite fmap_cons. cbn [foldl named omap list_omap]. rewrite IH. unfold vars_member, member_back. cbn [fst snd].
  by destruct (names _ _).
Qed.

Lemma info_member_back i k a :
  info_member (Some i) (member_back (k, a)) =
  if names "server" (valid_utf8 k) then
    (λ s, mkInfo s (MaxClients i)) <$> string_field (read_back a) (Server i)
  else if names "vars" (valid_utf8 k) then
    match read_back a with
    | VNull => Some i
    | VObject ms => Some (foldl vars_member i ms)
    | _ => None
    end
  else Some i.
Proof. done. Qed.

(** Members with other values than the type of their field asks for are errors. *)
Lemma info_fold i l ss vss :
  named "server" l = AString <$> ss → named "vars" l = AObject <$> vss →
  foldl info_member (Some i) (member_back <$> l) =
  Some (mkInfo (foldl (λ _ s, of_bytes (valid_utf8 s)) (Server i) ss)
          (foldl (λ m vs, foldl (λ _ a, of_bytes (write a)) m (named "sv_maxClients" vs)) (MaxClients i) vss)).
Proof.
  revert i ss vss. induction l as [|[k a] l IH]; intros i ss vss Hs Hv.
  { destruct ss, vss; [|done..]. by destruct i. }
  rewrite fmap_cons. cbn [foldl]. unfold named in Hs, Hv. cbn [omap list_omap fst snd] in Hs, Hv.
  fold (named "server" l) in Hs. fold (named "vars" l) in Hv.
  rewrite info_member_back. destruct (names "server" (valid_utf8 k)) eqn:Hk.
  - rewrite (names_exclusive "server" "vars" _ ltac:(done) Hk) in Hv.
    destruct ss as [|s ss]; [done|]. injection Hs as -> Hs.
    by apply (IH (mkInfo (of_bytes (valid_utf8 s)) (MaxClients i))).
  - destruct (names "vars" (valid_utf8 k)) eqn:Hk'; [|by apply IH].
    destruct vss as [|vs vss]; [done|]. injection Hv as -> Hv.
    change (read_back (AObject vs)) with (VObject (member_back <$> vs)). cbv beta iota.
    rewrite (vars_fold i vs _ eq_refl). by rewrite (IH _ ss vss).
Qed.

(** ** The number of slots *)

Lemma drop_quotes_none l : Forall (λ b, b ≠ 34) l → drop_quotes l = l.
Proof. destruct 1; [done|]. cbn [drop_quotes]. by rewrite decide_False. Qed.

Lemma trim_quotes_plain s : Forall (λ b, b ≠ 34) (bytes s) → trim_quotes s = s.
Proof.
  intros Hs. unfold trim_quotes. rewrite (drop_quotes_none (bytes s)) by done.
  rewrite drop_quotes_none by (by apply Forall_reverse). by rewrite reverse_involutive, of_bytes_bytes.
Qed.

Lemma trim_quotes_quoted s :
  Forall (λ b, b ≠ 34) (bytes s) → bytes s ≠ [] → trim_quotes (of_bytes ([34] ++ bytes s ++ [34])) = s.
Proof.
  intros Hs Hne. unfold trim_quotes. rewrite bytes_of_bytes.
  2: { rewrite !Forall_app. split_and!; try (by apply list.Forall_singleton). apply bytes_are_bytes. }
  assert (∀ l, Forall (λ b, b ≠ 34) l → l ≠ [] → drop_quotes (34 :: l) = l) as Hone.
  { intros l Hl Hn. cbn [drop_quotes]. rewrite decide_True by done. by apply drop_quotes_none. }
  cbn [app drop_quotes]. rewrite decide_True by done.
  assert (drop_quotes (bytes s ++ [34]) = bytes s ++ [34]) as ->.
  { destruct (bytes s) as [|b l] eqn:E; [done|]. apply list.Forall_cons in Hs as [Hb _].
    cbn [app drop_quotes]. by rewrite decide_False. }
  rewrite reverse_snoc, Hone; [by rewrite reverse_involutive, of_bytes_bytes|by apply Forall_reverse|].
  intros H. apply Hne. rewrite <-(reverse_involutive (bytes s)), H. done.
Qed.

(** A number of slots is read from a JSON number and from a string of one. *)
Lemma max_players_written s n a :
  in_int64 n → 0 ≤ n → a = AInt n ∨ a = AString (bytes (itoa n)) →
  max_players (mkInfo s (of_bytes (write a))) = if decide (n ≤ 2048) then Some n else None.
Proof.
  intros Hn H0 Ha. pose proof (itoa_chars n Hn) as Hc.
  assert (Forall (λ b, b ≠ 34) (bytes (itoa n))) as Hq by (apply (Forall_impl _ _ _ Hc); intros; lia).
  assert (trim_quotes (of_bytes (write a)) = itoa n) as Ht.
  { destruct Ha as [-> | ->]; cbn [write].
    - rewrite of_bytes_bytes. by apply trim_quotes_plain.
    - unfold write_string. rewrite write_plain by done. apply trim_quotes_quoted; [done|].
      destruct (itoa_head n Hn) as (? & ? & -> & _). done. }
  unfold max_players. cbn [MaxClients]. rewrite Ht, parse_itoa by done.
  destruct (decide (n ≤ 2048)); [by rewrite decide_True by lia|by rewrite decide_False by lia].
Qed.

(** ** The whole check *)

Lemma app_assoc_string (a b d : string) : (a +:+ b) +:+ d = a +:+ b +:+ d.
Proof. apply bytes_inj. by rewrite !bytes_app, app_assoc. Qed.

Section Answers.
Context `{!Network, !Peers}.
Variable c : Checker.
Variable clock : timing.

(** The server of a target answers a path with status 200 and a body within
    the limit. *)
Record answers (t : Target) (path : string) (body : list Z) : Prop := mkAnswers {
  an_request : NewRequest ("http://" +:+ Address t +:+ path) = true;
  an_answer : Do c (ConnectTo t) ("http://" +:+ Address t +:+ path) = Ok (mkResponse 200 body None);
  an_length : Z.of_nat (length body) ≤ fivemLimit
}.

Lemma getJSON_value {A} (into : value → option A) t path body v x :
  answers t path body → first_value (E := neterr) body None = Ok v → into v = Some x →
  getJSON c into (ConnectTo t) ("http://" +:+ Address t +:+ path) = (200, Ok x).
Proof.
  intros [Hr Ha Hl] Hv Hx. unfold getJSON. rewrite Hr, Ha. cbn [negb rs_Status]. rewrite decide_True by done.
  assert (LimitReader fivemLimit (mkResponse 200 body None) = (body, None)) as ->.
  { unfold LimitReader. cbn [rs_Body rs_Err]. case_decide; [|done]. rewrite take_ge; [done|].
    unfold fivemLimit in *. lia. }
  unfold Decode. by rewrite Hv, Hx.
Qed.

(** A check of a server whose two answers are read as these. *)
Lemma checkFiveM_values t body v info body' v' n :
  answers t "/info.json" body → first_value (E := neterr) body None = Ok v →
  info_of v = Some info → Server info ≠ "" →
  answers t "/players.json" body' → first_value (E := neterr) body' None = Ok v' → players_of v' = Some n →
  checkFiveM c clock t =
  mkResult true (t_since clock) 200 "" (Some (Z.of_nat n)) (max_players info) (version (Server info)).
Proof.
  intros Ha Hv Hi Hs Ha' Hv' Hn. unfold checkFiveM. cbv zeta.
  rewrite !app_assoc_string, (getJSON_value _ _ _ _ _ _ Ha Hv Hi), (getJSON_value _ _ _ _ _ _ Ha' Hv' Hn).
  by rewrite decide_False.
Qed.

Lemma first_value_written a : fits max_depth a → first_value (E := neterr) (write a) None = Ok (read_back a).
Proof.
  intros Ha. unfold first_value. rewrite <-(app_nil_r (write a)), skip_starts by (by eapply write_starts).
  by rewrite read_write.
Qed.

Lemma players_written ps : players_of (read_back (AArray (AObject <$> ps))) = Some (length ps).
Proof.
  unfold players_of. cbn [read_back]. rewrite !length_fmap.
  assert (forallb is_struct (read_back <$> (AObject <$> ps)) = true) as ->; [|done].
  apply forallb_forall. intros v Hv%list_elem_of_In. rewrite <-list_fmap_compose in Hv.
  by apply list_elem_of_fmap in Hv as (p & -> & _).
Qed.

End Answers.

Definition toy_info : list (list Z * any) :=
  [ (bytes "Server", AString (bytes "FXServer v1")); (bytes "resources", AArray []);
    (bytes "vars", AObject [ (bytes "sv_maxClients", AString (bytes "48")) ]) ].

Definition toy_players : list (list (list Z * any)) :=
  [ [ (bytes "id", AInt 1); (bytes "name", AString [74; 246; 34]) ]; [] ].

Definition fivem_target : Target :=
  mkTarget 1 "fx" KindFiveM "203.0.113.9:30120" "" "" "" 60 5000 2 true false 0 0 0.

Definition public_network : Network :=
  Build_Network (λ _, [Addr4 (ip4 93 184 216 34)]) (λ _, None) (λ _, true).

Definition toy_server : Peers :=
  Build_Peers (λ _, true) (λ s, s) (λ _ _, plain_error)
    (λ _ url, Ok (mkResponse 200
       (if decide (url = "http://203.0.113.9:30120/info.json") then write (AObject toy_info)
        else write (AArray (AObject <$> toy_players))) None)).

