(* ===== verification/Fakefx.v ===== *)
(** * The fake FiveM server (internal/check/fakefx/main.go)

    The server developers and tests check against.  Its answers are computed
    from the files embedded in it, and checked with [Checker]: a fake server
    with so many players is seen with so many players. *)

From S2P Require Import Prelude Text Netip GoTime Sql Schema Dial Validate Json Checker FiveM.

(** ** The embedded files

    With an apostrophe in the place of every quotation mark; neither file has
    an apostrophe of its own. *)

Definition info : list Z := quotes
"{
  'enhancedHostSupport': true,
  'resources': [
    'mapmanager',
    'chat',
    'spawnmanager',
    'sessionmanager',
    'basic-gamemode',
    'hardcap',
    'example_garage'
  ],
  'server': 'FXServer-master SERVER v1.0.0.7290 linux',
  'vars': {
    'sv_enforceGameBuild': '2944',
    'sv_maxClients': '64',
    'sv_projectName': 'Beispiel Roleplay'
  }
}
".

Definition players : list Z := quotes
"[
  {
    'endpoint': '203.0.113.17:52110',
    'id': 1,
    'identifiers': [
      'license:0000000000000000000000000000000000000001',
      'discord:000000000000000001'
    ],
    'name': 'Testspieler Eins',
    'ping': 38
  },
  {
    'endpoint': '198.51.100.42:61024',
    'id': 4,
    'identifiers': [
      'license:0000000000000000000000000000000000000002'
    ],
    'name': 'Max Mustermann',
    'ping': 71
  },
  {
    'endpoint': '192.0.2.9:49877',
    'id': 7,
    'identifiers': [
      'license:0000000000000000000000000000000000000003',
      'discord:000000000000000003'
    ],
    'name': 'Jörg Beispiel',
    'ping': 124
  }
]
".

(** ** Players *)

(** A [map[string]any], in the order its keys are written. *)
Fixpoint bytes_lt (l l' : list Z) : bool :=
  match l, l' with
  | _, [] => false
  | [], _ :: _ => true
  | x :: l, y :: l' => if decide (x = y) then bytes_lt l l' else bool_decide (x < y)
  end.

Fixpoint set_key (k : list Z) (v : any) (l : list (list Z * any)) : list (list Z * any) :=
  match l with
  | [] => [(k, v)]
  | (k', v') :: l' =>
      if decide (k = k') then (k, v) :: l'
      else if bytes_lt k k' then (k, v) :: l
      else (k', v') :: set_key k v l'
  end.

Definition get_key (k : list Z) (l : list (list Z * any)) : option any :=
  snd <$> head (filter (λ m, m.1 = k) l).

(** What [Unmarshal] makes of a value as [any]; a number is a float64, which
    an integer that is written in the usual way is as long as it has 53 bits.
    Other numbers are not modelled, the files have none. *)
Fixpoint as_any (v : value) : option any :=
  match v with
  | VNull => Some ANull
  | VBool b => Some (ABool b)
  | VNumber t =>
      n ← parse_int (of_bytes t);
      if decide (bytes (itoa n) = t ∧ Z.abs n ≤ 2 ^ 53) then Some (AInt n) else None
  | VString s => Some (AString s)
  | VArray l => AArray <$> mapM as_any l
  | VObject ms =>
      (λ l, AObject (foldl (λ acc m, set_key m.1 m.2 acc) [] l)) <$>
      mapM (λ m, pair m.1 <$> as_any m.2.2) ms
  end.

(** [json.Unmarshal(players, &tmpl)]. *)
Definition templates : option (list (list (list Z * any))) :=
  match first_value (E := neterr) players None with
  | Ok (VArray l) =>
      mapM (λ v, match as_any v with Some (AObject ms) => Some ms | _ => None end) l
  | _ => None
  end.

(** [fmt.Sprintf("%s %d", p["name"], i+1)], for a name that is a string. *)
Definition numbered (name : option any) (i : Z) : option any :=
  match name with
  | Some (AString s) => Some (AString (s ++ [32] ++ bytes (itoa (i + 1))))
  | _ => None
  end.

(** One round of the loop; [None] also stands for the panic of [i % 0]. *)
Definition player (tmpl : list (list (list Z * any))) (i : Z) : option (list (list Z * any)) :=
  p ← tmpl !! Z.to_nat (i mod Z.of_nat (length tmpl));
  let p := set_key (bytes "id") (AInt (i + 1)) p in
  if decide (Z.of_nat (length tmpl) ≤ i) then
    (λ name, set_key (bytes "name") name p) <$> numbered (get_key (bytes "name") p) i
  else Some p.

Definition playerList (n : Z) : option (list Z) :=
  tmpl ← templates;
  out ← mapM (player tmpl) (seqZ 0 (Z.max n 0));
  Some (write (AArray (AObject <$> out))).

(** ** The server *)

Record flags : Type := mkFlags { fl_addr : string; fl_players : Z; fl_down : bool; fl_slow : Duration }.

Definition default_flags : flags := mkFlags "127.0.0.1:30120" 3 false 0.

Record freply : Type := mkFreply { fr_Code : Z; fr_Type : string; fr_Body : list Z }.

Definition fhandler : Type := string → string → option freply.

Definition writeJSON (b : list Z) : freply := mkFreply 200 "application/json" b.

(** [http.Error]. *)
Definition http_error (code : Z) (text : string) : freply :=
  mkFreply code "text/plain; charset=utf-8" (bytes text ++ [10]).

(** A pattern with GET also takes HEAD. *)
Definition fmux (list : list Z) : fhandler := λ method path,
  let get b := if decide (method ∈ ["GET"; "HEAD"]) then writeJSON b
               else http_error 405 "Method Not Allowed" in
  Some (if decide (path = "/info.json") then get info
        else if decide (path = "/players.json") then get list
        else http_error 404 "404 page not found").

Definition down_handler : fhandler := λ _ _, Some (http_error 503 "service unavailable").

(** [delay]: nothing is written if the client leaves first; [fired] tells
    which branch the select takes. *)
Definition delay (h : fhandler) (d : Duration) (fired : bool) : fhandler := λ method path,
  if decide (d ≤ 0) then h method path
  else if fired then h method path
  else None.

(** [main] up to ListenAndServe: the handler it serves; [None] is log.Fatal. *)
Definition main_handler (f : flags) (fired : bool) : option fhandler :=
  list ← playerList (fl_players f);
  let h := if fl_down f then down_handler else fmux list in
  Some (delay h (fl_slow f) fired).

Example playerList_1 :
  playerList 1 = Some (quotes "[{'endpoint':'203.0.113.17:52110','id':1,'identifiers':['license:0000000000000000000000000000000000000001','discord:000000000000000001'],'name':'Testspieler Eins','ping':38}]").
Proof. vm_compute. reflexivity. Qed.

Example playerList_negative : playerList (-5) = Some (bytes "[]").
Proof. vm_compute. reflexivity. Qed.

(** ** Checked against it *)

(** Every player is an object of bounded size. *)
Definition player_ok (tmpl : list (list (list Z * any))) (d : nat) (i : Z) : bool :=
  match player tmpl i with
  | Some p => fits_dec d (AObject p) && bool_decide (Z.of_nat (length (write (AObject p))) ≤ 250)
  | None => false
  end.

Lemma first_players :
  match templates with
  | Some tmpl => forallb (player_ok tmpl (pred max_depth)) (seqZ 0 1000)
  | None => false
  end = true.
Proof. vm_compute. reflexivity. Qed.

Lemma separated_bound k l :
  Forall (λ x, (length x ≤ k)%nat) l → (length (separated l) ≤ length l * S k)%nat.
Proof.
  induction 1 as [|x l Hx Hl IH]; [done|]. destruct l as [|y l]; [simpl; lia|].
  cbn [separated]. rewrite !length_app. simpl in *. lia.
Qed.

Lemma max_depth_S : ∃ d, max_depth = S d ∧ pred max_depth = d.
Proof. exists (pred max_depth). split; [vm_compute; reflexivity|done]. Qed.

Lemma fits_array ps : Forall (λ p, fits (pred max_depth) (AObject p)) ps → fits max_depth (AArray (AObject <$> ps)).
Proof.
  destruct max_depth_S as (d & -> & _). intros Hps. cbn [fits]. apply Forall_fmap. done.
Qed.

(** The list of up to a thousand players. *)
Lemma playerList_spec n :
  n ≤ 1000 → ∃ ps, playerList n = Some (write (AArray (AObject <$> ps))) ∧
    length ps = Z.to_nat n ∧ fits max_depth (AArray (AObject <$> ps)) ∧
    Z.of_nat (length (write (AArray (AObject <$> ps)))) ≤ fivemLimit.
Proof.
  intros Hn. pose proof first_players as Hok. unfold playerList.
  destruct templates as [tmpl|]; [|done]. cbn [mbind option_bind].
  rewrite forallb_forall in Hok.
  assert (∀ i, 0 ≤ i < 1000 → ∃ p, player tmpl i = Some p ∧ fits (pred max_depth) (AObject p) ∧
    (length (write (AObject p)) ≤ 250)%nat) as Hp.
  { intros i Hi. assert (player_ok tmpl (pred max_depth) i = true) as Hi'.
    { apply Hok, list_elem_of_In, elem_of_seqZ. lia. }
    unfold player_ok in Hi'. destruct (player tmpl i) as [p|]; [|done]. exists p. split; [done|].
    apply andb_true_iff in Hi' as [Hf%fits_dec_fits Hl%bool_decide_eq_true]. split; [done|lia]. }
  assert (∃ ps, mapM (player tmpl) (seqZ 0 (Z.max n 0)) = Some ps ∧ length ps = Z.to_nat n ∧
    Forall (λ p, fits (pred max_depth) (AObject p) ∧ (length (write (AObject p)) ≤ 250)%nat) ps) as (ps & -> & Hl & Hps).
  { destruct (mapM (player tmpl) (seqZ 0 (Z.max n 0))) as [ps|] eqn:E.
    - exists ps. apply mapM_Some in E. split; [done|]. split.
      + apply Forall2_length in E. rewrite length_seqZ in E. lia.
      + apply list.Forall_forall. intros p (i & Hi)%list_elem_of_lookup.
        destruct (Forall2_lookup_r _ _ _ _ _ E Hi) as (x & Hx & Hxp).
        apply list_elem_of_lookup_2, elem_of_seqZ in Hx. destruct (Hp x) as (q & Hq & Hf); [lia|].
        by simplify_eq.
    - apply mapM_None, Exists_exists in E as (i & Hi%elem_of_seqZ & Hnone).
      destruct (Hp i) as (p & Hp' & _); [lia|]. by rewrite Hp' in Hnone. }
  exists ps. split; [done|]. split; [done|]. split.
  { apply fits_array. apply (Forall_impl _ _ _ Hps). by intros ? [? _]. }
  cbn [write]. rewrite <-list_fmap_compose, !length_app.
  pose proof (separated_bound 250 ((λ p, write (AObject p)) <$> ps)) as Hb.
  rewrite length_fmap, Hl in Hb. change (write ∘ AObject) with (λ p, write (AObject p)).
  assert (length (separated ((λ p, write (AObject p)) <$> ps)) ≤ Z.to_nat n * 251)%nat.
  { apply Hb, Forall_fmap. apply (Forall_impl _ _ _ Hps). by intros ? [_ ?]. }
  unfold fivemLimit. change (length [91]) with 1%nat. change (length [93]) with 1%nat. lia.
Qed.

Lemma info_read :
  match first_value (E := neterr) info None with
  | Ok v => info_of v
  | Err _ => None
  end = Some (mkInfo "FXServer-master SERVER v1.0.0.7290 linux" (of_bytes (quotes "'64'"))).
Proof. vm_compute. reflexivity. Qed.

(** The target's server is a fake one with these flags. *)
Definition serves `{!Network, !Peers} (c : Checker) (t : Target) (f : flags) : Prop :=
  ∃ h, main_handler f true = Some h ∧
  ∀ path, NewRequest ("http://" +:+ Address t +:+ path) = true ∧
    ∃ r, h "GET" path = Some r ∧
    Do c (ConnectTo t) ("http://" +:+ Address t +:+ path) = Ok (mkResponse (fr_Code r) (fr_Body r) None).

(** The checker sees what the fake server is told to be: with
    up to a thousand players exactly that many, none for a negative number,
    64 slots and the version of its file, however slow it is; and when it is
    to be down, a failure with its status. *)
Theorem fakefx_seen `{!Network, !Peers} c clock t f :
  Kind t = KindFiveM → serves c t f → fl_players f ≤ 1000 →
  Run c clock t =
  if fl_down f then mkResult false (t_since clock) 503 "status 503" None None ""
  else mkResult true (t_since clock) 200 "" (Some (Z.max 0 (fl_players f))) (Some 64)
         "FXServer-master SERVER v1.0.0.7290 linux".
Proof.
  intros Hk (h & Hh & Hs) Hn. unfold Run. rewrite Hk, !decide_False, decide_True by done.
  destruct (playerList_spec (fl_players f) Hn) as (ps & Hl & Hlen & Hfit & Hsize).
  unfold main_handler in Hh. rewrite Hl in Hh. cbn [mbind option_bind] in Hh. injection Hh as <-.
  assert (∀ h' m p, delay h' (fl_slow f) true m p = h' m p) as Hdelay by (intros; unfold delay; by case_decide).
  destruct (fl_down f).
  - destruct (Hs "/info.json") as (Hr & r & Hr' & Hd). rewrite Hdelay in Hr'. injection Hr' as <-.
    unfold checkFiveM, getJSON. cbv zeta. rewrite app_assoc_string, Hr, Hd. done.
  - destruct (Hs "/info.json") as (Hr & r & Hr' & Hd). rewrite Hdelay in Hr'. injection Hr' as <-.
    destruct (Hs "/players.json") as (Hrp & r & Hr' & Hdp). rewrite Hdelay in Hr'. injection Hr' as <-.
    pose proof info_read as Hi. destruct (first_value info None) as [v|] eqn:Ev; [|done].
    rewrite (checkFiveM_values c clock t info v _ _ _ (length ps) (mkAnswers _ _ _ _ Hr Hd ltac:(vm_compute; discriminate)) Ev Hi
      ltac:(done) (mkAnswers _ _ _ _ Hrp Hdp Hsize) (first_value_written _ Hfit) (players_written ps)).
    rewrite Hlen. replace (Z.of_nat (Z.to_nat (fl_players f))) with (Z.max 0 (fl_players f)) by lia. reflexivity.
Qed.

(** Five players: the templates are used up and numbered names follow. *)
Example fakefx_five :
  let p := Build_Peers (λ _, true) (λ s, s) (λ _ _, plain_error)
    (λ _ url, match main_handler (mkFlags "" 5 false 0) true with
              | Some h =>
                  match h "GET" (if decide (url = "http://203.0.113.9:30120/info.json") then "/info.json"
                                 else "/players.json") with
                  | Some r => Ok (mkResponse (fr_Code r) (fr_Body r) None)
                  | None => Err plain_error
                  end
              | None => Err plain_error
              end) in
  @Run public_network p lone_checker (mkTiming 3 5) fivem_target =
  mkResult true 5 200 "" (Some 5) (Some 64) "FXServer-master SERVER v1.0.0.7290 linux".
Proof. vm_compute. reflexivity. Qed.
