(* ===== verification/Config.v ===== *)
(** * Configuration (internal/config/config.go)

    [load] reads the environment through [get] and collects every complaint;
    the program starts only when there is none. *)

From S2P Require Import Prelude Text Netip AddrText Dial Validate.

(** The fields with the defaults of [load]; [None] is the zero prefix. *)
Record Config : Type := mkConfig {
  cf_Addr : string;
  cf_DBPath : string;
  cf_BaseURL : string;
  cf_TrustedProxy : option NetPrefix;
  cf_CookieSecure : bool;
  cf_PrivateAllow : list string;
  cf_RetentionDays : Z;
  cf_MetricsToken : string;
  cf_SMTPHost : string;
  cf_SMTPPort : Z;
  cf_SMTPUser : string;
  cf_SMTPPass : string;
  cf_MailFrom : string;
  cf_MailTo : list string;
  cf_AdminUser : string;
  cf_AdminPassword : string
}.

Definition MailEnabled (c : Config) : bool :=
  negb (bool_decide (cf_SMTPHost c = "")) && negb (bool_decide (length (cf_MailTo c) = 0%nat)).

(** [env.errs]: the variables complained about, with the messages. *)
Abbreviation errors := (list (string * string)) (only parsing).

Definition complaint (b : bool) (key msg : string) : errors := if b then [(key, msg)] else [].

(** [strings.TrimRight] of slashes. *)
Fixpoint drop_slashes (l : list Z) : list Z :=
  match l with
  | b :: l' => if decide (b = 47) then drop_slashes l' else l
  | [] => []
  end.

Definition TrimRight_slash (s : string) : string :=
  of_bytes (reverse (drop_slashes (reverse (bytes s)))).

(** [strconv.ParseBool]. *)
Definition ParseBool (s : string) : option bool :=
  if decide (s ∈ ["1"; "t"; "T"; "true"; "TRUE"; "True"]) then Some true
  else if decide (s ∈ ["0"; "f"; "F"; "false"; "FALSE"; "False"]) then Some false
  else None.

(** [netip.Prefix.Masked]. *)
Definition Masked (p : NetPrefix) : NetPrefix :=
  let w := if pf_v4 p then 32 else 128 in
  let m := 2 ^ (w - pf_len p) in
  mkPrefix (pf_v4 p) (pf_bits p / m * m) (pf_len p).

Definition num_text (lo hi : Z) : string :=
  "zahl von " +:+ itoa lo +:+ " bis " +:+ itoa hi +:+ " erwartet".

Section Load.
Context `{!NetLib}.
Variable get : string → string.

Definition str (key def : string) : string :=
  let v := TrimSpace (get key) in if decide (v = "") then def else v.

Definition flag (key : string) (def : bool) : bool * errors :=
  let v := str key "" in
  if decide (v = "") then (def, []) else
  match ParseBool v with
  | Some b => (b, [])
  | None => (false, [(key, "true oder false erwartet")])
  end.

Definition num (key : string) (def lo hi : Z) : Z * errors :=
  let v := str key "" in
  if decide (v = "") then (def, []) else
  match parse_int v with
  | Some n => (n, complaint (bool_decide (n < lo ∨ hi < n)) key (num_text lo hi))
  | None => (0, [(key, num_text lo hi)])
  end.

Definition bad_base_url (s : string) : bool :=
  match url_Parse s with
  | None => true
  | Some u =>
      negb (bool_decide (u_Scheme u = "http")) && negb (bool_decide (u_Scheme u = "https")) ||
      bool_decide (u_Host u = "") || u_HasUser u || negb (bool_decide (u_Path u = "")) ||
      negb (bool_decide (u_RawQuery u = "")) || negb (bool_decide (u_Fragment u = ""))
  end.

Definition bad_addr (s : string) : bool :=
  match SplitHostPort s with Some (_, port) => bool_decide (port = "") | None => true end.

(** The condition on an element of PRIVATE_ALLOW. *)
Definition allow_ok (s : string) : bool :=
  match SplitHostPort s with
  | Some (host, port) =>
      negb (bool_decide (host = "")) && negb (ContainsFunc IsSpace host) && validPort port
  | None => false
  end.

(** One round of the loop over PRIVATE_ALLOW; the message leaves out the
    quoted element. *)
Definition allow_step (acc : list string * errors) (part : string) : list string * errors :=
  let s := TrimSpace part in
  if decide (s = "") then acc
  else if allow_ok s then (acc.1 ++ [s], acc.2)
  else (acc.1, acc.2 ++ [("PRIVATE_ALLOW", "host:port mit port 1 bis 65535 erwartet")]).

Definition trusted_proxy : option NetPrefix * errors :=
  let v := str "TRUSTED_PROXY" "" in
  if decide (v = "") then (None, []) else
  match ParsePrefix v with
  | Some p => (Some (Masked p), [])
  | None => (None, [("TRUSTED_PROXY", "cidr erwartet, z. b. 172.20.0.0/24")])
  end.

Definition mail_to : list string * errors :=
  let to := str "MAIL_TO" "" in
  if decide (to = "") then ([], []) else
  match ParseMailList to with
  | Some l => (l, [])
  | None => ([], [("MAIL_TO", "adressliste ungueltig")])
  end.

Definition mail_errors (c : Config) : errors :=
  complaint (bool_decide (cf_SMTPHost c = "") && negb (bool_decide (length (cf_MailTo c) = 0%nat)))
    "SMTP_HOST" "fehlt, MAIL_TO ist gesetzt" ++
  (if MailEnabled c then
     (if decide (cf_MailFrom c = "") then [("MAIL_FROM", "fehlt")]
      else complaint (bool_decide (ParseMail (cf_MailFrom c) = None)) "MAIL_FROM" "adresse ungueltig") ++
     complaint (negb (eqb (bool_decide (cf_SMTPUser c = "")) (bool_decide (cf_SMTPPass c = ""))))
       "SMTP_USER" "SMTP_USER und SMTP_PASS nur zusammen"
   else []).

(** The condition on a user name, here and in [setPassword]. *)
Definition name_ok (s : string) : bool :=
  bool_decide (RuneCount s ≤ 60) && negb (ContainsFunc IsSpace s) && negb (ContainsFunc IsControl s).

Definition admin_errors (c : Config) : errors :=
  complaint (negb (eqb (bool_decide (cf_AdminUser c = "")) (bool_decide (cf_AdminPassword c = ""))))
    "ADMIN_USER" "ADMIN_USER und ADMIN_PASSWORD nur zusammen" ++
  (if decide (cf_AdminUser c = "") then [] else
     complaint (negb (name_ok (cf_AdminUser c))) "ADMIN_USER" "bis 60 zeichen, keine leerzeichen" ++
     complaint (bool_decide (RuneCount (cf_AdminPassword c) < 12)) "ADMIN_PASSWORD"
       "mindestens 12 zeichen").

(** [load]: the configuration and the joined errors. *)
Definition load : Config * errors :=
  let '(secure, e1) := flag "COOKIE_SECURE" true in
  let '(days, e2) := num "RETENTION_DAYS" 30 1 400 in
  let '(port, e3) := num "SMTP_PORT" 465 1 65535 in
  let addr := str "ADDR" ":8080" in
  let baseURL := TrimRight_slash (str "BASE_URL" "") in
  let e4 := complaint (bad_addr addr) "ADDR" "host:port erwartet, z. b. :8080" in
  let e5 := complaint (negb (bool_decide (baseURL = "")) && bad_base_url baseURL)
              "BASE_URL" "z. b. https://status.example.com" in
  let e6 := complaint (negb (bool_decide (str "TRUST_PROXY" "" = "")))
              "TRUST_PROXY" "entfernt, stattdessen TRUSTED_PROXY=cidr des proxy-netzes" in
  let '(proxy, e7) := trusted_proxy in
  let e8 := complaint (negb (bool_decide (str "ALLOW_PRIVATE" "" = "")))
              "ALLOW_PRIVATE" "entfernt, stattdessen PRIVATE_ALLOW=host:port,..." in
  let '(allow, e9) := foldl allow_step ([], []) (Split (str "PRIVATE_ALLOW" "") ",") in
  let token := str "METRICS_TOKEN" "" in
  let e10 := complaint (negb (bool_decide (token = "")) && bool_decide (String.length token < 32)%nat)
               "METRICS_TOKEN" "mindestens 32 zeichen" in
  let '(to, e11) := mail_to in
  let c := mkConfig addr (str "DB_PATH" "data/status.db") baseURL proxy secure allow days token
             (str "SMTP_HOST" "") port (str "SMTP_USER" "") (get "SMTP_PASS") (str "MAIL_FROM" "") to
             (str "ADMIN_USER" "") (get "ADMIN_PASSWORD") in
  (c, e1 ++ e2 ++ e3 ++ e4 ++ e5 ++ e6 ++ e7 ++ e8 ++ e9 ++ e10 ++ e11 ++ mail_errors c ++
      admin_errors c).

(** [Load]. *)
Definition Load : option Config :=
  let '(c, errs) := load in if decide (length errs = 0%nat) then Some c else None.
End Load.

(** ** Lemmas *)

Lemma complaint_nil b key msg : complaint b key msg = [] ↔ b = false.
Proof. by destruct b. Qed.

Lemma bool_decide_same P Q `{Decision P} `{Decision Q} :
  bool_decide P = bool_decide Q → (P ↔ Q).
Proof. intros He. by rewrite <-(bool_decide_eq_true P), He, bool_decide_eq_true. Qed.

(** A complaint about a variable that may be empty. *)
Lemma unless_empty s b : negb (bool_decide (s = "")) && b = false → s = "" ∨ b = false.
Proof. destruct (decide (s = "")); [by left|]. rewrite bool_decide_eq_false_2 by done. by right. Qed.

Lemma bad_addr_port s :
  bad_addr s = false → ∃ host port, SplitHostPort s = Some (host, port) ∧ port ≠ "".
Proof.
  unfold bad_addr. destruct (SplitHostPort s) as [[host port]|]; [|done].
  rewrite bool_decide_eq_false. eauto.
Qed.

Lemma allow_ok_spec s :
  allow_ok s = true → ∃ host port, SplitHostPort s = Some (host, port) ∧ host ≠ "" ∧ validPort port = true.
Proof.
  unfold allow_ok. destruct (SplitHostPort s) as [[host port]|]; [|done].
  rewrite !andb_true_iff, !negb_true_iff, bool_decide_eq_false. naive_solver.
Qed.

Section Valid.
Context `{!NetLib} (get : string → string).

Lemma num_valid key def lo hi n :
  lo ≤ def ≤ hi → num get key def lo hi = (n, []) → lo ≤ n ≤ hi.
Proof.
  intros Hd. unfold num. case_decide; [by intros; simplify_eq|].
  destruct (parse_int _); [|done]. intros [= -> Hc].
  apply complaint_nil, bool_decide_eq_false in Hc. lia.
Qed.

Lemma allow_steps parts acc :
  Forall (λ s, allow_ok s = true) acc.1 →
  Forall (λ s, allow_ok s = true) (foldl allow_step acc parts).1.
Proof.
  revert acc. induction parts as [|p parts IH]; intros acc Hacc; simpl; [done|].
  apply IH. unfold allow_step. case_decide; [done|].
  destruct (allow_ok _) eqn:Ha; simpl; [|done]. by apply Forall_app; auto.
Qed.

(** What holds of a configuration the program runs with. *)
Record valid_config (c : Config) : Prop := mkValidConfig {
  vc_days : 1 ≤ cf_RetentionDays c ≤ 400;
  vc_port : 1 ≤ cf_SMTPPort c ≤ 65535;
  vc_addr : ∃ host port, SplitHostPort (cf_Addr c) = Some (host, port) ∧ port ≠ "";
  vc_base : cf_BaseURL c = "" ∨ bad_base_url (cf_BaseURL c) = false;
  vc_allow : ∀ s, s ∈ cf_PrivateAllow c → ∃ host port,
    SplitHostPort s = Some (host, port) ∧ host ≠ "" ∧ validPort port = true;
  vc_token : cf_MetricsToken c = "" ∨ (32 ≤ String.length (cf_MetricsToken c))%nat;
  vc_mail : cf_MailTo c ≠ [] → MailEnabled c = true ∧ is_Some (ParseMail (cf_MailFrom c)) ∧
    (cf_SMTPUser c = "" ↔ cf_SMTPPass c = "");
  vc_admin : (cf_AdminUser c = "" ↔ cf_AdminPassword c = "") ∧
    (cf_AdminUser c ≠ "" → name_ok (cf_AdminUser c) = true ∧ 12 ≤ RuneCount (cf_AdminPassword c))
}.

Lemma mail_errors_valid c :
  mail_errors c = [] → cf_MailTo c ≠ [] →
  MailEnabled c = true ∧ is_Some (ParseMail (cf_MailFrom c)) ∧
  (cf_SMTPUser c = "" ↔ cf_SMTPPass c = "").
Proof.
  unfold mail_errors. intros [H1 H2]%app_nil Hto.
  assert (Hlen : length (cf_MailTo c) ≠ 0%nat) by (by destruct (cf_MailTo c)).
  apply complaint_nil, andb_false_iff in H1. rewrite bool_decide_eq_false in H1.
  rewrite (bool_decide_eq_false_2 _ Hlen) in H1. destruct H1 as [H1|]; [|done].
  assert (Hen : MailEnabled c = true).
  { unfold MailEnabled. by rewrite !bool_decide_eq_false_2. }
  rewrite Hen in H2. apply app_nil in H2 as [H2 H3].
  apply complaint_nil, negb_false_iff, eqb_prop in H3. split_and!; [done| |].
  - case_decide; [done|]. apply complaint_nil, bool_decide_eq_false in H2.
    by apply not_eq_None_Some.
  - by apply bool_decide_same in H3.
Qed.

Lemma admin_errors_valid c :
  admin_errors c = [] →
  (cf_AdminUser c = "" ↔ cf_AdminPassword c = "") ∧
  (cf_AdminUser c ≠ "" → name_ok (cf_AdminUser c) = true ∧ 12 ≤ RuneCount (cf_AdminPassword c)).
Proof.
  unfold admin_errors. intros [H1 H2]%app_nil.
  apply complaint_nil, negb_false_iff, eqb_prop, bool_decide_same in H1.
  split; [done|]. intros Hu. rewrite decide_False in H2 by done. apply app_nil in H2 as [H2 H3].
  apply complaint_nil in H2, H3. apply negb_false_iff in H2. apply bool_decide_eq_false in H3.
  split; [done|lia].
Qed.
End Valid.

(** ** Properties *)

(** C31: the program only runs with a configuration in which the
    numbers are in range, the listen address has a port, the base URL is a bare
    origin, every exempted address names a host and a port, the metrics token
    is absent or long, mail settings are complete when recipients are set, and
    the initial account has a usable name and a password of twelve
    characters. *)
Theorem config_safe `{!NetLib} get c : Load get = Some c → valid_config c.
Proof.
  unfold Load, load.
  destruct (flag get _ _) as [secure e1]. destruct (num get "RETENTION_DAYS" _ _ _) as [days e2] eqn:H2.
  destruct (num get "SMTP_PORT" _ _ _) as [port e3] eqn:H3.
  destruct (trusted_proxy get) as [proxy e7].
  pose proof (allow_steps (Split (str get "PRIVATE_ALLOW" "") ",") ([], []) ltac:(done)) as Hal.
  destruct (foldl _ _ _) as [allow e9]. destruct (mail_to get) as [to e11].
  case_decide as Hn; [|done]. apply length_zero_iff_nil in Hn.
  do 12 (apply app_nil in Hn as [? Hn]). intros [= <-]. subst. simplify_eq/=.
  apply num_valid in H2, H3; [|lia..].
  repeat match goal with H : complaint _ _ _ = [] |- _ => apply complaint_nil in H end.
  split; simpl; try done.
  - by apply bad_addr_port.
  - by apply unless_empty.
  - intros s Hs. apply allow_ok_spec. rewrite list.Forall_forall in Hal. by apply Hal.
  - match goal with H : _ && bool_decide (String.length _ < 32)%nat = false |- _ =>
      apply unless_empty in H as [?|?%bool_decide_eq_false]; [by left|right; lia] end.
  - match goal with H : mail_errors _ = [] |- _ => exact (mail_errors_valid _ H) end.
  - exact (admin_errors_valid _ Hn).
Qed.

Definition small_env (key : string) : string :=
  if decide (key = "PRIVATE_ALLOW") then " db:5432, " else "".

Lemma config_safe_witness :
  ∃ c, @Load plain_netlib small_env = Some c ∧ cf_PrivateAllow c = ["db:5432"] ∧
    @valid_config plain_netlib c.
Proof.
  destruct (@Load plain_netlib small_env) as [c|] eqn:Hl; [|by vm_compute in Hl].
  exists c. split; [done|]. split; [|by apply (@config_safe plain_netlib small_env c)].
  vm_compute in Hl. by injection Hl as <-.
Defined.
