(* ===== verification/Pages.v ===== *)
(** * What the pages show (internal/web/view.go, public.go, chart.go, i18n.go)

    The data behind the public pages: one row per target with its state and
    uptime, the hourly cells, the overall state, the incidents without their
    causes, the latency slots.  The texts made of these data are in [Format]
    and [Lines], the structures handed to the templates in [View]. *)

From S2P Require Import Prelude GoTime Sql Schema WellFormed Text Targets Checks Incidents.
From S2P Require Import Rollup.
From Stdlib Require Import SpecFloat.

(** ** internal/web/view.go *)

Inductive State : Type := StateUp | StateDown | StateUnknown | StatePaused.

#[export] Instance State_eq_dec : EqDecision State.
Proof. solve_decision. Defined.

Record PlayersT : Type := mkPlayers { pl_Count : Z; pl_Max : Z; pl_Version : string }.

Record HourCell : Type := mkCell { hc_Start : Time; hc_State : State; hc_Uptime : spec_float }.

(** The bars of a [Chart]; their coordinates are whole numbers. *)
Record Bar : Type := mkBar { b_X : Z; b_Y : Z; b_W : Z; b_H : Z; b_State : State }.

Record Chart : Type := mkChart { ch_Width : Z; ch_Height : Z; ch_Bars : list Bar }.

Record TargetRow : Type := mkRow {
  r_ID : Z;
  r_Name : string;
  r_Kind : string;
  r_State : State;
  r_Uptime24h : spec_float;
  r_Uptime7d : spec_float;
  r_Uptime30d : spec_float;
  r_LatencyMs : Z;
  r_Players : option PlayersT;
  r_Hours : list HourCell;
  r_Spark : Chart
}.

Record IncidentView : Type := mkIncidentView {
  iv_TargetID : Z;
  iv_TargetName : string;
  iv_StartedAt : Time;
  iv_EndedAt : option Time;
  iv_Duration : Duration;
  iv_Cause : string
}.

(** [Page], the parts that depend on the request. *)
Record PageT : Type := mkPage {
  pg_Title : string;
  pg_Lang : string;
  pg_AltURL : string;
  pg_Path : string
}.

Record StatusPage : Type := mkStatusPage {
  sp_Page : PageT;
  sp_Overall : State;
  sp_CheckedAt : Time;
  sp_Targets : list TargetRow;
  sp_Incidents : list IncidentView
}.

Record DetailPage : Type := mkDetailPage {
  dp_Page : PageT;
  dp_Target : TargetRow;
  dp_Range : string;
  dp_Slots : list Z;
  dp_Incidents : list IncidentView
}.

(** ** internal/web/i18n.go, public.go: paths *)

Definition base (lang : string) : string := if decide (lang = "en") then "/en" else "".

Definition statusPath (lang : string) : string := base lang +:+ "/".

Definition detailPath (lang : string) (id : Z) (rng : string) : string :=
  let p := base lang +:+ "/ziel/" +:+ itoa id in
  if decide (rng = "24h") then p else p +:+ "?r=" +:+ rng.

Definition other (lang : string) : string := if decide (lang = "en") then "de" else "en".

(** ** internal/web/chart.go *)

Definition barStep : Z := 4.
Definition barHeight : Z := 24.
Definition barStub : Z := 4.

Definition bar (i : nat) (cell : HourCell) : Bar :=
  let x := Z.of_nat i * barStep in
  match hc_State cell with
  | StateUp => mkBar x (barHeight - 18) (barStep - 1) 18 StateUp
  | StateDown => mkBar x 0 (barStep - 1) barHeight StateDown
  | _ => mkBar x (barHeight - barStub) (barStep - 1) barStub StateUnknown
  end.

Definition HourBars (cells : list HourCell) : Chart :=
  mkChart (Z.of_nat (length cells) * barStep) barHeight (imap bar cells).

Definition no_chart : Chart := mkChart 0 0 [].

(** ** internal/web/public.go *)

(** One cell from [n] hours; the counts of a range are those of a check every
    few seconds at most, so that their sums stay far below [2^63]. *)
Definition cell_of (hs : list HourT) (start : Time) : HourCell :=
  let total := sum_with hr_Total hs in
  let ok := sum_with hr_OK hs in
  if decide (0 < total)
  then mkCell start (if decide (ok < total) then StateDown else StateUp) (ratio ok total)
  else mkCell start StateUnknown (float64 (-1)).

(** [for i := 0; i+n <= len(hours); i += n]; the fuel is the length. *)
Fixpoint cells_loop (fuel : nat) (hours : list HourT) (n : nat) : list HourCell :=
  match fuel, hours with
  | S fuel, h :: _ =>
      if decide (n ≤ length hours)%nat
      then cell_of (take n hours) (hr_Start h) :: cells_loop fuel (drop n hours) n
      else []
  | _, _ => []
  end.

Definition cells (hours : list HourT) (n : nat) : list HourCell :=
  cells_loop (length hours) hours n.

Definition zero_check : Check := mkCheck zeroTime (mkResult false 0 0 "" None None "").

(** The state, latency and players a row takes from the last check. *)
Definition row_state (t : Target) (last : option Check) : State :=
  if Paused t then StatePaused else
  match last with
  | None => StateUnknown
  | Some c => if OK (c_Result c) then StateUp else StateDown
  end.

Definition row_latency (last : option Check) : Z :=
  match last with
  | Some c => if OK (c_Result c) then LatencyMs (c_Result c) else 0
  | None => 0
  end.

Definition row_players (t : Target) (last : option Check) : option PlayersT :=
  c ← last;
  if decide (Kind t = KindFiveM) then
    n ← Players (c_Result c);
    m ← MaxPlayers (c_Result c);
    Some (mkPlayers n m (Version (c_Result c)))
  else None.

Definition row (now : Time) (t : Target) (hours : Z) : M Db (TargetRow * Check) :=
  let! checks := LastChecks (ID t) 1 in
  let last := head checks in
  let! up := Uptime now (ID t) in
  let mk hs spark :=
    mkRow (ID t) (Name t) (Kind t) (row_state t last) (Day up) (Week up) (Month up)
      (row_latency last) (row_players t last) hs spark in
  if decide (0 < hours) then
    let! h := Hours now (ID t) hours in
    let hs := cells h 1 in
    ret (mk hs (HourBars hs), default zero_check last)
  else ret (mk [] no_chart, default zero_check last).

Fixpoint overall_loop (rows : list TargetRow) (active : Z) (seen : bool) : State + (Z * bool) :=
  match rows with
  | [] => inr (active, seen)
  | r :: rows =>
      if decide (r_State r = StateDown) then inl StateDown
      else
        let seen := seen || bool_decide (r_State r = StateUp) in
        overall_loop rows (if decide (r_State r = StatePaused) then active else active + 1) seen
  end.

Definition overallState (rows : list TargetRow) : State :=
  match overall_loop rows 0 false with
  | inl s => s
  | inr (active, seen) =>
      if decide ((0 < length rows)%nat ∧ active = 0) then StatePaused
      else if negb seen then StateUnknown
      else StateUp
  end.

Definition incident_view (now : Time) (admin : bool) (i : Incident) : IncidentView :=
  let '(ended, d) :=
    if Open i then (None, Sub now (i_StartedAt i))
    else (Some (i_EndedAt i), Sub (i_EndedAt i) (i_StartedAt i)) in
  mkIncidentView (i_TargetID i) (i_TargetName i) (i_StartedAt i) ended d
    (if admin then i_Cause i else "").

Definition incidentRows (l : list Incident) (now : Time) (admin : bool) : list IncidentView :=
  incident_view now admin <$> l.

(** The loop of [status] over the targets. *)
Fixpoint status_rows (now : Time) (ts : list Target) (at_ : Time) (acc : list TargetRow) :
    M Db (Time * list TargetRow) :=
  match ts with
  | [] => ret (at_, acc)
  | t :: ts =>
      let! rl := row now t 90 in
      let at_ := if After (c_At rl.2) at_ then c_At rl.2 else at_ in
      status_rows now ts at_ (acc ++ [rl.1])
  end.

(** The page [status] builds when none is cached. *)
Definition status_page (now : Time) (lang : string) : M Db StatusPage :=
  let! targets := PublicTargets in
  let! p := status_rows now targets zeroTime [] in
  let! inc := RecentIncidents 20 (Add now (- (30 * 24 * Hour))) true in
  ret (mkStatusPage (mkPage "Status" lang (statusPath (other lang)) (statusPath lang))
         (overallState p.2) p.1 p.2 (incidentRows inc now false)).

Record period : Type := mkPeriod {
  pd_dur : Duration;
  pd_hours : Z;
  pd_group : nat;
  pd_step : Duration;
  pd_slots : nat
}.

Definition day_period : period := mkPeriod (24 * Hour) 24 1 Hour 144.

Definition periods (rng : string) : option period :=
  if decide (rng = "24h") then Some day_period
  else if decide (rng = "7d") then Some (mkPeriod (7 * 24 * Hour) 168 1 Hour 168)
  else if decide (rng = "30d") then Some (mkPeriod (30 * 24 * Hour) 720 24 (24 * Hour) 720)
  else None.

Definition slot_step (dur : Duration) (n : nat) : Duration := Z.quot dur (Z.of_nat n).

Definition first_slot (now : Time) (dur : Duration) (n : nat) : Time :=
  let step := slot_step dur n in Add (Truncate now step) (- ((Z.of_nat n - 1) * step)).

Definition put_point (first : Time) (step : Duration) (n : nat) (ms : list Z) (p : Point) : list Z :=
  let i := Z.quot (Sub (p_At p) first) step in
  if decide (first ≤ p_At p ∧ i < Z.of_nat n) then <[Z.to_nat i := p_Avg p]> ms else ms.

Definition slots (points : list Point) (now : Time) (dur : Duration) (n : nat) : list Z :=
  foldl (put_point (first_slot now dur n) (slot_step dur n) n) (replicate n (-1)) points.

(** [detail] past the path: [None] is the not-found page. *)
Definition detail_page (now : Time) (lang : string) (id : Z) (range : string) :
    M Db (option DetailPage) :=
  let! t := catch (TargetByID id) in
  match t with
  | Err ErrNotFound => ret None
  | Err e => throw e
  | Ok t =>
      if negb (Public t) then ret None else
      let '(rng, sp) := match periods range with
                        | Some sp => (range, sp)
                        | None => ("24h", day_period)
                        end in
      let! rl := row now t 0 in
      let r := rl.1 in
      let! hours := Hours now id (pd_hours sp) in
      let hs := cells hours (pd_group sp) in
      let r := mkRow (r_ID r) (r_Name r) (r_Kind r) (r_State r) (r_Uptime24h r) (r_Uptime7d r)
                 (r_Uptime30d r) (r_LatencyMs r) (r_Players r) hs (HourBars hs) in
      let! points := Latency now id (pd_dur sp) in
      let! inc := TargetIncidents id 50 (Add now (- pd_dur sp)) in
      ret (Some (mkDetailPage
        (mkPage (Name t) lang (detailPath (other lang) id rng) (detailPath lang id rng))
        r rng (slots points now (pd_dur sp) (pd_slots sp)) (incidentRows inc now false)))
  end.

(** [ratio] of public.go: [nil] for the -1 that stands for no data. *)
Definition ratio_or_nil (v : spec_float) : option spec_float :=
  if SFltb v (float64 0) then None else Some v.

Record apiTarget : Type := mkApiTarget {
  at_Name : string;
  at_Kind : string;
  at_State : State;
  at_24h : option spec_float;
  at_7d : option spec_float;
  at_30d : option spec_float;
  at_CheckedAt : option Time
}.

Fixpoint api_rows (now : Time) (ts : list Target) (acc : list apiTarget) : M Db (list apiTarget) :=
  match ts with
  | [] => ret acc
  | t :: ts =>
      let! rl := row now t 0 in
      let r := rl.1 in
      api_rows now ts (acc ++ [mkApiTarget (r_Name r) (r_Kind r) (r_State r)
        (ratio_or_nil (r_Uptime24h r)) (ratio_or_nil (r_Uptime7d r)) (ratio_or_nil (r_Uptime30d r))
        (if IsZero (c_At rl.2) then None else Some (c_At rl.2))])
  end.

(** The value [api] marshals when none is cached. *)
Definition api_page (now : Time) : M Db (list apiTarget) :=
  let! targets := PublicTargets in api_rows now targets [].

(** ** Lemmas *)

Lemma overall_loop_spec rows active seen :
  overall_loop rows active seen =
  if decide (StateDown ∈ r_State <$> rows) then inl StateDown
  else inr (active + count (λ r, negb (bool_decide (r_State r = StatePaused))) rows,
            seen || existsb (λ r, bool_decide (r_State r = StateUp)) rows).
Proof.
  revert active seen. induction rows as [|r rows IH]; intros active seen;
    rewrite ?fmap_cons; cbn [overall_loop existsb].
  - rewrite orb_false_r. rewrite decide_False by apply not_elem_of_nil.
    unfold count. simpl. by rewrite Z.add_0_r.
  - destruct (decide (r_State r = StateDown)) as [Hd|Hd].
    { rewrite decide_True; [done|]. rewrite Hd. left. }
    rewrite IH. unfold count. simpl.
    assert (Hd' : StateDown ∈ r_State r :: (r_State <$> rows) ↔ StateDown ∈ r_State <$> rows).
    { rewrite elem_of_cons. naive_solver. }
    rewrite (decide_ext _ _ _ _ Hd'). case_decide; [done|]. rewrite orb_assoc. do 2 f_equal.
    destruct (decide (r_State r = StatePaused)); [rewrite bool_decide_eq_true_2 by done|
      rewrite bool_decide_eq_false_2 by done]; simpl; lia.
Qed.

(** The headline of the status page: an outage if a service
    is down; otherwise everything is up if one is, paused when there are
    services and all of them are, and unknown in the remaining cases. *)
Theorem overall_state rows :
  (overallState rows = StateDown ↔ StateDown ∈ r_State <$> rows) ∧
  (overallState rows = StateUp ↔ StateDown ∉ r_State <$> rows ∧ StateUp ∈ r_State <$> rows) ∧
  (overallState rows = StatePaused ↔
   rows ≠ [] ∧ ∀ r, r ∈ rows → r_State r = StatePaused).
Proof.
  unfold overallState. rewrite overall_loop_spec.
  set (act := count _ _).
  assert (Hact : act = 0 ↔ ∀ r, r ∈ rows → r_State r = StatePaused).
  { unfold act. rewrite count_zero. setoid_rewrite negb_false_iff. by setoid_rewrite bool_decide_eq_true. }
  assert (Hup : existsb (λ r, bool_decide (r_State r = StateUp)) rows = true ↔
    StateUp ∈ r_State <$> rows).
  { rewrite existsb_exists, list_elem_of_fmap. setoid_rewrite bool_decide_eq_true.
    setoid_rewrite <-list_elem_of_In. naive_solver. }
  assert (Hall : (∀ r, r ∈ rows → r_State r = StatePaused) → ∀ s, s ∈ r_State <$> rows → s = StatePaused).
  { intros Hp s (r & -> & Hr)%list_elem_of_fmap. by apply Hp. }
  case_decide as Hd.
  - split_and!; [done|split; [done|by intros []]|]. split; [done|]. intros [_ Hp].
    by pose proof (Hall Hp _ Hd).
  - rewrite Z.add_0_l. cbn [orb]. case_decide as Hp.
    + destruct Hp as [Hne Hz]. rewrite Hact in Hz. split_and!.
      * by split.
      * split; [done|]. intros [_ Hu]. by pose proof (Hall Hz _ Hu).
      * split; [|done]. intros _. split; [|done]. intros Hr. rewrite Hr in Hne. by apply Nat.lt_irrefl in Hne.
    + assert (Hnp : ¬ (rows ≠ [] ∧ ∀ r, r ∈ rows → r_State r = StatePaused)).
      { intros [Hne Hz]. apply Hp. split; [destruct rows; [done|simpl; lia]|by apply Hact]. }
      assert (Hup' : existsb (λ r, bool_decide (r_State r = StateUp)) rows = false →
        StateUp ∉ r_State <$> rows) by (intros He; rewrite <-Hup, He; done).
      clear Hact Hall. destruct (existsb _ rows); simpl.
      * split_and!; split; try done. intros _. split; [done|by apply Hup].
      * split_and!; split; try done. intros [_ ?]. by destruct (Hup' eq_refl).
Qed.

(** The points of one slot of the chart. *)
Definition in_slot (first : Time) (step : Duration) (i : nat) (p : Point) : Prop :=
  first + Z.of_nat i * step ≤ p_At p < first + (Z.of_nat i + 1) * step.

#[export] Instance in_slot_dec first step i p : Decision (in_slot first step i p).
Proof. unfold in_slot. apply _. Defined.

Lemma put_point_length first step n ms p : length (put_point first step n ms p) = length ms.
Proof. unfold put_point. case_decide; [apply length_insert|done]. Qed.

(** The slot a point falls into, whatever the instant. *)
Lemma slot_index first step n i p :
  0 < step → Z.of_nat n * step ≤ int64_max → (i < n)%nat →
  (first ≤ p_At p ∧ Z.quot (Sub (p_At p) first) step = Z.of_nat i) ↔ in_slot first step i p.
Proof.
  intros Hs Hmax Hi. unfold in_slot.
  assert (Hin : (Z.of_nat i + 1) * step ≤ int64_max).
  { transitivity (Z.of_nat n * step); [|done]. apply Z.mul_le_mono_nonneg_r; lia. }
  destruct (decide (first ≤ p_At p)) as [Hf|Hf]; [|split; [lia|]; nia].
  assert (H0 : 0 ≤ Sub (p_At p) first) by (unfold Sub, sat64, int64_max, int64_min; lia).
  rewrite Z.quot_div_nonneg by lia.
  destruct (decide (p_At p - first ≤ int64_max)) as [Hle|Hgt].
  - rewrite Sub_exact by (unfold in_int64, int64_min; lia). split.
    + intros [_ Hq]. pose proof (Z.div_mod (p_At p - first) step ltac:(lia)) as Hdm.
      pose proof (Z.mod_pos_bound (p_At p - first) step Hs). rewrite Hq in Hdm. nia.
    + intros Hr. split; [done|]. symmetry. apply (Z.div_unique _ _ _ (p_At p - first - Z.of_nat i * step));
        [left; lia|lia].
  - assert (Sub (p_At p) first = int64_max) as -> by (unfold Sub, sat64, int64_max, int64_min in *; lia).
    split; [|lia]. intros [_ Hq]. pose proof (Z.mul_succ_div_gt int64_max step Hs). nia.
Qed.

(** The latency chart has one value per slot: the average of
    the last measured point of the slot, and -1 for a slot without one; points
    outside the period, however far, are ignored. *)
Theorem latency_slots points now dur n i :
  (0 < n)%nat → Z.of_nat n ≤ dur ≤ int64_max → (i < n)%nat →
  slots points now dur n !! i =
  Some (from_option p_Avg (-1)
    (last (filter (in_slot (first_slot now dur n) (slot_step dur n) i) points))).
Proof.
  intros Hn Hdur Hi. unfold slots.
  set (first := first_slot now dur n). set (step := slot_step dur n).
  assert (Hstep : 0 < step ∧ Z.of_nat n * step ≤ int64_max).
  { unfold step, slot_step. rewrite Z.quot_div_nonneg by lia. split.
    - apply Z.div_str_pos. lia.
    - transitivity dur; [|lia]. apply Z.mul_div_le. lia. }
  destruct Hstep as [Hs Hmax].
  assert (Hlen : ∀ l ms, length (foldl (put_point first step n) ms l) = length ms).
  { clear. intros l. induction l as [|p l IH]; intros ms; simpl; [done|].
    by rewrite IH, put_point_length. }
  induction points as [|p l IH] using rev_ind; simpl.
  { by apply lookup_replicate_2. }
  rewrite foldl_app, filter_app, last_app. simpl. rewrite filter_cons, filter_nil.
  pose proof (slot_index first step n i p Hs Hmax Hi) as Hp.
  unfold put_point. destruct (decide (in_slot first step i p)) as [Hin|Hin]; simpl.
  - apply Hp in Hin as [Hf Hq]. rewrite Hq, decide_True by (split; [done|lia]).
    rewrite Nat2Z.id. apply list_lookup_insert_eq. by rewrite Hlen, length_replicate.
  - case_decide as Hc; [|done]. rewrite list_lookup_insert_ne; [done|].
    intros Hi'. apply Hin, Hp. split; [lia|]. rewrite <-Hi', Z2Nat.id; [done|].
    apply Z.quot_pos; [|lia]. unfold Sub, sat64, int64_max, int64_min. lia.
Qed.

Lemma latency_slots_witness :
  let ps := [mkPoint (100 * Hour - 5 * Minute) 40 50 60; mkPoint (100 * Hour) 70 80 90] in
  slots ps (100 * Hour) (24 * Hour) 144 !! 143%nat = Some 70 ∧
  slots ps (100 * Hour) (24 * Hour) 144 !! 142%nat = Some 40.
Proof.
  intros ps. split.
  - rewrite (latency_slots ps (100 * Hour) (24 * Hour) 144 143); [reflexivity|lia| |lia].
    split; by vm_compute.
  - reflexivity.
Defined.
