(* ===== verification/Format.v ===== *)
(** * Figures and times as text (internal/web/i18n.go, chart.go)

    Percentages, durations, dates and the headline, as the templates print
    them.  Go's calendar arithmetic and [strconv.FormatFloat] are written
    out; the time zone Europe/Berlin is a parameter, its offset at an
    instant.  The operations on float64 are rounded one by one. *)

From S2P Require Import Prelude Text GoTime Sql Schema Rollup Pages Texts.
From Stdlib Require Import SpecFloat.

(** ** strconv.FormatFloat(x, 'f', prec, 64) *)

(** All digits of a natural number. *)
Definition decimal (n : Z) : string :=
  String.string_of_list_ascii (digits (S (Z.to_nat (Z.log2 n))) n).

(** [a / b] to the nearest integer, halves to the even one. *)
Definition round_even (a b : Z) : Z :=
  let q := a / b in
  let r := a mod b in
  if decide (2 * r < b) then q
  else if decide (b < 2 * r) then q + 1
  else if Z.even q then q else q + 1.

Fixpoint pad_zeros (n : nat) (s : string) : string :=
  match n with
  | O => s
  | S n => if decide (String.length s < S n)%nat then "0" +:+ pad_zeros n s else s
  end.

(** [n / 10^prec] with [prec] digits after the point. *)
Definition fixed_point (prec : nat) (n : Z) : string :=
  match prec with
  | O => decimal n
  | _ => decimal (n / 10 ^ Z.of_nat prec) +:+ "." +:+
         pad_zeros prec (decimal (n mod 10 ^ Z.of_nat prec))
  end.

Definition sign_text (neg : bool) : string := if neg then "-" else "".

Definition FormatFloat (prec : nat) (x : spec_float) : string :=
  match x with
  | S754_nan => "NaN"
  | S754_infinity neg => if neg then "-Inf" else "+Inf"
  | S754_zero neg => sign_text neg +:+ fixed_point prec 0
  | S754_finite neg m e =>
      sign_text neg +:+ fixed_point prec
        (round_even (Zpos m * 10 ^ Z.of_nat prec * 2 ^ Z.max 0 e) (2 ^ Z.max 0 (- e)))
  end.

(** ** float64 *)

Definition fmul (x y : spec_float) : spec_float := SFmul 53 1024 x y.
Definition fadd (x y : spec_float) : spec_float := SFadd 53 1024 x y.
Definition fsub (x y : spec_float) : spec_float := SFsub 53 1024 x y.
Definition fdiv (x y : spec_float) : spec_float := SFdiv 53 1024 x y.

(** The constant 1e-6. *)
Definition micro : spec_float := S754_finite false 4722366482869645 (-72).

(** [math.Floor]. *)
Definition Floor (x : spec_float) : spec_float :=
  match x with
  | S754_finite neg m e =>
      if decide (0 ≤ e) then x
      else float64 ((if neg then Zneg m else Zpos m) / 2 ^ (- e))
  | _ => x
  end.

(** [v < 0]. *)
Definition negative (v : spec_float) : bool := SFltb v (S754_zero false).

(** ** pct *)

(** [strings.Replace(s, ".", ",", 1)]. *)
Definition decimal_comma (s : string) : string :=
  match Cut s "." with
  | (a, Some b) => a +:+ "," +:+ b
  | (_, None) => s
  end.

Definition percent_sign (lang s : string) : string :=
  if decide (lang = "en") then s +:+ "%" else decimal_comma s +:+ " %".

Definition pct (lang : string) (v : spec_float) : string :=
  if negative v then "–" else
  let s := FormatFloat 2
    (fdiv (Floor (fadd (fmul v (float64 10000)) micro)) (float64 100)) in
  percent_sign lang (if decide (s = "100.00") then "100" else s).

(** ** dur *)

(** [d.Round(m)]: halves away from zero, saturating. *)
Definition Round (d m : Duration) : Duration :=
  if decide (m ≤ 0) then d else
  let r := Z.rem d m in
  if decide (d < 0) then
    let r := - r in
    if decide (r + r < m) then d + r
    else let d1 := wrap64 (d - m + r) in if decide (d1 < d) then d1 else int64_min
  else
    if decide (r + r < m) then d - r
    else let d1 := wrap64 (d + m - r) in if decide (d < d1) then d1 else int64_max.

Definition dur (lang : string) (d : Duration) : string :=
  let m := Z.quot (Round d Minute) Minute in
  if decide (d < Minute) then "< 1 min"
  else if decide (m < 60) then itoa m +:+ " min"
  else if decide (m < 24 * 60) then
    if decide (Z.rem m 60 = 0) then itoa (Z.quot m 60) +:+ " h"
    else itoa (Z.quot m 60) +:+ " h " +:+ itoa (Z.rem m 60) +:+ " min"
  else
    let unit_ := if decide (lang = "en") then "d" else "T" in
    let h := Z.rem (Z.quot m 60) 24 in
    if decide (0 < h) then itoa (Z.quot m (24 * 60)) +:+ " " +:+ unit_ +:+ " " +:+ itoa h +:+ " h"
    else itoa (Z.quot m (24 * 60)) +:+ " " +:+ unit_.

(** ** Dates *)

Record civil : Type := mkCivil { cv_year : Z; cv_month : Z; cv_day : Z }.

#[export] Instance civil_eq_dec : EqDecision civil.
Proof. solve_decision. Defined.

(** The proleptic Gregorian date of a day, counted from 1 January 1970; years
    begin in March inside the computation. *)
Definition civil_of_days (days : Z) : civil :=
  let z := days + 719468 in
  let era := z / 146097 in
  let doe := z mod 146097 in
  let yoe := (doe - doe / 1460 + doe / 36524 - doe / 146096) / 365 in
  let doy := doe - (365 * yoe + yoe / 4 - yoe / 100) in
  let mp := (5 * doy + 2) / 153 in
  let month := if decide (mp < 10) then mp + 3 else mp - 9 in
  mkCivil (yoe + era * 400 + (if decide (month ≤ 2) then 1 else 0)) month
    (doy - (153 * mp + 2) / 5 + 1).

(** The seconds east of UTC in Berlin at an instant, from the tz database. *)
Class Berlin : Type := { offset : Time → Z }.

Section Dates.
Context `{!Berlin}.

(** The seconds of the local clock since 1970. *)
Definition local (t : Time) : Z := Unix t + offset t.

Definition date (t : Time) : civil := civil_of_days (local t / 86400).

Definition two (n : Z) : string := pad_zeros 2 (decimal n).

Definition month_name (m : Z) : string :=
  default "" (["Jan"; "Feb"; "Mar"; "Apr"; "May"; "Jun"; "Jul"; "Aug"; "Sep"; "Oct"; "Nov"; "Dec"]
    !! Z.to_nat (m - 1)).

(** The layout 15:04. *)
Definition clock (t : Time) : string :=
  let s := local t mod 86400 in two (s / 3600) +:+ ":" +:+ two (s mod 3600 / 60).

(** [fmt.Sprintf(T(lang, key), ...)]. *)
Definition tf (lang key : string) (args : list arg) : option string := Sprintf (T lang key) args.

Definition stand (lang : string) (t : Time) : option string :=
  if IsZero t then Some (T lang "stand.none") else tf lang "stand" [AStr (clock t)].

Definition year_text (y : Z) : string := sign_text (bool_decide (y < 0)) +:+ pad_zeros 4 (decimal (Z.abs y)).

(** The layouts Jan 2, 2006 and 02.01.2006. *)
Definition day (lang : string) (t : Time) : string :=
  let c := date t in
  if decide (lang = "en")
  then month_name (cv_month c) +:+ " " +:+ decimal (cv_day c) +:+ ", " +:+ year_text (cv_year c)
  else two (cv_day c) +:+ "." +:+ two (cv_month c) +:+ "." +:+ year_text (cv_year c).

(** The layouts Jan 2, 15:04 and 02.01., 15:04. *)
Definition when (lang : string) (t : Time) : string :=
  let c := date t in
  if decide (lang = "en")
  then month_name (cv_month c) +:+ " " +:+ decimal (cv_day c) +:+ ", " +:+ clock t
  else two (cv_day c) +:+ "." +:+ two (cv_month c) +:+ "., " +:+ clock t.

Definition span (lang : string) (from to : Time) : option string :=
  let end_ := if decide (date from = date to) then clock to else when lang to in
  tf lang "inc.span" [AStr (when lang from); AStr end_].

(** ** Names and the headline *)

Definition kindName (k : string) : string :=
  if decide (k = "http") then "HTTP" else if decide (k = "tcp") then "TCP"
  else if decide (k = "fivem") then "FiveM" else k.

Definition overall (lang : string) (s : State) (rows : list TargetRow) : option string :=
  match rows with
  | [] => Some (T lang "overall.empty")
  | _ =>
      match s with
      | StateUp => Some (T lang "overall.up")
      | StatePaused => Some (T lang "overall.paused")
      | StateDown =>
          let n := count (λ r, bool_decide (r_State r = StateDown)) rows in
          if decide (n ≤ 1) then Some (T lang "overall.down1")
          else tf lang "overall.downN" [AInt n]
      | StateUnknown => Some (T lang "overall.unknown")
      end
  end.

(** ** The texts of the bars (chart.go) *)

Definition barTitle (lang : string) (cell : HourCell) (s : State) (step : Duration) : string :=
  let at_ := if decide (24 * Hour ≤ step) then day lang (hc_Start cell) else when lang (hc_Start cell) in
  match s with
  | StateUnknown => at_ +:+ " · " +:+ T lang "bars.none"
  | StateDown => at_ +:+ " · " +:+ T lang "leg.down" +:+ " · " +:+ pct lang (hc_Uptime cell)
  | _ => at_ +:+ " · " +:+ pct lang (hc_Uptime cell)
  end.

(** The label of [HourBars]: how many bars are up, down and without data. *)
Definition bars_label (cells : list HourCell) (step : Duration) (lang : string) : option string :=
  let up := count (λ c, bool_decide (hc_State c = StateUp)) cells in
  let down := count (λ c, bool_decide (hc_State c = StateDown)) cells in
  let none := count (λ c, negb (bool_decide (hc_State c = StateUp)) &&
                          negb (bool_decide (hc_State c = StateDown))) cells in
  let len := Z.of_nat (length cells) in
  let '(key, n) :=
    if decide (24 * Hour ≤ step) then ("bars.d", len)
    else if decide (Hour < step) then ("bars.h", len * Z.quot step Hour)
    else ("bars.h", len) in
  tf lang key [AInt n; AInt up; AInt down; AInt none].

Definition Dense (c : Chart) : bool := bool_decide (30 < length (ch_Bars c))%nat.

Definition Class_ (b : Bar) : string :=
  match b_State b with
  | StateUp => "bar-up"
  | StateDown => "bar-down"
  | _ => "bar-none"
  end.
End Dates.

Example format_float_third : FormatFloat 2 (fdiv (float64 1) (float64 3)) = "0.33".
Proof. reflexivity. Qed.
Example pct_some : pct "de" (ratio 59 60) = "98,33 %".
Proof. reflexivity. Qed.
Example dur_day : dur "de" (24 * Hour + 90 * Minute) = "1 T 1 h".
Proof. reflexivity. Qed.
Example civil_leap : civil_of_days 19782 = mkCivil 2024 2 29.
Proof. reflexivity. Qed.

(** ** Lemmas *)

(** Rounding to minutes: thirty seconds up or down. *)
Lemma Round_minutes d :
  0 ≤ d ≤ int64_max - Minute → Round d Minute = Minute * ((d + 30 * Second) / Minute).
Proof.
  intros Hd. unfold Round. rewrite decide_False by (unfold Minute, Second, Millisecond, Nanosecond; lia).
  rewrite decide_False by lia. rewrite Z.rem_mod_nonneg by (done || lia).
  pose proof (Z.div_mod d Minute) as Hdm. pose proof (Z.mod_pos_bound d Minute) as Hm.
  unfold int64_max in Hd. set (q := d / Minute) in *. set (r := d mod Minute) in *.
  change Minute with 60000000000 in *. change (30 * Second) with 30000000000.
  case_decide as Hr.
  - assert (q = (d + 30000000000) / 60000000000) as <-; [|lia].
    apply (Z.div_unique_pos _ _ _ (r + 30000000000)); lia.
  - assert (q + 1 = (d + 30000000000) / 60000000000) as <-.
    { apply (Z.div_unique_pos _ _ _ (r - 30000000000)); lia. }
    rewrite wrap64_id by (unfold in_int64, int64_min, int64_max; lia).
    rewrite decide_True by lia. lia.
Qed.

Lemma string_app_nil_r s : s +:+ "" = s.
Proof. induction s as [|a s IH]; [done|]. change (String a s +:+ "") with (String a (s +:+ "")). by rewrite IH. Qed.

(** A duration in days, hours and minutes, the way it is read. *)
Definition dur_text (lang : string) (days h m : Z) : string :=
  let unit_ := if decide (lang = "en") then "d" else "T" in
  if decide (0 < days) then
    itoa days +:+ " " +:+ unit_ +:+ (if decide (0 < h) then " " +:+ itoa h +:+ " h" else "")
  else if decide (0 < h) then
    itoa h +:+ " h" +:+ (if decide (0 < m) then " " +:+ itoa m +:+ " min" else "")
  else itoa m +:+ " min".

(** The headline's count: no outage means no row is down. *)
Lemma count_down rows :
  count (λ r, bool_decide (r_State r = StateDown)) rows = 0 ↔ StateDown ∉ r_State <$> rows.
Proof.
  rewrite count_zero. setoid_rewrite bool_decide_eq_false. rewrite list_elem_of_fmap. naive_solver.
Qed.

(** A text whose German version takes the arguments. *)
Lemma tf_fits lang key args :
  is_Some (texts "de" !! key) → verbs (T "de" key) = Some (verb_of <$> args) →
  is_Some (tf lang key args).
Proof. intros Hk Hv. unfold tf. by apply Sprintf_fits. Qed.

(** ** Properties *)

(** A duration of at least a minute is shown in days, hours and
    minutes that differ from it by at most thirty seconds, with the parts
    that are zero and, from a day on, the minutes left out; below a minute
    the text says so. *)
Theorem dur_reads lang d :
  0 ≤ d ≤ int64_max - Minute →
  if decide (d < Minute) then dur lang d = "< 1 min" else
  ∃ days h m, dur lang d = dur_text lang days h m ∧
    0 ≤ days ∧ 0 ≤ h < 24 ∧ 0 ≤ m < 60 ∧
    Z.abs (((days * 24 + h) * 60 + m) * Minute - d) ≤ 30 * Second.
Proof.
  intros Hd. unfold dur. rewrite (Round_minutes _ Hd). rewrite (Z.mul_comm Minute), Z.quot_mul by done.
  case_decide as Hmin; [done|].
  set (k := (d + 30 * Second) / Minute).
  assert (1 ≤ k ∧ Z.abs (k * Minute - d) ≤ 30 * Second) as [Hk Herr].
  { unfold k. pose proof (Z.div_mod (d + 30 * Second) Minute) as E.
    pose proof (Z.mod_pos_bound (d + 30 * Second) Minute) as B.
    unfold Minute, Second, Millisecond, Nanosecond in *. lia. }
  clearbody k. exists (k / 1440), (k / 60 mod 24), (k mod 60).
  assert (Heq : (k / 1440 * 24 + k / 60 mod 24) * 60 + k mod 60 = k).
  { change 1440 with (60 * 24). rewrite <-Z.div_div by lia.
    pose proof (Z.div_mod k 60). pose proof (Z.div_mod (k / 60) 24). lia. }
  pose proof (Z.mod_pos_bound k 60). pose proof (Z.mod_pos_bound (k / 60) 24).
  rewrite Heq. split_and!; try lia; try (apply Z.div_pos; lia).
  rewrite !Z.rem_mod_nonneg, !Z.quot_div_nonneg by (try apply Z.div_pos; lia).
  change (24 * 60) with 1440. unfold dur_text.
  assert (k < 1440 → k / 1440 = 0 ∧ k / 60 mod 24 = k / 60) as Hsmall.
  { intros Hlt. split; [by apply Z.div_small; lia|]. apply Z.mod_small.
    split; [apply Z.div_pos; lia|]. apply Z.div_lt_upper_bound; lia. }
  assert (1440 ≤ k → 0 < k / 1440) as Hdays by (intros; apply Z.div_str_pos; lia).
  assert (60 ≤ k → 0 < k / 60) as Hhours by (intros; apply Z.div_str_pos; lia).
  destruct (decide (k < 60)) as [Hlt|]; [|destruct (decide (k < 1440))].
  - destruct Hsmall as [E1 E2]; [lia|]. rewrite E1, E2, (Z.div_small k 60), (Z.mod_small k 60) by lia.
    done.
  - destruct Hsmall as [E1 E2]; [lia|]. rewrite E1, E2. simpl.
    rewrite (decide_True _ _ (Hhours ltac:(lia))).
    case_decide; [rewrite decide_False by lia|rewrite decide_True by lia]; [|done].
    by rewrite string_app_nil_r.
  - rewrite Z.rem_mod_nonneg by lia. rewrite (decide_True _ _ (Hdays ltac:(lia))). case_decide; [done|]. by rewrite string_app_nil_r.
Qed.

Lemma dur_reads_witness :
  ∃ days h m, dur "de" (26 * Hour) = dur_text "de" days h m ∧
    0 ≤ days ∧ 0 ≤ h < 24 ∧ 0 ≤ m < 60 ∧
    Z.abs (((days * 24 + h) * 60 + m) * Minute - 26 * Hour) ≤ 30 * Second.
Proof. apply (dur_reads "de" (26 * Hour)). vm_compute. by split. Defined.

(** The headline says how many services are down, whatever else
    the rows say; without an outage it says that all are reachable exactly if
    one is up, that checks are paused if all rows are, and otherwise that
    there are no data; without services it says that. *)
Theorem headline lang rows :
  let n := count (λ r, bool_decide (r_State r = StateDown)) rows in
  let text := overall lang (overallState rows) rows in
  (rows = [] → text = Some (T lang "overall.empty")) ∧
  (n = 1 → text = Some (T lang "overall.down1")) ∧
  (2 ≤ n → text = tf lang "overall.downN" [AInt n] ∧ is_Some text) ∧
  (n = 0 → StateUp ∈ r_State <$> rows → text = Some (T lang "overall.up")) ∧
  (rows ≠ [] → (∀ r, r ∈ rows → r_State r = StatePaused) → text = Some (T lang "overall.paused")) ∧
  (rows ≠ [] → n = 0 → StateUp ∉ r_State <$> rows → (∃ r, r ∈ rows ∧ r_State r ≠ StatePaused) →
    text = Some (T lang "overall.unknown")).
Proof.
  intros n text. destruct (overall_state rows) as (Hdown & Hup & Hpaused).
  pose proof (count_down rows) as Hn. fold n in Hn.
  assert (rows ≠ [] → text = match overallState rows with
    | StateUp => Some (T lang "overall.up") | StatePaused => Some (T lang "overall.paused")
    | StateDown => if decide (n ≤ 1) then Some (T lang "overall.down1")
                   else tf lang "overall.downN" [AInt n]
    | StateUnknown => Some (T lang "overall.unknown") end) as Htext by (by destruct rows).
  assert (n ≠ 0 → rows ≠ [] ∧ overallState rows = StateDown) as Hsome.
  { intros Hne. split; [by intros ->|]. apply Hdown. by apply dec_stable; intros ?%Hn. }
  split_and!.
  - unfold text. by intros ->.
  - intros E. destruct Hsome as [Hne Hst]; [lia|]. rewrite Htext, Hst by done. by rewrite decide_True by lia.
  - intros E. destruct Hsome as [Hne Hst]; [lia|]. rewrite Htext, Hst by done. rewrite decide_False by lia.
    split; [done|]. apply tf_fits; [by eexists|]. by vm_compute.
  - intros E Hin. rewrite Htext; [|by intros ->; apply not_elem_of_nil in Hin].
    assert (overallState rows = StateUp) as -> by (apply Hup; split; [by apply Hn|done]). done.
  - intros Hne Hall. rewrite Htext by done.
    assert (overallState rows = StatePaused) as -> by by apply Hpaused. done.
  - intros Hne E Hin (r & Hr & Hrs). rewrite Htext by done. apply Hn in E.
    destruct (overallState rows) eqn:Hst; [by destruct Hup as [[] _]| | |].
    + by destruct E; apply Hdown.
    + done.
    + destruct Hpaused as [[_ Hall] _]; [done|]. by destruct Hrs; apply Hall.
Qed.
