(* ===== verification/Lines.v ===== *)
(** * The latency line (internal/web/chart.go)

    [LatencyLine] writes an SVG path with one point per slot that has a
    measurement.  The specification cuts the slots at the gaps first. *)

From S2P Require Import Prelude Text GoTime Rollup Pages Texts Format.
From Stdlib Require Import SpecFloat.

Definition latWidth : Z := 600.
Definition latHeight : Z := 165.
Definition latTop : Z := 15.

(** The fields of [Chart] this kind of chart uses. *)
Record LineChart : Type := mkLine {
  ln_Width : Z;
  ln_Height : Z;
  ln_MaxMs : Z;
  ln_Line : string;
  ln_Label : option string;
}.

(** [MaxMs] and [seen] after the first loop. *)
Fixpoint max_seen (ms : list Z) (top : Z) (seen : bool) : Z * bool :=
  match ms with
  | [] => (top, seen)
  | v :: ms => if decide (0 ≤ v) then max_seen ms (Z.max top v) true else max_seen ms top seen
  end.

(** The coordinates of slot [i] of [n]. *)
Definition line_x (n : Z) (i : nat) : spec_float :=
  if decide (1 < n)
  then fdiv (fmul (float64 (Z.of_nat i)) (float64 latWidth)) (float64 (n - 1))
  else fdiv (float64 latWidth) (float64 2).

Definition line_y (maxMs v : Z) : spec_float :=
  fsub (float64 latHeight)
    (fmul (fdiv (float64 v) (float64 (Z.max maxMs 1)))
          (fsub (float64 latHeight) (float64 latTop))).

Definition line_point (n maxMs : Z) (i : nat) (v : Z) : string :=
  FormatFloat 1 (line_x n i) +:+ "," +:+ FormatFloat 1 (line_y maxMs v).

(** A lone point becomes visible through a line of length zero. *)
Definition lone (run : nat) : string := if decide (run = 1%nat) then "h0" else "".

(** The second loop; [run] counts the points since the last gap. *)
Fixpoint line_loop (n maxMs : Z) (i run : nat) (ms : list Z) : string :=
  match ms with
  | [] => lone run
  | v :: ms =>
      if decide (v < 0) then lone run +:+ line_loop n maxMs (S i) 0 ms
      else (if decide (run = 0%nat) then "M" else " ") +:+ line_point n maxMs i v +:+
           line_loop n maxMs (S i) (S run) ms
  end.

Definition LatencyLine (ms : list Z) (lang : string) : LineChart :=
  let '(maxMs, seen) := max_seen ms 0 false in
  if seen then
    mkLine latWidth latHeight maxMs (line_loop (Z.of_nat (length ms)) maxMs 0 0 ms)
      (tf lang "lat.label" [AInt maxMs])
  else mkLine latWidth latHeight maxMs "" (Some (T lang "lat.none")).

(** ** The specification *)

(** The runs of measurements between gaps, with their slots. *)
Fixpoint runs (i : nat) (ms : list Z) : list (list (nat * Z)) :=
  match ms with
  | [] => [[]]
  | v :: ms =>
      if decide (v < 0) then [] :: runs (S i) ms
      else match runs (S i) ms with
           | r :: rs => ((i, v) :: r) :: rs
           | [] => [[(i, v)]]
           end
  end.

Fixpoint points (n maxMs : Z) (r : list (nat * Z)) : string :=
  match r with
  | [] => ""
  | p :: r => " " +:+ line_point n maxMs p.1 p.2 +:+ points n maxMs r
  end.

(** A run is a subpath of its own. *)
Definition subpath (n maxMs : Z) (r : list (nat * Z)) : string :=
  match r with
  | [] => ""
  | [p] => "M" +:+ line_point n maxMs p.1 p.2 +:+ "h0"
  | p :: r => "M" +:+ line_point n maxMs p.1 p.2 +:+ points n maxMs r
  end.

Definition path (n maxMs : Z) (rs : list (list (nat * Z))) : string :=
  foldr (λ r s, subpath n maxMs r +:+ s) "" rs.

(** ** Lemmas *)

Lemma runs_cons i ms : ∃ r rs, runs i ms = r :: rs.
Proof.
  destruct ms as [|v ms]; simpl; [by do 2 eexists|]. case_decide; [by do 2 eexists|].
  destruct (runs (S i) ms); by do 2 eexists.
Qed.

Lemma lone_many run : run ≠ 1%nat → lone run = "".
Proof. intros. unfold lone. by rewrite decide_False. Qed.

Lemma string_app_assoc s1 s2 s3 : (s1 +:+ s2) +:+ s3 = s1 +:+ (s2 +:+ s3).
Proof.
  induction s1 as [|a s1 IH]; [done|].
  change (String a ((s1 +:+ s2) +:+ s3) = String a (s1 +:+ (s2 +:+ s3))). by rewrite IH.
Qed.

(** The loop in the middle of a run: what is left of it, and the rest.  After
    one point the run may still turn out to be lone. *)
Lemma line_loop_spec n maxMs i run ms :
  ∀ r rs, runs i ms = r :: rs →
  line_loop n maxMs i run ms =
    match run with
    | O => subpath n maxMs r +:+ path n maxMs rs
    | _ => points n maxMs r +:+ match r with [] => lone run | _ => "" end +:+ path n maxMs rs
    end.
Proof.
  revert i run. induction ms as [|v ms IH]; intros i run r rs; simpl.
  { intros [= <- <-]. destruct run; simpl; [done|]. by rewrite string_app_nil_r. }
  destruct (runs_cons (S i) ms) as (r' & rs' & Hr). rewrite Hr. case_decide.
  - intros [= <- <-]. rewrite (IH (S i) 0%nat _ _ Hr). by destruct run.
  - intros [= <- <-]. rewrite (IH (S i) (S run) _ _ Hr).
    destruct run as [|run]; simpl; rewrite ?string_app_assoc.
    + destruct r' as [|p r']; simpl; rewrite ?string_app_assoc; [done|].
      by destruct r'.
    + destruct r' as [|p r']; [by rewrite lone_many by done|]. simpl. by rewrite ?string_app_assoc.
Qed.

Lemma max_seen_spec ms top seen :
  let '(m, s) := max_seen ms top seen in
  (s = true ↔ seen = true ∨ ∃ v, v ∈ ms ∧ 0 ≤ v) ∧
  top ≤ m ∧ (∀ v, v ∈ ms → v ≤ m ∨ v < 0) ∧ (m = top ∨ m ∈ ms ∧ 0 ≤ m).
Proof.
  revert top seen. induction ms as [|v ms IH]; intros top seen; simpl.
  { split_and!; [|done| |by left]; [|by intros v Hv%not_elem_of_nil].
    split; [by left|]. intros [?|(v & Hv%not_elem_of_nil & _)]; done. }
  case_decide as Hv.
  - specialize (IH (Z.max top v) true). destruct (max_seen ms _ true) as [m s].
    destruct IH as (Hs & Hle & Hall & Hm). split_and!; [|lia| |].
    + split; [|intros _; apply Hs; by left]. intros _. right. exists v. split; [left|done].
    + intros w [->|Hw]%elem_of_cons; [left; lia|auto].
    + destruct Hm as [->|[Hm ?]]; [|right; by split; [right|]].
      destruct (Z.max_spec top v) as [[_ ->]|[_ ->]]; [right; by split; [left|]|by left].
  - specialize (IH top seen). destruct (max_seen ms top seen) as [m s].
    destruct IH as (Hs & Hle & Hall & Hm). split_and!; [|lia| |].
    + rewrite Hs. setoid_rewrite elem_of_cons. split; [naive_solver|].
      intros [?|(w & [->|?] & ?)]; [by left|lia|right; eauto].
    + intros w [->|Hw]%elem_of_cons; [right; lia|auto].
    + destruct Hm as [->|[Hm ?]]; [by left|right; by split; [right|]].
Qed.

(** ** Properties *)

(** The path of the latency chart has one subpath per run of
    measured slots and none across a gap; a lone measurement is drawn as a
    dot.  The scale reaches exactly to the highest measurement, and without
    any the chart is empty and says so. *)
Theorem latency_line ms lang :
  let c := LatencyLine ms lang in
  ((∀ v, v ∈ ms → v < 0) → ln_Line c = "" ∧ ln_Label c = Some (T lang "lat.none")) ∧
  ((∃ v, v ∈ ms ∧ 0 ≤ v) →
    ln_Line c = path (Z.of_nat (length ms)) (ln_MaxMs c) (runs 0 ms) ∧
    ln_MaxMs c ∈ 0 :: ms ∧ (∀ v, v ∈ ms → v ≤ ln_MaxMs c) ∧ is_Some (ln_Label c)).
Proof.
  unfold LatencyLine. pose proof (max_seen_spec ms 0 false) as Hspec.
  destruct (max_seen ms 0 false) as [m s]. destruct Hspec as (Hs & Hle & Hall & Hm). split.
  - intros Hneg. destruct s; [|done].
    destruct Hs as [[|(v & Hv & ?)] _]; [done|done|]. specialize (Hneg v Hv). lia.
  - intros Hex. assert (s = true) as -> by (apply Hs; by right). simpl. split_and!.
    + destruct (runs_cons 0 ms) as (r & rs & Hr). by rewrite Hr, (line_loop_spec _ _ 0 0 ms _ _ Hr).
    + apply elem_of_cons. naive_solver.
    + intros v Hv. destruct (Hall v Hv); lia.
    + apply tf_fits; [by eexists|by vm_compute].
Qed.

Example latency_line_example :
  ln_Line (LatencyLine [10; 20; -1; 5] "de") = "M0.0,90.0 200.0,15.0M600.0,127.5h0".
Proof. reflexivity. Qed.
