(* ===== verification/Confidential.v ===== *)
(** * What the public can learn (internal/web/public.go)

    [public_view] is the part of the database meant for the public: the public
    targets without their settings, their checks without error texts and
    status codes, their hourly rows, and their incidents without causes.  The
    public pages are shown to be functions of it. *)

From S2P Require Import Prelude GoTime Sql Schema WellFormed Text Targets Checks Incidents.
From S2P Require Import Rollup Pages.

(** ** The public part of a database *)

Definition blank_target (t : Target) : Target :=
  mkTarget (ID t) (Name t) (Kind t) "" "" "" "" 0 0 0 (Public t) (Paused t) (Sort t) 0 0.

Definition blank_check (c : CheckRow) : CheckRow :=
  mkCheckRow (ck_target c) (ck_at c) (ck_ok c) (ck_latency c) 0 "" (ck_players c)
    (ck_max_players c) (ck_version c).

Definition blank_incident (i : IncidentRow) : IncidentRow :=
  mkIncidentRow (in_target i) (in_started i) (in_ended i) "" false false.

Definition public_view (db : Db) : Db :=
  mkDb (blank_target <$> filter (λ r, Public r.2 = true) (targets db))
    (blank_check <$> filter (λ r, is_public db (ck_target r.2)) (checks db))
    (filter (λ r, is_public db r.1.1) (hourly db))
    (blank_incident <$> filter (λ r, is_public db (in_target r.2)) (incidents db))
    None ∅ ∅.

(** ** Selecting and ordering rows of a view *)

Lemma sorted_fmap {A B} (R : A → A → Prop) (S : B → B → Prop) (f : A → B) l :
  (∀ x y, R x y → S (f x) (f y)) → StronglySorted R l → StronglySorted S (f <$> l).
Proof.
  intros HRS. induction 1 as [|x l _ IH Hx]; csimpl; constructor; [done|].
  apply list.Forall_fmap. eapply list.Forall_impl; [exact Hx|]. intros y. apply HRS.
Qed.

Section RowsView.
Context {A : Type}.

(** A key that determines the row identifier orders the rows in one way. *)
Lemma rows_key_NoDup (key : Z * A → Z * Z) P `{∀ x, Decision (P x)} (m : gmap Z A) :
  (∀ x y, key x = key y → x.1 = y.1) → NoDup (key <$> rows P m).
Proof.
  intros Hk. pose proof (rows_NoDup P m) as Hnd. revert Hnd.
  induction (rows P m) as [|x l IH]; csimpl; [constructor|].
  intros [Hx Hnd]%NoDup_cons. apply NoDup_cons. split; [|by apply IH].
  intros (y & Hy & Hin)%list_elem_of_fmap. apply Hx. rewrite (Hk _ _ Hy).
  by apply list_elem_of_fmap_2.
Qed.

Lemma rows_view P `{∀ x, Decision (P x)} P' `{∀ x, Decision (P' x)} Q `{∀ x, Decision (Q x)}
    (f : A → A) (m : gmap Z A) :
  (∀ k a, m !! k = Some a → (P (k, f a) ∧ Q (k, a) ↔ P' (k, a))) →
  rows P (f <$> filter Q m) ≡ₚ prod_map id f <$> rows P' m.
Proof.
  intros HP. unfold rows. rewrite <-map_to_list_fmap.
  assert (filter P (f <$> filter Q m) = f <$> filter P' m) as ->; [|done].
  apply map_eq. intros k. apply option_eq. intros a.
  rewrite map_lookup_filter_Some, !lookup_fmap_Some. split.
  - intros [(b & <- & [Hb HQ]%map_lookup_filter_Some) HPb]. exists b. split; [done|].
    apply map_lookup_filter_Some. split; [done|]. by apply HP.
  - intros (b & <- & [Hb HPb]%map_lookup_filter_Some). apply HP in HPb as [HPf HQ]; [|done].
    split; [|done]. exists b. split; [done|]. by apply map_lookup_filter_Some.
Qed.

Lemma ordered_view (key : Z * A → Z * Z)
    P `{∀ x, Decision (P x)} P' `{∀ x, Decision (P' x)} Q `{∀ x, Decision (Q x)}
    (f : A → A) (m : gmap Z A) :
  (∀ k a, m !! k = Some a → (P (k, f a) ∧ Q (k, a) ↔ P' (k, a))) →
  (∀ x y, key x = key y → x.1 = y.1) →
  (∀ k a, key (k, f a) = key (k, a)) →
  order_by key (rows P (f <$> filter Q m)) = prod_map id f <$> order_by key (rows P' m).
Proof.
  intros HP Hk Hf. apply order_by_unique; [by apply rows_key_NoDup| |].
  - refine (sorted_fmap (key_le key) _ (prod_map id f) _ _ (order_by_sorted key _)).
    intros [k a] [k' a']. unfold key_le. simpl. by rewrite !Hf.
  - rewrite order_by_Permutation. symmetry. by apply rows_view.
Qed.
End RowsView.

(** ** Runs on a database and on its public part *)

(** [sim db R m m']: [m] on [db] and [m'] on its public part meet the same
    failures and end with results related by [R], or with the same error. *)
Definition sim (db : Db) {A A'} (R : A → A' → Prop) (m : M Db A) (m' : M Db A') : Prop :=
  ∀ fs, ∃ fs', match m (mkWorld db fs), m' (mkWorld (public_view db) fs) with
  | (Ok a, w), (Ok a', w') => R a a' ∧ w = mkWorld db fs' ∧ w' = mkWorld (public_view db) fs'
  | (Err e, w), (Err e', w') => e = e' ∧ w = mkWorld db fs' ∧ w' = mkWorld (public_view db) fs'
  | _, _ => False
  end.

Section Sim.
Context (db : Db).

Lemma sim_ret {A A'} (R : A → A' → Prop) a a' : R a a' → sim db R (ret a) (ret a').
Proof. intros Ha fs. exists fs. simpl. auto. Qed.

Lemma sim_throw {A A'} (R : A → A' → Prop) e : sim db R (throw e) (throw e).
Proof. intros fs. exists fs. simpl. auto. Qed.

Lemma sim_bind {A A' B B'} (R : A → A' → Prop) (S : B → B' → Prop) m m' k k' :
  sim db R m m' → (∀ a a', R a a' → sim db S (k a) (k' a')) → sim db S (bind m k) (bind m' k').
Proof.
  intros Hm Hk fs. destruct (Hm fs) as [fs1 H1]. unfold bind.
  destruct (m _) as [[a|e] w], (m' _) as [[a'|e'] w']; try done.
  - destruct H1 as (Ha & -> & ->). apply (Hk _ _ Ha).
  - exists fs1. destruct H1 as (-> & -> & ->). auto.
Qed.

Lemma sim_catch {A A'} (R : A → A' → Prop) m m' :
  sim db R m m' →
  sim db (λ r r', match r, r' with Ok a, Ok a' => R a a' | Err e, Err e' => e = e' | _, _ => False end)
    (catch m) (catch m').
Proof.
  intros Hm fs. destruct (Hm fs) as [fs1 H1]. exists fs1. unfold catch.
  destruct (m _) as [[a|e] w], (m' _) as [[a'|e'] w']; try done.
  destruct H1 as (-> & -> & ->). by destruct e'.
Qed.

Lemma sim_query {A A'} (R : A → A' → Prop) q q' :
  R (q db) (q' (public_view db)) → sim db R (query q) (query q').
Proof.
  intros HR fs. unfold query, stmt, tick. simpl. destruct fs as [|[] fs]; simpl; eauto 10.
Qed.

Lemma sim_panics {A} (o : option A) : sim db eq (panics o) (panics o).
Proof. destruct o; [by apply sim_ret|apply sim_throw]. Qed.

Lemma sim_found {A A'} (R : A → A' → Prop) m m' :
  sim db (λ o o', match o, o' with Some a, Some a' => R a a' | None, None => True | _, _ => False end)
    m m' → sim db R (found m) (found m').
Proof.
  intros Hm. apply (sim_bind _ _ _ _ _ _ Hm).
  intros [a|] [a'|] Ho; try done; [by apply sim_ret|apply sim_throw].
Qed.
End Sim.

(** ** The queries behind the pages *)

Section Queries.
Context (db : Db).
Hypothesis Hwf : Wf db.

Let pub (id : Z) : Prop := is_public db id.

Lemma is_public_view id : is_public (public_view db) id ↔ is_public db id.
Proof.
  unfold is_public, public_view. simpl. rewrite lookup_fmap.
  destruct (targets db !! id) as [t|] eqn:Ht.
  - destruct (Public t) eqn:Hp.
    + rewrite (map_lookup_filter_Some_2 _ _ _ t) by done. simpl. by rewrite Hp.
    + replace (filter _ (targets db) !! id) with (@None Target); [done|]. symmetry.
      apply map_lookup_filter_None. right. intros x Hx. simplify_eq. simpl. by rewrite Hp.
  - replace (filter _ (targets db) !! id) with (@None Target); [done|]. symmetry.
    apply map_lookup_filter_None. by left.
Qed.

Lemma target_view id t :
  targets db !! id = Some t → Public t = true →
  targets (public_view db) !! id = Some (blank_target t).
Proof.
  intros Ht Hp. simpl. apply lookup_fmap_Some. exists t. split; [done|].
  by apply map_lookup_filter_Some.
Qed.

Lemma target_view_none id : ¬ pub id → targets (public_view db) !! id = None.
Proof.
  intros Hp. simpl. rewrite lookup_fmap, fmap_None. apply map_lookup_filter_None. right.
  intros t Ht. simpl. intros Hp'. apply Hp. unfold pub, is_public. by rewrite Ht.
Qed.

(** The listed targets are public and stored under their identifiers. *)
Lemma PublicTargets_sim :
  sim db (λ l l', l' = blank_target <$> l ∧
            Forall (λ t, targets db !! ID t = Some t ∧ Public t = true) l)
    PublicTargets PublicTargets.
Proof.
  apply sim_query. split.
  - unfold by_sort. cbn [targets public_view].
    rewrite (ordered_view _ _ (λ r, Public r.2 = true)); [| |naive_solver|naive_solver].
    + rewrite <-!list_fmap_compose. by apply list_fmap_ext.
    + intros k t _. simpl. tauto.
  - apply list.Forall_forall. intros t (id & Hid & Hp)%by_sort_elem.
    by rewrite (proj1 (wf_targets _ Hwf _ _ Hid)).
Qed.

Lemma newest_view id :
  pub id → newest_first id (checks (public_view db)) = blank_check <$> newest_first id (checks db).
Proof.
  intros Hp. unfold newest_first. cbn [checks public_view].
  rewrite (ordered_view _ _ (λ r, ck_target r.2 = id)); [| |naive_solver lia|naive_solver].
  - by rewrite <-!list_fmap_compose.
  - intros k c _. simpl. naive_solver.
Qed.

Lemma hour_range_view id lo cur :
  pub id → hour_range id lo cur (hourly (public_view db)) = hour_range id lo cur (hourly db).
Proof.
  intros Hp. unfold hour_range. f_equal. cbn [hourly public_view].
  apply map_eq. intros k. apply option_eq. intros h.
  rewrite !map_lookup_filter_Some. simpl. naive_solver.
Qed.

Lemma rawHour_sim id start : pub id → sim db eq (rawHour id start) (rawHour id start).
Proof.
  intros Hp. apply sim_query. cbn [checks public_view].
  pose proof (rows_view (λ r : Z * CheckRow, ck_target r.2 = id ∧ start ≤ ck_at r.2)
    (λ r, ck_target r.2 = id ∧ start ≤ ck_at r.2) (λ r, is_public db (ck_target r.2))
    blank_check (checks db)) as Hr.
  specialize (Hr ltac:(intros k c _; simpl; naive_solver)).
  apply (fmap_Permutation snd) in Hr. rewrite <-list_fmap_compose in Hr.
  f_equal.
  - rewrite Hr. by rewrite !length_fmap.
  - unfold count. rewrite (sum_with_Permutation _ _ _ Hr).
    change (snd ∘ prod_map Datatypes.id blank_check) with (blank_check ∘ @snd Z CheckRow).
    by rewrite list_fmap_compose, (sum_with_fmap blank_check).
Qed.

Lemma Uptime_sim now id : pub id → sim db eq (Uptime now id) (Uptime now id).
Proof.
  intros Hp. unfold Uptime, uptime_counts. apply (sim_bind _ eq).
  - apply (sim_bind _ eq); [by apply sim_query; rewrite hour_range_view|].
    intros s ? <-. apply (sim_bind _ eq); [by apply rawHour_sim|].
    intros raw ? <-. destruct s as [[d w] m]. by apply sim_ret.
  - intros [[d w] m] ? <-. by apply sim_ret.
Qed.

Lemma Hours_sim now id n : pub id → sim db eq (Hours now id n) (Hours now id n).
Proof.
  intros Hp. unfold Hours. apply (sim_bind _ eq); [apply sim_panics|]. intros c ? <-.
  apply (sim_bind _ eq); [by apply sim_query; rewrite hour_range_view|]. intros l ? <-.
  apply (sim_bind _ eq); [apply sim_panics|]. intros c' ? <-.
  apply (sim_bind _ eq); [apply sim_panics|]. intros u ? _.
  apply (sim_bind _ eq); [by apply rawHour_sim|]. intros raw ? <-. apply sim_panics.
Qed.

Lemma Latency_sim now id span : pub id → sim db eq (Latency now id span) (Latency now id span).
Proof.
  intros Hp. unfold Latency. case_decide.
  - unfold hourlyLatency. apply sim_query. do 3 f_equal. cbn [hourly public_view].
    apply map_eq. intros k. apply option_eq. intros h.
    rewrite !map_lookup_filter_Some. simpl. naive_solver.
  - apply (sim_bind _ eq); [|intros rs ? <-; apply sim_panics]. apply sim_query.
    unfold ok_rows. cbn [checks public_view].
    rewrite (ordered_view _ _ (λ r, ck_target r.2 = id ∧ ck_ok r.2 = true ∧
      Unix (Add now (- span)) ≤ ck_at r.2)); [| |naive_solver|naive_solver].
    + by rewrite <-list_fmap_compose.
    + intros k c _. simpl. naive_solver.
Qed.

(** A row of a public target: only the error text of its last check, which
    no page shows, may differ. *)
Lemma row_sim now t hours :
  targets db !! ID t = Some t → Public t = true →
  sim db (λ r r', r.1 = r'.1 ∧ c_At r.2 = c_At r'.2)
    (row now t hours) (row now (blank_target t) hours).
Proof.
  intros Ht Hpub. assert (Hp : pub (ID t)) by (unfold pub, is_public; by rewrite Ht).
  unfold row. cbn [ID blank_target].
  apply (sim_bind _ (λ l l', ∃ rows : list CheckRow, l = scanCheck <$> rows ∧
    l' = scanCheck <$> (blank_check <$> rows))).
  { apply sim_query. exists (sql_limit 1 (newest_first (ID t) (checks db))).
    rewrite newest_view by done. split; [done|]. f_equal. unfold sql_limit. simpl.
    by rewrite firstn_map. }
  intros l l' (rows & -> & ->). apply (sim_bind _ eq); [by apply Uptime_sim|]. intros up ? <-.
  assert (Hst : row_state (blank_target t) (head (scanCheck <$> (blank_check <$> rows))) =
    row_state t (head (scanCheck <$> rows))) by (unfold row_state; by destruct rows).
  assert (Hla : row_latency (head (scanCheck <$> (blank_check <$> rows))) =
    row_latency (head (scanCheck <$> rows))) by (unfold row_latency; by destruct rows).
  assert (Hpl : row_players (blank_target t) (head (scanCheck <$> (blank_check <$> rows))) =
    row_players t (head (scanCheck <$> rows))) by (unfold row_players; by destruct rows).
  assert (Hat : c_At (default zero_check (head (scanCheck <$> rows))) =
    c_At (default zero_check (head (scanCheck <$> (blank_check <$> rows))))) by (by destruct rows).
  rewrite Hst, Hla, Hpl. case_decide; [|by apply sim_ret].
  apply (sim_bind _ eq); [by apply Hours_sim|]. intros hs ? <-. by apply sim_ret.
Qed.

(** An incident as a page may use it. *)
Definition hide (i : Incident) : Incident :=
  mkIncident (i_ID i) (i_TargetID i) (i_TargetName i) (i_StartedAt i) (i_EndedAt i) "" false false.

Lemma latest_view limit P `{∀ x, Decision (P x)} P' `{∀ x, Decision (P' x)} :
  (∀ k i, incidents db !! k = Some i →
     (P (k, blank_incident i) ∧ is_public db (in_target i) ↔ P' (k, i))) →
  (∀ k i, P' (k, i) → pub (in_target i)) →
  latest (public_view db) limit (rows P (incidents (public_view db))) =
  hide <$> latest db limit (rows P' (incidents db)).
Proof.
  intros HP Hpub. unfold latest. cbn [incidents public_view].
  rewrite (ordered_view _ P P'); [|done|naive_solver lia|naive_solver].
  set (l := order_by _ _).
  assert (Hl : ∀ r, r ∈ l → pub (in_target r.2)).
  { intros [k i] Hr. unfold l in Hr. rewrite elem_of_order_by, elem_of_rows in Hr.
    apply (Hpub k i), Hr. }
  assert (Ho : omap (join_target (public_view db)) (prod_map Datatypes.id blank_incident <$> l) =
    hide <$> omap (join_target db) l).
  { clearbody l. induction l as [|[k i] l IH]; [done|]. csimpl.
    pose proof (Hl (k, i) ltac:(left)) as Hi. simpl in Hi.
    rewrite IH by (intros; apply Hl; by right).
    unfold join_target. cbn [fst snd prod_map Datatypes.id in_target blank_incident].
    unfold pub, is_public in Hi. destruct (targets db !! in_target i) as [t|] eqn:Ht; [|done].
    rewrite (target_view _ _ Ht Hi). done. }
  rewrite Ho. unfold sql_limit. case_decide; [done|]. by rewrite firstn_map.
Qed.

Lemma incidentRows_hide l now : incidentRows (hide <$> l) now false = incidentRows l now false.
Proof.
  unfold incidentRows. rewrite <-list_fmap_compose. apply list_fmap_ext. intros j i _.
  unfold incident_view. simpl. unfold Open. simpl. by destruct (IsZero (i_EndedAt i)).
Qed.
End Queries.

(** ** The pages *)

Section PageSims.
Context (db : Db).
Hypothesis Hwf : Wf db.

Let listed (t : Target) : Prop := targets db !! ID t = Some t ∧ Public t = true.

Lemma status_rows_sim now ts at_ acc :
  Forall listed ts →
  sim db eq (status_rows now ts at_ acc) (status_rows now (blank_target <$> ts) at_ acc).
Proof.
  intros Hts. revert at_ acc. induction Hts as [|t ts [Ht Hp] _ IH]; intros at_ acc; csimpl.
  { by apply sim_ret. }
  apply (sim_bind _ _ _ _ _ _ _ (row_sim db now t 90 Ht Hp)).
  intros [r c] [r' c'] [Hr Hc]. simpl in *. subst r'. rewrite Hc. apply IH.
Qed.

Lemma status_page_sim now lang : sim db eq (status_page now lang) (status_page now lang).
Proof.
  unfold status_page. apply (sim_bind _ _ _ _ _ _ _ (PublicTargets_sim db Hwf)).
  intros ts ? [-> Hts]. apply (sim_bind _ eq); [by apply status_rows_sim|]. intros p ? <-.
  apply (sim_bind _ (λ l l', l' = hide <$> l)).
  - apply sim_query. apply (latest_view db); [|naive_solver].
    intros k i _. simpl. rewrite is_public_view. naive_solver.
  - intros l ? ->. rewrite incidentRows_hide. by apply sim_ret.
Qed.

Lemma api_rows_sim now ts acc :
  Forall listed ts → sim db eq (api_rows now ts acc) (api_rows now (blank_target <$> ts) acc).
Proof.
  intros Hts. revert acc. induction Hts as [|t ts [Ht Hp] _ IH]; intros acc; csimpl.
  { by apply sim_ret. }
  apply (sim_bind _ _ _ _ _ _ _ (row_sim db now t 0 Ht Hp)).
  intros [r c] [r' c'] [Hr Hc]. simpl in *. subst r'. rewrite Hc. apply IH.
Qed.

Lemma api_page_sim now : sim db eq (api_page now) (api_page now).
Proof.
  unfold api_page. apply (sim_bind _ _ _ _ _ _ _ (PublicTargets_sim db Hwf)).
  intros ts ? [-> Hts]. by apply api_rows_sim.
Qed.

Lemma TargetByID_sim id :
  is_public db id →
  sim db (λ t t', t' = blank_target t ∧ targets db !! id = Some t) (TargetByID id) (TargetByID id).
Proof.
  intros Hp. apply sim_found, sim_query. unfold is_public in Hp.
  destruct (targets db !! id) as [t|] eqn:Ht; [|done]. by rewrite (target_view db id t).
Qed.

Lemma detail_page_sim now lang id rng : sim db eq (detail_page now lang id rng) (detail_page now lang id rng).
Proof.
  unfold detail_page. destruct (decide (is_public db id)) as [Hp|Hp].
  - apply (sim_bind _ _ _ _ _ _ _ (sim_catch _ _ _ _ (TargetByID_sim id Hp))).
    intros [t|e] [t'|e'] Hr; try done; [|subst e'; destruct e; by apply sim_ret || apply sim_throw].
    destruct Hr as [-> Ht]. cbn [Public blank_target].
    assert (Hpub : Public t = true) by (unfold is_public in Hp; by rewrite Ht in Hp).
    rewrite Hpub. cbn [negb].
    assert (Hid : ID t = id) by (by destruct (wf_targets _ Hwf _ _ Ht)).
    destruct (match periods rng with Some _ => _ | None => _ end) as [r sp].
    apply (sim_bind _ _ _ _ _ _ _ (row_sim db now t 0 ltac:(by rewrite Hid) Hpub)).
    intros [row c] [row' c'] [Hr _]. simpl in Hr. subst row'. cbn [fst].
    apply (sim_bind _ eq); [by apply Hours_sim|]. intros hs ? <-.
    apply (sim_bind _ eq); [by apply Latency_sim|]. intros ps ? <-.
    apply (sim_bind _ (λ l l', l' = hide <$> l)).
    + apply sim_query, (latest_view db).
      * intros k i _. cbn [snd in_target blank_incident]. split; [tauto|].
        simpl. by intros [-> ?].
      * simpl. by intros k i [-> _].
    + intros l ? ->. rewrite incidentRows_hide. by apply sim_ret.
  - apply (sim_bind _ (λ r r', (∃ e, r = Err e ∧ r' = Err e) ∨
      r' = Err ErrNotFound ∧ ∃ t, r = Ok t ∧ Public t = false)).
    + intros fs. pose proof (target_view_none db id Hp) as Hn. unfold is_public in Hp.
      unfold catch, TargetByID, found, bind, query, stmt, tick. cbn [w_faults w_db].
      destruct fs as [|[] fs]; cbn -[public_view]; rewrite ?Hn; [|by eauto 10|];
        destruct (targets db !! id) as [t|]; cbn -[public_view]; eexists; (split; [|auto]);
        eauto 9 using not_true_is_false.
    + intros r r' [(e & -> & ->)|(-> & t & -> & Hpub)].
      * destruct e; by apply sim_ret || apply sim_throw.
      * rewrite Hpub. by apply sim_ret.
Qed.
End PageSims.

(** Equal public parts give equal results under [sim]. *)
Lemma sim_same {A} (m : M Db A) db db' fs :
  (∀ d, Wf d → sim d eq m m) → Wf db → Wf db' → public_view db = public_view db' →
  (m (mkWorld db fs)).1 = (m (mkWorld db' fs)).1.
Proof.
  intros Hm Hwf Hwf' Heq. destruct (Hm db Hwf fs) as [f1 H1], (Hm db' Hwf' fs) as [f2 H2].
  rewrite <-Heq in H2.
  destruct (m (mkWorld db fs)) as [[a|e] w], (m (mkWorld db' fs)) as [[a'|e'] w'],
    (m (mkWorld (public_view db) fs)) as [[b|e2] w2]; naive_solver.
Qed.

(** ** Properties *)

(** C9: the status page, the API and the detail pages
    are functions of the public part of the database: whatever private targets
    there are, whatever addresses and settings, error texts and causes the
    database holds, a visitor sees the same pages, and a private target's
    detail page is the same not-found page as that of a missing one. *)
Theorem public_pages_confidential db db' fs now lang id rng :
  Wf db → Wf db' → public_view db = public_view db' →
  (status_page now lang (mkWorld db fs)).1 = (status_page now lang (mkWorld db' fs)).1 ∧
  (api_page now (mkWorld db fs)).1 = (api_page now (mkWorld db' fs)).1 ∧
  (detail_page now lang id rng (mkWorld db fs)).1 = (detail_page now lang id rng (mkWorld db' fs)).1.
Proof.
  intros Hwf Hwf' Heq. split_and!.
  - by apply sim_same; auto using status_page_sim.
  - by apply sim_same; auto using api_page_sim.
  - by apply sim_same; auto using detail_page_sim.
Qed.

(** A private target beside nothing. *)
Definition private_db : Db :=
  set_targets <[3 := mkTarget 3 "intern" KindTCP "10.0.0.7:80" "" "" "" 60 5000 2 false false 0 0 0]>
    empty_db.

Lemma public_pages_confidential_witness :
  (detail_page 0 "de" 3 "7d" (quiet private_db)).1 = (detail_page 0 "de" 3 "7d" (quiet empty_db)).1 ∧
  (detail_page 0 "de" 3 "7d" (quiet private_db)).1 = Ok None.
Proof.
  assert (Hwf : Wf private_db)
    by (apply Wf_insert_target; [done|done|reflexivity|apply Wf_empty]).
  split; [|reflexivity].
  apply (public_pages_confidential private_db empty_db [] 0 "de" 3 "7d" Hwf Wf_empty). reflexivity.
Defined.
