(* ===== verification/Server.v ===== *)
(** * The HTTP server (internal/web/server.go, public.go, limit.go)

    Requests and replies, the middleware around the handlers, the routes, the
    public handlers with their cache, and the address a login attempt is
    counted under.  The admin pages are in [Handlers].  One request is handled
    at one instant, and requests one after the other. *)

From Stdlib Require Import SpecFloat.
From S2P Require Import Prelude Text Netip AddrText GoTime Sql Schema WellFormed Crypto Targets.
From S2P Require Import Runner Scheduler Limit Validate Config Pages.

(** ** Requests and replies *)

(** What the handlers read of a request.  [rq_Path] is a clean path, without
    empty and dot segments and escaped slashes; ServeMux redirects the others
    before any handler.  [rq_Form] holds the first value of
    each field of the posted form, [None] when the body cannot be parsed or is
    longer than [maxForm]. *)
Record request : Type := mkRequest {
  rq_Method : string;
  rq_Path : string;
  rq_Host : string;
  rq_Origin : string;
  rq_SecFetchSite : string;
  rq_Cookies : gmap string string;
  rq_Query : gmap string string;
  rq_Form : option (gmap string string);
  rq_RemoteAddr : string;
  rq_XFF : list string;
  rq_Authorization : string;
  (** the client is gone: its context is cancelled *)
  rq_Canceled : bool
}.

Inductive SameSite : Type := Lax | Strict.

(** A [Set-Cookie]; Path, HttpOnly and Secure are those of [server.cookie]. *)
Record cookie : Type := mkCookie {
  ck_Name : string;
  ck_Value : string;
  ck_MaxAge : Z;
  ck_SameSite : SameSite
}.

(** A line of the metrics: the gauges and counters of one target. *)
Record metric : Type := mkMetric {
  me_Name : string;
  me_Kind : string;
  me_Up : bool;
  me_LatencyMs : Z;
  me_OK : Z;
  me_Fail : Z
}.

(** [AdminTargetRow]. *)
Record AdminTargetRow : Type := mkAdminTargetRow {
  ar_Row : Pages.TargetRow;
  ar_Address : string;
  ar_Paused : bool;
  ar_Public : bool;
  ar_LastError : string;
  ar_LastCheck : Time
}.

(** What a template is executed with; [csrf] is the masked token. *)
Inductive page : Type :=
  | PStatus (p : StatusPage)
  | PDetail (p : DetailPage)
  | PLogin (username err csrf : string)
  | PList (rows : list AdminTargetRow) (flash csrf : string)
  | PForm (t : Target) (errs : gmap string string) (csrf : string)
  | PNotFound (lang : string)
  | PError (lang : string).

Inductive reply : Type :=
  | Redirect (code : Z) (to : string)
  | Shown (code : Z) (p : page)
  | Answer (code : Z) (text : string)
  | Json (l : list apiTarget)
  | Metrics (l : list metric)
  | File (name : string)
  (** the client is gone *)
  | NoReply.

Record output : Type := mkOutput {
  o_reply : reply;
  o_cookies : list cookie;
  o_RetryAfter : option Z
}.

Definition plain (r : reply) : output := mkOutput r [] None.

(** ** State *)

(** What the cache keeps: the status page per language, and the API. *)
Inductive body : Type := BStatus (p : StatusPage) | BApi (l : list apiTarget).

(** [struct server] with the parts of [Deps] that change; [sv_tests] counts
    the test mails asked for. *)
Record Server : Type := mkServer {
  sv_world : World Db;
  sv_mgr : Mgr;
  sv_limit : limiter;
  sv_cache : gmap string (body * Time);
  sv_tests : Z
}.

Definition set_world (w : World Db) (s : Server) : Server :=
  mkServer w (sv_mgr s) (sv_limit s) (sv_cache s) (sv_tests s).
Definition set_mgr (m : Mgr) (s : Server) : Server :=
  mkServer (sv_world s) m (sv_limit s) (sv_cache s) (sv_tests s).
Definition set_limit (l : limiter) (s : Server) : Server :=
  mkServer (sv_world s) (sv_mgr s) l (sv_cache s) (sv_tests s).
Definition set_cache (c : gmap string (body * Time)) (s : Server) : Server :=
  mkServer (sv_world s) (sv_mgr s) (sv_limit s) c (sv_tests s).
Definition add_test (s : Server) : Server :=
  mkServer (sv_world s) (sv_mgr s) (sv_limit s) (sv_cache s) (sv_tests s + 1).

Definition sv_db (s : Server) : Db := w_db (sv_world s).

(** [newServer]. *)
Definition newServer (w : World Db) (m : Mgr) : Server := mkServer w m newLimiter ∅ 0.

Definition on_db {A} (m : M Db A) (s : Server) : res sqlerr A * Server :=
  let '(r, w) := m (sv_world s) in (r, set_world w s).

(** A handler: it answers and may change the state. *)
Abbreviation Handler := (Server → output * Server) (only parsing).

Section Server.
Context `{!Crypto, !NetLib}.
Variable cfg : Config.

(** The names of the cookies. *)
Definition cookie_name (name : string) : string :=
  if cf_CookieSecure cfg then "__Host-" +:+ name else name.

Definition sid : string := cookie_name "sid".
Definition lcsrf : string := cookie_name "lcsrf".
Definition dev : string := cookie_name "dev".

(** ** Small helpers *)

Definition lang (rq : request) : string :=
  if bool_decide (rq_Path rq = "/en") || HasPrefix (rq_Path rq) "/en/" then "en" else "de".

Definition notFound (rq : request) : output := plain (Shown 404 (PNotFound (lang rq))).

(** [fail]; a panic ends in [recover] with the same page. *)
Definition fail (rq : request) (e : sqlerr) : output :=
  match e with
  | ErrPanic => plain (Shown 500 (PError (lang rq)))
  | _ => plain (if rq_Canceled rq then NoReply else Shown 500 (PError (lang rq)))
  end.

Definition pathID (v : string) : option Z :=
  match parse_int v with
  | Some id => if decide (id ≤ 0 ∨ itoa id ≠ v) then None else Some id
  | None => None
  end.

Definition query (rq : request) (key : string) : string := default "" (rq_Query rq !! key).

(** ** The address behind a request (limit.go) *)

(** The last element of a list separated by commas. *)
Definition last_element (s : string) : string :=
  match last_index 44 (bytes s) with
  | Some i => of_bytes (drop (S i) (bytes s))
  | None => s
  end.

(** [ip.Prefix(64)]: the first 64 bits. *)
Definition key_of (ip : Addr) : string :=
  match ip with
  | Addr6 b _ => AddrString (Addr6 (b / 2 ^ 64 * 2 ^ 64) "") +:+ "/64"
  | ip => AddrString ip
  end.

Definition forwarded (ip : Addr) (rq : request) : Addr :=
  match cf_TrustedProxy cfg, last (rq_XFF rq) with
  | Some proxy, Some xff =>
      if Contains proxy ip then
        match ParseAddr (TrimSpace (last_element xff)) with
        | Some fwd => WithoutZone (Unmap fwd)
        | None => ip
        end
      else ip
  | _, _ => ip
  end.

Definition clientIP (rq : request) : string :=
  let host := match SplitHostPort (rq_RemoteAddr rq) with
              | Some (host, _) => host
              | None => rq_RemoteAddr rq
              end in
  match ParseAddr host with
  | None => host
  | Some ip => key_of (forwarded (WithoutZone (Unmap ip)) rq)
  end.

(** ** The cache (public.go) *)

Definition cacheTTL : Duration := 5 * Second.

Definition fromCache (now : Time) (rq : request) (key : string) (build : M Db body)
    (show : body → reply) : Handler := λ s,
  match sv_cache s !! key with
  | Some (b, at_) =>
      if decide (Sub now at_ < cacheTTL) then (plain (show b), s) else
      let '(r, s) := on_db build s in
      match r with
      | Err e => (fail rq e, s)
      | Ok b => (plain (show b), set_cache (<[key := (b, now)]> (sv_cache s)) s)
      end
  | None =>
      let '(r, s) := on_db build s in
      match r with
      | Err e => (fail rq e, s)
      | Ok b => (plain (show b), set_cache (<[key := (b, now)]> (sv_cache s)) s)
      end
  end.

Definition clearCache (s : Server) : Server := set_cache ∅ s.

Definition show_body (b : body) : reply :=
  match b with BStatus p => Shown 200 (PStatus p) | BApi l => Json l end.

(** ** The public handlers *)

Definition status (now : Time) (rq : request) (lang : string) : Handler :=
  fromCache now rq ("status/" +:+ lang) (let! p := status_page now lang in ret (BStatus p)) show_body.

Definition api (now : Time) (rq : request) : Handler :=
  fromCache now rq "api" (let! l := api_page now in ret (BApi l)) show_body.

Definition detail (now : Time) (rq : request) (lang id : string) : Handler := λ s,
  match pathID id with
  | None => (notFound rq, s)
  | Some id =>
      let '(r, s) := on_db (detail_page now lang id (query rq "r")) s in
      match r with
      | Ok (Some p) => (plain (Shown 200 (PDetail p)), s)
      | Ok None => (notFound rq, s)
      | Err e => (fail rq e, s)
      end
  end.

(** [Store.Ping]. *)
Definition Ping : M Db unit := Sql.query (λ _, ()).

Definition healthz (rq : request) : Handler := λ s,
  let '(r, s) := on_db Ping s in
  (plain (match r with Ok _ => Answer 200 "ok" | Err _ => Answer 503 "db nicht erreichbar" end), s).

(** [labelEscape]. *)
Definition escape_byte (b : Z) : list Z :=
  if decide (b = 92) then [92; 92]
  else if decide (b = 34) then [92; 34]
  else if decide (b = 10) then [92; 110]
  else [b].

Definition labelEscape (s : string) : string := of_bytes (bytes s ≫= escape_byte).

(** The bearer token of a request. *)
Definition bearer (rq : request) : option string :=
  of_bytes <$> strip (bytes "Bearer ") (bytes (rq_Authorization rq)).

Definition metrics_allowed (rq : request) : bool :=
  match bearer rq with
  | Some got => negb (bool_decide (got = "")) && ct_equal (sha256 got) (sha256 (cf_MetricsToken cfg))
  | None => false
  end.

Definition metric_of (snap : gmap Z Stat) (t : Target) : option metric :=
  st ← snap !! ID t;
  if sta_Checked st then
    Some (mkMetric (labelEscape (Name t)) (labelEscape (Kind t)) (sta_OK st) (sta_LatencyMs st)
            (sta_ChecksOK st) (sta_ChecksFail st))
  else None.

Definition metrics (rq : request) : Handler := λ s,
  if negb (metrics_allowed rq) then (plain (Answer 401 "nicht angemeldet"), s) else
  let '(r, s) := on_db Targets s in
  match r with
  | Err e => (fail rq e, s)
  | Ok ts => (plain (Metrics (omap (metric_of (Snapshot (sv_mgr s))) ts)), s)
  end.

(** [path.Ext]: from the last dot of the last element. *)
Definition Ext (name : string) : string :=
  let l := default [] (last (split_at 47 (bytes name))) in
  match last_index 46 l with Some i => of_bytes (drop i l) | None => "" end.

(** [staticTypes]. *)
Definition static_type (ext : string) : option string :=
  if decide (ext = ".css") then Some "text/css; charset=utf-8"
  else if decide (ext = ".js") then Some "text/javascript; charset=utf-8"
  else if decide (ext = ".svg") then Some "image/svg+xml"
  else None.

(** [has]: the embedded file system holds a file, not a directory, of this
    name. *)
Definition static (has : string → bool) (rq : request) (name : string) : output :=
  match static_type (Ext name) with
  | None => notFound rq
  | Some _ => if has name then plain (File name) else notFound rq
  end.

(** ** Middleware *)

(** [http.CrossOriginProtection.Check]. *)
Definition cross_origin_ok (rq : request) : bool :=
  bool_decide (rq_Method rq ∈ ["GET"; "HEAD"; "OPTIONS"]) ||
  if decide (rq_SecFetchSite rq = "") then
    bool_decide (rq_Origin rq = "") ||
    match url_Parse (rq_Origin rq) with
    | Some u => bool_decide (u_Host u = rq_Host rq)
    | None => false
    end
  else bool_decide (rq_SecFetchSite rq ∈ ["same-origin"; "none"]).

(** The Cache-Control header [headers] sets, beside the fixed ones. *)
Definition cache_control (p : string) : option string :=
  if bool_decide (p = "/admin") || HasPrefix p "/admin/" || bool_decide (p = "/metrics") ||
     bool_decide (p = "/healthz")
  then Some "no-store"
  else if HasPrefix p "/static/" then None
  else Some "no-cache".

(** ** Routes *)

Inductive route : Type :=
  | RStatus (lang : string) | RDetail (lang id : string) | RApi | RHealthz | RMetrics
  | RStatic (file : string) | RSlash (to : string) | RAdminRoot
  | RLoginForm | RLogin | RLogout | RList | RNewForm | RCreate
  | REditForm (id : string) | RSave (id : string) | RPause (id : string) | RCheckNow (id : string)
  | RRemove (id : string) | RTestMail | RNotFound.

#[export] Instance route_eq_dec : EqDecision route.
Proof. solve_decision. Defined.

(** The segments of a path behind its first slash; a final slash leaves an
    empty one. *)
Definition segments (p : string) : list string := tail (Split p "/").

(** The identifier in the place of [{id}]: [pre/id/post], not empty. *)
Definition match_id (pre post segs : list string) : option string :=
  match drop (length pre) segs with
  | id :: rest => if decide (firstn (length pre) segs = pre ∧ rest = post ∧ id ≠ "") then Some id else None
  | [] => None
  end.

(** Literal segments win over [{id}].  [RSlash] is the redirect of ServeMux to
    a pattern that only lacks the final slash. *)
Definition get_routes (segs : list string) : route :=
  if decide (segs = [""]) then RStatus "de"
  else if decide (segs = ["en"; ""]) then RStatus "en"
  else if decide (segs = ["api"; "status.json"]) then RApi
  else if decide (segs = ["healthz"]) then RHealthz
  else if decide (segs = ["metrics"] ∧ cf_MetricsToken cfg ≠ "") then RMetrics
  else if decide (firstn 1 segs = ["static"] ∧ (2 ≤ length segs)%nat)
  then RStatic (String.concat "/" (tail segs))
  else if decide (segs = ["en"]) then RSlash "/en/"
  else if decide (segs = ["static"]) then RSlash "/static/"
  else if decide (segs = ["admin"]) then RAdminRoot
  else if decide (segs = ["admin"; "login"]) then RLoginForm
  else if decide (segs = ["admin"; ""]) then RList
  else if decide (segs = ["admin"; "ziel"; "neu"]) then RNewForm
  else match match_id ["ziel"] [] segs with Some id => RDetail "de" id | None =>
  match match_id ["en"; "ziel"] [] segs with Some id => RDetail "en" id | None =>
  match match_id ["admin"; "ziel"] [] segs with Some id => REditForm id | None => RNotFound
  end end end.

Definition post_routes (segs : list string) : route :=
  if decide (segs = ["admin"; "login"]) then RLogin
  else if decide (segs = ["admin"; "logout"]) then RLogout
  else if decide (segs = ["admin"; "ziel"; "neu"]) then RCreate
  else if decide (segs = ["admin"; "testmail"]) then RTestMail
  else match match_id ["admin"; "ziel"] [] segs with Some id => RSave id | None =>
  match match_id ["admin"; "ziel"] ["pause"] segs with Some id => RPause id | None =>
  match match_id ["admin"; "ziel"] ["pruefen"] segs with Some id => RCheckNow id | None =>
  match match_id ["admin"; "ziel"] ["loeschen"] segs with Some id => RRemove id | None => RNotFound
  end end end end.

(** The patterns of [handler]; GET patterns also match HEAD. *)
Definition mux (rq : request) : route :=
  let segs := segments (rq_Path rq) in
  if decide (rq_Method rq ∈ ["GET"; "HEAD"]) then get_routes segs
  else if decide (rq_Method rq = "POST") then post_routes segs
  else RNotFound.
End Server.
