(* ===== verification/Handlers.v ===== *)
(** * The admin pages (internal/web/admin.go)

    Signing in and out, the guard in front of every other admin handler, and
    the handlers themselves; [serve] puts routes and middleware together. *)

From S2P Require Import Prelude Text Netip GoTime Sql Schema WellFormed Crypto Targets Checks.
From S2P Require Import Sessions Csrf Password Runner Scheduler Limit Validate Config Pages Server.

(** What the world supplies while one request is handled: the instant, random
    bytes and texts, whether a place to verify a password became free before
    the client left, whether a target's goroutine was waiting for a nudge, and
    the outcome of a test mail. *)
Record world_in : Type := mkIn {
  ev_now : Time;
  ev_pad : nat → list Z;
  ev_token : string;
  ev_sid : string;
  ev_csrf : string;
  ev_dev : string;
  ev_slot : bool;
  ev_ready : bool;
  ev_mail : bool
}.

Section Handlers.
Context `{!Crypto, !NetLib}.
Variable cfg : Config.
(** Is there a mailer, and which static files there are. *)
Variable has_mailer : bool.
Variable has_file : string → bool.
Variable ev : world_in.

(** [mask] with the bytes [rand.Read] supplies. *)
Definition masked (token : string) : string := mask (ev_pad ev (String.length token)) token.

Definition toLogin : reply := Redirect 303 "/admin/login".

Definition flash_to (key : string) : reply := Redirect 303 ("/admin/?ok=" +:+ key).

(** A cookie that removes the session's. *)
Definition drop_sid : cookie := mkCookie (sid cfg) "" (-1) Lax.

Definition form_value (rq : request) (key : string) : string :=
  default "" (f ← rq_Form rq; f !! key).

Definition bad_form : output := plain (Answer 400 "Formular ungültig").

(** ** The guard *)

(** [admin(h)]: [h] gets the masked token of a live session; a POST also needs
    that token in its form. *)
Definition admin (rq : request) (h : string → Handler) : Handler := λ s,
  match rq_Cookies rq !! sid cfg with
  | None => (plain toLogin, s)
  | Some token =>
      let '(r, s) := on_db (SessionByToken (ev_now ev) token) s in
      match r with
      | Err ErrNotFound => (mkOutput toLogin [drop_sid] None, s)
      | Err e => (fail rq e, s)
      | Ok sess =>
          let s := if decide (Minute ≤ Sub (ev_now ev) (LastSeen sess))
                   then (on_db (TouchSession (ev_now ev) token) s).2 else s in
          if decide (rq_Method rq = "POST") then
            match rq_Form rq with
            | None => (bad_form, s)
            | Some _ =>
                if validToken (form_value rq "csrf") (CSRF sess) then h (masked (CSRF sess)) s
                else (plain (flash_to "csrf"), s)
            end
          else h (masked (CSRF sess)) s
      end
  end.

(** ** Signing in *)

Definition login_cookie (token : string) : cookie := mkCookie (lcsrf cfg) token 0 Strict.

Definition loginForm (rq : request) : Handler := λ s,
  match rq_Cookies rq !! lcsrf cfg with
  | Some v =>
      if decide (26 ≤ String.length v ≤ 64)%nat
      then (plain (Shown 200 (PLogin "" "" (masked v))), s)
      else (mkOutput (Shown 200 (PLogin "" "" (masked (ev_token ev)))) [login_cookie (ev_token ev)] None, s)
  | None =>
      (mkOutput (Shown 200 (PLogin "" "" (masked (ev_token ev)))) [login_cookie (ev_token ev)] None, s)
  end.

Definition checkLogin (user password : string) (s : Server) : res sqlerr bool * Server :=
  let '(r, s) := on_db Admin s in
  match r with
  | Err ErrNotFound => (Ok false, s)
  | Err e => (Err e, s)
  | Ok (name, hash) =>
      let nameOK := ct_equal (sha256 user) (sha256 name) in
      match Verify password hash with
      | Err _ => (Ok false, s)
      | Ok ok => (Ok (nameOK && ok), s)
      end
  end.

(** [int((wait+time.Second-1)/time.Second)]. *)
Definition retry_after (wait : Duration) : Z := Z.quot (wait + Second - 1) Second.

(** After the credentials were accepted: end the old session, start a new one,
    and remember the device. *)
Definition signed_in (rq : request) (known : bool) : Handler := λ s,
  let '(r, s) := match rq_Cookies rq !! sid cfg with
                 | Some old => on_db (DeleteSession old) s
                 | None => (Ok (), s)
                 end in
  match r with
  | Err e => (fail rq e, s)
  | Ok _ =>
      let '(r, s) := on_db (CreateSession (ev_now ev) (ev_sid ev) (ev_csrf ev)) s in
      match r with
      | Err e => (fail rq e, s)
      | Ok (token, _) =>
          let c := mkCookie (sid cfg) token 0 Lax in
          let done cs := mkOutput (Redirect 303 "/admin/") cs None in
          if known then (done [c], s) else
          let '(r, s) := on_db (CreateDevice (ev_now ev) (ev_dev ev)) s in
          match r with
          | Err _ => (done [c], s)
          | Ok d => (done [c; mkCookie (dev cfg) d (seconds DeviceMax) Strict], s)
          end
      end
  end.

(** The part of [login] behind the form's token: [csrf] is the cookie. *)
Definition attempt (rq : request) (csrf : string) : Handler := λ s,
  let user := form_value rq "username" in
  let page err := PLogin user err (masked csrf) in
  let ip := clientIP cfg rq in
  let '(r, s) := match rq_Cookies rq !! dev cfg with
                 | Some d => on_db (KnownDevice (ev_now ev) d) s
                 | None => (Ok false, s)
                 end in
  match r with
  | Err e => (fail rq e, s)
  | Ok known =>
      let '((wait, _), l) := Limit.take (sv_limit s) ip (ev_now ev) known in
      let s := set_limit l s in
      if decide (0 < wait) then
        (mkOutput (Shown 429 (page "adm.login.locked")) [] (Some (retry_after wait)), s)
      else if negb (ev_slot ev) then (plain NoReply, s)
      else
        let '(r, s) := checkLogin user (form_value rq "password") s in
        match r with
        | Err e => (fail rq e, s)
        | Ok false => (plain (Shown 401 (page "adm.login.bad")), s)
        | Ok true => signed_in rq known (set_limit (forgive (sv_limit s) ip) s)
        end
  end.

Definition login (rq : request) : Handler := λ s,
  match rq_Form rq with
  | None => (bad_form, s)
  | Some _ =>
      let refused := mkOutput
        (Shown 403 (PLogin (form_value rq "username") "adm.csrf" (masked (ev_token ev))))
        [login_cookie (ev_token ev)] None in
      match rq_Cookies rq !! lcsrf cfg with
      | None => (refused, s)
      | Some c => if validToken (form_value rq "csrf") c then attempt rq c s else (refused, s)
      end
  end.

Definition logout (rq : request) (_ : string) : Handler := λ s,
  let '(r, s) := match rq_Cookies rq !! sid cfg with
                 | Some c => on_db (DeleteSession c) s
                 | None => (Ok (), s)
                 end in
  match r with
  | Err e => (fail rq e, s)
  | Ok _ => (mkOutput toLogin [drop_sid] None, s)
  end.

(** ** The list *)

(** The keys of [flashes]. *)
Definition flash_key (ok : string) : string :=
  if decide (ok ∈ ["gespeichert"; "geloescht"; "geprueft"; "pausiert"; "zufrueh"; "mail";
                   "mailfehler"; "keinmail"; "csrf"]) then ok else "".

Definition admin_row (t : Target) (rl : Pages.TargetRow * Check) : AdminTargetRow :=
  mkAdminTargetRow rl.1 (Address t) (Paused t) (Public t)
    (if OK (c_Result rl.2) then "" else ErrText (c_Result rl.2)) (c_At rl.2).

Fixpoint admin_rows (ts : list Target) (acc : list AdminTargetRow) : M Db (list AdminTargetRow) :=
  match ts with
  | [] => ret acc
  | t :: ts =>
      let! rl := row (ev_now ev) t 0 in
      admin_rows ts (acc ++ [admin_row t rl])
  end.

Definition list_targets (rq : request) (csrf : string) : Handler := λ s,
  let '(r, s) := on_db (let! ts := Targets in admin_rows ts []) s in
  match r with
  | Err e => (fail rq e, s)
  | Ok rows => (plain (Shown 200 (PList rows (flash_key (query rq "ok")) csrf)), s)
  end.

(** ** The form *)

Definition newTarget : Target :=
  mkTarget 0 "" KindHTTP "" "200-399" "" "" 60 10000 3 false false 0 zeroTime zeroTime.

Definition newForm (rq : request) (csrf : string) : Handler := λ s,
  (plain (Shown 200 (PForm newTarget ∅ csrf)), s).

(** [server.target]: the target a path names, or the answer. *)
Definition target (rq : request) (id : string) (s : Server) : (output + Target) * Server :=
  match pathID id with
  | None => (inl (notFound rq), s)
  | Some id =>
      let '(r, s) := on_db (TargetByID id) s in
      match r with
      | Ok t => (inr t, s)
      | Err ErrNotFound => (inl (notFound rq), s)
      | Err e => (inl (fail rq e), s)
      end
  end.

Definition editForm (rq : request) (id csrf : string) : Handler := λ s,
  let '(r, s) := target rq id s in
  match r with
  | inl o => (o, s)
  | inr t => (plain (Shown 200 (PForm t ∅ csrf)), s)
  end.

(** A number of the form: the field's value, or the old one and a complaint. *)
Definition int_field (rq : request) (key : string) (old : Z) : Z * gmap string string :=
  match parse_int (TrimSpace (form_value rq key)) with
  | Some n => (n, ∅)
  | None => (old, {[key := "Ganze Zahl erwartet"]})
  end.

(** The target a form describes, starting from [t], and its mistakes: those
    of the numbers replace those [Validate] finds for the same field. *)
Definition read_form (rq : request) (t : Target) : Target * gmap string string :=
  let v key := form_value rq key in
  let '(i, e1) := int_field rq "interval_s" (IntervalS t) in
  let '(ms, e2) := int_field rq "timeout_ms" (TimeoutMs t) in
  let '(n, e3) := int_field rq "fail_threshold" (FailThreshold t) in
  let t := mkTarget (ID t) (TrimSpace (v "name")) (v "kind") (TrimSpace (v "address"))
             (TrimSpace (v "expect_status")) (v "keyword") (TrimSpace (v "connect_to")) i ms n
             (bool_decide (v "public" = "1")) (bool_decide (v "paused" = "1")) (Sort t)
             (CreatedAt t) (UpdatedAt t) in
  (t, e1 ∪ (e2 ∪ (e3 ∪ Validate t))).

(** [Monitor.Reload], whose error is only logged, and an empty cache. *)
Definition reload (id : Z) (s : Server) : Server :=
  let '(_, (w, m)) := Reload (ev_now ev) id (sv_world s) (sv_mgr s) in
  clearCache (set_mgr m (set_world w s)).

(** The statement [save] runs; it yields the identifier to reload. *)
Definition store_target (t : Target) : M Db Z :=
  if decide (ID t = 0) then CreateTarget (ev_now ev) t
  else do! UpdateTarget (ev_now ev) t in ret (ID t).

Definition save_target (rq : request) (csrf : string) (t : Target) : Handler := λ s,
  let '(t, errs) := read_form rq t in
  if decide (errs = ∅) then
    let '(r, s) := on_db (store_target t) s in
    match r with
    | Err ErrNotFound => (notFound rq, s)
    | Err e => (fail rq e, s)
    | Ok id => (plain (flash_to "gespeichert"), reload id s)
    end
  else (plain (Shown 422 (PForm t errs csrf)), s).

Definition create (rq : request) (csrf : string) : Handler := save_target rq csrf newTarget.

Definition save (rq : request) (id csrf : string) : Handler := λ s,
  let '(r, s) := target rq id s in
  match r with
  | inl o => (o, s)
  | inr t => save_target rq csrf t s
  end.

Definition pause (rq : request) (id : string) (_ : string) : Handler := λ s,
  let '(r, s) := target rq id s in
  match r with
  | inl o => (o, s)
  | inr t =>
      let '(r, s) := on_db (SetPaused (ev_now ev) (ID t) (negb (Paused t))) s in
      match r with
      | Err ErrNotFound => (notFound rq, s)
      | Err e => (fail rq e, s)
      | Ok _ => (plain (Redirect 303 "/admin/"), reload (ID t) s)
      end
  end.

Definition checkNow (rq : request) (id : string) (_ : string) : Handler := λ s,
  let '(r, s) := target rq id s in
  match r with
  | inl o => (o, s)
  | inr t =>
      if Paused t then (plain (flash_to "pausiert"), s) else
      let '(ok, m) := CheckNow (ev_now ev) (ID t) (ev_ready ev) (sv_mgr s) in
      (plain (flash_to (if ok then "geprueft" else "zufrueh")), set_mgr m s)
  end.

Definition remove (rq : request) (id : string) (_ : string) : Handler := λ s,
  match pathID id with
  | None => (notFound rq, s)
  | Some id =>
      let '(r, (w, m)) := Scheduler.Delete id (sv_world s) (sv_mgr s) in
      let s := set_mgr m (set_world w s) in
      match r with
      | Err ErrNotFound => (notFound rq, s)
      | Err e => (fail rq e, s)
      | Ok _ => (plain (flash_to "geloescht"), clearCache s)
      end
  end.

Definition testMail (rq : request) (_ : string) : Handler := λ s,
  if has_mailer then
    (plain (flash_to (if ev_mail ev then "mail" else "mailfehler")), add_test s)
  else (plain (flash_to "keinmail"), s).

(** ** The whole handler *)

Definition dispatch (rq : request) : Handler := λ s,
  match mux cfg rq with
  | RStatus l => status (ev_now ev) rq l s
  | RDetail l id => detail (ev_now ev) rq l id s
  | RApi => api (ev_now ev) rq s
  | RHealthz => healthz rq s
  | RMetrics => metrics cfg rq s
  | RStatic f => (static has_file rq f, s)
  | RSlash to => (plain (Redirect 307 to), s)
  | RAdminRoot => (plain (Redirect 301 "/admin/"), s)
  | RLoginForm => loginForm rq s
  | RLogin => login rq s
  | RLogout => admin rq (logout rq) s
  | RList => admin rq (list_targets rq) s
  | RNewForm => admin rq (newForm rq) s
  | RCreate => admin rq (create rq) s
  | REditForm id => admin rq (editForm rq id) s
  | RSave id => admin rq (save rq id) s
  | RPause id => admin rq (pause rq id) s
  | RCheckNow id => admin rq (checkNow rq id) s
  | RRemove id => admin rq (remove rq id) s
  | RTestMail => admin rq (testMail rq) s
  | RNotFound => (notFound rq, s)
  end.

(** [handler]: the protection against cross-origin requests comes first. *)
Definition serve (rq : request) : Handler := λ s,
  if cross_origin_ok rq then dispatch rq s
  else (plain (Answer 403 "cross-origin request"), s).
End Handlers.
