(* ===== verification/Guard.v ===== *)
(** * Who may change what (internal/web/admin.go)

    Without a live session and its token a request leaves the monitored data,
    the manager and the mailer alone; a session only comes from correct
    credentials within the rate limit. *)

From S2P Require Import Prelude Text Netip GoTime Sql Schema WellFormed Crypto Targets Checks.
From S2P Require Import Incidents Rollup Sessions Csrf Password Runner Scheduler Limit Validate.
From S2P Require Import Config Pages Server Handlers.

(** ** The data behind the pages *)

(** [db] holds the targets, measurements, incidents and account of [d]. *)
Definition data_is (d db : Db) : Prop :=
  targets db = targets d ∧ checks db = checks d ∧ hourly db = hourly d ∧
  incidents db = incidents d ∧ Schema.admin db = Schema.admin d.

Definition same_data (s s' : Server) : Prop :=
  data_is (sv_db s) (sv_db s') ∧ sv_mgr s' = sv_mgr s ∧ sv_tests s' = sv_tests s.

#[export] Instance same_data_refl : Reflexive same_data.
Proof. by intros s. Qed.

#[export] Instance same_data_trans : Transitive same_data.
Proof.
  unfold same_data, data_is. intros s1 s2 s3 ((?&?&?&?&?)&?&?) ((?&?&?&?&?)&?&?).
  split_and!; congruence.
Qed.

#[export] Instance same_data_preorder : PreOrder same_data.
Proof. split; apply _. Qed.

Lemma on_db_same {A} (m : M Db A) s :
  (∀ d, keeps (data_is d) m) → same_data s (on_db m s).2.
Proof.
  intros Hm. unfold same_data, on_db. specialize (Hm (sv_db s) (sv_world s)). simpl in Hm.
  destruct (m (sv_world s)) as [r w] eqn:He. unfold sv_db in *. simpl in *.
  split_and!; [|done|done]. by apply Hm.
Qed.

Lemma set_limit_same l s : same_data s (set_limit l s).
Proof. done. Qed.

Lemma set_cache_same c s : same_data s (set_cache c s).
Proof. done. Qed.

Create HintDb frame.
#[export] Hint Resolve on_db_same set_limit_same set_cache_same same_data_preorder : frame.

(** Reading keeps any property of the database. *)
Section Reads.
Context `{!Crypto, !NetLib} (I : Db → Prop).

Lemma reads_LastChecks id n : keeps I (LastChecks id n).
Proof. apply keeps_query. Qed.

Lemma reads_Uptime now id : keeps I (Uptime now id).
Proof.
  unfold Uptime, uptime_counts, rawHour. repeat (apply keeps_bind; [|intros]); auto with sql;
    repeat case_match; auto with sql.
Qed.

Lemma reads_Hours now id n : keeps I (Hours now id n).
Proof. unfold Hours, rawHour. repeat (apply keeps_bind; [|intros]); auto with sql. Qed.

Lemma reads_Latency now id span : keeps I (Latency now id span).
Proof.
  unfold Latency, hourlyLatency. case_decide; [apply keeps_query|].
  apply keeps_bind; [|intros]; auto with sql.
Qed.

Hint Resolve reads_LastChecks reads_Uptime reads_Hours reads_Latency : sql.

Lemma reads_row now t hours : keeps I (row now t hours).
Proof.
  unfold row. repeat (apply keeps_bind; [auto with sql|intros]).
  case_decide; [apply keeps_bind; [auto with sql|intros]|]; apply keeps_ret.
Qed.
Hint Resolve reads_row : sql.

Lemma reads_status_page now lang : keeps I (status_page now lang).
Proof.
  unfold status_page. apply keeps_bind; [apply keeps_query|intros ts].
  apply keeps_bind; [|intros; apply keeps_bind; [apply keeps_query|intros; apply keeps_ret]].
  generalize zeroTime, (@nil Pages.TargetRow).
  induction ts as [|t ts IH]; intros at_ acc; simpl; [apply keeps_ret|].
  apply keeps_bind; [auto with sql|]. intros. apply IH.
Qed.

Lemma reads_api_page now : keeps I (api_page now).
Proof.
  unfold api_page. apply keeps_bind; [apply keeps_query|intros ts]. generalize (@nil apiTarget).
  induction ts as [|t ts IH]; intros acc; simpl; [apply keeps_ret|].
  apply keeps_bind; [auto with sql|]. intros. apply IH.
Qed.

Lemma reads_TargetByID id : keeps I (TargetByID id).
Proof. apply keeps_found, keeps_query. Qed.
Hint Resolve reads_TargetByID : sql.

Lemma reads_detail_page now lang id rng : keeps I (detail_page now lang id rng).
Proof.
  unfold detail_page. apply keeps_bind; [auto with sql|]. intros [t|[]]; auto with sql.
  destruct (negb _); [apply keeps_ret|].
  destruct (match periods rng with Some _ => _ | None => _ end).
  repeat (apply keeps_bind; [auto with sql|intros]); [apply keeps_query|apply keeps_ret].
Qed.

Lemma reads_admin_rows ev ts acc : keeps I (admin_rows ev ts acc).
Proof.
  revert acc. induction ts as [|t ts IH]; intros acc; simpl; [apply keeps_ret|].
  apply keeps_bind; [auto with sql|]. intros. apply IH.
Qed.

Lemma reads_SessionByToken now token : keeps I (SessionByToken now token).
Proof. apply keeps_found, keeps_query. Qed.

Lemma reads_KnownDevice now token : keeps I (KnownDevice now token).
Proof. apply keeps_query. Qed.

Lemma reads_Admin : keeps I Admin.
Proof. apply keeps_found, keeps_query. Qed.
End Reads.

#[export] Hint Resolve reads_row reads_status_page reads_api_page reads_TargetByID
  reads_detail_page reads_admin_rows reads_SessionByToken reads_KnownDevice reads_Admin : sql.

Section Data.
Context `{!Crypto, !NetLib} (d : Db).

(** Sessions and devices are no monitored data. *)
Lemma data_TouchSession now token : keeps (data_is d) (TouchSession now token).
Proof.
  apply keeps_affected, keeps_stmt. intros db u db' Hd. repeat case_match; intros; by simplify_eq.
Qed.

Lemma data_DeleteSession token : keeps (data_is d) (DeleteSession token).
Proof. apply keeps_stmt. intros; by simplify_eq. Qed.

Lemma data_CreateSession now token csrf : keeps (data_is d) (CreateSession now token csrf).
Proof.
  apply keeps_bind; [|auto with sql]. apply keeps_stmt. intros db u db' Hd.
  case_match; intros; by simplify_eq.
Qed.

Lemma data_CreateDevice now token : keeps (data_is d) (CreateDevice now token).
Proof.
  apply keeps_bind; [|auto with sql]. apply keeps_stmt. intros db u db' Hd.
  case_match; intros; by simplify_eq.
Qed.
End Data.

#[export] Hint Resolve data_TouchSession data_DeleteSession data_CreateSession
  data_CreateDevice : sql.

(** ** What the handlers preserve *)

(** A relation [Q] between the states before and after a handler that holds
    across computations keeping [R d] for every database [d], and across
    changes of the limiter and of the cache. *)
Section Frame.
Context `{!Crypto, !NetLib} (R : Db → Db → Prop) (Q : Server → Server → Prop) `{!PreOrder Q}.
Hypothesis Hdb : ∀ {A} (m : M Db A) s, (∀ d, keeps (R d) m) → Q s (on_db m s).2.
Hypothesis Hlimit : ∀ l s, Q s (set_limit l s).
Hypothesis Hcache : ∀ c s, Q s (set_cache c s).
Hypothesis Htouch : ∀ d now token, keeps (R d) (TouchSession now token).
Hypothesis Hdelete : ∀ d token, keeps (R d) (DeleteSession token).
Hypothesis Hdevice : ∀ d now token, keeps (R d) (CreateDevice now token).
Variable cfg : Config.
Variable ev : world_in.
Hypothesis Hcreate : ∀ d, keeps (R d) (CreateSession (ev_now ev) (ev_sid ev) (ev_csrf ev)).

Lemma fromCache_frame now rq key build show s :
  (∀ d, keeps (R d) build) → Q s (fromCache now rq key build show s).2.
Proof.
  intros Hb. pose proof (Hdb build s Hb) as Hs. unfold fromCache.
  assert (Hbuild : Q s (let '(r, s0) := on_db build s in
    match r with
    | Ok b => (plain (show b), set_cache (<[key := (b, now)]> (sv_cache s0)) s0)
    | Err e => (fail rq e, s0)
    end).2).
  { destruct (on_db build s) as [[b'|e] s']; simpl in *; [|done].
    etransitivity; [exact Hs|apply Hcache]. }
  destruct (sv_cache s !! key) as [[b at_]|]; [case_decide; [done|]|]; exact Hbuild.
Qed.

Lemma status_frame now rq l s : Q s (status now rq l s).2.
Proof.
  apply fromCache_frame. intros d. apply keeps_bind; [apply reads_status_page|].
  intros; apply keeps_ret.
Qed.

Lemma api_frame now rq s : Q s (api now rq s).2.
Proof.
  apply fromCache_frame. intros d. apply keeps_bind; [apply reads_api_page|].
  intros; apply keeps_ret.
Qed.

Lemma healthz_frame rq s : Q s (healthz rq s).2.
Proof.
  unfold healthz. pose proof (Hdb Ping s (λ d, keeps_query _ _)) as Hs.
  by destruct (on_db Ping s) as [r s'].
Qed.

Lemma detail_frame now rq l id s : Q s (detail now rq l id s).2.
Proof.
  unfold detail. destruct (pathID id); [|done].
  pose proof (Hdb _ s (λ d, reads_detail_page _ now l z (query rq "r"))) as Hs.
  by destruct (on_db _ s) as [[[p|]|e] s'].
Qed.

Lemma metrics_frame rq s : Q s (metrics cfg rq s).2.
Proof.
  unfold metrics. destruct (negb _); [done|].
  pose proof (Hdb Targets s (λ d, keeps_query _ _)) as Hs.
  by destruct (on_db Targets s) as [[ts|e] s'].
Qed.

Lemma loginForm_frame rq s : Q s (loginForm cfg ev rq s).2.
Proof. unfold loginForm. by repeat case_match. Qed.

Lemma checkLogin_frame user pw s : Q s (checkLogin user pw s).2.
Proof.
  unfold checkLogin. pose proof (Hdb Admin s (λ d, reads_Admin _)) as Hs.
  destruct (on_db Admin s) as [[[name hash]|[]] s']; simpl; try exact Hs.
  destruct (Verify pw hash); exact Hs.
Qed.

(** Ending the session the request names, if any. *)
Lemma end_session_frame rq s :
  Q s (match rq_Cookies rq !! sid cfg with
       | Some old => on_db (DeleteSession old) s
       | None => (Ok (), s)
       end).2.
Proof. destruct (rq_Cookies rq !! _); [|done]. by apply Hdb. Qed.

(** Looking up the device the request names, if any. *)
Lemma known_device_frame rq s :
  Q s (match rq_Cookies rq !! dev cfg with
       | Some d => on_db (KnownDevice (ev_now ev) d) s
       | None => (Ok false, s)
       end).2.
Proof. destruct (rq_Cookies rq !! _); [|done]. apply Hdb. intros; apply reads_KnownDevice. Qed.

Lemma signed_in_frame rq known s : Q s (signed_in cfg ev rq known s).2.
Proof.
  unfold signed_in. pose proof (end_session_frame rq s) as Hs1.
  destruct (match rq_Cookies rq !! _ with Some _ => _ | None => _ end) as [[u|e] s1]; [|exact Hs1].
  simpl in Hs1. etransitivity; [exact Hs1|]. clear Hs1.
  pose proof (Hdb _ s1 Hcreate) as Hs2.
  destruct (on_db _ s1) as [[[tok sess]|e] s2]; simpl in Hs2; [|done].
  etransitivity; [exact Hs2|]. clear Hs2. destruct known; [done|].
  pose proof (Hdb _ s2 (λ d, Hdevice d (ev_now ev) (ev_dev ev))) as Hs3.
  by destruct (on_db _ s2) as [[d|e] s3].
Qed.

Lemma attempt_frame rq csrf s : Q s (attempt cfg ev rq csrf s).2.
Proof.
  unfold attempt. pose proof (known_device_frame rq s) as Hs1.
  destruct (match rq_Cookies rq !! _ with Some _ => _ | None => _ end) as [[known|e] s1]; [|exact Hs1].
  simpl in Hs1. destruct (Limit.take _ _ _ _) as [[wait first] l].
  etransitivity; [exact Hs1|]. etransitivity; [apply (Hlimit l)|]. clear Hs1.
  case_decide; [done|]. destruct (negb _); [done|].
  pose proof (checkLogin_frame (form_value rq "username") (form_value rq "password")
    (set_limit l s1)) as Hs3.
  destruct (checkLogin _ _ _) as [[[]|e] s2]; simpl in Hs3; [|done..].
  etransitivity; [exact Hs3|]. etransitivity; [|apply signed_in_frame]. apply Hlimit.
Qed.

Lemma login_frame rq s : Q s (login cfg ev rq s).2.
Proof.
  unfold login. destruct (rq_Form rq); [|done]. destruct (rq_Cookies rq !! _); [|done].
  destruct (validToken _ _); [apply attempt_frame|done].
Qed.

Lemma logout_frame rq csrf s : Q s (logout cfg rq csrf s).2.
Proof.
  unfold logout. pose proof (end_session_frame rq s) as Hs1.
  by destruct (match rq_Cookies rq !! _ with Some _ => _ | None => _ end) as [[u|e] s1].
Qed.

Lemma list_targets_frame rq csrf s : Q s (list_targets ev rq csrf s).2.
Proof.
  unfold list_targets.
  assert (Hm : ∀ d, keeps (R d) (let! ts := Targets in admin_rows ev ts [])).
  { intros d. apply keeps_bind; [apply keeps_query|]. intros ts. apply reads_admin_rows. }
  pose proof (Hdb _ s Hm) as Hs. by destruct (on_db _ s) as [[rows|e] s'].
Qed.

Lemma target_frame rq id s : Q s (target rq id s).2.
Proof.
  unfold target. destruct (pathID id); [|done].
  pose proof (Hdb _ s (λ d, reads_TargetByID _ z)) as Hs.
  by destruct (on_db _ s) as [[t|[]] s'].
Qed.

Lemma editForm_frame rq id csrf s : Q s (editForm rq id csrf s).2.
Proof.
  unfold editForm. pose proof (target_frame rq id s) as Hs.
  by destruct (target rq id s) as [[o|t] s'].
Qed.

(** The request carries the token of a session that is live, and if it is a
    POST its form carries the session's token. *)
Definition signed (rq : request) (s : Server) : Prop :=
  ∃ token row, rq_Cookies rq !! sid cfg = Some token ∧
    sessions (sv_db s) !! hashToken token = Some row ∧ Unix (ev_now ev) < se_expires row ∧
    (rq_Method rq = "POST" → validToken (form_value rq "csrf") (se_csrf row) = true).

(** The guard either answers itself or hands on a signed request. *)
Lemma admin_cases rq h s :
  Q s (Handlers.admin cfg ev rq h s).2 ∨
  ∃ csrf s1, Handlers.admin cfg ev rq h s = h csrf s1 ∧ Q s s1 ∧ signed rq s.
Proof.
  unfold Handlers.admin. destruct (rq_Cookies rq !! sid cfg) as [token|] eqn:Hc; [|by left].
  pose proof (Hdb _ s (λ d, reads_SessionByToken _ (ev_now ev) token)) as Hs1.
  destruct (on_db (SessionByToken (ev_now ev) token) s) as [[sess|e] s1] eqn:He; simpl in Hs1;
    [|left; by destruct e].
  assert (Hrow : ∃ row, sessions (sv_db s) !! hashToken token = Some row ∧
    Unix (ev_now ev) < se_expires row ∧ CSRF sess = se_csrf row).
  { unfold on_db in He. destruct (SessionByToken _ _ _) as [r w] eqn:Hs. simplify_eq.
    apply live_SessionRow in Hs as (row & Hr & Hx & -> & _). by exists row. }
  destruct Hrow as (row & Hrow & Hexp & Hcsrf).
  set (s2 := if decide _ then _ else s1).
  assert (Hs2 : Q s s2).
  { unfold s2. case_decide; [|done]. etransitivity; [exact Hs1|]. by apply Hdb. }
  case_decide as Hm.
  - destruct (rq_Form rq); [|by left]. destruct (validToken _ _) eqn:Hv; [|by left].
    right. exists (masked ev (CSRF sess)), s2. split_and!; [done|done|].
    exists token, row. rewrite <-Hcsrf. auto.
  - right. exists (masked ev (CSRF sess)), s2. split_and!; [done|done|].
    exists token, row. split_and!; auto; naive_solver.
Qed.

Lemma guarded_frame rq h s :
  (∀ csrf s, Q s (h csrf s).2) → Q s (Handlers.admin cfg ev rq h s).2.
Proof.
  intros Hh. destruct (admin_cases rq h s) as [|(c & s1 & -> & Hs & _)]; [done|].
  by etransitivity.
Qed.
End Frame.

(** ** The guard *)

Section Guard.
Context `{!Crypto, !NetLib}.
Variable cfg : Config.
Variable ev : world_in.

Definition authorised (rq : request) (s : Server) : Prop :=
  rq_Method rq = "POST" ∧ cross_origin_ok rq = true ∧ signed cfg ev rq s.

(** Routes registered for POST. *)
Definition is_post (r : route) : bool :=
  match r with
  | RLogin | RLogout | RCreate | RSave _ | RPause _ | RCheckNow _ | RRemove _ | RTestMail => true
  | _ => false
  end.

Lemma mux_post rq : is_post (mux cfg rq) = true → rq_Method rq = "POST".
Proof.
  unfold mux. case_decide; [|by case_decide]. unfold get_routes. by repeat case_match.
Qed.

Lemma data_admin_cases rq h s :
  same_data s (Handlers.admin cfg ev rq h s).2 ∨
  ∃ csrf s1, Handlers.admin cfg ev rq h s = h csrf s1 ∧ same_data s s1 ∧ signed cfg ev rq s.
Proof. apply (admin_cases data_is); auto with frame sql. Qed.

(** A signed POST that passed the cross-origin check is authorised. *)
Lemma guarded_post rq h s :
  cross_origin_ok rq = true → is_post (mux cfg rq) = true →
  same_data s (Handlers.admin cfg ev rq h s).2 ∨ authorised rq s.
Proof.
  intros Hco Hp%mux_post. destruct (data_admin_cases rq h s) as [|(c & s1 & _ & _ & Hs)]; [by left|].
  right. by split_and!.
Qed.

End Guard.

(** ** Properties *)

(** C8: only a same-origin POST with the cookie of a live
    session and that session's token in its form changes a target, a
    measurement, an incident or the account, starts or stops a check, or sends
    a test mail; every other request, whatever its method, path, headers and
    body, leaves all of that as it was. *)
Theorem changes_need_session `{!Crypto, !NetLib} cfg has_mailer has_file ev rq s :
  same_data s (serve cfg has_mailer has_file ev rq s).2 ∨ authorised cfg ev rq s.
Proof.
  unfold serve. destruct (cross_origin_ok rq) eqn:Hco; [|by left].
  unfold dispatch. destruct (mux cfg rq) eqn:Hm;
    try (apply guarded_post; [done|by rewrite Hm]); left.
  - apply (status_frame data_is); auto with frame.
  - apply (detail_frame data_is); auto with frame.
  - apply (api_frame data_is); auto with frame.
  - apply (healthz_frame data_is); auto with frame.
  - apply (metrics_frame data_is); auto with frame.
  - done.
  - done.
  - done.
  - by apply (loginForm_frame same_data).
  - apply (login_frame data_is); auto with frame sql.
  - apply (guarded_frame data_is); auto with frame sql.
    intros. apply (list_targets_frame data_is); auto with frame.
  - by apply (guarded_frame data_is); auto with frame sql.
  - apply (guarded_frame data_is); auto with frame sql.
    intros. apply (editForm_frame data_is); auto with frame.
  - done.
Qed.
