(* ===== verification/Admission.v ===== *)
(** * What gets into the store through the pages (internal/web/admin.go)

    [serve] keeps every stored target valid and only creates a session for
    correct credentials. *)

From S2P Require Import Prelude Text Netip GoTime Sql Schema WellFormed Crypto Targets Checks.
From S2P Require Import Incidents Sessions Csrf Password Runner Scheduler Limit Validate Config.
From S2P Require Import Pages Server Handlers Guard.

(** ** What the changing handlers preserve *)

Section Writes.
Context `{!Crypto, !NetLib} (R : Db → Db → Prop) (Q : Server → Server → Prop) `{!PreOrder Q}.
Hypothesis Hdb : ∀ {A} (m : M Db A) s, (∀ d, keeps (R d) m) → Q s (on_db m s).2.
Hypothesis Hlimit : ∀ l s, Q s (set_limit l s).
Hypothesis Hcache : ∀ c s, Q s (set_cache c s).
Hypothesis Hmgr : ∀ m s, Q s (set_mgr m s).
Hypothesis Htest : ∀ s, Q s (add_test s).
Hypothesis Htouch : ∀ d now token, keeps (R d) (TouchSession now token).
Hypothesis Hdelete : ∀ d token, keeps (R d) (DeleteSession token).
Hypothesis Hpaused : ∀ d now id p, keeps (R d) (SetPaused now id p).
Hypothesis Hclose : ∀ d now id, keeps (R d) (ClosePausedIncident now id).
Hypothesis Hremove : ∀ d id, keeps (R d) (DeleteTarget id).
Variable cfg : Config.
Variable has_mailer : bool.
Variable has_file : string → bool.
Variable ev : world_in.
Hypothesis Hsave : ∀ rq csrf t s, Q s (save_target ev rq csrf t s).2.

(** The world an operation of the manager leaves. *)
Lemma set_world_frame {A} (m : M Db A) s :
  (∀ d, keeps (R d) m) → Q s (set_world (m (sv_world s)).2 s).
Proof.
  intros Hm. pose proof (Hdb m s Hm) as Hs. unfold on_db in Hs.
  by destruct (m (sv_world s)) as [r w].
Qed.

Lemma reload_frame id s : Q s (reload ev id s).
Proof.
  unfold reload, Reload.
  pose proof (set_world_frame _ s (λ d, reads_TargetByID (R d) id)) as Hs.
  destruct (TargetByID id (sv_world s)) as [[t|e] w1]; simpl in Hs.
  - destruct (Paused t).
    + pose proof (set_world_frame _ (set_world w1 s) (λ d, Hclose d (ev_now ev) id)) as Hs2.
      simpl in Hs2. destruct (ClosePausedIncident _ _ w1) as [r w2]. simpl in Hs2.
      etransitivity; [exact Hs|]. etransitivity; [exact Hs2|].
      etransitivity; [apply (Hmgr (stop id (sv_mgr s)))|]. apply Hcache.
    + etransitivity; [exact Hs|]. etransitivity; [apply Hmgr|]. apply Hcache.
  - etransitivity; [exact Hs|]. etransitivity; [apply Hmgr|]. apply Hcache.
Qed.

Lemma save_frame rq id csrf s : Q s (save ev rq id csrf s).2.
Proof.
  unfold save. pose proof (target_frame R Q (@Hdb) rq id s) as Hs.
  destruct (target rq id s) as [[o|t] s']; [exact Hs|]. etransitivity; [exact Hs|apply Hsave].
Qed.

Lemma pause_frame rq id csrf s : Q s (pause ev rq id csrf s).2.
Proof.
  unfold pause. pose proof (target_frame R Q (@Hdb) rq id s) as Hs.
  destruct (target rq id s) as [[o|t] s1]; [exact Hs|]. etransitivity; [exact Hs|]. clear Hs.
  pose proof (Hdb _ s1 (λ d, Hpaused d (ev_now ev) (ID t) (negb (Paused t)))) as Hs.
  destruct (on_db _ s1) as [[u|[]] s2]; try exact Hs. etransitivity; [exact Hs|apply reload_frame].
Qed.

Lemma checkNow_frame rq id csrf s : Q s (checkNow ev rq id csrf s).2.
Proof.
  unfold checkNow. pose proof (target_frame R Q (@Hdb) rq id s) as Hs.
  destruct (target rq id s) as [[o|t] s1]; [exact Hs|]. etransitivity; [exact Hs|]. clear Hs.
  destruct (Paused t); [done|]. destruct (CheckNow _ _ _ _) as [ok m]. apply Hmgr.
Qed.

Lemma Delete_frame id s :
  Q s (let '(_, (w, m)) := Scheduler.Delete id (sv_world s) (sv_mgr s) in
       set_mgr m (set_world w s)).
Proof.
  unfold Scheduler.Delete. pose proof (set_world_frame _ s (λ d, Hremove d id)) as Hs.
  destruct (DeleteTarget id (sv_world s)) as [[u|e] w1]; simpl in Hs.
  - etransitivity; [exact Hs|apply Hmgr].
  - assert (Hterr : Q s (let '(_, (w, m)) := match TargetByID id w1 with
      | (Err _, w2) => (Err e, (w2, stop id (sv_mgr s)))
      | (Ok t, w2) => (Err e, (w2, if negb (Paused t) && mg_alive (stop id (sv_mgr s))
                                   then start t (stop id (sv_mgr s)) else stop id (sv_mgr s)))
      end : res sqlerr unit * (World Db * Mgr) in set_mgr m (set_world w s))).
    { pose proof (set_world_frame _ (set_world w1 s) (λ d, reads_TargetByID (R d) id)) as Hs2.
      simpl in Hs2. destruct (TargetByID id w1) as [[t|e2] w2]; simpl in Hs2;
        (etransitivity; [exact Hs|]; etransitivity; [exact Hs2|apply Hmgr]). }
    destruct e; try exact Hterr. etransitivity; [exact Hs|apply Hmgr].
Qed.

Lemma remove_frame rq id csrf s : Q s (remove rq id csrf s).2.
Proof.
  unfold remove. destruct (pathID id) as [i|]; [|done]. pose proof (Delete_frame i s) as Hs.
  destruct (Scheduler.Delete i (sv_world s) (sv_mgr s)) as [r [w m]].
  destruct r as [u|[]]; try exact Hs. etransitivity; [exact Hs|apply Hcache].
Qed.

Lemma testMail_frame rq csrf s : Q s (testMail has_mailer ev rq csrf s).2.
Proof. unfold testMail. destruct has_mailer; [apply Htest|done]. Qed.

Lemma guard_frame rq h s :
  (∀ csrf s, Q s (h csrf s).2) → Q s (Handlers.admin cfg ev rq h s).2.
Proof. by apply (guarded_frame R Q). Qed.

(** Every request, except perhaps signing in. *)
Lemma serve_frame rq s :
  (mux cfg rq = RLogin → Q s (login cfg ev rq s).2) →
  Q s (serve cfg has_mailer has_file ev rq s).2.
Proof.
  intros Hlogin. unfold serve. destruct (cross_origin_ok rq); [|done]. unfold dispatch.
  destruct (mux cfg rq) eqn:Hm; try done; try (apply guard_frame; intros).
  - by apply (status_frame R).
  - by apply (detail_frame R).
  - by apply (api_frame R).
  - by apply (healthz_frame R).
  - by apply (metrics_frame R).
  - by apply (loginForm_frame Q).
  - by apply Hlogin.
  - by apply (logout_frame R).
  - by apply (list_targets_frame R).
  - done.
  - apply Hsave.
  - by apply (editForm_frame R).
  - apply save_frame.
  - apply pause_frame.
  - apply checkNow_frame.
  - apply remove_frame.
  - apply testMail_frame.
Qed.
End Writes.

(** ** Invariants of the database *)

(** [keeps_if I]: the relation that says a property of the database is not
    lost. *)
Definition keeps_if (I : Db → Prop) (d db : Db) : Prop := I d → I db.

Definition server_if (I : Db → Prop) (s s' : Server) : Prop := keeps_if I (sv_db s) (sv_db s').

#[export] Instance server_if_preorder I : PreOrder (server_if I).
Proof. unfold server_if, keeps_if. split; [by intros s ?|]. intros s1 s2 s3. tauto. Qed.

Lemma keeps_keeps_if (I : Db → Prop) d {A} (m : M Db A) : keeps I m → keeps (keeps_if I d) m.
Proof. intros Hm w Hw Hd. by apply Hm, Hw. Qed.

Lemma on_db_if (I : Db → Prop) {A} (m : M Db A) s :
  (∀ d, keeps (keeps_if I d) m) → server_if I s (on_db m s).2.
Proof.
  intros Hm. specialize (Hm (sv_db s) (sv_world s)). unfold server_if, on_db.
  destruct (m (sv_world s)) as [r w]. unfold sv_db. simpl in *. apply Hm. by intros ?.
Qed.

Lemma any_server_if (I : Db → Prop) s s' : sv_db s' = sv_db s → server_if I s s'.
Proof. unfold server_if, keeps_if. by intros ->. Qed.

#[export] Hint Resolve server_if_preorder on_db_if keeps_keeps_if any_server_if : frame.

(** ** Stored targets are valid *)

Section Valid.
Context `{!Crypto, !NetLib}.

Definition all_valid (db : Db) : Prop := ∀ id t, targets db !! id = Some t → valid_target t.

(** Validity depends on the settings only. *)
Lemma valid_new_row id now t : valid_target t → valid_target (new_row id now t).
Proof. intros []. by split. Qed.

Lemma valid_updated_row old now t : valid_target t → valid_target (updated_row old now t).
Proof. intros []. by split. Qed.

Lemma valid_paused_row old now p : valid_target old → valid_target (paused_row old now p).
Proof. intros []. by split. Qed.

Lemma all_valid_insert db id t :
  valid_target t → all_valid db → all_valid (set_targets <[id := t]> db).
Proof.
  intros Ht Hdb j u. simpl. rewrite lookup_insert. case_decide; [|apply Hdb].
  intros; by simplify_eq.
Qed.

Lemma valid_CreateTarget now t : valid_target t → keeps all_valid (CreateTarget now t).
Proof.
  intros Ht. apply keeps_stmt. intros db id db' Hdb. simpl. case_match; intros ?; simplify_eq.
  by apply all_valid_insert; [apply valid_new_row|].
Qed.

Lemma valid_UpdateTarget now t : valid_target t → keeps all_valid (UpdateTarget now t).
Proof.
  intros Ht. apply keeps_affected, keeps_stmt. intros db n db' Hdb.
  destruct (targets db !! ID t); [|by intros; simplify_eq].
  simpl. case_match; intros ?; simplify_eq. by apply all_valid_insert; [apply valid_updated_row|].
Qed.

Lemma valid_SetPaused now id p : keeps all_valid (SetPaused now id p).
Proof.
  apply keeps_affected, keeps_stmt. intros db n db' Hdb.
  destruct (targets db !! id) as [old|] eqn:Hold; intros; simplify_eq; [|done].
  apply all_valid_insert; [|done]. apply valid_paused_row. by apply (Hdb id).
Qed.

Lemma valid_DeleteTarget id : keeps all_valid (DeleteTarget id).
Proof.
  apply keeps_affected, keeps_stmt. intros db n db' Hdb.
  destruct (targets db !! id); intros; simplify_eq; [|done].
  intros j u. simpl. intros [_ Hj]%lookup_delete_Some. by apply (Hdb j).
Qed.

(** A change of other tables. *)
Lemma valid_stmt {A} (f : Db → res sqlerr (A * Db)) :
  (∀ db a db', f db = Ok (a, db') → targets db' = targets db) → keeps all_valid (stmt f).
Proof. intros Hf. apply keeps_stmt. intros db a db' Hdb He%Hf. unfold all_valid. by rewrite He. Qed.

Lemma valid_TouchSession now token : keeps all_valid (TouchSession now token).
Proof.
  apply keeps_affected, valid_stmt. intros db a db'. repeat case_match; intros; by simplify_eq.
Qed.

Lemma valid_DeleteSession token : keeps all_valid (DeleteSession token).
Proof. apply valid_stmt. intros; by simplify_eq. Qed.

Lemma valid_CreateSession now token csrf : keeps all_valid (CreateSession now token csrf).
Proof.
  apply keeps_bind; [|auto with sql]. apply valid_stmt. intros db a db'.
  case_match; intros; by simplify_eq.
Qed.

Lemma valid_CreateDevice now token : keeps all_valid (CreateDevice now token).
Proof.
  apply keeps_bind; [|auto with sql]. apply valid_stmt. intros db a db'.
  case_match; intros; by simplify_eq.
Qed.

Lemma valid_ClosePausedIncident now id : keeps all_valid (ClosePausedIncident now id).
Proof. apply valid_stmt. intros; by simplify_eq. Qed.

#[local] Hint Resolve valid_SetPaused valid_DeleteTarget valid_TouchSession valid_DeleteSession
  valid_CreateSession valid_CreateDevice valid_ClosePausedIncident : sql.

(** What the form's numbers read as. *)
Lemma int_field_parsed rq key old n :
  int_field rq key old = (n, ∅) → in_int64 n.
Proof.
  unfold int_field. destruct (parse_int _) as [m|] eqn:Hp.
  - intros [= <-]. revert Hp. unfold parse_int.
    match goal with |- (let '(_, _) := ?x in _) = _ → _ => destruct x as [neg ds] end.
    destruct (parse_nat ds); simpl; [|done]. case_decide; intros; by simplify_eq.
  - done.
Qed.

(** A form without mistakes describes a valid target. *)
Lemma read_form_valid rq t t' : read_form rq t = (t', ∅) → valid_target t' ∧ ID t' = ID t.
Proof.
  unfold read_form.
  destruct (int_field rq "interval_s" _) as [i e1]. destruct (int_field rq "timeout_ms" _) as [ms e2] eqn:H2.
  destruct (int_field rq "fail_threshold" _) as [n e3].
  intros [= <- He]. pose proof (map_positive_l _ _ He) as ->. rewrite (left_id_L ∅ (∪)) in He.
  pose proof (map_positive_l _ _ He) as ->. rewrite (left_id_L ∅ (∪)) in He.
  pose proof (map_positive_l _ _ He) as ->. rewrite (left_id_L ∅ (∪)) in He.
  split; [|done]. apply Validate_valid; [|done]. by apply int_field_parsed in H2.
Qed.

Lemma valid_store_target ev t : valid_target t → keeps all_valid (store_target ev t).
Proof.
  intros Ht. unfold store_target. case_decide; [by apply valid_CreateTarget|].
  apply keeps_bind; [by apply valid_UpdateTarget|auto with sql].
Qed.

Lemma reload_valid ev id s : server_if all_valid s (reload ev id s).
Proof.
  apply (reload_frame (keeps_if all_valid)); auto with frame.
  intros. apply keeps_keeps_if, valid_ClosePausedIncident.
Qed.

Lemma save_target_valid ev rq csrf t s : server_if all_valid s (save_target ev rq csrf t s).2.
Proof.
  unfold save_target. destruct (read_form rq t) as [t' errs] eqn:Hr.
  case_decide as He; [|by apply any_server_if]. subst errs. apply read_form_valid in Hr as [Hv _].
  assert (Hs : server_if all_valid s (on_db (store_target ev t') s).2).
  { apply on_db_if. intros. by apply keeps_keeps_if, valid_store_target. }
  destruct (on_db _ s) as [[id|[]] s']; try exact Hs. intros Hd. by apply reload_valid, Hs.
Qed.
End Valid.

(** ** Where sessions come from *)

Section NewSessions.
Context `{!Crypto, !NetLib}.

Section NoNew.
Context (E : string → Prop).

(** Every session of [db] is one of [d], or under a key in [E]. *)
Definition no_new (d db : Db) : Prop :=
  ∀ h row, sessions db !! h = Some row → is_Some (sessions d !! h) ∨ E h.

Definition no_new_session (s s' : Server) : Prop := no_new (sv_db s) (sv_db s').

#[export] Instance no_new_preorder : PreOrder no_new.
Proof.
  split; [intros d h row Hr; left; by exists row|]. intros d1 d2 d3 H1 H2 h row Hh.
  destruct (H2 h row Hh) as [[row' Hrow]|]; [by apply (H1 h row')|by right].
Qed.

#[export] Instance no_new_session_preorder : PreOrder no_new_session.
Proof. unfold no_new_session. split; [by intros s|]. intros s1 s2 s3. by transitivity (sv_db s2). Qed.

Lemma on_db_no_new {A} (m : M Db A) s :
  (∀ d, keeps (no_new d) m) → no_new_session s (on_db m s).2.
Proof.
  intros Hm. specialize (Hm (sv_db s) (sv_world s)). unfold no_new_session, on_db.
  destruct (m (sv_world s)) as [r w]. unfold sv_db. simpl in *. by apply Hm.
Qed.

Lemma any_no_new s s' : sv_db s' = sv_db s → no_new_session s s'.
Proof. unfold no_new_session. by intros ->. Qed.

(** A statement that leaves the table of sessions alone, or only removes rows
    or replaces them. *)
Lemma no_new_stmt {A} d (f : Db → res sqlerr (A * Db)) :
  (∀ db a db', f db = Ok (a, db') → no_new db db') → keeps (no_new d) (stmt f).
Proof. intros Hf. apply keeps_stmt. intros db a db' Hd He%Hf. by transitivity db. Qed.

Lemma no_new_same d d' : sessions d' = sessions d → no_new d d'.
Proof. intros He h row. rewrite He. intros ?. left. by exists row. Qed.

Lemma no_new_TouchSession d now token : keeps (no_new d) (TouchSession now token).
Proof.
  apply keeps_affected, no_new_stmt. intros db a db'.
  destruct (sessions db !! hashToken token) as [row|] eqn:Hr; [case_decide|];
    intros; simplify_eq; [|by apply no_new_same..].
  intros h r. simpl. rewrite lookup_insert. case_decide; left; [subst; by exists row|by exists r].
Qed.

Lemma no_new_DeleteSession d token : keeps (no_new d) (DeleteSession token).
Proof.
  apply no_new_stmt. intros db a db' ?; simplify_eq. intros h r. simpl.
  intros [_ Hr]%lookup_delete_Some. left. by exists r.
Qed.

(** Statements about other tables. *)
Ltac other_table :=
  intros ? ? ?; cbv zeta; repeat case_match; intros; simplify_eq; by apply no_new_same.

Lemma no_new_CreateDevice d now token : keeps (no_new d) (CreateDevice now token).
Proof. apply keeps_bind; [|auto with sql]. apply no_new_stmt. other_table. Qed.

Lemma no_new_SetPaused d now id p : keeps (no_new d) (SetPaused now id p).
Proof. apply keeps_affected, no_new_stmt. other_table. Qed.

Lemma no_new_ClosePausedIncident d now id : keeps (no_new d) (ClosePausedIncident now id).
Proof. apply no_new_stmt. other_table. Qed.

Lemma no_new_DeleteTarget d id : keeps (no_new d) (DeleteTarget id).
Proof. apply keeps_affected, no_new_stmt. other_table. Qed.

Lemma no_new_store_target ev d t : keeps (no_new d) (store_target ev t).
Proof.
  unfold store_target. case_decide.
  { apply no_new_stmt. other_table. }
  apply keeps_bind; [|auto with sql]. apply keeps_affected, no_new_stmt. other_table.
Qed.

Lemma no_new_CreateSession d now token csrf :
  E (hashToken token) → keeps (no_new d) (CreateSession now token csrf).
Proof.
  intros HE. apply keeps_bind; [|auto with sql]. apply no_new_stmt. intros db a db'.
  case_match; intros; simplify_eq. intros h r. simpl. rewrite lookup_insert.
  case_decide; [subst; by right|]. left. by exists r.
Qed.

Hint Resolve no_new_TouchSession no_new_DeleteSession no_new_CreateDevice no_new_SetPaused
  no_new_ClosePausedIncident no_new_DeleteTarget no_new_store_target : sql.
Hint Resolve no_new_session_preorder on_db_no_new any_no_new : frame.

Lemma save_target_no_new ev rq csrf t s : no_new_session s (save_target ev rq csrf t s).2.
Proof.
  unfold save_target. destruct (read_form rq t) as [t' errs].
  case_decide; [|by apply any_no_new].
  pose proof (on_db_no_new (store_target ev t') s ltac:(auto with sql)) as Hs.
  destruct (on_db _ s) as [[id|[]] s']; try exact Hs.
  unfold no_new_session in *. etransitivity; [exact Hs|].
  apply (reload_frame no_new no_new_session); auto with frame sql.
Qed.

End NoNew.

Variable cfg : Config.
Variable ev : world_in.

(** The name and password of the form are those of the account. *)
Definition credentials (rq : request) (s : Server) : Prop :=
  ∃ a, Schema.admin (sv_db s) = Some a ∧
    sha256 (form_value rq "username") = sha256 (ad_username a) ∧
    Verify (form_value rq "password") (ad_pw_hash a) = Ok true.

(** The limiter grants the attempt to the address, counted as one from a known
    device only if the request carries the token of a stored, live one. *)
Definition within_limit (rq : request) (s : Server) : Prop :=
  ∃ known, granted (Limit.take (sv_limit s) (clientIP cfg rq) (ev_now ev) known).1 = true ∧
    (known = true → ∃ d row, rq_Cookies rq !! dev cfg = Some d ∧
       devices (sv_db s) !! hashToken d = Some row ∧ Unix (ev_now ev) < de_expires row).

(** The form carries the masked token of the login page's cookie. *)
Definition login_form_ok (rq : request) : Prop :=
  ∃ c, rq_Cookies rq !! lcsrf cfg = Some c ∧ validToken (form_value rq "csrf") c = true.

Lemma checkLogin_true user pw s s' :
  checkLogin user pw s = (Ok true, s') →
  ∃ a, Schema.admin (sv_db s) = Some a ∧ sha256 user = sha256 (ad_username a) ∧
    Verify pw (ad_pw_hash a) = Ok true.
Proof.
  unfold checkLogin, on_db. destruct (Admin (sv_world s)) as [r w] eqn:Ha.
  destruct r as [[name hash]|[]]; try done. unfold Admin, found in Ha.
  apply bind_ok in Ha as (o & w1 & [-> _]%query_ok & Ha). unfold sv_db.
  destruct (Schema.admin (w_db (sv_world s))) as [a|]; [|done]. simpl in Ha.
  unfold ret in Ha. simplify_eq. intros Hv. exists a. split; [done|].
  destruct (Verify pw (ad_pw_hash a)) as [ok|]; [|done]. injection Hv as Hv _.
  apply andb_true_iff in Hv as [Hn%ct_equal_true ->]. done.
Qed.

Hint Resolve no_new_TouchSession no_new_DeleteSession no_new_CreateDevice no_new_SetPaused
  no_new_ClosePausedIncident no_new_DeleteTarget no_new_store_target : sql.
Hint Resolve on_db_no_new any_no_new : frame.

Definition no_key (h : string) : Prop := False.

(** Looking up the device changes nothing the decision depends on. *)
Lemma known_device_spec rq s known s1 :
  match rq_Cookies rq !! dev cfg with
  | Some d => on_db (KnownDevice (ev_now ev) d) s
  | None => (Ok false, s)
  end = (Ok known, s1) →
  sv_db s1 = sv_db s ∧ sv_limit s1 = sv_limit s ∧
  (known = true → ∃ d row, rq_Cookies rq !! dev cfg = Some d ∧
     devices (sv_db s) !! hashToken d = Some row ∧ Unix (ev_now ev) < de_expires row).
Proof.
  destruct (rq_Cookies rq !! dev cfg) as [d|]; [|intros [= <- <-]; done].
  unfold on_db. destruct (KnownDevice (ev_now ev) d (sv_world s)) as [r w] eqn:Hk.
  intros [= -> <-]. apply query_ok in Hk as [-> Hw]. unfold sv_db. simpl.
  split_and!; [done|done|]. intros Ht. exists d.
  destruct (devices (w_db (sv_world s)) !! hashToken d) as [row|]; [|done].
  exists row. by apply bool_decide_eq_true in Ht.
Qed.

(** A request to sign in creates no session, or meets all conditions. *)
Lemma attempt_cases rq c s :
  no_new_session no_key s (attempt cfg ev rq c s).2 ∨ within_limit rq s ∧ credentials rq s.
Proof.
  unfold attempt.
  pose proof (known_device_frame (no_new no_key) (no_new_session no_key)
    (λ A, @on_db_no_new no_key A) cfg ev rq s) as Hs1.
  destruct (match rq_Cookies rq !! dev cfg with Some _ => _ | None => _ end) as [[known|e] s1] eqn:Hk;
    simpl in Hs1; [|by left].
  apply known_device_spec in Hk as (Hdb & Hlim & Hkn). rewrite Hlim.
  destruct (Limit.take _ _ _ _) as [[wait first] l] eqn:Ht.
  destruct (decide (0 < wait)) as [Hw|Hw]; [by left|]. destruct (negb (ev_slot ev)); [by left|].
  pose proof (checkLogin_frame (no_new no_key) (no_new_session no_key)
    (λ A, @on_db_no_new no_key A) (form_value rq "username") (form_value rq "password")
    (set_limit l s1)) as Hs2.
  destruct (checkLogin _ _ _) as [[[]|e] s2] eqn:Hc; simpl in Hs2;
    [|left; by transitivity s1..].
  right. apply checkLogin_true in Hc as (a & Ha & Hname & Hpw). split.
  - exists known. rewrite Ht. split; [|done]. unfold granted. by rewrite bool_decide_eq_false_2.
  - exists a. rewrite <-Hdb. done.
Qed.

Lemma login_cases rq s :
  no_new_session no_key s (login cfg ev rq s).2 ∨
  login_form_ok rq ∧ within_limit rq s ∧ credentials rq s.
Proof.
  unfold login. destruct (rq_Form rq); [|by left; apply any_no_new].
  destruct (rq_Cookies rq !! lcsrf cfg) as [c|] eqn:Hc; [|by left; apply any_no_new].
  destruct (validToken _ c) eqn:Hv; [|by left; apply any_no_new].
  destruct (attempt_cases rq c s) as [|[? ?]]; [by left|right]. split_and!; [by exists c|done..].
Qed.

(** Every request, when signing in is known to respect [E]. *)
Lemma serve_no_new E has_mailer has_file rq s :
  (mux cfg rq = RLogin → no_new_session E s (login cfg ev rq s).2) →
  no_new_session E s (serve cfg has_mailer has_file ev rq s).2.
Proof.
  intros Hlogin. apply (serve_frame (no_new E) (no_new_session E)); auto with frame sql.
  intros. by apply save_target_no_new.
Qed.
End NewSessions.

#[local] Hint Resolve valid_SetPaused valid_DeleteTarget valid_TouchSession valid_DeleteSession
  valid_CreateSession valid_CreateDevice valid_ClosePausedIncident : sql.
#[local] Hint Resolve no_new_TouchSession no_new_DeleteSession no_new_CreateDevice no_new_SetPaused
  no_new_ClosePausedIncident no_new_DeleteTarget no_new_store_target : sql.
#[local] Hint Resolve on_db_no_new any_no_new : frame.

(** ** Properties *)

(** C20: whatever requests arrive, every stored target passes
    validation if it did so before: there is no way to store settings that
    [Validate] would refuse. *)
Theorem targets_stay_valid `{!Crypto, !NetLib} cfg has_mailer has_file ev rq s :
  all_valid (sv_db s) → all_valid (sv_db (serve cfg has_mailer has_file ev rq s).2).
Proof.
  apply (serve_frame (keeps_if all_valid) (server_if all_valid)); auto with frame sql.
  - intros. apply save_target_valid.
  - intros _. apply (login_frame (keeps_if all_valid) (server_if all_valid)); auto with frame sql.
Qed.

(** C14: a session that a request leaves behind and
    that was not there before is stored under the token drawn for this
    request, and the request was a form signed with the login cookie, within
    the rate limit of its address, with the name and the password of the
    account. *)
Theorem session_needs_credentials `{!Crypto, !NetLib} cfg has_mailer has_file ev rq s h row :
  sessions (sv_db (serve cfg has_mailer has_file ev rq s).2) !! h = Some row →
  sessions (sv_db s) !! h = None →
  mux cfg rq = RLogin ∧ h = hashToken (ev_sid ev) ∧
  login_form_ok cfg rq ∧ within_limit cfg ev rq s ∧ credentials rq s.
Proof.
  intros Hrow Hnone.
  assert (Hh : h = hashToken (ev_sid ev)).
  { destruct (serve_no_new cfg ev (λ h, h = hashToken (ev_sid ev)) has_mailer has_file rq s) with h row
      as [[r Hr]|]; [|done|congruence|done]. intros _.
    set (E := λ h, h = hashToken (ev_sid ev)).
    apply (login_frame (no_new E) (no_new_session E)); auto with frame sql.
    intros. by apply no_new_CreateSession. }
  assert (Hno : ¬ no_new_session no_key s (serve cfg has_mailer has_file ev rq s).2).
  { intros Hn. destruct (Hn h row Hrow) as [[r Hr]|[]]. congruence. }
  destruct (decide (mux cfg rq = RLogin)) as [Hm|Hm].
  - destruct (login_cases cfg ev rq s) as [Hl|Hl]; [|done].
    exfalso. apply Hno. by apply serve_no_new.
  - exfalso. apply Hno. by apply serve_no_new.
Qed.

(** ** An example: an administrator signs in and creates a target *)

Definition plain_config : Config :=
  mkConfig ":8080" "data/status.db" "" None false [] 30 "" "" 465 "" "" "" [] "" "".

Definition sample_in : world_in :=
  mkIn (1000 * Second) (λ n, repeat 7 n) "drawn" "new-session" "new-csrf" "new-device" true true true.

Definition login_token : string := "abcdefghijklmnopqrstuvwxyz".

Definition sample_post (path : string) (cookies form : gmap string string) : request :=
  mkRequest "POST" path "status.example.org" "" "same-origin" cookies ∅ (Some form)
    "192.0.2.7:4711" [] "" false.

Definition login_request : request :=
  sample_post "/admin/login" {["lcsrf" := login_token]}
    (<["csrf" := mask (repeat 1 26) login_token]> (<["username" := "admin"]>
      {["password" := "correct horse"]})).

Definition with_account : Db :=
  set_admin (λ _, Some (mkAdminRow "admin" (@Hash toy_crypto "correct horse" (repeat 5 16)) 0)) empty_db.

Definition sample_server (db : Db) : Server := newServer (quiet db) (mkMgr ∅ ∅ true).

Lemma session_needs_credentials_witness :
  let s := sample_server with_account in
  let s' := (@serve toy_crypto plain_netlib plain_config false (λ _, false) sample_in login_request s).2 in
  is_Some (sessions (sv_db s') !! @hashToken toy_crypto "new-session") ∧
  @credentials toy_crypto login_request s.
Proof.
  intros s s'.
  destruct (sessions (sv_db s') !! @hashToken toy_crypto "new-session") as [row|] eqn:Hr;
    [|by vm_compute in Hr].
  split; [by exists row|].
  by apply (@session_needs_credentials toy_crypto plain_netlib plain_config false (λ _, false)
    sample_in login_request s _ row Hr).
Defined.

Definition signed_in_db : Db :=
  set_sessions <[@hashToken toy_crypto "tok" := mkSessionRow "secret" 900 40000 990]> empty_db.

Definition create_request : request :=
  sample_post "/admin/ziel/neu" {["sid" := "tok"]}
    (<["csrf" := mask (repeat 9 6) "secret"]> (<["name" := " db "]> (<["kind" := "tcp"]>
      (<["address" := "db.example.org:5432"]> (<["interval_s" := "60"]> (<["timeout_ms" := "5000"]>
        {["fail_threshold" := "2"]})))))).

Lemma targets_stay_valid_witness :
  let s' := (@serve toy_crypto plain_netlib plain_config false (λ _, false) sample_in create_request
              (sample_server signed_in_db)).2 in
  ∃ t, targets (sv_db s') !! 1 = Some t ∧ Name t = "db" ∧ @valid_target plain_netlib t.
Proof.
  intros s'. destruct (targets (sv_db s') !! 1) as [t|] eqn:Ht; [|by vm_compute in Ht].
  exists t. split; [done|]. split; [vm_compute in Ht; by injection Ht as <-|].
  apply (@targets_stay_valid toy_crypto plain_netlib plain_config false (λ _, false) sample_in
    create_request (sample_server signed_in_db)) with (id := 1); [|exact Ht].
  intros id u Hu. change ((∅ : gmap Z Target) !! id = Some u) in Hu. by rewrite lookup_empty in Hu.
Defined.
