(* ===== verification/Clients.v ===== *)
(** * Who a login attempt is counted under (internal/web/limit.go)

    [clientIP] turns the address behind a request into the key of the limiter.
    Proved is that the key stands for exactly one client, an IPv4 address or an
    IPv6 network of 64 bits, and that only the trusted proxy may name another
    client than itself. *)

From S2P Require Import Prelude Text Netip AddrText GoTime Config Server Admission.

(** ** The specification *)

(** The address a connection comes from. *)
Definition remote (rq : request) : option Addr :=
  let host := match SplitHostPort (rq_RemoteAddr rq) with
              | Some (host, _) => host
              | None => rq_RemoteAddr rq
              end in
  WithoutZone ∘ Unmap <$> ParseAddr host.

(** The address the trusted proxy says it forwards for. *)
Definition said (rq : request) : option Addr :=
  xff ← last (rq_XFF rq);
  WithoutZone ∘ Unmap <$> ParseAddr (TrimSpace (last_element xff)).

(** The client: the remote address, unless that is the trusted proxy's and it
    names another one. *)
Definition client_of (cfg : Config) (rq : request) : option Addr :=
  a ← remote rq;
  if from_option (λ p, Contains p a) false (cf_TrustedProxy cfg)
  then Some (default a (said rq)) else Some a.

(** The same IPv4 address, or the same IPv6 network of 64 bits. *)
Definition same_client (a a' : Addr) : Prop :=
  match a, a' with
  | Addr4 b, Addr4 b' => b = b'
  | Addr6 b _, Addr6 b' _ => b / 2 ^ 64 = b' / 2 ^ 64
  | _, _ => False
  end.

(** [rq] without its X-Forwarded-For headers. *)
Definition bare (rq : request) : request :=
  mkRequest (rq_Method rq) (rq_Path rq) (rq_Host rq) (rq_Origin rq) (rq_SecFetchSite rq)
    (rq_Cookies rq) (rq_Query rq) (rq_Form rq) (rq_RemoteAddr rq) [] (rq_Authorization rq)
    (rq_Canceled rq).

(** ** Lemmas *)

Lemma clientIP_key cfg rq a : client_of cfg rq = Some a → clientIP cfg rq = key_of a.
Proof.
  unfold client_of, clientIP, remote. intros (ip & Hip & Ha)%bind_Some. cbv zeta in *.
  destruct (ParseAddr _) as [ip0|]; [|done]. injection Hip as <-. f_equal. unfold forwarded, compose in *.
  destruct (cf_TrustedProxy cfg) as [p|]; simpl in Ha; [|congruence]. unfold said in Ha.
  destruct (last (rq_XFF rq)) as [xff|]; simpl in Ha.
  - destruct (Contains p _); [|congruence]. destruct (ParseAddr (TrimSpace _)); simpl in Ha; congruence.
  - destruct (Contains p _); congruence.
Qed.

(** What [Unmap] and [WithZone("")] leave: an IPv4 address, or an IPv6 one that
    is not mapped and has no zone. *)
Definition plain_addr (a : Addr) : Prop :=
  valid_addr a ∧ Is4In6 a = false ∧ Zone a = "".

Lemma unmapped_plain a : valid_addr a → plain_addr (WithoutZone (Unmap a)).
Proof.
  destruct a as [|b|b z]; intros Ha; [done|done|].
  unfold Unmap. destruct (Is4In6 (Addr6 b z)) eqn:Hm; [|done].
  split_and!; [|done..]. simpl. by apply Z.mod_pos_bound.
Qed.

Lemma client_plain cfg rq a : client_of cfg rq = Some a → plain_addr a.
Proof.
  assert (∀ s x, (WithoutZone ∘ Unmap <$> ParseAddr s) = Some x → plain_addr x) as Hp.
  { intros s x (y & Hy & ->)%fmap_Some. by eapply unmapped_plain, ParseAddr_ok. }
  unfold client_of. intros (ip & Hip%Hp & Ha)%bind_Some.
  destruct (from_option _ _ _); [|congruence]. injection Ha as <-.
  unfold said. destruct (_ ≫= _) as [x|] eqn:Hx; [|done].
  apply bind_Some in Hx as (xff & _ & Hx). by apply Hp in Hx.
Qed.

Lemma network_ok b : 0 ≤ b < 2 ^ 128 → valid_addr (Addr6 (b / 2 ^ 64 * 2 ^ 64) "").
Proof. intros Hb. simpl. pose proof (Z.div_mod b (2 ^ 64)). pose proof (Z.mod_pos_bound b (2 ^ 64)).
  assert (0 ≤ b / 2 ^ 64) by (apply Z.div_pos; lia). lia.
Qed.

(** The text of a network ends in its length, that of an IPv4 address does not. *)
Lemma key_of_spec a a' : plain_addr a → plain_addr a' → key_of a = key_of a' ↔ same_client a a'.
Proof.
  intros (Ha & _ & Hz) (Ha' & _ & Hz').
  assert (∀ b b', AddrString (Addr4 b) ≠ AddrString (Addr6 b' "") +:+ "/64") as Hdiff.
  { intros b b' E%(f_equal bytes). rewrite bytes_app in E. unfold AddrString in E.
    rewrite (bytes_of_bytes (v4_text b)) in E by apply v4_text_bytes.
    assert (47 ∈ v4_text b) as Hin. { rewrite E. apply elem_of_app. right. left. }
    apply v4_text_hex_dot in Hin. unfold is_hex in Hin. lia. }
  destruct a as [|b|b z], a' as [|b'|b' z']; try done; simpl in Hz, Hz'; simpl key_of; simpl same_client.
  - split; [|by intros ->]. intros E. apply AddrString_inj in E; [congruence|done..].
  - split; [|done]. intros E. by apply Hdiff in E.
  - split; [|done]. intros E. by apply symmetry, Hdiff in E.
  - split; [|by intros ->]. intros E%(f_equal bytes). rewrite !bytes_app in E.
    apply app_inv_tail, bytes_inj, AddrString_inj in E; [|by apply network_ok..].
    injection E as E. lia.
Qed.

(** ** Properties *)

(** C16: two requests with a readable remote address are counted
    under the same key exactly if they come from the same client, an IPv4
    address or an IPv6 network of 64 bits, in whatever notation the addresses
    were given; and a request whose remote address is not the trusted proxy's
    is counted as if it had no X-Forwarded-For header. *)
Theorem client_key cfg rq rq' a a' :
  client_of cfg rq = Some a → client_of cfg rq' = Some a' →
  (clientIP cfg rq = clientIP cfg rq' ↔ same_client a a') ∧
  (∀ r p, remote rq = Some r → cf_TrustedProxy cfg = Some p → Contains p r = false →
    clientIP cfg rq = clientIP cfg (bare rq)).
Proof.
  intros Ha Ha'. split.
  - rewrite (clientIP_key _ _ _ Ha), (clientIP_key _ _ _ Ha').
    apply key_of_spec; by eapply client_plain.
  - intros r p Hr Hp Hc. rewrite (clientIP_key _ _ _ Ha). symmetry. apply clientIP_key.
    change (remote rq) with (remote (bare rq)) in Hr. unfold client_of in *.
    change (remote rq) with (remote (bare rq)) in Ha. rewrite Hr, Hp in *. simpl in *. by rewrite Hc in *.
Qed.

Lemma client_key_witness :
  let from addr xff :=
    mkRequest "POST" "/admin/login" "status.example.org" "" "" ∅ ∅ None addr xff "" false in
  let a := from "[2001:db8::1]:4711" ["198.51.100.9"] in
  let b := from "[2001:DB8:0:0:1::2]:80" [] in
  client_of plain_config a = Some (Addr6 42540766411282592856903984951653826561 "") ∧
  clientIP plain_config a = "2001:db8::/64" ∧ clientIP plain_config a = clientIP plain_config b.
Proof.
  intros from a b.
  assert (client_of plain_config a = Some (Addr6 42540766411282592856903984951653826561 "")) as Ha
    by (vm_compute; reflexivity).
  assert (client_of plain_config b = Some (Addr6 42540766411282592856904266426630537218 "")) as Hb
    by (vm_compute; reflexivity).
  split; [done|]. split; [by vm_compute|].
  apply (proj1 (client_key plain_config a b _ _ Ha Hb)). by vm_compute.
Defined.
