(* ===== verification/Guessing.v ===== *)
(** * Guessing the password (internal/web/limit.go, admin.go)

    The limits of [Limit], which speak of calls of the limiter, carried
    through the whole handler [serve]: how many guesses at the password the
    server answers in fifteen minutes, over any sequence of requests to any
    of its routes. *)

From S2P Require Import Prelude Text Netip GoTime Sql Schema WellFormed Crypto Targets Checks.
From S2P Require Import Incidents Sessions Csrf Password Runner Scheduler Limit Validate Config.
From S2P Require Import Pages Server Handlers Guard Admission.

(** The reply that tells a client that its name or password is wrong. *)
Definition wrong_password (o : output) : bool :=
  match o_reply o with Shown 401 (PLogin _ _ _) => true | _ => false end.

(** The calls of the limiter one request makes: none, a refused or granted
    attempt, or an attempt given back after the right password ([cred]). *)
Inductive calls (ip : string) (now : Time) (known : bool) (cred : Prop) (l : limiter) :
    list login_op → bool → limiter → Prop :=
  | calls_none : calls ip now known cred l [] false l
  | calls_take b : (b = true → granted (take l ip now known).1 = true) →
      calls ip now known cred l [Take ip now known] b (take l ip now known).2
  | calls_forgive : cred →
      calls ip now known cred l [Take ip now known; Forgive ip] false
        (forgive (take l ip now known).2 ip).

(** ** Only signing in answers a guess *)

Section Replies.
Context `{!Crypto, !NetLib}.

Lemma fail_no_verdict rq e : wrong_password (fail rq e) = false.
Proof. unfold fail. destruct e; simpl; try done; by destruct (rq_Canceled rq). Qed.

Ltac no_verdict := repeat (case_match; simplify_eq/=); try apply fail_no_verdict; try done.

Lemma body_no_verdict b : wrong_password (plain (show_body b)) = false.
Proof. by destruct b. Qed.

Lemma fromCache_no_verdict now rq key build s :
  wrong_password (fromCache now rq key build show_body s).1 = false.
Proof.
  unfold fromCache.
  repeat (case_match; simplify_eq/=); auto using body_no_verdict, fail_no_verdict.
Qed.

Lemma target_no_verdict rq id s o s' : target rq id s = (inl o, s') → wrong_password o = false.
Proof. unfold target. no_verdict; intros; simplify_eq; no_verdict. Qed.

Lemma admin_no_verdict cfg ev rq h s :
  (∀ csrf s, wrong_password (h csrf s).1 = false) →
  wrong_password (Handlers.admin cfg ev rq h s).1 = false.
Proof. intros Hh. unfold Handlers.admin. no_verdict; apply Hh. Qed.

Lemma save_target_no_verdict ev rq csrf t s : wrong_password (save_target ev rq csrf t s).1 = false.
Proof. unfold save_target. no_verdict. Qed.

Lemma signed_in_no_verdict cfg ev rq known s : wrong_password (signed_in cfg ev rq known s).1 = false.
Proof. unfold signed_in. no_verdict. Qed.

Lemma serve_no_verdict cfg has_mailer has_file ev rq s :
  mux cfg rq ≠ RLogin → wrong_password (serve cfg has_mailer has_file ev rq s).1 = false.
Proof.
  intros Hm. unfold serve. destruct (cross_origin_ok rq); [|done].
  unfold dispatch. destruct (mux cfg rq) eqn:E; try done;
    try (apply admin_no_verdict; intros csrf s0).
  - apply fromCache_no_verdict.
  - unfold detail. no_verdict.
  - apply fromCache_no_verdict.
  - unfold healthz. no_verdict.
  - unfold metrics. no_verdict.
  - unfold static. no_verdict.
  - unfold loginForm. no_verdict.
  - unfold logout. no_verdict.
  - unfold list_targets. no_verdict.
  - done.
  - apply save_target_no_verdict.
  - unfold editForm. no_verdict; by eapply target_no_verdict.
  - unfold save. no_verdict; first [by eapply target_no_verdict|apply save_target_no_verdict].
  - unfold pause. no_verdict; by eapply target_no_verdict.
  - unfold checkNow. no_verdict; by eapply target_no_verdict.
  - unfold remove. no_verdict.
  - unfold testMail. no_verdict.
Qed.
End Replies.

(** ** What a request does to the limiter and the account *)

(** The limiter, or the account, is the same afterwards. *)
Definition same_limit (s s' : Server) : Prop := sv_limit s' = sv_limit s.
Definition same_account (s s' : Server) : Prop := Schema.admin (sv_db s') = Schema.admin (sv_db s).

#[export] Instance same_limit_preorder : PreOrder same_limit.
Proof. unfold same_limit. split; [done|]. intros s1 s2 s3. congruence. Qed.

#[export] Instance same_account_preorder : PreOrder same_account.
Proof. unfold same_account. split; [done|]. intros s1 s2 s3. congruence. Qed.

(** No condition on the database. *)
Definition any_db (d db : Db) : Prop := True.
Definition account_is (d db : Db) : Prop := Schema.admin db = Schema.admin d.

Lemma keeps_any_db d {A} (m : M Db A) : keeps (any_db d) m.
Proof. by intros w _. Qed.

Lemma on_db_limit {A} (m : M Db A) s : same_limit s (on_db m s).2.
Proof. unfold same_limit, on_db. by destruct (m (sv_world s)). Qed.

Lemma on_db_account {A} (m : M Db A) s :
  (∀ d, keeps (account_is d) m) → same_account s (on_db m s).2.
Proof.
  intros Hm. specialize (Hm (sv_db s) (sv_world s)). unfold same_account, on_db.
  destruct (m (sv_world s)) as [r w]. unfold sv_db in *. simpl in *. by apply Hm.
Qed.

Lemma any_limit s s' : sv_limit s' = sv_limit s → same_limit s s'.
Proof. done. Qed.

Lemma any_account s s' : sv_db s' = sv_db s → same_account s s'.
Proof. unfold same_account. by intros ->. Qed.

#[local] Hint Resolve same_limit_preorder keeps_any_db on_db_limit any_limit : frame.
#[local] Hint Resolve same_account_preorder on_db_account any_account : frame.

Section Calls.
Context `{!Crypto, !NetLib} (cfg : Config) (has_mailer : bool) (has_file : string → bool).

Lemma save_target_limit ev rq csrf t s : same_limit s (save_target ev rq csrf t s).2.
Proof.
  unfold save_target. destruct (read_form rq t) as [t' errs]. case_decide; [|done].
  pose proof (on_db_limit (store_target ev t') s) as Hs.
  destruct (on_db _ s) as [[id|[]] s']; try exact Hs. etransitivity; [exact Hs|].
  apply (reload_frame any_db same_limit); auto with frame.
Qed.

Lemma serve_same_limit ev rq s :
  mux cfg rq ≠ RLogin → same_limit s (serve cfg has_mailer has_file ev rq s).2.
Proof.
  intros Hm. apply (serve_frame any_db same_limit); auto with frame; [|done].
  intros. apply save_target_limit.
Qed.
End Calls.

(** ** The account stays what it is *)

Section Account.
Context `{!Crypto, !NetLib}.

Lemma account_stmt {A} d (f : Db → res sqlerr (A * Db)) :
  (∀ db a db', f db = Ok (a, db') → Schema.admin db' = Schema.admin db) →
  keeps (account_is d) (stmt f).
Proof. intros Hf. apply keeps_stmt. intros db a db' Hd He%Hf. unfold account_is. congruence. Qed.

Ltac keeps_account := intros ? ? ?; cbv zeta; repeat case_match; intros; by simplify_eq.

Lemma account_TouchSession d now token : keeps (account_is d) (TouchSession now token).
Proof. apply keeps_affected, account_stmt. keeps_account. Qed.

Lemma account_DeleteSession d token : keeps (account_is d) (DeleteSession token).
Proof. apply account_stmt. keeps_account. Qed.

Lemma account_CreateSession d now token csrf : keeps (account_is d) (CreateSession now token csrf).
Proof. apply keeps_bind; [|auto with sql]. apply account_stmt. keeps_account. Qed.

Lemma account_CreateDevice d now token : keeps (account_is d) (CreateDevice now token).
Proof. apply keeps_bind; [|auto with sql]. apply account_stmt. keeps_account. Qed.

Lemma account_SetPaused d now id p : keeps (account_is d) (SetPaused now id p).
Proof. apply keeps_affected, account_stmt. keeps_account. Qed.

Lemma account_ClosePausedIncident d now id : keeps (account_is d) (ClosePausedIncident now id).
Proof. apply account_stmt. keeps_account. Qed.

Lemma account_DeleteTarget d id : keeps (account_is d) (DeleteTarget id).
Proof. apply keeps_affected, account_stmt. keeps_account. Qed.

Lemma account_store_target d ev t : keeps (account_is d) (store_target ev t).
Proof.
  unfold store_target. case_decide; [apply account_stmt; keeps_account|].
  apply keeps_bind; [|auto with sql]. apply keeps_affected, account_stmt. keeps_account.
Qed.

#[local] Hint Resolve account_TouchSession account_DeleteSession account_CreateSession
  account_CreateDevice account_SetPaused account_ClosePausedIncident account_DeleteTarget
  account_store_target : sql.

Lemma save_target_account ev rq csrf t s : same_account s (save_target ev rq csrf t s).2.
Proof.
  unfold save_target. destruct (read_form rq t) as [t' errs].
  case_decide; [|by apply any_account].
  pose proof (on_db_account (store_target ev t') s ltac:(auto with sql)) as Hs.
  destruct (on_db _ s) as [[id|[]] s']; try exact Hs. etransitivity; [exact Hs|].
  apply (reload_frame account_is same_account); auto with frame sql.
Qed.

Lemma serve_same_account cfg has_mailer has_file ev rq s :
  same_account s (serve cfg has_mailer has_file ev rq s).2.
Proof.
  apply (serve_frame account_is same_account); auto with frame sql.
  - intros. apply save_target_account.
  - intros _. apply (login_frame account_is same_account); auto with frame sql.
Qed.

(** ** What signing in asks of the limiter *)

Lemma checkLogin_limit user pw s : same_limit s (checkLogin user pw s).2.
Proof. apply (checkLogin_frame any_db same_limit); auto with frame. Qed.

Lemma signed_in_limit cfg ev rq known s : same_limit s (signed_in cfg ev rq known s).2.
Proof. apply (signed_in_frame any_db same_limit); auto with frame. Qed.

Lemma credentials_account rq s s' :
  Schema.admin (sv_db s') = Schema.admin (sv_db s) → credentials rq s' → credentials rq s.
Proof. unfold credentials. by intros ->. Qed.

Lemma attempt_calls cfg ev rq c s :
  ∃ known ops,
    (rq_Cookies rq !! dev cfg = None → known = false) ∧
    calls (clientIP cfg rq) (ev_now ev) known (credentials rq s) (sv_limit s) ops
      (wrong_password (attempt cfg ev rq c s).1) (sv_limit (attempt cfg ev rq c s).2).
Proof.
  unfold attempt. pose proof (known_device_frame any_db same_limit (λ A m s _, on_db_limit m s) cfg ev rq s) as Hs1.
  destruct (match rq_Cookies rq !! dev cfg with Some _ => _ | None => _ end) as [[known|e] s1] eqn:Hk;
    simpl in Hs1.
  2: { exists false, []. split; [done|]. simpl. rewrite fail_no_verdict, Hs1. constructor. }
  apply known_device_spec in Hk as (Hdb & Hlim & Hkn). exists known. rewrite Hlim.
  assert (Hnone : rq_Cookies rq !! dev cfg = None → known = false).
  { intros Hn. destruct known; [|done]. destruct Hkn as (d & row & Hd & _); [done|congruence]. }
  set (l := sv_limit s). set (ip := clientIP cfg rq).
  destruct (Limit.take l ip (ev_now ev) known) as [[wait first] l'] eqn:Ht.
  assert (Hl : l' = (Limit.take l ip (ev_now ev) known).2) by by rewrite Ht.
  assert (Htake : ∀ b, (b = true → ¬ 0 < wait) →
    calls ip (ev_now ev) known (credentials rq s) l [Take ip (ev_now ev) known] b l').
  { intros b Hb. rewrite Hl. constructor. intros Hb'. rewrite Ht. unfold granted.
    rewrite bool_decide_eq_false_2; [done|]. simpl. auto. }
  destruct (decide (0 < wait)) as [Hw|Hw]; [eexists; split; [done|]; by apply Htake|].
  destruct (negb (ev_slot ev)); [eexists; split; [done|]; by apply Htake|].
  pose proof (checkLogin_limit (form_value rq "username") (form_value rq "password")
    (set_limit l' s1)) as Hs2. unfold same_limit in Hs2. simpl in Hs2.
  destruct (checkLogin _ _ _) as [[[]|e] s2] eqn:Hc; simpl in Hs2.
  - eexists. split; [done|]. rewrite signed_in_no_verdict, signed_in_limit. simpl.
    rewrite Hs2, Hl. apply calls_forgive.
    apply checkLogin_true in Hc. eapply (credentials_account rq s); [|exact Hc].
    unfold sv_db in Hdb |- *. simpl. by rewrite Hdb.
  - eexists; split; [done|]. simpl. rewrite Hs2. by apply Htake.
  - eexists; split; [done|]. simpl. rewrite Hs2, fail_no_verdict. by apply Htake.
Qed.

Lemma serve_calls cfg has_mailer has_file ev rq s :
  ∃ known ops,
    (rq_Cookies rq !! dev cfg = None → known = false) ∧
    calls (clientIP cfg rq) (ev_now ev) known (credentials rq s) (sv_limit s) ops
      (wrong_password (serve cfg has_mailer has_file ev rq s).1)
      (sv_limit (serve cfg has_mailer has_file ev rq s).2).
Proof.
  assert (Hnone : ∀ o s', wrong_password o = false → same_limit s s' → ∃ known ops,
    (rq_Cookies rq !! dev cfg = None → known = false) ∧
    calls (clientIP cfg rq) (ev_now ev) known (credentials rq s) (sv_limit s) ops
      (wrong_password o) (sv_limit s')).
  { intros o s' -> ->. exists false, []. split; [done|]. constructor. }
  destruct (decide (mux cfg rq = RLogin)) as [Hm|Hm].
  2: { apply Hnone; [by apply serve_no_verdict|by apply serve_same_limit]. }
  unfold serve. destruct (cross_origin_ok rq); [|by apply Hnone].
  unfold dispatch. rewrite Hm. unfold login.
  destruct (rq_Form rq); [|by apply Hnone].
  destruct (rq_Cookies rq !! lcsrf cfg) as [c|]; [|by apply Hnone].
  destruct (validToken _ c); [apply attempt_calls|by apply Hnone].
Qed.
End Account.

(** ** Histories of requests *)

Section History.
Context `{!Crypto, !NetLib} (cfg : Config) (has_mailer : bool) (has_file : string → bool).

(** A request with what the outside supplies while it is served. *)
Definition arrival : Type := world_in * request.

Definition arrived (e : arrival) : Time := ev_now e.1.

(** The times at which a request that meets [p] is told that its password is
    wrong, while the server works through the requests [es]. *)
Fixpoint told (p : request → bool) (es : list arrival) (s : Server) : list Time :=
  match es with
  | [] => []
  | (ev, rq) :: es =>
      let '(o, s') := serve cfg has_mailer has_file ev rq s in
      if wrong_password o && p rq then ev_now ev :: told p es s' else told p es s'
  end.

(** The requests that carry the credentials of the account. *)
Definition signs_in (s : Server) (p : request → bool) (es : list arrival) : Prop :=
  ∃ e, e ∈ es ∧ p e.2 = true ∧ credentials e.2 s.

(** What [calls] adds to a history of the limiter. *)
Lemma calls_run ip now known cred ops new b l' q :
  calls ip now known cred (run_ops ops).1 new b l' →
  (run_ops (ops ++ new)).1 = l' ∧
  (new ≠ [] → op_times new = [now]) ∧ (new = [] → b = false) ∧
  (∀ j, Forgive j ∈ new → j = ip ∧ cred) ∧ (forgives new ≠ 0 → cred) ∧
  ∃ added, times_of q (run_ops (ops ++ new)).2 = added ++ times_of q (run_ops ops).2 ∧
    (b = true → q (mkGrant ip now known) = true → added = [now]).
Proof.
  intros Hc. destruct Hc as [|b Hb|Hcred].
  - rewrite app_nil_r. split_and!; try done; [by intros j ?%not_elem_of_nil|]. by exists [].
  - rewrite run_ops_snoc. destruct (run_ops ops) as [l log]. simpl in *.
    destruct (take l ip now known) as [r l']. simpl in *. split_and!; try done.
    { intros j Hj. by apply list_elem_of_singleton in Hj. }
    destruct (granted r); [|exists []; split; [done|]; intros Ht; by specialize (Hb Ht)].
    rewrite times_of_cons. destruct (q _); [by exists [now]|by exists []].
  - rewrite (app_assoc _ [_] [_] : ops ++ [_; _] = (ops ++ [_]) ++ [_]), !run_ops_snoc.
    destruct (run_ops ops) as [l log]. simpl in *.
    destruct (take l ip now known) as [r l']. simpl in *. split_and!; try done.
    { intros j [?|Hj%list_elem_of_singleton]%elem_of_cons; [done|]. by injection Hj as ->. }
    destruct (granted r); [|by exists []].
    rewrite times_of_cons. destruct (q _); [by exists [now]|by exists []].
Qed.
Lemma op_times_app ops new : op_times (ops ++ new) = op_times ops ++ op_times new.
Proof. apply omap_app. Qed.

(** Leaving out an instant keeps a sequence sorted. *)
Lemma sorted_without (l1 l2 : list Time) x :
  StronglySorted Z.le (l1 ++ x :: l2) → StronglySorted Z.le (l1 ++ l2).
Proof. rewrite !StronglySorted_app, StronglySorted_cons. set_solver. Qed.

Lemma sorted_run ops new now (rest : list Time) :
  (new ≠ [] → op_times new = [now]) →
  StronglySorted Z.le (zeroTime :: op_times ops ++ now :: rest) →
  StronglySorted Z.le (zeroTime :: op_times (ops ++ new) ++ rest).
Proof.
  intros Hnew Hs. rewrite op_times_app. destruct new as [|o new].
  - rewrite app_nil_r. apply (sorted_without (zeroTime :: _) _ now Hs).
  - rewrite Hnew by done. by rewrite <-app_assoc.
Qed.

Lemma signs_in_later s s' p e es :
  same_account s s' → signs_in s' p es → signs_in s p (e :: es).
Proof.
  intros Ha (e' & Hin & Hp & Hc). exists e'. split_and!; [by right|done|].
  by apply (credentials_account _ _ s').
Qed.

(** The calls of a history of requests, and the guesses it answers. *)
Lemma told_granted p q es : ∀ ops s,
  (∀ rq now known, (rq_Cookies rq !! dev cfg = None → known = false) → p rq = true →
     q (mkGrant (clientIP cfg rq) now known) = true) →
  sv_limit s = (run_ops ops).1 →
  StronglySorted Z.le (zeroTime :: op_times ops ++ (arrived <$> es)) →
  ∃ new, clock_ok (ops ++ new) ∧
    (∀ j, Forgive j ∈ new → signs_in s (λ rq, bool_decide (clientIP cfg rq = j)) es) ∧
    (forgives new ≠ 0 → signs_in s (λ _, true) es) ∧
    ∀ a, count (in_period a) (told p es s) + count (in_period a) (times_of q (run_ops ops).2) ≤
      count (in_period a) (times_of q (run_ops (ops ++ new)).2).
Proof.
  induction es as [|[ev rq] es IH]; intros ops s Hpq Hlim Hs.
  { exists []. rewrite !app_nil_r in *. split_and!; try done. by intros j ?%not_elem_of_nil. }
  pose proof (serve_same_account cfg has_mailer has_file ev rq s) as Hacc.
  destruct (serve_calls cfg has_mailer has_file ev rq s) as (known & ops1 & Hknown & Hc).
  cbn [told]. destruct (serve cfg has_mailer has_file ev rq s) as [o s'] eqn:He. cbn [fst snd] in *.
  rewrite Hlim in Hc.
  destruct (calls_run _ _ _ _ ops _ _ _ q Hc) as (Hl & Hone & Hnil & Hforg & Hany & added & Hts & Hadd).
  destruct (IH (ops ++ ops1) s' Hpq) as (new & Hck & Hf & Hn & Hcount); [done| |].
  { by apply (sorted_run _ _ (ev_now ev)). }
  exists (ops1 ++ new). rewrite !app_assoc. split_and!; [done| | |].
  - intros j [Hj|Hj]%elem_of_app.
    + destruct (Hforg j Hj) as [-> Hcred]. exists (ev, rq). split; [by left|].
      split; [by apply bool_decide_eq_true|done].
    + by eapply signs_in_later; [|apply Hf].
  - unfold forgives. rewrite count_app. intros Hz.
    destruct (decide (forgives ops1 = 0)) as [Hzero|Hsome].
    2: { exists (ev, rq). split; [by left|]. split; [done|by apply Hany]. }
    eapply signs_in_later; [done|]. apply Hn. unfold forgives in *. lia.
  - intros a. specialize (Hcount a). rewrite Hts, count_app in Hcount.
    pose proof (count_bounds (in_period a) added) as Hb.
    destruct (wrong_password o && p rq) eqn:Hwp; [|lia].
    apply andb_true_iff in Hwp as [Hw Hp]. rewrite (Hadd Hw) in Hcount by by apply Hpq.
    unfold count in *. simpl in *. lia.
Qed.
End History.

(** ** Properties *)

(** C15: from its start, whatever requests to whatever routes the server
    handles, a client address none of whose requests carries the right name
    and password is told in at most ten replies of any fifteen minutes that
    its guess is wrong; and if nobody signs in, all requests without a device
    cookie together, from any number of addresses, get at most sixty such
    replies.  No other reply of the server judges a password. *)
Theorem guesses_bounded `{!Crypto, !NetLib} cfg has_mailer has_file es s ip a :
  let from_ip rq := bool_decide (clientIP cfg rq = ip) in
  let no_device rq := bool_decide (rq_Cookies rq !! dev cfg = None) in
  sv_limit s = newLimiter → StronglySorted Z.le (zeroTime :: (arrived <$> es)) →
  (¬ signs_in s from_ip es →
     count (in_period a) (told cfg has_mailer has_file from_ip es s) ≤ 2 * loginPerIP) ∧
  (¬ signs_in s (λ _, true) es →
     count (in_period a) (told cfg has_mailer has_file no_device es s) ≤ 2 * loginGlobal).
Proof.
  intros from_ip no_device Hl Hs. split; intros Hno.
  - destruct (told_granted cfg has_mailer has_file from_ip (of_ip ip) es [] s)
      as (new & Hck & Hf & _ & Hc); [done..|].
    specialize (Hc a). destruct (login_rates new ip a Hck) as (Hr & _).
    unfold count in *. simpl in *. specialize (Hr ltac:(intros Hin; by apply Hno, Hf)). lia.
  - destruct (told_granted cfg has_mailer has_file no_device unknown es [] s)
      as (new & Hck & _ & Hn & Hc); [|done..|].
    { intros rq now known Hk Hp%bool_decide_eq_true. unfold unknown. simpl. by rewrite Hk. }
    specialize (Hc a). destruct (login_rates new ip a Hck) as (_ & Hr & _).
    assert (forgives new = 0) as Hzero by (destruct (decide (forgives new = 0)); [done|by apply Hno in Hn]).
    rewrite Hzero in Hr. unfold count in *. simpl in *. lia.
Qed.

(** ** An example: seven guesses from one address *)

Definition guess : request :=
  sample_post "/admin/login" {["lcsrf" := login_token]}
    (<["csrf" := mask (repeat 1 26) login_token]> (<["username" := "admin"]>
      {["password" := "battery staple"]})).

Lemma guess_wrong : ¬ @credentials toy_crypto guess (sample_server with_account).
Proof.
  intros (acc & Ha & _ & Hv). change (Some (mkAdminRow "admin"
    (@Hash toy_crypto "correct horse" (repeat 5 16)) 0) = Some acc) in Ha.
  injection Ha as <-. by vm_compute in Hv.
Qed.

Lemma guesses_bounded_witness :
  let es := repeat (sample_in, guess) 7 in
  let s := sample_server with_account in
  let from_ip rq := bool_decide (clientIP plain_config rq = "192.0.2.7") in
  let told := @told toy_crypto plain_netlib plain_config false (λ _, false) from_ip es s in
  length told = 5%nat ∧ count (in_period (1000 * Second)) told ≤ 10.
Proof.
  intros es s from_ip told. split; [by vm_compute|].
  destruct (@guesses_bounded toy_crypto plain_netlib plain_config false (λ _, false) es s
    "192.0.2.7" (1000 * Second)) as [H _]; [done|by repeat constructor; vm_compute|].
  apply H. intros (e & Hin & _ & Hc). unfold es in Hin. apply list_elem_of_In, repeat_spec in Hin as ->.
  by apply guess_wrong.
Defined.
