(* ===== verification/Response.v ===== *)
(** * What goes over the wire (internal/web/server.go, render.go, public.go, admin.go)

    The response to a request: the headers the middleware sets on everything,
    those of the single replies, the cookies as they are written, and the text
    of the metrics.  The bodies of pages and of the API come out of
    html/template and encoding/json and are left out, with Content-Length. *)

From S2P Require Import Prelude Text Netip GoTime Sql Schema Crypto Runner Scheduler.
From S2P Require Import Validate Config Pages Server Handlers Admission.

Definition csp : string :=
  "default-src 'none'; script-src 'self'; style-src 'self'; img-src 'self'; connect-src 'self'; " +:+
  "form-action 'self'; base-uri 'none'; frame-ancestors 'none'".

(** [headers]: set before anything else runs. *)
Definition fixed_headers : gmap string string :=
  list_to_map
    [("Content-Security-Policy", csp);
     ("X-Frame-Options", "DENY");
     ("X-Content-Type-Options", "nosniff");
     ("Referrer-Policy", "same-origin");
     ("Cross-Origin-Opener-Policy", "same-origin");
     ("Permissions-Policy", "camera=(), microphone=(), geolocation=(), payment=(), usb=()")].

Definition headers (p : string) : gmap string string :=
  match cache_control p with
  | Some v => <["Cache-Control" := v]> fixed_headers
  | None => fixed_headers
  end.

(** [Header.Set] in order. *)
Definition set_headers (l : list (string * string)) (h : gmap string string) : gmap string string :=
  foldl (λ h kv, <[kv.1 := kv.2]> h) h l.

(** The text of a [Set-Cookie]; an empty Max-Age is none, a negative one ends
    the cookie. *)
Definition cookie_text (secure : bool) (c : cookie) : string :=
  ck_Name c +:+ "=" +:+ ck_Value c +:+ "; Path=/" +:+
  (if decide (0 < ck_MaxAge c) then "; Max-Age=" +:+ itoa (ck_MaxAge c)
   else if decide (ck_MaxAge c < 0) then "; Max-Age=0" else "") +:+
  "; HttpOnly" +:+ (if secure then "; Secure" else "") +:+
  match ck_SameSite c with Lax => "; SameSite=Lax" | Strict => "; SameSite=Strict" end.

Record response : Type := mkResponse {
  rs_code : Z;
  rs_headers : gmap string string;
  rs_cookies : list string;
  rs_text : option string;
}.

(** ** The metrics (public.go) *)

(** [strconv.FormatFloat(float64(ms)/1000, 'f', -1, 64)]: the shortest decimal
    that reads as this quotient is the one with the thousandths of [ms],
    without zeros at the end. *)
Fixpoint drop_zeros (l : list ascii) : list ascii :=
  match l with
  | c :: l' => if decide (c = "0"%char) then drop_zeros l' else l
  | [] => []
  end.

Definition thousandth_digits (r : Z) : list ascii :=
  [digit_char (r / 100); digit_char (r / 10 mod 10); digit_char (r mod 10)].

Definition seconds_text (ms : Z) : string :=
  let a := Z.abs ms in
  let frac := reverse (drop_zeros (reverse (thousandth_digits (a mod 1000)))) in
  (if decide (ms < 0) then "-" else "") +:+ itoa (a / 1000) +:+
  match frac with [] => "" | _ => "." +:+ String.string_of_list_ascii frac end.

Definition quote : string := of_bytes [34].
Definition newline : string := of_bytes [10].

Definition label (name value : string) : string := name +:+ "=" +:+ quote +:+ value +:+ quote.

Definition up_line (m : metric) : string :=
  "dmn_status_up{" +:+ label "target" (me_Name m) +:+ "," +:+ label "kind" (me_Kind m) +:+ "} " +:+
  (if me_Up m then "1" else "0") +:+ newline.

Definition latency_line (m : metric) : string :=
  "dmn_status_latency_seconds{" +:+ label "target" (me_Name m) +:+ "} " +:+
  seconds_text (me_LatencyMs m) +:+ newline.

Definition total_lines (m : metric) : string :=
  "dmn_status_checks_total{" +:+ label "target" (me_Name m) +:+ "," +:+ label "result" "ok" +:+ "} " +:+
  itoa (me_OK m) +:+ newline +:+
  "dmn_status_checks_total{" +:+ label "target" (me_Name m) +:+ "," +:+ label "result" "fail" +:+ "} " +:+
  itoa (me_Fail m) +:+ newline.

Definition lines_of (f : metric → string) (l : list metric) : string :=
  foldr (λ m s, f m +:+ s) "" l.

Definition metrics_text (version : string) (l : list metric) : string :=
  "# HELP dmn_status_up Ergebnis des letzten Checks, 1 erreichbar." +:+ newline +:+
  "# TYPE dmn_status_up gauge" +:+ newline +:+ lines_of up_line l +:+
  "# HELP dmn_status_latency_seconds Antwortzeit des letzten Checks." +:+ newline +:+
  "# TYPE dmn_status_latency_seconds gauge" +:+ newline +:+ lines_of latency_line l +:+
  "# HELP dmn_status_checks_total Checks seit dem Start des Prozesses." +:+ newline +:+
  "# TYPE dmn_status_checks_total counter" +:+ newline +:+ lines_of total_lines l +:+
  "# HELP dmn_status_build_info Version des laufenden Builds." +:+ newline +:+
  "# TYPE dmn_status_build_info gauge" +:+ newline +:+
  "dmn_status_build_info{" +:+ label "version" (labelEscape version) +:+ "} 1" +:+ newline.

(** ** Responses *)

Section Response.
Context `{!Crypto, !NetLib}.
Variable cfg : Config.
Variable version : string.

(** The headers of a reply, in the order they are set. *)
Definition reply_headers (rq : request) (r : reply) : list (string * string) :=
  match r with
  | Redirect _ to =>
      ("Location", to) ::
      (if decide (rq_Method rq ∈ ["GET"; "HEAD"]) then [("Content-Type", "text/html; charset=utf-8")] else [])
  | Shown _ _ => [("Content-Type", "text/html; charset=utf-8")]
  | Answer code _ =>
      (if decide (code = 401) then [("WWW-Authenticate", "Bearer")] else []) ++
      [("Content-Type", "text/plain; charset=utf-8"); ("X-Content-Type-Options", "nosniff")]
  | Json _ => [("Content-Type", "application/json")]
  | Metrics _ => [("Content-Type", "text/plain; version=0.0.4; charset=utf-8")]
  | File name =>
      [("Content-Type", default "" (static_type (Ext name)))] ++
      (if decide (is_Some (rq_Query rq !! "v"))
       then [("Cache-Control", "public, max-age=31536000, immutable")] else [])
  | NoReply => []
  end.

Definition reply_code (r : reply) : Z :=
  match r with
  | Redirect code _ | Shown code _ | Answer code _ => code
  | Json _ | Metrics _ | File _ => 200
  | NoReply => 0
  end.

Definition reply_text (r : reply) : option string :=
  match r with
  | Answer _ text => Some (text +:+ newline)
  | Metrics l => Some (metrics_text version l)
  | _ => None
  end.

(** Every reply of [static] starts with its own Cache-Control. *)
Definition is_static (rq : request) : bool :=
  match mux cfg rq with RStatic _ => true | _ => false end.

(** What is set after the middleware. *)
Definition later_headers (rq : request) (o : output) : list (string * string) :=
  (if is_static rq then [("Cache-Control", "no-cache")] else []) ++
  (match o_RetryAfter o with Some n => [("Retry-After", itoa n)] | None => [] end) ++
  reply_headers rq (o_reply o).

Definition respond (rq : request) (o : output) : response :=
  mkResponse (reply_code (o_reply o)) (set_headers (later_headers rq o) (headers (rq_Path rq)))
    (cookie_text (cf_CookieSecure cfg) <$> o_cookies o) (reply_text (o_reply o)).

(** How a handler ends: it returns, or it panics, with [http.ErrAbortHandler]
    or something else, after it wrote to the connection or before. *)
Inductive ending : Type := Returned (o : output) | Panicked (abort wrote : bool).

Definition errorPage (rq : request) : output := plain (Shown 500 (PError (lang rq))).

(** [recover] with [tracked]: the error page, unless something was already
    written; [None] is a response cut off in the middle. *)
Definition recover (rq : request) (e : ending) : option output :=
  match e with
  | Returned o => Some o
  | Panicked true _ => None
  | Panicked false wrote => if wrote then None else Some (errorPage rq)
  end.

(** The handlers here panic before they write, if they do. *)
Lemma recover_panic rq : recover rq (Panicked false false) = Some (fail rq ErrPanic).
Proof. done. Qed.

(** The whole handler of [New]. *)
Definition handle (has_mailer : bool) (has_file : string → bool) (ev : world_in) (rq : request)
    (s : Server) : response * Server :=
  let '(o, s) := serve cfg has_mailer has_file ev rq s in (respond rq o, s).
End Response.

Example seconds_text_1 : seconds_text 1234 = "1.234". Proof. reflexivity. Qed.
Example seconds_text_2 : seconds_text 120 = "0.12". Proof. reflexivity. Qed.
Example seconds_text_3 : seconds_text 3000 = "3". Proof. reflexivity. Qed.

(** ** Lemmas on paths *)

Lemma split_at_ne sep l : split_at sep l ≠ [].
Proof. destruct l as [|x l]; simpl; [done|]. case_decide; [done|]. by destruct (split_at sep l). Qed.

Lemma split_at_cons sep l p ps : split_at sep l = p :: ps →
  match ps with [] => l = p | _ => ∃ l', l = p ++ sep :: l' ∧ split_at sep l' = ps end.
Proof.
  revert p ps. induction l as [|x l IH]; intros p ps; simpl; [by intros [= <- <-]|].
  case_decide as Hx.
  - intros [= <- <-]. subst x.
    destruct (split_at sep l) as [|q qs] eqn:E; [by apply split_at_ne in E|].
    by exists l.
  - destruct (split_at sep l) as [|q qs] eqn:E; intros [= <- <-].
    { by apply split_at_ne in E. }
    specialize (IH _ _ eq_refl). destruct qs; [by subst|]. destruct IH as (l' & -> & Hl').
    by exists l'.
Qed.

Lemma HasPrefix_app s p l : bytes s = bytes p ++ l → HasPrefix s p = true.
Proof. intros Hs. unfold HasPrefix. apply bool_decide_eq_true_2. exists l. by apply strip_spec. Qed.

(** The path behind its segments, when it begins with a slash. *)
Lemma segments_path p seg segs :
  HasPrefix p "/" = true → segments p = seg :: segs →
  match segs with [] => p = "/" +:+ seg | _ => HasPrefix p ("/" +:+ seg +:+ "/") = true end.
Proof.
  intros [l Hl]%bool_decide_eq_true Hseg. apply strip_spec in Hl. change (bytes "/") with [47] in Hl.
  simpl in Hl. unfold segments, Split in Hseg. change (Z.of_nat (nat_of_ascii "/")) with 47 in Hseg.
  rewrite Hl in Hseg. simpl in Hseg.
  destruct (split_at 47 l) as [|b bs] eqn:E; [done|]. simpl in Hseg. injection Hseg as Hb Hbs.
  pose proof (split_at_cons _ _ _ _ E) as Hc.
  assert (Forall is_byte (47 :: l)) as [_ Hby]%Forall_cons by (rewrite <-Hl; apply bytes_are_bytes).
  assert (Forall is_byte b) as Hbb.
  { destruct bs; [by subst|]. destruct Hc as (l' & -> & _). by apply Forall_app in Hby as [? _]. }
  assert (bytes seg = b) as Hseg by (by rewrite <-Hb, bytes_of_bytes).
  destruct bs as [|b' bs]; simpl in Hbs; subst segs.
  - apply bytes_inj. rewrite bytes_app, Hseg, Hl. by subst l.
  - destruct Hc as (l' & -> & _). apply (HasPrefix_app _ _ l'). rewrite Hl, !bytes_app, Hseg.
    simpl. by rewrite <-app_assoc.
Qed.

Lemma admin_no_store p x segs :
  HasPrefix p "/" = true → segments p = "admin" :: x :: segs → cache_control p = Some "no-store".
Proof.
  intros Hp Hs. pose proof (segments_path _ _ _ Hp Hs) as Ha. change ("/" +:+ "admin" +:+ "/") with "/admin/" in Ha.
  unfold cache_control. rewrite Ha. by rewrite orb_true_r.
Qed.

(** The routes behind the path /admin/. *)
Definition is_admin (r : route) : bool :=
  match r with
  | RLoginForm | RLogin | RLogout | RList | RNewForm | RCreate | REditForm _ | RSave _ | RPause _
  | RCheckNow _ | RRemove _ | RTestMail => true
  | _ => false
  end.

Lemma match_id_admin post segs id :
  match_id ["admin"; "ziel"] post segs = Some id → ∃ x l, segs = "admin" :: x :: l.
Proof.
  unfold match_id. destruct (drop _ segs) as [|y rest]; [done|]. case_decide as Hd; [|done].
  intros _. destruct Hd as (Hf & _). destruct segs as [|a [|b segs]]; try done. injection Hf as -> ->.
  by eexists _, _.
Qed.

(** [walk_routes] goes through a table of routes in order. *)
Ltac walk_routes segs :=
  repeat (case_decide; [first [done | intros _; subst segs; by eexists _, _]|]);
  repeat match goal with
  | |- context [match_id ?pre ?post segs] =>
      let E := fresh "E" in destruct (match_id pre post segs) as [?|] eqn:E;
      [first [done | intros _; by eapply match_id_admin]|]
  end; done.

Lemma get_admin cfg segs : is_admin (get_routes cfg segs) = true → ∃ x l, segs = "admin" :: x :: l.
Proof. unfold get_routes. walk_routes segs. Qed.

Lemma post_admin segs : is_admin (post_routes segs) = true → ∃ x l, segs = "admin" :: x :: l.
Proof. unfold post_routes. walk_routes segs. Qed.

Lemma admin_routes cfg rq :
  is_admin (mux cfg rq) = true → ∃ x l, segments (rq_Path rq) = "admin" :: x :: l.
Proof.
  unfold mux. case_decide; [apply get_admin|]. case_decide; [apply post_admin|done].
Qed.

Lemma metrics_route cfg rq : mux cfg rq = RMetrics → segments (rq_Path rq) = ["metrics"].
Proof.
  unfold mux, get_routes, post_routes. intros Hm.
  repeat case_match; try done; by destruct_and?.
Qed.

(** ** What the public handlers answer *)

(** Replies with data of the admin area. *)
Definition private (r : reply) : bool :=
  match r with
  | Shown _ (PLogin _ _ _) | Shown _ (PList _ _ _) | Shown _ (PForm _ _ _) | Metrics _ => true
  | _ => false
  end.

Definition harmless (o : output) : Prop := private (o_reply o) = false ∧ o_cookies o = [].

Section Public.
Context `{!Crypto, !NetLib}.

Lemma harmless_plain r : private r = false → harmless (plain r).
Proof. by split. Qed.

Lemma harmless_fail rq e : harmless (fail rq e).
Proof. unfold fail. destruct e; apply harmless_plain; by try case_match. Qed.

Lemma harmless_fromCache now rq key build s : harmless (fromCache now rq key build show_body s).1.
Proof.
  assert (∀ b, harmless (plain (show_body b))) as Hb by (intros []; by apply harmless_plain).
  unfold fromCache. repeat (case_match; simpl); auto using harmless_fail.
Qed.

Lemma harmless_detail now rq l id s : harmless (detail now rq l id s).1.
Proof.
  unfold detail. repeat (case_match; simpl); auto using harmless_fail; by apply harmless_plain.
Qed.

(** The handlers of the admin area never answer with a file. *)
Definition no_file (o : output) : Prop := ∀ f, o_reply o ≠ File f.

Lemma no_file_fail rq e : no_file (fail rq e).
Proof. intros f. unfold fail. destruct e; simpl; by try case_match. Qed.

Ltac no_file_tac := repeat (case_match; simplify_eq/=); try apply no_file_fail; try (by intros f).

Lemma no_file_target rq id s o s' : target rq id s = (inl o, s') → no_file o.
Proof. unfold target. no_file_tac; intros; simplify_eq; no_file_tac. Qed.

Lemma no_file_admin cfg ev rq h s :
  (∀ csrf s, no_file (h csrf s).1) → no_file (admin cfg ev rq h s).1.
Proof. intros Hh. unfold admin. no_file_tac; apply Hh. Qed.

Lemma no_file_signed_in cfg ev rq known s : no_file (signed_in cfg ev rq known s).1.
Proof. unfold signed_in. no_file_tac. Qed.

Lemma no_file_attempt cfg ev rq csrf s : no_file (attempt cfg ev rq csrf s).1.
Proof. unfold attempt. no_file_tac; apply no_file_signed_in. Qed.

Lemma no_file_save_target ev rq csrf t s : no_file (save_target ev rq csrf t s).1.
Proof. unfold save_target. no_file_tac. Qed.

Lemma dispatch_admin cfg has_mailer has_file ev rq s :
  is_admin (mux cfg rq) = true ∨ mux cfg rq = RMetrics →
  no_file (dispatch cfg has_mailer has_file ev rq s).1.
Proof.
  unfold dispatch. intros Ha. destruct (mux cfg rq) eqn:E; try (by destruct Ha);
    try (apply no_file_admin; intros csrf s0).
  - unfold metrics. no_file_tac.
  - unfold loginForm. no_file_tac.
  - unfold login. no_file_tac; apply no_file_attempt.
  - unfold logout. no_file_tac.
  - unfold list_targets. no_file_tac.
  - unfold newForm. no_file_tac.
  - apply no_file_save_target.
  - unfold editForm. no_file_tac; by eapply no_file_target.
  - unfold save. no_file_tac; first [by eapply no_file_target|apply no_file_save_target].
  - unfold pause. no_file_tac; by eapply no_file_target.
  - unfold checkNow. no_file_tac; by eapply no_file_target.
  - unfold remove. no_file_tac.
  - unfold testMail. no_file_tac.
Qed.

(** Outside the admin area and the metrics, a reply has nothing private and
    sets no cookie. *)
Lemma dispatch_public cfg has_mailer has_file ev rq s :
  is_admin (mux cfg rq) = false → mux cfg rq ≠ RMetrics →
  harmless (dispatch cfg has_mailer has_file ev rq s).1.
Proof.
  unfold dispatch. intros Ha Hm. destruct (mux cfg rq) eqn:E; try done.
  - apply harmless_fromCache.
  - apply harmless_detail.
  - apply harmless_fromCache.
  - unfold healthz. case_match. simpl. apply harmless_plain. by case_match.
  - unfold static. simpl. repeat case_match; by apply harmless_plain.
Qed.
End Public.

(** ** Headers *)

Lemma set_headers_other l h k : k ∉ l.*1 → set_headers l h !! k = h !! k.
Proof.
  unfold set_headers. revert h. induction l as [|[k' v] l IH]; intros h; csimpl; [done|].
  intros [Hne Hk]%not_elem_of_cons. rewrite IH by done. by rewrite lookup_insert_ne.
Qed.

(** A header that is only ever set to one value. *)
Lemma set_headers_same l h k v :
  h !! k = Some v → (∀ v', (k, v') ∈ l → v' = v) → set_headers l h !! k = Some v.
Proof.
  unfold set_headers. revert h. induction l as [|[k' v'] l IH]; intros h; csimpl; [done|].
  intros Hh Hl. apply IH; [|intros; apply Hl; by right].
  destruct (decide (k' = k)) as [->|]; [|by rewrite lookup_insert_ne].
  rewrite lookup_insert_eq. f_equal. apply Hl. left.
Qed.

Section Responses.
Context `{!Crypto, !NetLib}.

Definition later_names : list string :=
  ["Cache-Control"; "Retry-After"; "Location"; "Content-Type"; "WWW-Authenticate";
   "X-Content-Type-Options"].

Lemma later_names_all cfg rq o k v :
  (k, v) ∈ later_headers cfg rq o →
  k ∈ later_names ∧ (k = "X-Content-Type-Options" → v = "nosniff") ∧
  (k = "Cache-Control" → is_static cfg rq = true ∨ ∃ f, o_reply o = File f).
Proof.
  unfold later_headers, reply_headers. rewrite !elem_of_app.
  intros [Hk|[Hk|Hk]]; repeat case_match; rewrite ?elem_of_app, ?elem_of_cons, ?elem_of_nil in Hk;
    destruct_or?; simplify_eq; split_and!; try done; try (intros; by eauto);
    apply (bool_decide_unpack _); by vm_compute.
Qed.

Lemma fixed_kept cfg version rq o k v :
  fixed_headers !! k = Some v → k ∉ ["Cache-Control"; "Retry-After"; "Location"; "Content-Type"; "WWW-Authenticate"] →
  (k = "X-Content-Type-Options" → v = "nosniff") →
  rs_headers (respond cfg version rq o) !! k = Some v.
Proof.
  intros Hf Hk Hv. apply set_headers_same.
  - unfold headers. destruct (cache_control (rq_Path rq)); [|done].
    rewrite lookup_insert_ne; [done|]. intros <-. apply Hk. left.
  - intros v' Hin%(later_names_all cfg rq o). destruct Hin as (Hn & Hs & _).
    unfold later_names in Hn. destruct (decide (k = "X-Content-Type-Options")) as [E|Hne].
    + by rewrite (Hv E), (Hs E).
    + exfalso. apply Hk. rewrite !elem_of_cons in *. naive_solver.
Qed.

Lemma no_store_kept cfg version rq o :
  cache_control (rq_Path rq) = Some "no-store" → is_static cfg rq = false →
  (∀ f, o_reply o ≠ File f) →
  rs_headers (respond cfg version rq o) !! "Cache-Control" = Some "no-store".
Proof.
  intros Hc Hs Hf. unfold respond. cbn [rs_headers].
  rewrite set_headers_other; [unfold headers; rewrite Hc; apply lookup_insert_eq|].
  intros ([k v] & E & Hin)%list_elem_of_fmap. simpl in E. subst k.
  destruct (later_names_all _ _ _ _ _ Hin) as (_ & _ & [?|[f ?]]); [done|congruence|by destruct (Hf f)].
Qed.

(** ** Properties *)

(** C40: every response, errors and refusals included, has the
    content security policy, forbids framing and sniffing; a response with
    data of the admin area, with the metrics or with a cookie is never
    stored by a cache. *)
Theorem responses_hardened cfg version has_mailer has_file ev rq s :
  HasPrefix (rq_Path rq) "/" = true →
  let o := (serve cfg has_mailer has_file ev rq s).1 in
  let h := rs_headers (handle cfg version has_mailer has_file ev rq s).1 in
  h !! "Content-Security-Policy" = Some csp ∧ h !! "X-Frame-Options" = Some "DENY" ∧
  h !! "X-Content-Type-Options" = Some "nosniff" ∧ h !! "Referrer-Policy" = Some "same-origin" ∧
  (private (o_reply o) = true ∨ o_cookies o ≠ [] → h !! "Cache-Control" = Some "no-store").
Proof.
  intros Hp o h. unfold h, handle. fold o. destruct (serve _ _ _ _ _ _) as [o' s'] eqn:Ho.
  simpl in o. subst o. simpl rs_headers. split_and!.
  1-4: apply (fixed_kept cfg version); [by vm_compute|apply (bool_decide_unpack _); by vm_compute|done].
  intros Hpriv. unfold serve in Ho. destruct (cross_origin_ok rq) eqn:Hco;
    [|simplify_eq; by destruct Hpriv].
  assert (is_admin (mux cfg rq) = true ∨ mux cfg rq = RMetrics) as Hr.
  { destruct (is_admin (mux cfg rq)) eqn:Ha; [by left|].
    destruct (decide (mux cfg rq = RMetrics)) as [?|Hm]; [by right|].
    destruct (dispatch_public cfg has_mailer has_file ev rq s Ha Hm) as [Hq Hc].
    rewrite Ho in Hq, Hc. simpl in *. destruct Hpriv; congruence. }
  apply (no_store_kept cfg version).
  - destruct Hr as [(x & l & Hs)%admin_routes|Hs%metrics_route]; [by eapply admin_no_store|].
    apply (segments_path _ _ _ Hp) in Hs. unfold cache_control. by rewrite Hs.
  - unfold is_static. destruct (mux cfg rq); try done; by destruct Hr.
  - pose proof (dispatch_admin cfg has_mailer has_file ev rq s Hr) as Hf. by rewrite Ho in Hf.
Qed.
End Responses.

(** Signing in: the response has a cookie. *)
Lemma responses_hardened_witness :
  let s := sample_server with_account in
  let r := (@handle toy_crypto plain_netlib plain_config "v1" false (λ _, false) sample_in
              login_request s).1 in
  rs_cookies r ≠ [] ∧ rs_headers r !! "Cache-Control" = Some "no-store" ∧
  rs_headers r !! "Content-Security-Policy" = Some csp.
Proof.
  intros s r.
  destruct (@responses_hardened toy_crypto plain_netlib plain_config "v1" false (λ _, false) sample_in
    login_request s eq_refl) as (Hcsp & _ & _ & _ & Hcc).
  split_and!; [by vm_compute| |exact Hcsp].
  apply Hcc. right. by vm_compute.
Defined.
