(* ===== verification/Exposition.v ===== *)
(** * Reading the metrics (internal/web/public.go)

    The text of /metrics is in the Prometheus format: comments, and samples
    with a name, labels and a value.  A reader of that format is written out
    here.  Proved is that it gets exactly the figures of the checked targets,
    whatever the targets are called, and when the samples form series: if and
    only if no two of the targets share a name. *)

From S2P Require Import Prelude Text Netip GoTime Sql Schema Crypto Runner Scheduler Server Response.

(** ** The format *)

Record sample : Type := mkSample {
  sa_name : list Z;
  sa_labels : list (list Z * list Z);
  sa_value : list Z
}.

(** A label's value up to its closing quote, and what follows. *)
Fixpoint read_quoted (l : list Z) : option (list Z * list Z) :=
  match l with
  | [] => None
  | c :: l =>
      if decide (c = 34) then Some ([], l)
      else if decide (c = 92) then
        match l with
        | [] => None
        | d :: l => prod_map (cons (if decide (d = 110) then 10 else d)) id <$> read_quoted l
        end
      else prod_map (cons c) id <$> read_quoted l
  end.

(** The bytes before the first [c], and those after it. *)
Fixpoint before (c : Z) (l : list Z) : option (list Z * list Z) :=
  match l with
  | [] => None
  | x :: l => if decide (x = c) then Some ([], l) else prod_map (cons x) id <$> before c l
  end.

(** [name="value"], separated by commas, up to the closing brace. *)
Fixpoint read_labels (fuel : nat) (l : list Z) : option (list (list Z * list Z) * list Z) :=
  match fuel with
  | O => None
  | S fuel =>
      '(k, l) ← before 61 l;
      if decide (head l = Some 34) then
        '(v, l) ← read_quoted (tail l);
        match l with
        | c :: l =>
            if decide (c = 44) then prod_map (cons (k, v)) id <$> read_labels fuel l
            else if decide (c = 125) then Some ([(k, v)], l) else None
        | [] => None
        end
      else None
  end.

(** A line that is not a comment; a sample here has at most two labels. *)
Definition read_sample (line : list Z) : option sample :=
  '(name, l) ← before 123 line;
  '(labels, l) ← read_labels 2 l;
  if decide (head l = Some 32) then Some (mkSample name labels (tail l)) else None.

Definition is_comment (line : list Z) : bool :=
  match line with [] => true | c :: _ => bool_decide (c = 35) end.

Definition read_samples (text : list Z) : option (list sample) :=
  mapM read_sample (filter (λ l, is_comment l = false) (split_at 10 text)).

(** ** What the samples say *)

(** The targets that were checked, with what the monitor knows. *)
Definition checked_targets (snap : gmap Z Stat) (ts : list Target) : list (Target * Stat) :=
  omap (λ t, st ← snap !! ID t; if sta_Checked st then Some (t, st) else None) ts.

Definition target_label (t : Target) : list Z * list Z := (bytes "target", bytes (Name t)).

Definition up_sample (ts : Target * Stat) : sample :=
  mkSample (bytes "dmn_status_up") [target_label ts.1; (bytes "kind", bytes (Kind ts.1))]
    (bytes (if sta_OK ts.2 then "1" else "0")).

Definition latency_sample (ts : Target * Stat) : sample :=
  mkSample (bytes "dmn_status_latency_seconds") [target_label ts.1]
    (bytes (seconds_text (sta_LatencyMs ts.2))).

Definition total_samples (ts : Target * Stat) : list sample :=
  [ mkSample (bytes "dmn_status_checks_total") [target_label ts.1; (bytes "result", bytes "ok")]
      (bytes (itoa (sta_ChecksOK ts.2)));
    mkSample (bytes "dmn_status_checks_total") [target_label ts.1; (bytes "result", bytes "fail")]
      (bytes (itoa (sta_ChecksFail ts.2))) ].

Definition build_sample (version : string) : sample :=
  mkSample (bytes "dmn_status_build_info") [(bytes "version", bytes version)] (bytes "1").

Definition all_samples (version : string) (l : list (Target * Stat)) : list sample :=
  (up_sample <$> l) ++ (latency_sample <$> l) ++ (l ≫= total_samples) ++ [build_sample version].

(** The identity of a series. *)
Definition series (s : sample) : list Z * list (list Z * list Z) := (sa_name s, sa_labels s).

(** ** The text of a sample *)

Definition label_bytes (kv : list Z * list Z) : list Z :=
  kv.1 ++ [61; 34] ++ (kv.2 ≫= escape_byte) ++ [34].

Fixpoint labels_bytes (l : list (list Z * list Z)) : list Z :=
  match l with
  | [] => []
  | [kv] => label_bytes kv
  | kv :: l => label_bytes kv ++ [44] ++ labels_bytes l
  end.

Definition sample_bytes (s : sample) : list Z :=
  sa_name s ++ [123] ++ labels_bytes (sa_labels s) ++ [125; 32] ++ sa_value s.

(** What a sample needs to be read back. *)
Record sample_ok (s : sample) : Prop := mkSampleOk {
  so_name : 123 ∉ sa_name s ∧ is_comment (sa_name s) = false ∧ 10 ∉ sa_name s;
  so_labels : (1 ≤ length (sa_labels s) ≤ 2)%nat;
  so_keys : Forall (λ kv, (61 ∉ kv.1) ∧ (10 ∉ kv.1)) (sa_labels s);
  so_value : 10 ∉ sa_value s
}.

Lemma read_quoted_escape l rest : read_quoted ((l ≫= escape_byte) ++ 34 :: rest) = Some (l, rest).
Proof.
  induction l as [|c l IH]; [done|]. csimpl. rewrite <-app_assoc. unfold escape_byte at 1.
  case_decide as H1; [subst; cbn [app read_quoted]; by rewrite IH|].
  case_decide as H2; [subst; cbn [app read_quoted]; by rewrite IH|].
  case_decide as H3; [subst; cbn [app read_quoted]; by rewrite IH|].
  cbn [app read_quoted]. rewrite !decide_False by done. by rewrite IH.
Qed.

Lemma before_first c l rest : c ∉ l → before c (l ++ c :: rest) = Some (l, rest).
Proof.
  induction l as [|x l IH]; cbn [app before]; [by rewrite decide_True|].
  intros [Hx Hl]%not_elem_of_cons. rewrite decide_False by congruence. by rewrite IH.
Qed.

Lemma read_labels_bytes fuel l rest :
  l ≠ [] → (length l ≤ fuel)%nat → Forall (λ kv, 61 ∉ kv.1) l →
  read_labels fuel (labels_bytes l ++ 125 :: rest) = Some (l, rest).
Proof.
  revert fuel. induction l as [|[k v] l IH]; intros [|fuel] Hne Hf Hk; [done..|simpl in Hf; lia|].
  apply list.Forall_cons in Hk as [Hk Hl]. simpl in Hk, Hf.
  assert (∀ t, read_labels (S fuel) (label_bytes (k, v) ++ t) =
    match t with
    | c :: t => if decide (c = 44) then prod_map (cons (k, v)) id <$> read_labels fuel t
                else if decide (c = 125) then Some ([(k, v)], t) else None
    | [] => None
    end) as Hone.
  { intros t. unfold label_bytes. cbn [fst snd read_labels]. rewrite <-!app_assoc. cbn [app].
    rewrite before_first by done. cbn [option_bind mbind]. rewrite decide_True by done. cbn [tail].
    by rewrite read_quoted_escape. }
  destruct l as [|kv l]; [by apply Hone|].
  - change (labels_bytes ((k, v) :: kv :: l)) with (label_bytes (k, v) ++ [44] ++ labels_bytes (kv :: l)).
    rewrite <-!app_assoc, Hone. cbn [app]. rewrite decide_True by done.
    by rewrite (IH fuel) by (done || simpl in *; lia).
Qed.

Lemma read_sample_bytes s : sample_ok s → read_sample (sample_bytes s) = Some s.
Proof.
  intros [(Hn & _ & _) Hl Hk _]. unfold read_sample, sample_bytes. cbn [app]. rewrite before_first by done.
  cbn [option_bind mbind]. rewrite read_labels_bytes.
  - cbn [option_bind mbind]. rewrite decide_True by done. by destruct s.
  - intros E. rewrite E in Hl. simpl in Hl. lia.
  - lia.
  - apply (Forall_impl _ _ _ Hk). by intros ? [? _].
Qed.

(** ** The text in lines *)

Definition checked_metric (ts : Target * Stat) : metric :=
  mkMetric (labelEscape (Name ts.1)) (labelEscape (Kind ts.1)) (sta_OK ts.2) (sta_LatencyMs ts.2)
    (sta_ChecksOK ts.2) (sta_ChecksFail ts.2).

Lemma metrics_checked snap ts : omap (metric_of snap) ts = checked_metric <$> checked_targets snap ts.
Proof.
  unfold checked_targets. induction ts as [|t ts IH]; [done|]. csimpl. unfold metric_of at 1.
  destruct (snap !! ID t) as [st|]; simpl; [|done].
  destruct (sta_Checked st); csimpl; [|done]. by f_equal.
Qed.

Lemma escape_is_bytes l : Forall is_byte l → Forall is_byte (l ≫= escape_byte).
Proof.
  induction 1 as [|b l Hb _ IH]; csimpl; [constructor|]. apply Forall_app. split; [|done].
  unfold escape_byte. repeat case_decide; repeat (apply list.Forall_cons; split); done || constructor.
Qed.

Lemma bytes_labelEscape s : bytes (labelEscape s) = bytes s ≫= escape_byte.
Proof. apply bytes_of_bytes, escape_is_bytes, bytes_are_bytes. Qed.

(** Lines, each with its end. *)
Definition unlines (l : list (list Z)) : list Z := l ≫= λ x, x ++ [10].

Lemma split_unlines l : Forall (λ x, 10 ∉ x) l → split_at 10 (unlines l) = l ++ [[]].
Proof.
  induction 1 as [|x l Hx _ IH]; [done|]. unfold unlines in *. csimpl.
  rewrite <-app_assoc. cbn [app]. by rewrite split_at_sep, IH.
Qed.

Lemma unlines_app l l' : unlines (l ++ l') = unlines l ++ unlines l'.
Proof. apply bind_app. Qed.

(** Both sides as one list of bytes, the parts that are not literals named. *)
Ltac same_bytes :=
  unfold sample_bytes, labels_bytes, label_bytes, label; cbn [sa_name sa_labels sa_value fst snd];
  rewrite ?bytes_app, ?bytes_labelEscape, <-?app_assoc;
  repeat match goal with |- context [bytes ?x ≫= escape_byte] =>
           lazymatch x with Name _ => idtac | Kind _ => idtac | _ => is_var x end;
           generalize (bytes x ≫= escape_byte); intros ?
         end;
  repeat match goal with |- context [bytes (itoa ?x)] => generalize (bytes (itoa x)); intros ? end;
  repeat match goal with |- context [bytes (seconds_text ?x)] =>
           generalize (bytes (seconds_text x)); intros ? end.

Lemma up_line_bytes ts : bytes (up_line (checked_metric ts)) = sample_bytes (up_sample ts) ++ [10].
Proof.
  destruct ts as [t st]. unfold up_line, up_sample, checked_metric, target_label.
  cbn [me_Name me_Kind me_Up fst snd]. same_bytes. by destruct (sta_OK st).
Qed.

Lemma latency_line_bytes ts :
  bytes (Response.latency_line (checked_metric ts)) = sample_bytes (latency_sample ts) ++ [10].
Proof.
  destruct ts as [t st]. unfold Response.latency_line, latency_sample, checked_metric, target_label.
  cbn [me_Name me_LatencyMs fst snd]. same_bytes. done.
Qed.

Lemma total_lines_bytes ts :
  bytes (total_lines (checked_metric ts)) = unlines (sample_bytes <$> total_samples ts).
Proof.
  destruct ts as [t st]. unfold total_lines, total_samples, checked_metric, target_label, unlines.
  csimpl. cbn [me_Name me_OK me_Fail fst snd]. same_bytes. done.
Qed.

Lemma build_line_bytes version :
  bytes ("dmn_status_build_info{" +:+ label "version" (labelEscape version) +:+ "} 1" +:+ newline) =
  sample_bytes (build_sample version) ++ [10].
Proof. unfold build_sample. same_bytes. done. Qed.

Lemma lines_of_bytes f (g : Target * Stat → list (list Z)) l :
  (∀ ts, bytes (f (checked_metric ts)) = unlines (g ts)) →
  bytes (lines_of f (checked_metric <$> l)) = unlines (l ≫= g).
Proof.
  intros Hf. induction l as [|ts l IH]; csimpl; [done|].
  by rewrite bytes_app, Hf, IH, unlines_app.
Qed.

Lemma lines_of_bytes1 f (g : Target * Stat → list Z) l :
  (∀ ts, bytes (f (checked_metric ts)) = g ts ++ [10]) →
  bytes (lines_of f (checked_metric <$> l)) = unlines (g <$> l).
Proof.
  intros Hf. rewrite (lines_of_bytes f (λ ts, [g ts])).
  - done.
  - intros ts. rewrite Hf. unfold unlines. csimpl. by rewrite app_nil_r.
Qed.

Definition up_head : list (list Z) :=
  [bytes "# HELP dmn_status_up Ergebnis des letzten Checks, 1 erreichbar."; bytes "# TYPE dmn_status_up gauge"].

Definition latency_head : list (list Z) :=
  [bytes "# HELP dmn_status_latency_seconds Antwortzeit des letzten Checks.";
   bytes "# TYPE dmn_status_latency_seconds gauge"].

Definition total_head : list (list Z) :=
  [bytes "# HELP dmn_status_checks_total Checks seit dem Start des Prozesses.";
   bytes "# TYPE dmn_status_checks_total counter"].

Definition build_head : list (list Z) :=
  [bytes "# HELP dmn_status_build_info Version des laufenden Builds."; bytes "# TYPE dmn_status_build_info gauge"].

Definition metrics_lines (version : string) (l : list (Target * Stat)) : list (list Z) :=
  up_head ++ (sample_bytes <$> (up_sample <$> l)) ++
  latency_head ++ (sample_bytes <$> (latency_sample <$> l)) ++
  total_head ++ (sample_bytes <$> (l ≫= total_samples)) ++
  build_head ++ [sample_bytes (build_sample version)].

Lemma metrics_text_lines version l :
  bytes (metrics_text version (checked_metric <$> l)) = unlines (metrics_lines version l).
Proof.
  unfold metrics_text, metrics_lines. rewrite !unlines_app, <-!list_fmap_compose.
  rewrite <-(lines_of_bytes1 up_line), <-(lines_of_bytes1 Response.latency_line)
    by (apply up_line_bytes || apply latency_line_bytes).
  assert (sample_bytes <$> (l ≫= total_samples) = l ≫= λ ts, sample_bytes <$> total_samples ts) as ->.
  { induction l as [|ts l IH]; [done|]. csimpl. by rewrite IH. }
  rewrite <-(lines_of_bytes total_lines) by apply total_lines_bytes.
  assert (unlines [sample_bytes (build_sample version)] =
    bytes ("dmn_status_build_info{" +:+ label "version" (labelEscape version) +:+ "} 1" +:+ newline)) as ->.
  { unfold unlines. csimpl. by rewrite app_nil_r, build_line_bytes. }
  rewrite !bytes_app. reflexivity.
Qed.

(** Nothing the program writes breaks a line. *)
Lemma escape_no_newline l : 10 ∉ (l ≫= escape_byte).
Proof.
  induction l as [|c l IH]; csimpl; [by apply not_elem_of_nil|]. apply not_elem_of_app. split; [|done].
  unfold escape_byte. repeat case_decide; rewrite !not_elem_of_cons; split_and!; done || apply not_elem_of_nil.
Qed.

Lemma visible_no_newline l : Forall visible l → 10 ∉ l.
Proof. intros Hl H. rewrite list.Forall_forall in Hl. apply Hl in H. unfold visible in H. lia. Qed.

Lemma sample_bytes_line s : sample_ok s → 10 ∉ sample_bytes s ∧ is_comment (sample_bytes s) = false.
Proof.
  intros [(_ & Hc & Hn) Hl Hk Hv]. split.
  - assert (10 ∉ labels_bytes (sa_labels s)) as Hls.
    { clear -Hk. assert (∀ kv : list Z * list Z, 10 ∉ kv.1 → 10 ∉ label_bytes kv) as Hone.
      { intros kv H. unfold label_bytes. rewrite !not_elem_of_app, !not_elem_of_cons.
        split_and!; done || apply not_elem_of_nil || apply escape_no_newline. }
      induction (sa_labels s) as [|kv ls IH]; [by apply not_elem_of_nil|].
      apply list.Forall_cons in Hk as [[_ Hkv] Hk]. destruct ls as [|kv' ls]; [by apply Hone|].
      change (labels_bytes (kv :: kv' :: ls)) with (label_bytes kv ++ [44] ++ labels_bytes (kv' :: ls)).
      rewrite !not_elem_of_app. split_and!; [by apply Hone| |by apply IH].
      rewrite not_elem_of_cons. split; [done|apply not_elem_of_nil]. }
    unfold sample_bytes. rewrite !not_elem_of_app, !not_elem_of_cons.
    split_and!; done || apply not_elem_of_nil.
  - unfold sample_bytes. by destruct (sa_name s).
Qed.

Lemma visible_literal s :
  forallb (λ b, bool_decide (33 ≤ b < 127)) (bytes s) = true → Forall visible (bytes s).
Proof.
  intros H. apply list.Forall_forall. intros b Hb.
  rewrite forallb_forall in H. by apply (bool_decide_eq_true (33 ≤ b < 127)), H, list_elem_of_In.
Qed.

Lemma drop_zeros_subset l c : c ∈ drop_zeros l → c ∈ l.
Proof.
  induction l as [|x l IH]; simpl; [done|]. case_decide; [|done]. rewrite elem_of_cons. auto.
Qed.

Lemma thousandths_visible r : 0 ≤ r < 1000 →
  Forall (λ c, visible (Z.of_nat (nat_of_ascii c))) (thousandth_digits r).
Proof.
  intros Hr. assert (Hd : ∀ d, 0 ≤ d < 10 → visible (Z.of_nat (nat_of_ascii (digit_char d)))).
  { intros d Hd. unfold digit_char. rewrite code_byte_char by (unfold is_byte; lia). unfold visible. lia. }
  unfold thousandth_digits. rewrite !list.Forall_cons.
  split_and!; try apply Hd; [| |by apply Z.mod_pos_bound|constructor];
    Z.to_euclidean_division_equations; lia.
Qed.

Lemma seconds_visible ms : Forall visible (bytes (seconds_text ms)).
Proof.
  unfold seconds_text. rewrite !bytes_app, !Forall_app. split_and!; [|apply itoa_visible|].
  { case_decide; by apply visible_literal. }
  pose proof (thousandths_visible (Z.abs ms mod 1000)) as Hv. rewrite list.Forall_forall in Hv.
  set (frac := reverse (drop_zeros (reverse (thousandth_digits (Z.abs ms mod 1000))))).
  assert (Forall (λ c, visible (Z.of_nat (nat_of_ascii c))) frac) as Hf.
  { apply list.Forall_forall. intros c Hc. unfold frac in Hc. apply Hv; [by apply Z.mod_pos_bound|].
    by apply elem_of_reverse, drop_zeros_subset, elem_of_reverse in Hc. }
  destruct frac as [|c frac]; [constructor|]. rewrite bytes_app, Forall_app. split; [by apply visible_literal|].
  unfold bytes. rewrite String.list_ascii_of_string_of_list_ascii. by apply Forall_fmap.
Qed.

(** What is checked of the parts of a sample that are literals. *)
Definition literal_parts (s : sample) : bool :=
  bool_decide ((123 ∉ sa_name s ∧ is_comment (sa_name s) = false ∧ 10 ∉ sa_name s) ∧
               (1 ≤ length (sa_labels s) ≤ 2)%nat) &&
  forallb (λ kv, bool_decide (61 ∉ kv.1 ∧ 10 ∉ kv.1)) (sa_labels s).

Lemma literal_parts_ok s : literal_parts s = true → Forall visible (sa_value s) → sample_ok s.
Proof.
  intros [[Hn Hl]%bool_decide_eq_true Hk]%andb_true_iff Hv. rewrite forallb_forall in Hk.
  split; [done..| |by apply visible_no_newline].
  apply list.Forall_forall. intros kv Hkv. by apply list_elem_of_In, Hk, bool_decide_eq_true in Hkv.
Qed.

Lemma all_samples_ok version l : Forall sample_ok (all_samples version l).
Proof.
  unfold all_samples. rewrite !Forall_app, !Forall_fmap. split_and!.
  - apply list.Forall_forall. intros [t st] _. apply literal_parts_ok; [by vm_compute|].
    cbn [sa_value up_sample snd]. destruct (sta_OK st); by apply visible_literal.
  - apply list.Forall_forall. intros [t st] _. apply literal_parts_ok; [by vm_compute|].
    apply seconds_visible.
  - apply Forall_bind, list.Forall_forall. intros [t st] _.
    change (Forall sample_ok (total_samples (t, st))). unfold total_samples. rewrite !list.Forall_cons. split_and!; [| |constructor];
      (apply literal_parts_ok; [by vm_compute|apply itoa_visible]).
  - apply list.Forall_cons. split; [|constructor].
    apply literal_parts_ok; [by vm_compute|by apply visible_literal].
Qed.

(** ** Reading it all *)

Lemma filter_samples l : Forall sample_ok l →
  filter (λ x, is_comment x = false) (sample_bytes <$> l) = sample_bytes <$> l.
Proof.
  induction 1 as [|s l Hs _ IH]; [done|]. csimpl. rewrite filter_cons_True, IH; [done|].
  by apply sample_bytes_line.
Qed.

Lemma mapM_samples l : Forall sample_ok l → mapM read_sample (sample_bytes <$> l) = Some l.
Proof.
  intros Hl. apply mapM_Some, Forall2_fmap_l.
  induction Hl as [|s l Hs _ IH]; constructor; [by apply read_sample_bytes|done].
Qed.

Lemma metrics_lines_filter version l :
  filter (λ x, is_comment x = false) (metrics_lines version l ++ [[]]) =
  sample_bytes <$> all_samples version l.
Proof.
  pose proof (all_samples_ok version l) as Hok. unfold all_samples in Hok. rewrite !Forall_app in Hok.
  destruct Hok as (H1 & H2 & H3 & H4). unfold metrics_lines.
  change [sample_bytes (build_sample version)] with (sample_bytes <$> [build_sample version]).
  rewrite !filter_app, (filter_samples _ H1), (filter_samples _ H2), (filter_samples _ H3), (filter_samples _ H4).
  assert (∀ ls : list (list Z), forallb is_comment ls = true → filter (λ x, is_comment x = false) ls = []) as Hc.
  { intros ls. induction ls as [|x ls IH]; [done|]. simpl. intros [Hx Hls]%andb_true_iff.
    rewrite filter_cons_False by (rewrite Hx; done). by apply IH. }
  rewrite !Hc by (vm_compute; reflexivity). unfold all_samples. by rewrite !fmap_app, !app_nil_l, app_nil_r.
Qed.

Lemma metrics_lines_unbroken version l : Forall (λ x, 10 ∉ x) (metrics_lines version l).
Proof.
  assert (∀ ls : list (list Z), forallb (λ x, bool_decide (10 ∉ x)) ls = true → Forall (λ x, 10 ∉ x) ls) as Hlit.
  { intros ls H. apply list.Forall_forall. intros x Hx. rewrite forallb_forall in H.
    by apply list_elem_of_In, H, bool_decide_eq_true in Hx. }
  assert (∀ ss, Forall sample_ok ss → Forall (λ x, 10 ∉ x) (sample_bytes <$> ss)) as Hss.
  { intros ss H. apply Forall_fmap. apply (Forall_impl _ _ _ H). intros s Hs. by apply sample_bytes_line. }
  pose proof (all_samples_ok version l) as Hok. unfold all_samples in Hok. rewrite !Forall_app in Hok.
  destruct Hok as (H1 & H2 & H3 & H4). unfold metrics_lines. rewrite !Forall_app.
  split_and!; [by apply Hlit|by apply Hss|by apply Hlit|by apply Hss|by apply Hlit|by apply Hss|by apply Hlit|].
  by apply (Hss [build_sample version]).
Qed.

(** The name a series carries. *)
Definition target_of (s : list Z * list (list Z * list Z)) : option (list Z) := snd <$> head s.2.

Lemma series_totals (l : list (Target * Stat)) :
  series <$> (l ≫= total_samples) =
  (bytes ∘ Name ∘ fst <$> l) ≫= λ n,
    [ (bytes "dmn_status_checks_total", [(bytes "target", n); (bytes "result", bytes "ok")]);
      (bytes "dmn_status_checks_total", [(bytes "target", n); (bytes "result", bytes "fail")]) ].
Proof. induction l as [|ts l IH]; [done|]. csimpl. by rewrite IH. Qed.

Lemma up_targets (f : Target * Stat → sample) (l : list (Target * Stat)) :
  (∀ ts, target_of (series (f ts)) = Some (bytes (Name ts.1))) →
  target_of <$> (series <$> (f <$> l)) = Some <$> (bytes ∘ Name ∘ fst <$> l).
Proof. intros Hf. induction l as [|ts l IH]; [done|]. csimpl. by rewrite Hf, IH. Qed.

Lemma series_NoDup version (l : list (Target * Stat)) :
  NoDup (series <$> all_samples version l) ↔ NoDup ((λ ts, Name ts.1) <$> l).
Proof.
  assert (NoDup (bytes ∘ Name ∘ fst <$> l) ↔ NoDup ((λ ts, Name ts.1) <$> l)) as <-.
  { assert (Inj (=) (=) bytes) by (intros ??; apply bytes_inj).
    by rewrite <-(NoDup_fmap bytes), <-list_fmap_compose. }
  unfold all_samples. rewrite !fmap_app, !NoDup_app. split.
  - intros (_ & _ & H & _ & _). apply (NoDup_fmap_1 (λ n, (bytes "dmn_status_latency_seconds", [(bytes "target", n)]))).
    by rewrite <-!list_fmap_compose in *.
  - intros Hn. assert (∀ f : Target * Stat → sample,
      (∀ ts, target_of (series (f ts)) = Some (bytes (Name ts.1))) → NoDup (series <$> (f <$> l))) as Hf.
    { intros f Hf. apply (NoDup_fmap_1 target_of). rewrite up_targets by done.
      by apply (NoDup_fmap_2 Some). }
    assert (NoDup (series <$> (l ≫= total_samples))) as Ht.
    { rewrite series_totals. apply NoDup_bind; [|intros n _|done].
      2: { apply NoDup_cons. split; [|apply NoDup_singleton]. rewrite list_elem_of_singleton. by intros [=]. }
      intros n n' y _ _. rewrite !elem_of_cons. intros [->|[->|?%elem_of_nil]] [?|[?|?%elem_of_nil]]; by simplify_eq. }
    assert (∀ x, (x ∈ series <$> (up_sample <$> l) → x.1 = bytes "dmn_status_up") ∧
      (x ∈ series <$> (latency_sample <$> l) → x.1 = bytes "dmn_status_latency_seconds") ∧
      (x ∈ series <$> (l ≫= total_samples) → x.1 = bytes "dmn_status_checks_total") ∧
      (x ∈ series <$> [build_sample version] → x.1 = bytes "dmn_status_build_info")) as Hx.
    { intros x. split_and!; intros (s & -> & Hs)%list_elem_of_fmap.
      - by apply list_elem_of_fmap in Hs as (? & -> & _).
      - by apply list_elem_of_fmap in Hs as (? & -> & _).
      - apply list_elem_of_bind in Hs as (? & Hs & _).
        apply elem_of_cons in Hs as [->|[->|?%elem_of_nil]%elem_of_cons]; done.
      - by apply list_elem_of_singleton in Hs as ->. }
    split_and!; try done; try (by apply Hf); try apply NoDup_singleton;
      intros x Hi Hj; rewrite ?elem_of_app in Hj; destruct (Hx x) as (X1 & X2 & X3 & X4);
      destruct_or?;
      repeat match goal with H : x ∈ ?A, X : x ∈ ?A → _ |- _ => apply X in H; clear X end; rewrite Hi in Hj; by vm_compute in Hj.
Qed.

(** C35: a reader of the Prometheus format gets from /metrics
    exactly the figures of the targets that were checked and the version,
    whatever bytes the names, kinds and the version hold: nothing in a name
    ends its label or its line.  The samples form distinct series if and only
    if no two of these targets have one name. *)
Theorem metrics_read_back version snap ts :
  read_samples (bytes (metrics_text version (omap (metric_of snap) ts))) =
    Some (all_samples version (checked_targets snap ts)) ∧
  (NoDup (series <$> all_samples version (checked_targets snap ts)) ↔
   NoDup ((λ ts, Name ts.1) <$> checked_targets snap ts)).
Proof.
  split; [|apply series_NoDup]. unfold read_samples.
  rewrite metrics_checked, metrics_text_lines, split_unlines by apply metrics_lines_unbroken.
  rewrite metrics_lines_filter. apply mapM_samples, all_samples_ok.
Qed.
