(* ===== verification/Cached.v ===== *)
(** * The page cache (internal/web/public.go)

    What a visitor gets from the cache was built at most [cacheTTL] ago and
    from the targets as they are now: every change made through the pages
    empties the cache. *)

From S2P Require Import Prelude Text Netip GoTime Sql Schema WellFormed Crypto Targets Checks.
From S2P Require Import Incidents Sessions Csrf Password Runner Scheduler Limit Validate Config.
From S2P Require Import Pages Server Handlers Guard Admission.

Section Cached.
Context `{!Crypto, !NetLib}.

(** ** What is in the cache *)

(** [b] is what the handlers build for [key] at [at_] in the world [w]. *)
Definition built (key : string) (at_ : Time) (b : body) (w : World Db) : Prop :=
  (key = "api" ∧ ∃ l w', api_page at_ w = (Ok l, w') ∧ b = BApi l) ∨
  (∃ lang, key = "status/" +:+ lang ∧ ∃ p w', status_page at_ lang w = (Ok p, w') ∧ b = BStatus p).

(** Each entry was built from the targets of [s]. *)
Definition cache_ok (s : Server) : Prop :=
  ∀ key b at_, sv_cache s !! key = Some (b, at_) →
    ∃ w, targets (w_db w) = targets (sv_db s) ∧ built key at_ b w.

(** ** Handlers that leave the cache alone or empty it *)

Definition same_targets (d db : Db) : Prop := targets db = targets d.

Definition quiet_or_cleared (s s' : Server) : Prop :=
  sv_cache s' = sv_cache s ∧ same_targets (sv_db s) (sv_db s') ∨ sv_cache s' = ∅.

#[export] Instance quiet_or_cleared_preorder : PreOrder quiet_or_cleared.
Proof.
  unfold quiet_or_cleared, same_targets. split; [by intros s; left|].
  intros s1 s2 s3 [[Hc Ht]|Hc] [[Hc' Ht']|Hc']; rewrite ?Hc', ?Ht'; auto.
Qed.

Lemma on_db_quiet {A} (m : M Db A) s :
  (∀ d, keeps (same_targets d) m) → quiet_or_cleared s (on_db m s).2.
Proof.
  intros Hm. left. specialize (Hm (sv_db s) (sv_world s)). unfold on_db.
  destruct (m (sv_world s)) as [r w]. unfold sv_db in *. simpl in *. split; [done|]. by apply Hm.
Qed.

Lemma same_state s s' :
  sv_cache s' = sv_cache s → sv_db s' = sv_db s → quiet_or_cleared s s'.
Proof. intros Hc Hd. left. unfold same_targets. by rewrite Hd. Qed.

Lemma cleared s s' : sv_cache s' = ∅ → quiet_or_cleared s s'.
Proof. by right. Qed.

Lemma targets_stmt {A} d (f : Db → res sqlerr (A * Db)) :
  (∀ db a db', f db = Ok (a, db') → targets db' = targets db) → keeps (same_targets d) (stmt f).
Proof. intros Hf. apply keeps_stmt. unfold same_targets. intros db a db' Hd He%Hf. congruence. Qed.

Lemma targets_TouchSession d now token : keeps (same_targets d) (TouchSession now token).
Proof.
  apply keeps_affected, targets_stmt. intros db a db'. repeat case_match; intros; by simplify_eq.
Qed.

Lemma targets_DeleteSession d token : keeps (same_targets d) (DeleteSession token).
Proof. apply targets_stmt. intros; by simplify_eq. Qed.

Lemma targets_CreateSession d now token csrf : keeps (same_targets d) (CreateSession now token csrf).
Proof.
  apply keeps_bind; [|auto with sql]. apply targets_stmt. intros db a db'.
  case_match; intros; by simplify_eq.
Qed.

Lemma targets_CreateDevice d now token : keeps (same_targets d) (CreateDevice now token).
Proof.
  apply keeps_bind; [|auto with sql]. apply targets_stmt. intros db a db'.
  case_match; intros; by simplify_eq.
Qed.

Hint Resolve targets_TouchSession targets_DeleteSession targets_CreateSession
  targets_CreateDevice : sql.
Hint Resolve on_db_quiet same_state cleared : frame.

Variable cfg : Config.
Variable has_mailer : bool.
Variable has_file : string → bool.
Variable ev : world_in.

Lemma target_quiet rq id s : quiet_or_cleared s (target rq id s).2.
Proof. apply (target_frame same_targets quiet_or_cleared); auto with frame. Qed.

(** After a change the cache is empty; a change that failed was none. *)
Lemma reload_cleared id s : sv_cache (reload ev id s) = ∅.
Proof. unfold reload. by destruct (Reload _ _ _ _) as [r [w m]]. Qed.

(** A statement that reports an error has not changed the targets. *)
Lemma on_db_failed {A} (m : M Db A) s e s' :
  (∀ w e w', m w = (Err e, w') → w_db w' = w_db w) → on_db m s = (Err e, s') →
  quiet_or_cleared s s'.
Proof.
  unfold on_db. intros Hm. destruct (m (sv_world s)) as [r w] eqn:He. intros [= -> <-].
  apply same_state; [done|]. unfold sv_db. simpl. by apply Hm in He.
Qed.

Lemma affected_failed {Db} (m : M Db Z) :
  (∀ w e w', m w = (Err e, w') → w_db w' = w_db w) →
  (∀ w w', m w = (Ok 0, w') → w_db w' = w_db w) →
  ∀ w e w', affected m w = (Err e, w') → w_db w' = w_db w.
Proof.
  intros He Hz w e w'. unfold affected, bind. destruct (m w) as [[n|e'] w1] eqn:Hm.
  - case_decide; [|done]. subst n. unfold throw. intros [= <- <-]. by apply Hz.
  - intros [= -> ->]. by apply He in Hm.
Qed.

Lemma store_target_failed t w e w' : store_target ev t w = (Err e, w') → w_db w' = w_db w.
Proof.
  unfold store_target. case_decide; [apply stmt_atomic|]. unfold bind.
  destruct (UpdateTarget (ev_now ev) t w) as [[u|e'] w1] eqn:Hu; [done|]. intros [= -> ->].
  revert Hu. apply affected_failed; [intros ? ? ?; apply stmt_atomic|].
  intros w2 w3 Hs%stmt_ok.
  destruct (targets (w_db w2) !! ID t); [|by simplify_eq]. cbv zeta in Hs.
  destruct (target_row_ok _); by simplify_eq.
Qed.

Lemma SetPaused_failed now id p w e w' : SetPaused now id p w = (Err e, w') → w_db w' = w_db w.
Proof.
  apply affected_failed; [intros ? ? ?; apply stmt_atomic|].
  intros w2 w3 Hs%stmt_ok. repeat case_match; by simplify_eq.
Qed.

Lemma DeleteTarget_failed id w e w' : DeleteTarget id w = (Err e, w') → w_db w' = w_db w.
Proof.
  apply affected_failed; [intros ? ? ?; apply stmt_atomic|].
  intros w2 w3 Hs%stmt_ok. repeat case_match; by simplify_eq.
Qed.

Lemma save_target_quiet rq csrf t s : quiet_or_cleared s (save_target ev rq csrf t s).2.
Proof.
  unfold save_target. destruct (read_form rq t) as [t' errs]. case_decide; [|by apply same_state].
  destruct (on_db (store_target ev t') s) as [[id|e] s1] eqn:Hs.
  - apply cleared. apply reload_cleared.
  - apply on_db_failed in Hs; [|apply store_target_failed]. by destruct e.
Qed.

Lemma save_quiet rq id csrf s : quiet_or_cleared s (save ev rq id csrf s).2.
Proof.
  unfold save. pose proof (target_quiet rq id s) as Ht.
  destruct (target rq id s) as [[o|t] s1]; [exact Ht|]. etransitivity; [exact Ht|].
  apply save_target_quiet.
Qed.

Lemma pause_quiet rq id csrf s : quiet_or_cleared s (pause ev rq id csrf s).2.
Proof.
  unfold pause. pose proof (target_quiet rq id s) as Ht.
  destruct (target rq id s) as [[o|t] s1]; [exact Ht|]. etransitivity; [exact Ht|]. clear Ht.
  destruct (on_db _ s1) as [[u|e] s2] eqn:Hs.
  - apply cleared, reload_cleared.
  - apply on_db_failed in Hs; [|apply SetPaused_failed]. by destruct e.
Qed.

Lemma checkNow_quiet rq id csrf s : quiet_or_cleared s (checkNow ev rq id csrf s).2.
Proof.
  unfold checkNow. pose proof (target_quiet rq id s) as Ht.
  destruct (target rq id s) as [[o|t] s1]; [exact Ht|]. etransitivity; [exact Ht|].
  destruct (Paused t); [done|]. destruct (CheckNow _ _ _ _) as [ok m]. by apply same_state.
Qed.

(** A deletion that reports an error has left the targets alone. *)
Lemma Delete_failed id w m e w' m' :
  Scheduler.Delete id w m = (Err e, (w', m')) → w_db w' = w_db w.
Proof.
  unfold Scheduler.Delete. destruct (DeleteTarget id w) as [[u|e1] w1] eqn:Hd; [done|].
  apply DeleteTarget_failed in Hd. rewrite <-Hd.
  pose proof (reads_TargetByID (λ db, db = w_db w1) id w1 eq_refl) as Ht.
  destruct (TargetByID id w1) as [[t|e2] w2]; simpl in Ht; destruct e1; intros; by simplify_eq.
Qed.

Lemma remove_quiet rq id csrf s : quiet_or_cleared s (remove rq id csrf s).2.
Proof.
  unfold remove. destruct (pathID id) as [i|]; [|done].
  destruct (Scheduler.Delete i (sv_world s) (sv_mgr s)) as [[u|e] [w m]] eqn:Hd; [by apply cleared|].
  apply Delete_failed in Hd. destruct e; apply same_state; done.
Qed.

Lemma testMail_quiet rq csrf s : quiet_or_cleared s (testMail has_mailer ev rq csrf s).2.
Proof. unfold testMail. destruct has_mailer; [by apply same_state|done]. Qed.

(** Every handler but the two that build cached pages. *)
Lemma dispatch_quiet rq s :
  (∀ l, mux cfg rq ≠ RStatus l) → mux cfg rq ≠ RApi →
  quiet_or_cleared s (dispatch cfg has_mailer has_file ev rq s).2.
Proof.
  intros Hst Hap. unfold dispatch. destruct (mux cfg rq) eqn:Hm; try done;
    try (apply (guarded_frame same_targets quiet_or_cleared); auto with frame sql; intros).
  - by destruct (Hst lang).
  - apply (detail_frame same_targets quiet_or_cleared); auto with frame.
  - apply (healthz_frame same_targets quiet_or_cleared); auto with frame.
  - apply (metrics_frame same_targets quiet_or_cleared); auto with frame.
  - by apply (loginForm_frame quiet_or_cleared).
  - apply (login_frame same_targets quiet_or_cleared); auto with frame sql.
  - apply (logout_frame same_targets quiet_or_cleared); auto with frame sql.
  - apply (list_targets_frame same_targets quiet_or_cleared); auto with frame sql.
  - apply save_target_quiet.
  - apply (editForm_frame same_targets quiet_or_cleared); auto with frame sql.
  - apply save_quiet.
  - apply pause_quiet.
  - apply checkNow_quiet.
  - apply remove_quiet.
  - apply testMail_quiet.
Qed.

Lemma quiet_cache_ok s s' : quiet_or_cleared s s' → cache_ok s → cache_ok s'.
Proof.
  intros [[Hc Ht]|Hc] Hok key b at_; rewrite Hc; [|by rewrite lookup_empty].
  intros (w & Hw & Hb)%Hok. exists w. split; [by rewrite Hw, Ht|done].
Qed.

(** ** The pages from the cache *)

(** The body behind a reply: built recently, from the present targets. *)
Definition current (now : Time) (key : string) (s : Server) (b : body) : Prop :=
  ∃ at_ w, Sub now at_ < cacheTTL ∧ targets (w_db w) = targets (sv_db s) ∧ built key at_ b w.

Lemma fromCache_ok now rq key build show s :
  (∀ d, keeps (same_targets d) build) →
  (∀ w b w', build w = (Ok b, w') → built key now b w) →
  cache_ok s →
  let '(o, s') := fromCache now rq key build show s in
  cache_ok s' ∧ ((∃ e, o = fail rq e) ∨ ∃ b, o = plain (show b) ∧ current now key s b).
Proof.
  intros Hk Hb Hok. unfold fromCache.
  assert (Hbuild : let '(o, s') := let '(r, s0) := on_db build s in
      match r with
      | Ok b => (plain (show b), set_cache (<[key := (b, now)]> (sv_cache s0)) s0)
      | Err e => (fail rq e, s0)
      end in
    cache_ok s' ∧ ((∃ e, o = fail rq e) ∨ ∃ b, o = plain (show b) ∧ current now key s b)).
  { pose proof (on_db_quiet build s Hk) as Hq. pose proof (quiet_cache_ok _ _ Hq Hok) as Hok'.
    specialize (Hk (sv_db s) (sv_world s) eq_refl). unfold on_db in *.
    destruct (build (sv_world s)) as [[b|e] w] eqn:He; simpl in *; [|eauto].
    assert (Hbw : targets (w_db (sv_world s)) = targets (sv_db s)) by done.
    split.
    - intros k b' at_. simpl. rewrite lookup_insert. case_decide.
      + intros [= <- <-]. subst k. exists (sv_world s). split; [by rewrite Hbw|by eapply Hb].
      + intros (w1 & Hw & Hb1)%Hok'. by exists w1.
    - right. exists b. split; [done|]. exists now, (sv_world s).
      unfold Sub. rewrite Z.sub_diag. split_and!; [done|done|by eapply Hb]. }
  destruct (sv_cache s !! key) as [[b at_]|] eqn:Hc; [|exact Hbuild].
  case_decide as Hf; [|exact Hbuild]. split; [done|]. right. exists b. split; [done|].
  destruct (Hok key b at_ Hc) as (w & Hw & Hbt). by exists at_, w.
Qed.

Lemma status_ok now rq l s :
  cache_ok s →
  let '(o, s') := status now rq l s in
  cache_ok s' ∧ ((∃ e, o = fail rq e) ∨ ∃ b, o = plain (show_body b) ∧ current now ("status/" +:+ l) s b).
Proof.
  apply fromCache_ok.
  - intros d. apply keeps_bind; [apply reads_status_page|intros; apply keeps_ret].
  - intros w b w' Hb. apply bind_ok in Hb as (p & w1 & Hp & Hr). unfold ret in Hr. simplify_eq.
    right. eauto 10.
Qed.

Lemma api_ok now rq s :
  cache_ok s →
  let '(o, s') := api now rq s in
  cache_ok s' ∧ ((∃ e, o = fail rq e) ∨ ∃ b, o = plain (show_body b) ∧ current now "api" s b).
Proof.
  apply fromCache_ok.
  - intros d. apply keeps_bind; [apply reads_api_page|intros; apply keeps_ret].
  - intros w b w' Hb. apply bind_ok in Hb as (p & w1 & Hp & Hr). unfold ret in Hr. simplify_eq.
    left. eauto 10.
Qed.

Lemma fail_reply rq e : o_reply (fail rq e) = NoReply ∨ o_reply (fail rq e) = Shown 500 (PError (lang rq)).
Proof. unfold fail. repeat case_match; auto. Qed.
End Cached.

(** ** Properties *)

(** C27: starting from an empty cache, whatever requests follow
    and whatever the monitor writes about the targets in between: a status
    page was built less than five seconds before and from the targets as they
    are stored now, so that a target that was paused, hidden, renamed or
    deleted through the pages is gone from the very next page; likewise the
    API. *)
Theorem cache_current `{!Crypto, !NetLib} cfg has_mailer has_file ev rq s :
  cache_ok s →
  let '(o, s') := serve cfg has_mailer has_file ev rq s in
  cache_ok s' ∧
  (∀ l p, mux cfg rq = RStatus l → o_reply o = Shown 200 (PStatus p) →
     ∃ at_ w w', Sub (ev_now ev) at_ < cacheTTL ∧ targets (w_db w) = targets (sv_db s) ∧
       status_page at_ l w = (Ok p, w')) ∧
  (∀ l, mux cfg rq = RApi → o_reply o = Json l →
     ∃ at_ w w', Sub (ev_now ev) at_ < cacheTTL ∧ targets (w_db w) = targets (sv_db s) ∧
       api_page at_ w = (Ok l, w')).
Proof.
  intros Hok. unfold serve. destruct (cross_origin_ok rq); [|by split_and!].
  destruct (mux cfg rq) eqn:Hm; try
    (pose proof (dispatch_quiet cfg has_mailer has_file ev rq s) as Hq;
     rewrite Hm in Hq; specialize (Hq ltac:(done) ltac:(done));
     destruct (dispatch _ _ _ _ rq s) as [o s']; split_and!; try done;
     by apply (quiet_cache_ok s)); unfold dispatch; rewrite Hm.
  - pose proof (status_ok (ev_now ev) rq lang s Hok) as Hs. destruct (status _ _ _ s) as [o s'].
    destruct Hs as [Hok' Ho]. split_and!; [done| |done]. intros l p [= <-] Hr.
    destruct Ho as [[e ->]|(b & -> & at_ & w & Hf & Hw & Hb)].
    { destruct (fail_reply rq e) as [He|He]; by rewrite He in Hr. }
    destruct Hb as [(? & _)|(l' & ? & q & w' & Hq & ->)]; [done|]. simplify_eq/=. eauto 10.
  - pose proof (api_ok (ev_now ev) rq s Hok) as Hs. destruct (api _ _ s) as [o s'].
    destruct Hs as [Hok' Ho]. split_and!; [done|done|]. intros l _ Hr.
    destruct Ho as [[e ->]|(b & -> & at_ & w & Hf & Hw & Hb)].
    { destruct (fail_reply rq e) as [He|He]; by rewrite He in Hr. }
    destruct Hb as [(_ & q & w' & Hq & ->)|(? & ? & _)]; [|done]. simplify_eq/=. eauto 10.
Qed.

Lemma cache_current_witness :
  let get := mkRequest "GET" "/" "status.example.org" "" "" ∅ ∅ None "192.0.2.7:4711" [] "" false in
  let s := sample_server signed_in_db in
  let '(o, s') := @serve toy_crypto plain_netlib plain_config false (λ _, false) sample_in get s in
  cache_ok s' ∧ (∃ p, o_reply o = Shown 200 (PStatus p)) ∧ is_Some (sv_cache s' !! "status/de").
Proof.
  intros get s.
  pose proof (@cache_current toy_crypto plain_netlib plain_config false (λ _, false) sample_in get s)
    as Hc.
  assert (Hs : (∃ p, o_reply (@serve toy_crypto plain_netlib plain_config false (λ _, false)
      sample_in get s).1 = Shown 200 (PStatus p)) ∧
    is_Some (sv_cache (@serve toy_crypto plain_netlib plain_config false (λ _, false)
      sample_in get s).2 !! "status/de")) by (split; eexists; vm_compute; reflexivity).
  destruct (serve _ _ _ _ _ _) as [o s']. split; [|exact Hs].
  apply Hc. intros key b at_ Hb. change ((∅ : gmap string (body * Time)) !! key = Some (b, at_)) in Hb.
  by rewrite lookup_empty in Hb.
Defined.
