(* ===== verification/CacheLocks.v ===== *)
(** * The page cache under concurrent requests (internal/web/public.go)

    [Server] handles one request after the other.  Here are the locks of the
    cache: requests that look an entry up, wait for it, and build it while
    administrators change the database and drop all entries.  An entry is an
    object of the heap that outlives its place in the map, so a page that was
    being built when the cache was cleared goes to the requests that already
    had its entry, and to no later one.

    The database is a version that every change increments; a page is the list
    of versions its statements saw. *)

From S2P Require Import Prelude GoTime Server.

(** ** The state *)

(** A page: the key it was built for, and what its statements saw. *)
Record content : Type := mkContent { ct_key : string; ct_seen : list nat }.

(** [struct cached]; the holder of [mu]. *)
Record entry : Type := mkEntry {
  en_body : option content;
  en_at : Time;
  en_mu : option nat
}.

(** Where a request for a cached page is: before [cacheMu]; before [c.mu];
    inside [get]; building since an instant; answered. *)
Inductive reader : Type :=
  | RLookup (key : string)
  | RWait (key : string) (e : nat)
  | RLocked (key : string) (e : nat)
  | RBuild (key : string) (e : nat) (t : Time) (seen : list nat)
  | RDone (key : string) (b : option content).

(** A handler that changes targets: before the statement, before
    [clearCache], finished; with the version it wrote. *)
Inductive writer : Type :=
  | WStore
  | WClear (v : nat)
  | WDone (v : nat).

Record shared : Type := mkShared {
  sh_heap : gmap nat entry;
  sh_cache : gmap string nat;
  sh_version : nat;
  sh_now : Time;
  sh_readers : gmap nat reader;
  sh_writers : gmap nat writer
}.

Definition shared0 (now : Time) : shared := mkShared ∅ ∅ 0 now ∅ ∅.

Definition put_entry (e : nat) (en : entry) (s : shared) : shared :=
  mkShared (<[e := en]> (sh_heap s)) (sh_cache s) (sh_version s) (sh_now s) (sh_readers s) (sh_writers s).
Definition put_cache (c : gmap string nat) (s : shared) : shared :=
  mkShared (sh_heap s) c (sh_version s) (sh_now s) (sh_readers s) (sh_writers s).
Definition put_reader (q : nat) (r : reader) (s : shared) : shared :=
  mkShared (sh_heap s) (sh_cache s) (sh_version s) (sh_now s) (<[q := r]> (sh_readers s)) (sh_writers s).
Definition put_writer (w : nat) (p : writer) (s : shared) : shared :=
  mkShared (sh_heap s) (sh_cache s) (sh_version s) (sh_now s) (sh_readers s) (<[w := p]> (sh_writers s)).
Definition put_version (v : nat) (s : shared) : shared :=
  mkShared (sh_heap s) (sh_cache s) v (sh_now s) (sh_readers s) (sh_writers s).
Definition put_now (t : Time) (s : shared) : shared :=
  mkShared (sh_heap s) (sh_cache s) (sh_version s) t (sh_readers s) (sh_writers s).

Definition with_mu (h : option nat) (en : entry) : entry := mkEntry (en_body en) (en_at en) h.

(** [c.body == nil || t.Sub(c.at) >= cacheTTL], negated: what is served. *)
Definition hit (t : Time) (en : entry) : option content :=
  b ← en_body en; if decide (Sub t (en_at en) < cacheTTL) then Some b else None.

(** ** Steps *)

Inductive clabel : Type := CReader (q : nat) | CWriter (w : nat) | CTick.

Inductive cachestep : shared → clabel → shared → Prop :=
  | cs_tick s t : sh_now s ≤ t → cachestep s CTick (put_now t s)
  (* fromCache: the entry of the key, under [cacheMu] *)
  | cs_arrive s q key :
      sh_readers s !! q = None → cachestep s (CReader q) (put_reader q (RLookup key) s)
  | cs_found s q key e :
      sh_readers s !! q = Some (RLookup key) → sh_cache s !! key = Some e →
      cachestep s (CReader q) (put_reader q (RWait key e) s)
  | cs_created s q key e :
      sh_readers s !! q = Some (RLookup key) → sh_cache s !! key = None → sh_heap s !! e = None →
      cachestep s (CReader q)
        (put_reader q (RWait key e) (put_cache (<[key := e]> (sh_cache s))
          (put_entry e (mkEntry None zeroTime None) s)))
  (* get: [mu], the instant, and the body or a new one *)
  | cs_lock s q key e en :
      sh_readers s !! q = Some (RWait key e) → sh_heap s !! e = Some en → en_mu en = None →
      cachestep s (CReader q) (put_reader q (RLocked key e) (put_entry e (with_mu (Some q) en) s))
  | cs_hit s q key e en b :
      sh_readers s !! q = Some (RLocked key e) → sh_heap s !! e = Some en →
      hit (sh_now s) en = Some b →
      cachestep s (CReader q) (put_reader q (RDone key (Some b)) (put_entry e (with_mu None en) s))
  | cs_miss s q key e en :
      sh_readers s !! q = Some (RLocked key e) → sh_heap s !! e = Some en →
      hit (sh_now s) en = None →
      cachestep s (CReader q) (put_reader q (RBuild key e (sh_now s) []) s)
  | cs_read s q key e t seen :
      sh_readers s !! q = Some (RBuild key e t seen) →
      cachestep s (CReader q) (put_reader q (RBuild key e t (seen ++ [sh_version s])) s)
  | cs_built s q key e t seen en :
      sh_readers s !! q = Some (RBuild key e t seen) → sh_heap s !! e = Some en →
      cachestep s (CReader q)
        (put_reader q (RDone key (Some (mkContent key seen)))
          (put_entry e (mkEntry (Some (mkContent key seen)) t None) s))
  | cs_failed s q key e t seen en :
      sh_readers s !! q = Some (RBuild key e t seen) → sh_heap s !! e = Some en →
      cachestep s (CReader q) (put_reader q (RDone key None) (put_entry e (with_mu None en) s))
  (* a handler that changes targets *)
  | cs_begin s w : sh_writers s !! w = None → cachestep s (CWriter w) (put_writer w WStore s)
  | cs_store s w :
      sh_writers s !! w = Some WStore →
      cachestep s (CWriter w) (put_writer w (WClear (S (sh_version s))) (put_version (S (sh_version s)) s))
  | cs_clear s w v :
      sh_writers s !! w = Some (WClear v) →
      cachestep s (CWriter w) (put_writer w (WDone v) (put_cache ∅ s)).

Inductive cacherun : shared → list clabel → shared → Prop :=
  | cr_nil s : cacherun s [] s
  | cr_cons s1 l s2 ls s3 : cachestep s1 l s2 → cacherun s2 ls s3 → cacherun s1 (l :: ls) s3.

Lemma cacherun_inv (I : shared → Prop) s ls s' :
  (∀ s1 l s2, I s1 → cachestep s1 l s2 → I s2) → I s → cacherun s ls s' → I s'.
Proof. intros Hstep Hs Hrun. induction Hrun; eauto. Qed.

Definition cache_reachable (now : Time) (s : shared) : Prop := ∃ ls, cacherun (shared0 now) ls s.

(** ** Entries and who uses them *)

Definition entry_of (r : reader) : option nat :=
  match r with RWait _ e | RLocked _ e | RBuild _ e _ _ => Some e | _ => None end.

Definition key_for (r : reader) : string :=
  match r with
  | RLookup k | RWait k _ | RLocked k _ | RBuild k _ _ _ | RDone k _ => k
  end.

Definition inside (r : reader) : bool :=
  match r with RLocked _ _ | RBuild _ _ _ _ => true | _ => false end.

(** Every pointer is to an entry, [mu] is held by the request inside [get],
    and each entry is of one key. *)
Record locks (f : gmap nat string) (s : shared) : Prop := mkLocks {
  lk_dom e : is_Some (f !! e) ↔ is_Some (sh_heap s !! e);
  lk_cache key e : sh_cache s !! key = Some e → f !! e = Some key;
  lk_reader q r e : sh_readers s !! q = Some r → entry_of r = Some e → f !! e = Some (key_for r);
  lk_body e en b : sh_heap s !! e = Some en → en_body en = Some b → f !! e = Some (ct_key b);
  lk_done q key b : sh_readers s !! q = Some (RDone key (Some b)) → ct_key b = key;
  lk_inside q r e : sh_readers s !! q = Some r → entry_of r = Some e → inside r = true →
    ∃ en, sh_heap s !! e = Some en ∧ en_mu en = Some q;
  lk_mu e en q : sh_heap s !! e = Some en → en_mu en = Some q →
    ∃ r, sh_readers s !! q = Some r ∧ entry_of r = Some e ∧ inside r = true;
}.

Lemma locks0 now : locks ∅ (shared0 now).
Proof. split; simpl; intros; simplify_map_eq; done. Qed.

(** A reader moves on, and perhaps its entry with it. *)
Lemma locks_move f s q r r' e en en' :
  locks f s → sh_readers s !! q = Some r → entry_of r = Some e → sh_heap s !! e = Some en →
  key_for r' = key_for r → (∀ e', entry_of r' = Some e' → e' = e) →
  (∀ b, en_body en' = Some b → en_body en = Some b ∨ ct_key b = key_for r) →
  (∀ k b, r' = RDone k (Some b) → ct_key b = k) →
  (inside r = true ∨ en_mu en = None) →
  en_mu en' = (if inside r' then Some q else None) → (inside r' = true → entry_of r' = Some e) →
  locks f (put_reader q r' (put_entry e en' s)).
Proof.
  intros [Hd Hc Hr Hb Hdn Hi Hm] Hq He Hen Hk Hp Hbody Hdone Hexcl Hmu Hin'. split; simpl.
  - intros e'. rewrite Hd. destruct (decide (e' = e)) as [->|];
      [rewrite lookup_insert_eq, Hen; naive_solver|by rewrite lookup_insert_ne].
  - done.
  - intros q' r0 e' [[<- <-]|[Hne Hq']]%lookup_insert_Some Hp'; [|by eapply Hr].
    rewrite (Hp _ Hp'), Hk. by eapply Hr.
  - intros e' x b [[<- <-]|[Hne Hx]]%lookup_insert_Some Hx'; [|by eapply Hb].
    destruct (Hbody _ Hx') as [? | ->]; [by eapply Hb|by eapply Hr].
  - intros q' k b [[<- E]|[Hne Hq']]%lookup_insert_Some; [by apply Hdone|by eapply Hdn].
  - intros q' r0 e' [[<- <-]|[Hne Hq']]%lookup_insert_Some Hp' Hin.
    + rewrite (Hp _ Hp'), lookup_insert_eq. eexists. split; [done|]. by rewrite Hmu, Hin.
    + destruct (Hi _ _ _ Hq' Hp' Hin) as (x & Hx & Hxm). destruct (decide (e' = e)) as [->|].
      * exfalso. simplify_eq. destruct Hexcl as [Hin0|?]; [|congruence].
        destruct (Hi _ _ _ Hq He Hin0) as (y & Hy & Hym). congruence.
      * exists x. by rewrite lookup_insert_ne.
  - intros e' x q' [[<- <-]|[Hne Hx]]%lookup_insert_Some Hxm.
    + rewrite Hmu in Hxm. destruct (inside r') eqn:Hin; [|done]. simplify_eq.
      exists r'. rewrite lookup_insert_eq. auto.
    + destruct (Hm _ _ _ Hx Hxm) as (r0 & Hq' & Hp' & Hin). destruct (decide (q' = q)) as [->|].
      * simplify_eq.
      * exists r0. by rewrite lookup_insert_ne.
Qed.

Lemma locks_found f s q key e :
  locks f s → sh_readers s !! q = Some (RLookup key) → sh_cache s !! key = Some e →
  locks f (put_reader q (RWait key e) s).
Proof.
  intros [Hd Hc Hr Hb Hdn Hi Hm] Hq He. split; simpl; try done.
  - intros q' r0 e' [[<- <-]|[Hne Hq']]%lookup_insert_Some Hp'; [|by eapply Hr].
    simplify_eq/=. by apply Hc.
  - intros q' k b [[<- E]|[Hne Hq']]%lookup_insert_Some; [done|by eapply Hdn].
  - intros q' r0 e' [[<- <-]|[Hne Hq']]%lookup_insert_Some Hp' Hin; [done|by eapply Hi].
  - intros e' x q' Hx Hxm. destruct (Hm _ _ _ Hx Hxm) as (r0 & Hq' & Hp' & Hin).
    exists r0. rewrite lookup_insert_ne; [done|]. intros <-. by simplify_eq.
Qed.

Lemma locks_created f s q key e :
  locks f s → sh_readers s !! q = Some (RLookup key) → sh_heap s !! e = None →
  locks (<[e := key]> f) (put_reader q (RWait key e) (put_cache (<[key := e]> (sh_cache s))
    (put_entry e (mkEntry None zeroTime None) s))).
Proof.
  intros [Hd Hc Hr Hb Hdn Hi Hm] Hq He.
  assert (Hfe : f !! e = None).
  { apply eq_None_not_Some. rewrite Hd, He. by intros [? ?]. }
  assert (Hkeep : ∀ e' k, f !! e' = Some k → <[e := key]> f !! e' = Some k).
  { intros e' k Hk. rewrite lookup_insert_ne; [done|]. congruence. }
  split; simpl.
  - intros e'. destruct (decide (e' = e)) as [->|];
      [rewrite !lookup_insert_eq; naive_solver|by rewrite !lookup_insert_ne].
  - intros k e' [[<- <-]|[Hne Hk]]%lookup_insert_Some; [apply lookup_insert_eq|].
    by apply Hkeep, Hc.
  - intros q' r0 e' [[<- <-]|[Hne Hq']]%lookup_insert_Some Hp'.
    + simplify_eq/=. apply lookup_insert_eq.
    + by eapply Hkeep, Hr.
  - intros e' x b [[<- <-]|[Hne Hx]]%lookup_insert_Some Hx'; [done|]. by eapply Hkeep, Hb.
  - intros q' k b [[<- E]|[Hne Hq']]%lookup_insert_Some; [done|by eapply Hdn].
  - intros q' r0 e' [[<- <-]|[Hne Hq']]%lookup_insert_Some Hp' Hin; [done|].
    destruct (Hi _ _ _ Hq' Hp' Hin) as (x & Hx & Hxm). exists x.
    rewrite lookup_insert_ne; [done|]. congruence.
  - intros e' x q' [[<- <-]|[Hne Hx]]%lookup_insert_Some Hxm; [done|].
    destruct (Hm _ _ _ Hx Hxm) as (r0 & Hq' & Hp' & Hin).
    exists r0. rewrite lookup_insert_ne; [done|]. intros <-. by simplify_eq.
Qed.

Lemma locks_same f s s' :
  locks f s → sh_heap s' = sh_heap s → sh_readers s' = sh_readers s →
  (∀ k e, sh_cache s' !! k = Some e → sh_cache s !! k = Some e) → locks f s'.
Proof. intros [? Hc ? ? ? ? ?] Hh Hr Hk. split; rewrite ?Hh, ?Hr; try done. eauto. Qed.

Lemma locks_arrive f s q key :
  locks f s → sh_readers s !! q = None → locks f (put_reader q (RLookup key) s).
Proof.
  intros [Hd Hc Hr Hb Hdn Hi Hm] Hq. split; simpl; try done.
  - intros q' r0 e' [[<- <-]|[Hne Hq']]%lookup_insert_Some Hp'; [done|by eapply Hr].
  - intros q' k b [[<- E]|[Hne Hq']]%lookup_insert_Some; [done|by eapply Hdn].
  - intros q' r0 e' [[<- <-]|[Hne Hq']]%lookup_insert_Some Hp' Hin; [done|by eapply Hi].
  - intros e' x q' Hx Hxm. destruct (Hm _ _ _ Hx Hxm) as (r0 & Hq' & Hp' & Hin).
    exists r0. rewrite lookup_insert_ne; [done|]. congruence.
Qed.

Lemma hit_body t en b : hit t en = Some b → en_body en = Some b.
Proof. unfold hit. destruct (en_body en); simpl; [|done]. case_decide; congruence. Qed.

(** A reader inside [get] goes on without changing its entry. *)
Lemma locks_stay f s q r r' e :
  locks f s → sh_readers s !! q = Some r → entry_of r = Some e → inside r = true →
  key_for r' = key_for r → entry_of r' = Some e → inside r' = true → locks f (put_reader q r' s).
Proof.
  intros Hs Hq He Hin Hk He' Hin'. destruct (lk_inside _ _ Hs _ _ _ Hq He Hin) as (en & Hen & Hmu).
  eapply (locks_same _ (put_reader q r' (put_entry e en s))); [|simpl; by rewrite insert_id|done..].
  eapply locks_move; [exact Hs|exact Hq|exact He|exact Hen|done|congruence|auto| |auto| |done].
  - by intros k b ->.
  - by rewrite Hin'.
Qed.

Lemma locks_step f s l s' : locks f s → cachestep s l s' → ∃ f', locks f' s'.
Proof.
  intros Hs Hstep. pose proof Hs as [Hd Hc Hr Hb Hdn Hi Hm].
  destruct Hstep as [|s q key|s q key e|s q key e|s q key e en Hq He|s q key e en b Hq He Hhit| | |
    s q key e t seen en Hq He|s q key e t seen en Hq He| | |];
    first [by eexists; apply locks_created|exists f].
  - by eapply locks_same.
  - by apply locks_arrive.
  - by apply locks_found.
  - eapply locks_move; [exact Hs|done..| | | | | |]; simpl; try done; [congruence|auto|auto].
  - eapply locks_move; [exact Hs|done..| | | | | |]; simpl; try done; [auto| |auto].
    intros k b' [= <- <-]. apply hit_body in Hhit.
    pose proof (Hb _ _ _ He Hhit). pose proof (Hr _ _ _ Hq eq_refl). simpl in *. congruence.
  - by eapply locks_stay.
  - by eapply locks_stay.
  - eapply locks_move; [exact Hs|done..| | | | | |]; simpl; try done; [|by intros ? ? [= <- <-]|auto].
    intros b [= <-]. by right.
  - eapply locks_move; [exact Hs|done..| | | | | |]; simpl; try done; auto.
  - by eapply locks_same.
  - by eapply locks_same.
  - eapply locks_same; [done..|]. intros k e Hk. simpl in Hk. by rewrite lookup_empty in Hk.
Qed.

Lemma locks_reachable now s : cache_reachable now s → ∃ f, locks f s.
Proof.
  intros [ls Hrun]. revert Hrun. apply (cacherun_inv (λ s, ∃ f, locks f s)).
  - intros s1 l s2 [f Hf] Hstep. by apply (locks_step f s1 l s2).
  - exists ∅. apply locks0.
Qed.

(** ** What is younger than a change

    [old] are the entries and [before] the requests of the moment the cache
    was cleared, [v] the version of the change. *)

Section Young.
Variables (old : gset nat) (before : gset nat) (v : nat).

Definition recent (l : list nat) : Prop := Forall (λ n, (v ≤ n)%nat) l.

Definition seen_by (r : reader) : list nat := match r with RBuild _ _ _ seen => seen | _ => [] end.

Record young (s : shared) : Prop := mkYoung {
  yg_version : (v ≤ sh_version s)%nat;
  yg_old e : e ∈ old → is_Some (sh_heap s !! e);
  yg_before q : q ∈ before → is_Some (sh_readers s !! q);
  yg_cache key e : sh_cache s !! key = Some e → e ∉ old;
  yg_body e en b : e ∉ old → sh_heap s !! e = Some en → en_body en = Some b → recent (ct_seen b);
  yg_seen q r e : sh_readers s !! q = Some r → entry_of r = Some e → e ∉ old → recent (seen_by r);
  yg_new q r e : q ∉ before → sh_readers s !! q = Some r → entry_of r = Some e → e ∉ old;
  yg_done q key b : q ∉ before → sh_readers s !! q = Some (RDone key (Some b)) → recent (ct_seen b);
}.

Lemma young_same s s' :
  young s → sh_heap s' = sh_heap s → sh_readers s' = sh_readers s →
  (sh_version s ≤ sh_version s')%nat → (∀ k e, sh_cache s' !! k = Some e → sh_cache s !! k = Some e) →
  young s'.
Proof.
  intros [? ? ? ? ? ? ? ?] Hh Hr Hv Hk. split; rewrite ?Hh, ?Hr; try done; [lia|eauto].
Qed.

(** A reader moves to [r'], and the heap to [h]. *)
Lemma young_move s q r r' h c :
  young s → sh_readers s !! q = Some r →
  (∀ e, is_Some (sh_heap s !! e) → is_Some (h !! e)) →
  (∀ key e, c !! key = Some e → e ∉ old) →
  (∀ e en b, e ∉ old → h !! e = Some en → en_body en = Some b → recent (ct_seen b)) →
  (∀ e, entry_of r' = Some e → e ∉ old → recent (seen_by r')) →
  (q ∉ before → ∀ e, entry_of r' = Some e → e ∉ old) →
  (q ∉ before → ∀ key b, r' = RDone key (Some b) → recent (ct_seen b)) →
  young (mkShared h c (sh_version s) (sh_now s) (<[q := r']> (sh_readers s)) (sh_writers s)).
Proof.
  intros [Hv Ho Hbe Hc Hb Hs Hn Hd] Hq Hh Hc' Hb' Hs' Hn' Hd'. split; simpl; try done; eauto.
  - intros q' Hq'. destruct (decide (q' = q)) as [->|];
      [by rewrite lookup_insert_eq|rewrite lookup_insert_ne by done; by apply Hbe].
  - intros q' r0 e [[<- <-]|[Hne Hq']]%lookup_insert_Some; [by apply Hs'|]. by apply (Hs q').
  - intros q' r0 e Hnew [[<- <-]|[Hne Hq']]%lookup_insert_Some; [by apply Hn'|]. by apply (Hn q').
  - intros q' k b Hnew [[<- E]|[Hne Hq']]%lookup_insert_Some; [by eapply Hd'|]. by apply (Hd q' k).
Qed.
(** The same where the entry of the reader changes with it. *)
Lemma young_entry s q r r' e en en' :
  young s → sh_readers s !! q = Some r → entry_of r = Some e → sh_heap s !! e = Some en →
  (∀ e', entry_of r' = Some e' → e' = e) →
  (∀ b, e ∉ old → en_body en' = Some b → recent (ct_seen b)) →
  (e ∉ old → recent (seen_by r')) →
  (e ∉ old → ∀ key b, r' = RDone key (Some b) → recent (ct_seen b)) →
  young (put_reader q r' (put_entry e en' s)).
Proof.
  intros Hs Hq He Hen Hp Hb' Hs' Hd'. eapply (young_move s q r r'); simpl; [done..| | | | | |].
  - intros e' Hx. destruct (decide (e' = e)) as [->|];
      [by rewrite lookup_insert_eq|by rewrite lookup_insert_ne].
  - apply Hs.
  - intros e' x b Ho [[<- <-]|[Hne Hx]]%lookup_insert_Some Hx'; [by apply Hb'|]. by eapply yg_body.
  - intros e' He' Ho. apply Hp in He' as ->. auto.
  - intros Hnew e' ->%Hp. by eapply yg_new.
  - intros Hnew key b Hr'. eapply Hd'; [|done]. by eapply yg_new.
Qed.

Lemma young_step s l s' : young s → cachestep s l s' → young s'.
Proof.
  intros Hs Hstep. destruct Hstep as [|s q key Hq|s q key e Hq He|s q key e Hq Hk He|s q key e en Hq He Hmu|
    s q key e en b Hq He Hhit|s q key e en Hq He Hmiss|s q key e t seen Hq|s q key e t seen en Hq He|
    s q key e t seen en Hq He|s w Hw|s w Hw|s w v' Hw].
  - by eapply young_same.
  - pose proof Hs as [Hv Ho Hbe Hc Hb Hsn Hn Hd]. split; simpl; try done.
    + intros q' Hq'. destruct (decide (q' = q)) as [->|];
        [by rewrite lookup_insert_eq|rewrite lookup_insert_ne by done; by apply Hbe].
    + intros q' r0 e [[<- <-]|[Hne Hq']]%lookup_insert_Some; [done|by eapply Hsn].
    + intros q' r0 e Hnew [[<- <-]|[Hne Hq']]%lookup_insert_Some; [done|by eapply Hn].
    + intros q' k b Hnew [[<- E]|[Hne Hq']]%lookup_insert_Some; [done|by eapply Hd].
  - eapply (young_move s q); [exact Hs|exact Hq|done|apply Hs|by eapply yg_body|by constructor| |done].
    intros _ e' [= <-]. by eapply yg_cache.
  - assert (He' : e ∉ old) by (intros [x Hx]%(yg_old _ Hs); congruence).
    eapply (young_move s q); [exact Hs|exact Hq| | | |by constructor| |done].
    + intros e' Hx. simpl. destruct (decide (e' = e)) as [->|];
        [by rewrite lookup_insert_eq|by rewrite lookup_insert_ne].
    + simpl. intros k e' [[<- <-]|[Hne Hx]]%lookup_insert_Some; [done|by eapply yg_cache].
    + simpl. intros e' x b Ho [[<- <-]|[Hne Hx]]%lookup_insert_Some Hx'; [done|by eapply yg_body].
    + intros _ e' [= <-]. done.
  - eapply (young_entry s q _ (RLocked key e)); [done|exact Hq|done|exact He|by intros ? [= <-]| |by constructor|done].
    intros b Ho Hb. by eapply yg_body.
  - eapply (young_entry s q _ (RDone key (Some b))); [done|exact Hq|done|exact He|done| |by constructor|].
    + intros b' Ho Hb. by eapply yg_body.
    + intros Ho k b' [= <- <-]. apply hit_body in Hhit. by eapply yg_body.
  - eapply (young_move s q); [exact Hs|exact Hq|done|apply Hs|by eapply yg_body|by constructor| |done].
    intros Hnew e' [= <-]. by eapply yg_new.
  - eapply (young_move s q); [exact Hs|exact Hq|done|apply Hs|by eapply yg_body| | |done].
    + intros e' [= <-] Ho. apply Forall_app. split; [by eapply (yg_seen _ Hs _ _ _ Hq)|].
      apply Forall_singleton. apply Hs.
    + intros Hnew e' [= <-]. by eapply yg_new.
  - eapply (young_entry s q _ (RDone key (Some (mkContent key seen)))); [done|exact Hq|done|exact He|done| |by constructor|].
    + intros b Ho [= <-]. by eapply (yg_seen _ Hs _ _ _ Hq).
    + intros Ho k b [= <- <-]. by eapply (yg_seen _ Hs _ _ _ Hq).
  - eapply (young_entry s q _ (RDone key None)); [done|exact Hq|done|exact He|done| |by constructor|done].
    intros b Ho Hb. by eapply yg_body.
  - by eapply young_same.
  - eapply young_same; [exact Hs|done|done|simpl; lia|done].
  - eapply young_same; [exact Hs|done..|]. intros k e Hk. simpl in Hk. by rewrite lookup_empty in Hk.
Qed.
End Young.

(** A change has written no later version than the database has. *)
Definition written (s : shared) : Prop :=
  ∀ w v, sh_writers s !! w = Some (WClear v) → (v ≤ sh_version s)%nat.

Lemma written_reachable now s : cache_reachable now s → written s.
Proof.
  intros [ls Hrun]. revert Hrun. apply (cacherun_inv written).
  - intros s1 l s2 Hs Hstep. destruct Hstep; try exact Hs; intros w' v'; simpl;
      intros [[<- E]|[Hne Hw]]%lookup_insert_Some; try done; simplify_eq; try lia;
      pose proof (Hs _ _ Hw); lia.
  - intros w v Hw. simpl in Hw. by rewrite lookup_empty in Hw.
Qed.

(** Right after the cache was cleared everything young is still to come. *)
Lemma young_cleared f s w v :
  locks f s → (v ≤ sh_version s)%nat →
  young (dom (sh_heap s)) (dom (sh_readers s)) v (put_writer w (WDone v) (put_cache ∅ s)).
Proof.
  intros Hf Hv. split; simpl; try done.
  - intros e. by rewrite elem_of_dom.
  - intros q. by rewrite elem_of_dom.
  - intros e en b He Hen. destruct He. by eapply elem_of_dom_2.
  - intros q r e Hq He Ho. destruct Ho. apply elem_of_dom, (lk_dom _ _ Hf).
    rewrite (lk_reader _ _ Hf _ _ _ Hq He). by eexists.
  - intros q r e Ho Hq. destruct Ho. by eapply elem_of_dom_2.
  - intros q key b Ho Hq. destruct Ho. by eapply elem_of_dom_2.
Qed.

Lemma cacherun_snoc s1 ls s2 l s3 : cacherun s1 ls s2 → cachestep s2 l s3 → cacherun s1 (ls ++ [l]) s3.
Proof. induction 1; simpl; intros; eauto using cacherun. Qed.

Lemma cacherun_app s1 ls s2 ls' s3 : cacherun s1 ls s2 → cacherun s2 ls' s3 → cacherun s1 (ls ++ ls') s3.
Proof. induction 1; simpl; intros; eauto using cacherun. Qed.

(** Somebody can always go on, unless all requests are answered. *)
Lemma reader_enabled f s q r :
  locks f s → sh_readers s !! q = Some r → (∀ key b, r ≠ RDone key b) →
  ∃ q' s', q' ∈ dom (sh_readers s) ∧ cachestep s (CReader q') s'.
Proof.
  intros Hf Hq Hr.
  assert (Hin : ∀ q r, sh_readers s !! q = Some r → inside r = true → ∃ s', cachestep s (CReader q) s').
  { intros q0 r0 Hq0 Hin. assert (∃ e, entry_of r0 = Some e) as [e He] by (destruct r0; try done; by eexists).
    destruct (lk_inside _ _ Hf _ _ _ Hq0 He Hin) as (en & Hen & _).
    destruct r0; try done; simplify_eq/=.
    - destruct (hit (sh_now s) en) as [b|] eqn:Hh; eexists; [by eapply cs_hit|by eapply cs_miss].
    - eexists. by eapply cs_failed. }
  destruct r as [key|key e|key e|key e t seen|key b]; [| | | |by destruct (Hr key b)].
  - exists q. destruct (sh_cache s !! key) as [e|] eqn:Hc; eexists; (split; [by eapply elem_of_dom_2|]);
      [by eapply cs_found|]. eapply (cs_created _ _ _ (fresh (dom (sh_heap s)))); [done..|].
    apply not_elem_of_dom, is_fresh.
  - assert (is_Some (sh_heap s !! e)) as [en Hen].
    { apply (lk_dom _ _ Hf). rewrite (lk_reader _ _ Hf _ _ _ Hq eq_refl). by eexists. }
    destruct (en_mu en) as [q'|] eqn:Hmu.
    + destruct (lk_mu _ _ Hf _ _ _ Hen Hmu) as (r' & Hq' & _ & Hin').
      destruct (Hin _ _ Hq' Hin') as [s' ?]. exists q', s'. split; [by eapply elem_of_dom_2|done].
    + exists q. eexists. split; [by eapply elem_of_dom_2|by eapply cs_lock].
  - destruct (Hin _ _ Hq eq_refl) as [s' ?]. exists q, s'. split; [by eapply elem_of_dom_2|done].
  - destruct (Hin _ _ Hq eq_refl) as [s' ?]. exists q, s'. split; [by eapply elem_of_dom_2|done].
Qed.

(** *** An execution: request 1 builds a page while change 7 is stored *)

Definition status_key : string := "status/de".

Definition building : shared :=
  put_reader 1 (RBuild status_key 0 0 [0%nat]) (put_reader 1 (RBuild status_key 0 0 [])
    (put_reader 1 (RLocked status_key 0) (put_entry 0 (mkEntry None zeroTime (Some 1%nat))
      (put_reader 1 (RWait status_key 0) (put_cache {[status_key := 0%nat]}
        (put_entry 0 (mkEntry None zeroTime None) (put_reader 1 (RLookup status_key) (shared0 0)))))))).

Definition racing : shared :=
  put_writer 7 (WClear 1) (put_version 1 (put_writer 7 WStore building)).

Definition cleared : shared := put_writer 7 (WDone 1) (put_cache ∅ racing).

(** Request 1 gets its page; request 2 comes after the change. *)
Definition served : shared :=
  put_reader 2 (RDone status_key (Some (mkContent status_key [1%nat])))
    (put_entry 1 (mkEntry (Some (mkContent status_key [1%nat])) 0 None)
    (put_reader 2 (RBuild status_key 1 0 [1%nat]) (put_reader 2 (RBuild status_key 1 0 [])
    (put_reader 2 (RLocked status_key 1) (put_entry 1 (mkEntry None zeroTime (Some 2%nat))
    (put_reader 2 (RWait status_key 1) (put_cache {[status_key := 1%nat]}
      (put_entry 1 (mkEntry None zeroTime None) (put_reader 2 (RLookup status_key)
        (put_reader 1 (RDone status_key (Some (mkContent status_key [0%nat])))
          (put_entry 0 (mkEntry (Some (mkContent status_key [0%nat])) 0 None) cleared))))))))))).

Lemma racing_reachable : cache_reachable 0 racing.
Proof.
  eexists. eapply cr_cons; [by apply (cs_arrive _ 1 status_key)|].
  eapply cr_cons; [by apply (cs_created _ 1 status_key 0)|].
  eapply cr_cons; [by apply (cs_lock _ 1 status_key 0 (mkEntry None zeroTime None))|].
  eapply cr_cons; [by apply (cs_miss _ 1 status_key 0 (mkEntry None zeroTime (Some 1%nat)))|].
  eapply cr_cons; [by apply (cs_read _ 1 status_key 0 0 [])|].
  eapply cr_cons; [by apply (cs_begin _ 7)|].
  eapply cr_cons; [by apply (cs_store _ 7)|]. apply cr_nil.
Qed.

Lemma cleared_run : ∃ ls, cacherun cleared ls served.
Proof.
  eexists. eapply cr_cons; [by apply (cs_built _ 1 status_key 0 0 [0%nat] (mkEntry None zeroTime (Some 1%nat)))|].
  eapply cr_cons; [by apply (cs_arrive _ 2 status_key)|].
  eapply cr_cons; [by apply (cs_created _ 2 status_key 1)|].
  eapply cr_cons; [by apply (cs_lock _ 2 status_key 1 (mkEntry None zeroTime None))|].
  eapply cr_cons; [by apply (cs_miss _ 2 status_key 1 (mkEntry None zeroTime (Some 2%nat)))|].
  eapply cr_cons; [by apply (cs_read _ 2 status_key 1 0 [])|].
  eapply cr_cons; [by apply (cs_built _ 2 status_key 1 0 [1%nat] (mkEntry None zeroTime (Some 2%nat)))|].
  apply cr_nil.
Qed.

(** ** Properties *)

(** C28: whatever requests and other changes run at the same
    time, once a change has cleared the cache, every request that arrives
    afterwards is answered with a page of its own key all of whose statements
    saw the change; no two requests ever build in the same entry at once; and
    as long as a request is unanswered, some request can go on. *)
Theorem cache_after_change now s w v s0 ls s' :
  cache_reachable now s → sh_writers s !! w = Some (WClear v) →
  cachestep s (CWriter w) s0 → cacherun s0 ls s' →
  (∀ q key b, sh_readers s0 !! q = None → sh_readers s' !! q = Some (RDone key (Some b)) →
    ct_key b = key ∧ Forall (λ n, (v ≤ n)%nat) (ct_seen b)) ∧
  (∀ q q' k k' e t t' seen seen', sh_readers s' !! q = Some (RBuild k e t seen) →
    sh_readers s' !! q' = Some (RBuild k' e t' seen') → q = q') ∧
  (∀ q r, sh_readers s' !! q = Some r → (∀ key b, r ≠ RDone key b) →
    ∃ q' s'', q' ∈ dom (sh_readers s') ∧ cachestep s' (CReader q') s'').
Proof.
  intros Hs Hw Hstep Hrun. assert (cache_reachable now s') as Hs'.
  { destruct Hs as [ls0 Hrun0]. eexists. eapply cacherun_app; [|exact Hrun].
    by eapply cacherun_snoc. }
  destruct (locks_reachable _ _ Hs) as [f Hf]. destruct (locks_reachable _ _ Hs') as [f' Hf'].
  assert (young (dom (sh_heap s)) (dom (sh_readers s)) v s0 ∧ sh_readers s0 = sh_readers s) as [Hy Hr].
  { inversion Hstep; subst; simplify_eq. split; [|done].
    eapply young_cleared; [done|]. by eapply written_reachable. }
  assert (young (dom (sh_heap s)) (dom (sh_readers s)) v s') as Hy'.
  { eapply (cacherun_inv (young (dom (sh_heap s)) (dom (sh_readers s)) v)); [apply young_step|exact Hy|exact Hrun]. }
  split_and!.
  - intros q key b Hq Hd. split; [by eapply lk_done|].
    eapply yg_done; [exact Hy'| |exact Hd]. by rewrite Hr, <-not_elem_of_dom in Hq.
  - intros q q' k k' e t t' seen seen' Hq Hq'.
    destruct (lk_inside _ _ Hf' _ _ _ Hq eq_refl eq_refl) as (en & Hen & Hmu).
    destruct (lk_inside _ _ Hf' _ _ _ Hq' eq_refl eq_refl) as (en' & Hen' & Hmu'). congruence.
  - intros q r Hq Hn. by eapply reader_enabled.
Qed.

Lemma cache_after_change_witness :
  cache_reachable 0 racing ∧ sh_writers racing !! 7%nat = Some (WClear 1) ∧
  sh_readers served !! 1%nat = Some (RDone status_key (Some (mkContent status_key [0%nat]))) ∧
  status_key = status_key ∧ Forall (λ n, (1 ≤ n)%nat) [1%nat].
Proof.
  split; [apply racing_reachable|]. split; [done|]. split; [done|].
  destruct cleared_run as [ls Hrun].
  apply (proj1 (cache_after_change 0 racing 7 1 cleared ls served racing_reachable eq_refl
    (cs_clear racing 7 1 eq_refl) Hrun) 2%nat status_key (mkContent status_key [1%nat])); done.
Defined.
