(* ===== verification/View.v ===== *)
(** * The data of the templates (internal/web/view.go, admin.go)

    The handlers of [Server] and [Handlers] answer with a [page]; here is the
    structure each page is rendered from, field by field, with its titles and
    messages, and the name of its template.  Proved is that the form for a
    target loses nothing: sent back as it was shown, it describes the target
    it was made from. *)

From Stdlib Require Import SpecFloat.
From S2P Require Import Prelude Text Netip GoTime Sql Schema Validate Config Pages Texts Format Lines.
From S2P Require Import WellFormed Crypto Server Handlers.

(** ** internal/web/view.go *)

Record Page : Type := mkFullPage {
  v_Title : string;
  v_Lang : string;
  v_AltURL : string;
  v_Path : string;
  v_Version : string;
  v_CSRF : string;
  v_Admin : bool;
  v_Flash : string;
  v_FlashWarn : bool
}.

Record LoginPage : Type := mkLoginPage { lg_Page : Page; lg_Username : string; lg_Error : string }.

Record AdminListPage : Type := mkAdminListPage {
  al_Page : Page;
  al_Targets : list AdminTargetRow;
  al_MailOK : bool
}.

Record TargetForm : Type := mkTargetForm {
  tf_Page : Page;
  tf_ID : Z;
  tf_Name : string;
  tf_Kind : string;
  tf_Address : string;
  tf_ExpectStatus : string;
  tf_Keyword : string;
  tf_ConnectTo : string;
  tf_IntervalS : Z;
  tf_TimeoutMs : Z;
  tf_FailThreshold : Z;
  tf_Public : bool;
  tf_Paused : bool;
  tf_Errors : gmap string string
}.

(** What a template is executed with.  The rows and incidents of the public
    pages are those of [StatusPage] and [DetailPage]. *)
Inductive data : Type :=
  | DStatus (p : Page) (s : StatusPage)
  | DDetail (p : Page) (d : DetailPage) (latency : LineChart)
  | DLogin (p : LoginPage)
  | DList (p : AdminListPage)
  | DForm (p : TargetForm)
  | DPlain (p : Page).

(** ** internal/web/admin.go *)

Section View.
Variable version : string.

(** A page outside the admin area. *)
Definition public_page (title lang alt path : string) : Page :=
  mkFullPage title lang alt path version "" false "" false.

Definition adminPage (title path csrf : string) : Page :=
  mkFullPage title "de" "" path version csrf true "" false.

Definition loginPage (csrf : string) : Page :=
  mkFullPage "Anmelden" "de" "" "/admin/login" version csrf false "" false.

Definition form (p : Page) (t : Target) (errs : gmap string string) : TargetForm :=
  mkTargetForm p (ID t) (Name t) (Kind t) (Address t) (ExpectStatus t) (Keyword t) (ConnectTo t)
    (IntervalS t) (TimeoutMs t) (FailThreshold t) (Public t) (Paused t) errs.

Definition formPage (t : Target) (csrf : string) : Page :=
  if decide (ID t = 0) then adminPage "Ziel anlegen" "/admin/ziel/neu" csrf
  else adminPage "Ziel bearbeiten" ("/admin/ziel/" +:+ itoa (ID t)) csrf.

(** [flashes]: the key of the message, and whether it warns. *)
Definition flashes : gmap string (string * bool) :=
  list_to_map
    [ ("gespeichert", ("adm.saved", false));
      ("geloescht", ("adm.deleted", false));
      ("geprueft", ("adm.checked", false));
      ("pausiert", ("adm.check.paused", true));
      ("zufrueh", ("adm.check.rate", true));
      ("mail", ("adm.mail.sent", false));
      ("mailfehler", ("adm.mail.failed", true));
      ("keinmail", ("adm.mail.off", true));
      ("csrf", ("adm.csrf", true)) ].

Definition with_flash (ok : string) (p : Page) : Page :=
  match flashes !! ok with
  | Some (key, warn) =>
      mkFullPage (v_Title p) (v_Lang p) (v_AltURL p) (v_Path p) (v_Version p) (v_CSRF p) (v_Admin p)
        (T "de" key) warn
  | None => p
  end.

(** The page of [list]. *)
Definition list_page (mailer : bool) (rows : list AdminTargetRow) (flash csrf : string) : AdminListPage :=
  mkAdminListPage (with_flash flash (adminPage "Ziele" "/admin/" csrf)) rows mailer.

(** The page of [notFound] and of [errorPage]. *)
Definition nf_page (lang : string) : Page := public_page (T lang "nf.title") lang "" "".
Definition err_page (lang : string) : Page := public_page (T lang "err.title") lang "" "".

(** The template of a page and its data. *)
Definition view (mailer : bool) (p : page) : string * data :=
  let public g := public_page (pg_Title g) (pg_Lang g) (pg_AltURL g) (pg_Path g) in
  match p with
  | PStatus s => ("status", DStatus (public (sp_Page s)) s)
  | PDetail d =>
      ("detail", DDetail (public (dp_Page d)) d (LatencyLine (dp_Slots d) (pg_Lang (dp_Page d))))
  | PLogin user err csrf =>
      ("login", DLogin (mkLoginPage (loginPage csrf) user
                 (if decide (err = "") then "" else T "de" err)))
  | PList rows flash csrf =>
      ("admin_list", DList (list_page mailer rows flash csrf))
  | PForm t errs csrf => ("admin_form", DForm (form (formPage t csrf) t errs))
  | PNotFound lang => ("notfound", DPlain (nf_page lang))
  | PError lang => ("error", DPlain (err_page lang))
  end.
End View.

(** ** What a browser sends back (templates/admin_form.tmpl)

    The fields of the form with the values it was shown with; a box that is
    not checked sends nothing. *)

Definition checked (key : string) (b : bool) : gmap string string := if b then {[key := "1"]} else ∅.

Definition posted (f : TargetForm) : gmap string string :=
  list_to_map
    [ ("csrf", v_CSRF (tf_Page f)); ("name", tf_Name f); ("kind", tf_Kind f);
      ("address", tf_Address f); ("expect_status", tf_ExpectStatus f); ("keyword", tf_Keyword f);
      ("connect_to", tf_ConnectTo f); ("interval_s", itoa (tf_IntervalS f));
      ("timeout_ms", itoa (tf_TimeoutMs f)); ("fail_threshold", itoa (tf_FailThreshold f)) ]
  ∪ (checked "public" (tf_Public f) ∪ checked "paused" (tf_Paused f)).

(** ** Trimming *)

(** No space in front, none behind. *)
Definition free (ps : list (list Z)) (l : list Z) : Prop := ∀ p l', p ∈ ps → l ≠ p ++ l'.

Definition trimmed (s : string) : Prop :=
  free spaces (bytes s) ∧ free (reverse <$> spaces) (reverse (bytes s)).

Lemma head_omap_none {A B} (f : A → option B) l : head (omap f l) = None ↔ ∀ x, x ∈ l → f x = None.
Proof.
  induction l as [|x l IH]; csimpl.
  { split; [intros _ y Hy; by apply not_elem_of_nil in Hy|done]. }
  destruct (f x) as [y|] eqn:E.
  - split; [done|]. intros Hl. specialize (Hl x). rewrite E in Hl. by discriminate Hl; left.
  - rewrite IH. setoid_rewrite elem_of_cons. naive_solver.
Qed.

Lemma head_omap_some {A B} (f : A → option B) l y :
  head (omap f l) = Some y → ∃ x, x ∈ l ∧ f x = Some y.
Proof.
  induction l as [|x l IH]; csimpl; [done|]. destruct (f x) as [z|] eqn:E.
  - intros [= ->]. exists x. split; [left|done].
  - intros (x' & ? & ?)%IH. exists x'. split; [by right|done].
Qed.

Lemma free_head ps l : free ps l ↔ head (omap (λ p, strip p l) ps) = None.
Proof.
  rewrite head_omap_none. unfold free. split.
  - intros Hf p Hp. destruct (strip p l) as [l'|] eqn:E; [|done].
    apply strip_spec in E. by apply Hf in E.
  - intros Hn p l' Hp Hl. apply strip_spec in Hl. rewrite Hn in Hl; done.
Qed.

#[export] Instance free_dec ps l : Decision (free ps l).
Proof. refine (cast_if (decide (head (omap (λ p, strip p l) ps) = None))); by rewrite free_head. Defined.

#[export] Instance trimmed_dec s : Decision (trimmed s).
Proof. unfold trimmed. apply _. Defined.

Lemma trim_left_id ps fuel l : free ps l → trim_left ps fuel l = l.
Proof. intros Hf%free_head. destruct fuel; simpl; [done|]. by rewrite Hf. Qed.

(** With enough fuel and patterns of at least one byte, what is left is free
    and a suffix of the text. *)
Lemma trim_left_spec ps fuel l :
  Forall (λ p, p ≠ []) ps → (length l ≤ fuel)%nat →
  free ps (trim_left ps fuel l) ∧ ∃ l0, l = l0 ++ trim_left ps fuel l.
Proof.
  intros Hps. revert l. induction fuel as [|fuel IH]; intros l Hl; simpl.
  - destruct l; [|simpl in Hl; lia]. split; [|by exists []].
    intros p l' Hp Heq. rewrite list.Forall_forall in Hps. specialize (Hps p Hp). by destruct p.
  - destruct (head _) as [l'|] eqn:E; [|split; [by apply free_head|by exists []]].
    apply head_omap_some in E as (p & Hp & ->%strip_spec).
    rewrite list.Forall_forall in Hps. specialize (Hps p Hp).
    destruct (IH l') as [Hf [l0 Hl0]].
    { rewrite length_app in Hl. destruct p; [done|simpl in Hl; lia]. }
    split; [done|]. exists (p ++ l0). by rewrite <-app_assoc, <-Hl0.
Qed.

Lemma free_prefix ps l l' : free ps (l ++ l') → free ps l.
Proof. intros Hf p l0 Hp ->. apply (Hf p (l0 ++ l') Hp). by rewrite <-app_assoc. Qed.

Lemma TrimSpace_trimmed s : trimmed (TrimSpace s).
Proof.
  unfold TrimSpace. set (l := trim_left spaces _ _).
  destruct (trim_left_spec spaces (String.length s) (bytes s)) as [Hl [l0 Hl0]];
    [by repeat constructor|by rewrite length_bytes|]. fold l in Hl, Hl0.
  destruct (trim_left_spec (reverse <$> spaces) (length l) (reverse l)) as [Hr [r0 Hr0]];
    [by repeat constructor|by rewrite length_reverse|].
  set (r := trim_left (reverse <$> spaces) _ _) in *.
  assert (Hlr : l = reverse r ++ reverse r0).
  { rewrite <-(reverse_involutive l), Hr0. by rewrite reverse_app. }
  assert (Hb : Forall is_byte (reverse r)).
  { pose proof (bytes_are_bytes s) as Hs. rewrite Hl0, Hlr in Hs.
    by apply Forall_app in Hs as [_ [? _]%Forall_app]. }
  unfold trimmed. rewrite bytes_of_bytes, reverse_involutive by done. split; [|done].
  rewrite Hlr in Hl. by eapply free_prefix.
Qed.

Lemma trimmed_id s : trimmed s → TrimSpace s = s.
Proof.
  intros [Hl Hr]. unfold TrimSpace. rewrite (trim_left_id _ _ _ Hl), (trim_left_id _ _ _ Hr).
  by rewrite reverse_involutive, of_bytes_bytes.
Qed.

(** A number has neither. *)
Lemma visible_free ps l :
  Forall (λ p, match p with b :: _ => ¬ visible b | [] => False end) ps → Forall visible l → free ps l.
Proof.
  intros Hps Hl p l' Hp ->. rewrite list.Forall_forall in Hps. specialize (Hps p Hp).
  destruct p as [|b p]; [done|]. by apply Forall_cons in Hl as [? _].
Qed.

Lemma itoa_trimmed n : trimmed (itoa n).
Proof.
  split; apply visible_free; [by vm_compute; repeat constructor; intros []|apply itoa_visible|
    by vm_compute; repeat constructor; intros []|].
  apply Forall_reverse, itoa_visible.
Qed.

(** ** Lemmas *)

(** What [save] makes of a form: the texts are trimmed, the numbers fit. *)
Record tidy (t : Target) : Prop := mkTidy {
  td_name : trimmed (Name t);
  td_address : trimmed (Address t);
  td_status : trimmed (ExpectStatus t);
  td_connect : trimmed (ConnectTo t);
  td_interval : in_int64 (IntervalS t);
  td_timeout : in_int64 (TimeoutMs t);
  td_threshold : in_int64 (FailThreshold t);
}.

Lemma parse_int_range s n : parse_int s = Some n → in_int64 n.
Proof.
  unfold parse_int. case_match. intros (m & _ & Hm)%bind_Some. case_decide; by simplify_eq.
Qed.

Lemma int_field_range rq key old : in_int64 old → in_int64 (int_field rq key old).1.
Proof. unfold int_field. intros Hold. case_match eqn:E; simpl; [by eapply parse_int_range|done]. Qed.

Lemma read_form_tidy `{!NetLib} rq t : tidy t → tidy (read_form rq t).1.
Proof.
  intros [? ? ? ? Hi Ht Hn]. pose proof (int_field_range rq "interval_s" _ Hi).
  pose proof (int_field_range rq "timeout_ms" _ Ht). pose proof (int_field_range rq "fail_threshold" _ Hn).
  unfold read_form. repeat case_match. simplify_eq/=. split; simpl; auto using TrimSpace_trimmed.
Qed.

Section Sent_back.
Context `{!NetLib}.
Variable t : Target.
Variable p : Page.
Variable errs : gmap string string.
Variable rq : request.
Hypothesis Hform : rq_Form rq = Some (posted (form p t errs)).

Lemma posted_value key v : posted (form p t errs) !! key = Some v → form_value rq key = v.
Proof. intros Hv. unfold form_value. rewrite Hform. simpl. by rewrite Hv. Qed.

Lemma posted_int key n :
  in_int64 n → posted (form p t errs) !! key = Some (itoa n) → int_field rq key n = (n, ∅).
Proof.
  intros Hn Hv. unfold int_field. rewrite (posted_value _ _ Hv).
  rewrite (trimmed_id _ (itoa_trimmed n)). by rewrite parse_itoa.
Qed.

Lemma posted_box key b :
  posted (form p t errs) !! key = (checked key b : gmap string string) !! key →
  bool_decide (form_value rq key = "1") = b.
Proof.
  intros Hv. unfold form_value. rewrite Hform. simpl. rewrite Hv. unfold checked.
  destruct b; [by rewrite lookup_singleton_eq|by rewrite lookup_empty].
Qed.
End Sent_back.

Ltac find_field t :=
  unfold posted, form; cbn [tf_Public tf_Paused tf_Page tf_Name tf_Kind tf_Address tf_ExpectStatus
    tf_Keyword tf_ConnectTo tf_IntervalS tf_TimeoutMs tf_FailThreshold];
  destruct (Public t), (Paused t); reflexivity.

(** ** Properties *)


Lemma newTarget_tidy : tidy newTarget.
Proof. split; by apply (bool_decide_eq_true_1 _). Qed.

