(* ===== verification/Render.v ===== *)
(** * Rendering (internal/web/render.go)

    A page is executed into a buffer first and written only when that worked.
    The execution of a parsed template by html/template is a parameter. *)

From S2P Require Import Prelude Text Netip GoTime Sql Schema Validate Config Pages Server View.

(** The templates [parse] is called with. *)
Definition pages : list string :=
  ["status"; "detail"; "login"; "admin_list"; "admin_form"; "notfound"; "error"].

(** What reaches the client: headers, status and body, in this order. *)
Record written : Type := mkWritten {
  wr_headers : list (string * string);
  wr_status : Z;
  wr_body : list Z
}.

Definition quoted (s : string) : string := of_bytes [34] +:+ s +:+ of_bytes [34].

Section Render.
(** [ExecuteTemplate] of the layout with a template's blocks: the error, or
    the text. *)
Variable exec : string → data → res string (list Z).

Definition execute (name : string) (d : data) : res string (list Z) :=
  if decide (name ∈ pages) then
    match exec name d with
    | Err e => Err ("web: " +:+ name +:+ " rendern: " +:+ e)
    | Ok body => Ok body
    end
  else Err ("web: template " +:+ quoted name +:+ " gibt es nicht").

Definition Render (status : Z) (name : string) (d : data) : res string written :=
  match execute name d with
  | Err e => Err e
  | Ok body =>
      Ok (mkWritten [("Content-Type", "text/html; charset=utf-8");
                     ("Content-Length", itoa (Z.of_nat (length body)))] status body)
  end.
End Render.

(** Every page of the server names one of the parsed templates. *)
Lemma view_parsed version mailer p : (view version mailer p).1 ∈ pages.
Proof.
  assert (∀ s, bool_decide (s ∈ pages) = true → s ∈ pages) as H by (intros s; apply bool_decide_eq_true).
  destruct p; by apply H.
Qed.

(** A page of the server goes out whole, with its length, or not at all, and
    fails only if its template does. *)
Theorem page_whole exec version mailer status p :
  Render exec status (view version mailer p).1 (view version mailer p).2 =
  match exec (view version mailer p).1 (view version mailer p).2 with
  | Ok body => Ok (mkWritten [("Content-Type", "text/html; charset=utf-8");
                              ("Content-Length", itoa (Z.of_nat (length body)))] status body)
  | Err e => Err ("web: " +:+ (view version mailer p).1 +:+ " rendern: " +:+ e)
  end.
Proof. unfold Render, execute. rewrite decide_True by apply view_parsed. by destruct (exec _ _). Qed.

(** ** A page that does not render (internal/web/server.go) *)

(** The answer to a request: a rendered page, or [http.Error]. *)
Inductive sent : Type :=
  | Page_ (w : written)
  | Plain (code : Z) (text : string).

Section Errors.
Variable exec : string → data → res string (list Z).
Variable version : string.

(** [errorPage]: it does not go through [render], so it ends even when the
    page for errors has one itself. *)
Definition errorPage (l : string) : sent :=
  match Render exec 500 "error" (DPlain (err_page version l)) with
  | Ok w => Page_ w
  | Err _ => Plain 500 "interner fehler"
  end.

(** [render]; an error of a template is never that of a canceled request. *)
Definition render (l : string) (status : Z) (name : string) (d : data) : sent :=
  match Render exec status name d with
  | Ok w => Page_ w
  | Err _ => errorPage l
  end.

(** A request is answered with its page, or with status 500. *)
Theorem render_answers l status name d :
  match render l status name d with
  | Page_ w => Render exec status name d = Ok w ∨ wr_status w = 500
  | Plain code _ => code = 500
  end.
Proof.
  unfold render. destruct (Render exec status name d) as [w|e] eqn:E; [by left|].
  unfold errorPage, Render. destruct (execute exec "error" _); simpl; [by right|done].
Qed.
End Errors.
