(* ===== verification/Preview.v ===== *)
(** * The preview of the templates (internal/web/preview.go, cmd/preview/main.go)

    A handler for development that renders made-up data.  It shares the
    structures of [View] with the server; the question about it is whether it
    shows pages the server could show. *)

From Stdlib Require Import SpecFloat.
From S2P Require Import Prelude Text Netip GoTime Sql Schema Rollup Validate Config Pages Texts.
From S2P Require Import Format Lines Server View.

(** [math.Sin]. *)
Class Sine : Type := { Sin : spec_float → spec_float }.

(** A decimal constant [n/d] of the source. *)
Definition lit (n d : Z) : spec_float := fdiv (float64 n) (float64 d).

(** [int(v)]: towards zero; the values here are small numbers. *)
Definition int_of (v : spec_float) : Z :=
  match v with
  | S754_finite neg m e =>
      let a := if decide (0 ≤ e) then Zpos m * 2 ^ e else Zpos m / 2 ^ (- e) in
      if neg then - a else a
  | _ => 0
  end.

(** ** The replies *)

Inductive preply : Type :=
  | PShow (code : Z) (template : string) (d : data)
  | PFile (path : string)
  | PMoved (code : Z) (to : string).

Definition dev_version : string := "dev".

Section Preview.
Context `{!Sine, !NetLib}.

(** The instants the handler reads with [time.Now] while it serves one
    request are taken to be one. *)
Variable now : Time.

(** ** Made-up measurements *)

Definition demoHours (n : nat) (step : Duration) (state : Z → State) : list HourCell :=
  let start := Add (Truncate now step) (- ((Z.of_nat n - 1) * step)) in
  (λ i, let i := Z.of_nat i in
        let s := state i in
        let up := match s with
                  | StateDown => fadd (lit 25 100) (fmul (float64 (Z.rem i 3)) (lit 2 10))
                  | StateUnknown => float64 (-1)
                  | _ => float64 1
                  end in
        mkCell (Add start (i * step)) s up) <$> seq 0 n.

Definition demoDown (id i n : Z) : bool :=
  if decide (id = 1) then bool_decide (80 < n ∧ i = Z.quot n 3)
  else if decide (id = 2) then bool_decide (i = n - 1 ∨ i = Z.quot n 2)
  else if decide (id = 4) then bool_decide (i = n - 27)
  else false.

(** The map of base values; zero for other targets. *)
Definition demo_base (id : Z) : Z :=
  default 0 ((list_to_map [(1, 140); (2, 260); (3, 36); (4, 205); (5, 90)] : gmap Z Z) !! id).

Definition demoMs (id i : Z) : Z :=
  let base := float64 (demo_base id) in
  let v := fadd (fadd base
             (fmul (fmul base (lit 18 100)) (Sin (fdiv (float64 i) (float64 5)))))
             (fmul (fmul base (lit 7 100)) (Sin (fmul (float64 i) (lit 17 10)))) in
  int_of (if decide (Z.rem i 37 = 11) then fmul v (lit 24 10) else v).

(** ** The pages *)

(** The literals of [demoStatus], before the loop fills in the hours. *)
Definition demo_rows : list TargetRow :=
  let none := float64 (-1) in
  let one := float64 1 in
  [ mkRow 1 "Website" "http" StateUp one (lit 99982 100000) (lit 99951 100000) 142 None [] no_chart;
    mkRow 2 "Bewerbungsportal" "http" StateDown (lit 9583 10000) (lit 9917 10000) (lit 99702 100000)
      0 None [] no_chart;
    mkRow 3 "API" "tcp" StateUp one one (lit 99993 100000) 38 None [] no_chart;
    mkRow 4 "FiveM Testserver" "fivem" StateUp (lit 99305 100000) (lit 9981 10000) (lit 9964 10000)
      211 (Some (mkPlayers 12 64 "7290")) [] no_chart;
    mkRow 5 "Archiv der Bewerbungsunterlagen (Backup)" "http" StatePaused none (lit 9876 10000)
      (lit 9932 10000) 0 None [] no_chart;
    mkRow 6 "Neues Ziel" "tcp" StateUnknown none none none 0 None [] no_chart ].

Definition with_hours (hs : list HourCell) (t : TargetRow) : TargetRow :=
  mkRow (r_ID t) (r_Name t) (r_Kind t) (r_State t) (r_Uptime24h t) (r_Uptime7d t) (r_Uptime30d t)
    (r_LatencyMs t) (r_Players t) hs (HourBars hs).

Definition demo_state (t : TargetRow) (h : Z) : State :=
  if decide (r_State t = StateUnknown) then StateUnknown
  else if decide (r_State t = StatePaused ∧ 70 < h) then StateUnknown
  else if decide (r_ID t = 4 ∧ 30 < h ∧ h < 34) then StateUnknown
  else if demoDown (r_ID t) h 90 then StateDown else StateUp.

Definition demo_incidents : list IncidentView :=
  let ended := Add now (- (26 * Hour) - 12 * Minute) in
  let ended2 := Add now (- (9 * 24 * Hour) + 2 * Hour) in
  [ mkIncidentView 2 "Bewerbungsportal" (Add now (- (47 * Minute))) None (47 * Minute) "";
    mkIncidentView 4 "FiveM Testserver" (Add ended (- (12 * Minute))) (Some ended) (12 * Minute) "";
    mkIncidentView 1 "Website" (Add ended2 (- (2 * Hour + 5 * Minute))) (Some ended2)
      (2 * Hour + 5 * Minute) "" ].

Definition demoStatus (lang path : string) : StatusPage :=
  let rows := (λ t, with_hours (demoHours 90 Hour (demo_state t)) t) <$> demo_rows in
  mkStatusPage (mkPage "Status" lang (if decide (lang = "en") then "/" else "/en/") path)
    StateDown (Add now (- (40 * Second))) rows demo_incidents.

(** The function of the same name in preview.go. *)
Definition demo_admin_page (title path : string) : Page := adminPage dev_version title path "vorschau".

Definition demo_addr : gmap Z string :=
  list_to_map
    [ (1, "https://dmn-software.com/");
      (2, "https://bewerbungen.dmn-software.com/api/health");
      (3, "10.0.0.12:5432");
      (4, "fivem.example.org:30120");
      (5, "https://intern.example.org/ein/ziemlich/langer/pfad/zum/healthcheck?format=json");
      (6, "example.org:443") ].

Definition demo_admin_row (t : TargetRow) : AdminTargetRow :=
  let id := r_ID t in
  mkAdminTargetRow t (default "" (demo_addr !! id)) (bool_decide (id = 5)) (bool_decide (id < 5))
    (if decide (id = 2) then "status 502" else "")
    (if decide (id = 5) then Add now (- (20 * Hour))
     else if decide (id = 6) then zeroTime else Add now (- (35 * Second))).

Definition demoAdmin : AdminListPage :=
  mkAdminListPage (demo_admin_page "Ziele" "/admin/")
    (demo_admin_row <$> sp_Targets (demoStatus "de" "/admin/")) true.

(** ** The handlers *)

Definition show (template : string) (d : data) : preply := PShow 200 template d.

Definition show_status (s : StatusPage) : preply :=
  let g := sp_Page s in
  show "status"
    (DStatus (public_page dev_version (pg_Title g) (pg_Lang g) (pg_AltURL g) (pg_Path g)) s).

Definition preview_notFound (path : string) : preply :=
  let lang := if HasPrefix path "/en/" then "en" else "de" in
  PShow 404 "notfound" (DPlain (public_page dev_version (T lang "nf.title") lang "" path)).

Definition empty_page (path : string) : StatusPage :=
  let p := demoStatus "de" path in mkStatusPage (sp_Page p) StateUnknown (sp_CheckedAt p) [] [].

Definition fresh_row (t : TargetRow) : TargetRow :=
  let none := float64 (-1) in
  with_hours (demoHours 90 Hour (λ _, StateUnknown))
    (mkRow (r_ID t) (r_Name t) (r_Kind t) StateUnknown none none none 0 None (r_Hours t) (r_Spark t)).

Definition fresh_page (path : string) : StatusPage :=
  let p := demoStatus "de" path in
  mkStatusPage (sp_Page p) StateUnknown zeroTime (fresh_row <$> sp_Targets p) [].

Definition quiet_page (path : string) : StatusPage :=
  let p := demoStatus "de" path in
  mkStatusPage (sp_Page p) StateUp (sp_CheckedAt p) (take 2 (sp_Targets p)) [].

(** [id, _ := strconv.ParseInt]: what does not parse is no identifier here. *)
Definition demo_id (v : string) : Z := default 0 (parse_int v).

Definition detail_state (t : TargetRow) (cells i : Z) : State :=
  if decide (r_State t = StateUnknown) then StateUnknown
  else if decide (r_State t = StatePaused ∧ cells - 6 < i) then StateUnknown
  else if demoDown (r_ID t) i cells then StateDown else StateUp.

Definition detail_ms (t : TargetRow) (points : nat) : list Z :=
  (λ i, let i := Z.of_nat i in
        if decide (r_State t = StateUnknown ∨ (r_ID t = 2 ∧ Z.of_nat points - 4 < i)) then -1
        else demoMs (r_ID t) i) <$> seq 0 points.

Definition preview_detail (lang path v rng : string) : preply :=
  let id := demo_id v in
  let p := demoStatus lang "" in
  match filter (λ t, r_ID t = id) (sp_Targets p) with
  | [] => preview_notFound path
  | t :: _ =>
      let '(rng, cells, step, points) :=
        if decide (rng = "7d") then ("7d", 168%nat, Hour, 168%nat)
        else if decide (rng = "30d") then ("30d", 30%nat, 24 * Hour, 180%nat)
        else ("24h", 24%nat, Hour, 96%nat) in
      let spark := HourBars (demoHours cells step (detail_state t (Z.of_nat cells))) in
      let t' := mkRow (r_ID t) (r_Name t) (r_Kind t) (r_State t) (r_Uptime24h t) (r_Uptime7d t)
                  (r_Uptime30d t) (r_LatencyMs t) (r_Players t) (r_Hours t) spark in
      let ms := detail_ms t points in
      let alt := (if decide (lang = "en") then "/ziel/" else "/en/ziel/") +:+ v in
      let d := mkDetailPage (mkPage (r_Name t) lang alt path) t' rng ms
                 (filter (λ i, iv_TargetID i = id) (sp_Incidents p)) in
      show "detail" (DDetail (public_page dev_version (r_Name t) lang alt path) d (LatencyLine ms lang))
  end.

Definition error_form (path : string) : TargetForm :=
  mkTargetForm (demo_admin_page "Ziel anlegen" path) 0 "" "tcp" "localhost" "200-399" "ok" "" 10 10000 3
    false false
    (list_to_map [ ("name", "1 bis 60 Zeichen"); ("address", "Adresse als host:port erwartet");
                   ("keyword", "Nur bei HTTP"); ("interval_s", "Liegt außerhalb von 30 bis 86400") ]).

Definition new_form (path : string) : TargetForm :=
  mkTargetForm (demo_admin_page "Ziel anlegen" path) 0 "" "http" "" "200-399" "" "" 60 10000 3
    false false ∅.

Definition edit_form (path v : string) : preply :=
  match filter (λ t, r_ID (ar_Row t) = demo_id v) (al_Targets demoAdmin) with
  | [] => preview_notFound path
  | t :: _ =>
      let r := ar_Row t in
      show "admin_form" (DForm (mkTargetForm (demo_admin_page "Ziel bearbeiten" path)
        (r_ID r) (r_Name r) (r_Kind r) (ar_Address t) "200-399" "" "" 60 10000 3
        (ar_Public t) (ar_Paused t) ∅))
  end.

Definition demo_login (path error : string) : preply :=
  let page := mkFullPage "Anmelden" "de" "" path dev_version "vorschau" false "" false in
  if decide (error = "1")
  then PShow 401 "login" (DLogin (mkLoginPage page "leon" (T "de" "adm.login.bad")))
  else if decide (error = "429")
  then PShow 429 "login" (DLogin (mkLoginPage page "leon" (T "de" "adm.login.locked")))
  else PShow 200 "login" (DLogin (mkLoginPage page "" "")).

(** [Preview]: the patterns; [r] and [fehler] are values of the query. *)
Definition Preview (method path r fehler : string) : preply :=
  let segs := segments path in
  if decide (method ∉ ["GET"; "HEAD"]) then preview_notFound path
  else if decide (firstn 1 segs = ["static"] ∧ (2 ≤ length segs)%nat)
  then PFile (String.concat "/" (tail segs))
  else if decide (segs = ["static"]) then PMoved 307 "/static/"
  else if decide (segs = ["en"]) then PMoved 307 "/en/"
  else if decide (segs = ["admin"]) then PMoved 307 "/admin/"
  else if decide (segs = [""]) then show_status (demoStatus "de" path)
  else if decide (segs = ["en"; ""]) then show_status (demoStatus "en" path)
  else if decide (segs = ["leer"]) then show_status (empty_page path)
  else if decide (segs = ["neu"]) then show_status (fresh_page path)
  else if decide (segs = ["ruhig"]) then show_status (quiet_page path)
  else if decide (segs = ["admin"; ""]) then
    let p := demoAdmin in
    show "admin_list" (DList (mkAdminListPage (with_flash "gespeichert" (al_Page p)) (al_Targets p)
      (al_MailOK p)))
  else if decide (segs = ["admin"; "leer"]) then
    show "admin_list" (DList (mkAdminListPage (al_Page demoAdmin) [] false))
  else if decide (segs = ["admin"; "ziel"; "neu"]) then show "admin_form" (DForm (new_form path))
  else if decide (segs = ["admin"; "ziel"; "fehler"]) then show "admin_form" (DForm (error_form path))
  else if decide (segs = ["admin"; "login"]) then demo_login path fehler
  else match match_id ["ziel"] [] segs with Some v => preview_detail "de" path v r | None =>
  match match_id ["en"; "ziel"] [] segs with Some v => preview_detail "en" path v r | None =>
  match match_id ["admin"; "ziel"] [] segs with Some v => edit_form path v | None =>
  preview_notFound path
  end end end.
End Preview.

(** ** What a status page of the server is *)

(** A row: ninety hours with their chart, a latency only for a service that
    was reached or is paused, players only for FiveM. *)
Definition row_sound (t : TargetRow) : Prop :=
  length (r_Hours t) = 90%nat ∧ r_Spark t = HourBars (r_Hours t) ∧
  (r_State t = StateDown ∨ r_State t = StateUnknown → r_LatencyMs t = 0) ∧
  (is_Some (r_Players t) → r_Kind t = KindFiveM).

(** An incident: no cause, and a duration that is the time from its start to
    its end, or to [now] while it lasts. *)
Definition incident_sound (now : Time) (i : IncidentView) : Prop :=
  iv_Cause i = "" ∧ iv_Duration i = Sub (default now (iv_EndedAt i)) (iv_StartedAt i).

Definition status_sound (now : Time) (s : StatusPage) : Prop :=
  sp_Overall s = overallState (sp_Targets s) ∧
  Forall row_sound (sp_Targets s) ∧ Forall (incident_sound now) (sp_Incidents s).

(** *** The server's pages are *)

Lemma set_cell_length cells i total ok cells' :
  set_cell cells i total ok = Some cells' → length cells' = length cells.
Proof.
  unfold set_cell. case_decide; [done|]. intros (c & _ & [= <-])%bind_Some. apply length_insert.
Qed.

Lemma fill_cells_length first l cells cells' :
  fill_cells first cells l = Some cells' → length cells' = length cells.
Proof.
  revert cells. induction l as [|[k h] l IH]; intros cells; simpl; [congruence|].
  intros (c & Hc & Hf)%bind_Some. rewrite (IH _ Hf). by eapply set_cell_length.
Qed.

Lemma Hours_length now id n w cells w' :
  0 ≤ n → Hours now id n w = (Ok cells, w') → length cells = Z.to_nat n.
Proof.
  intros Hn Hrun. unfold Hours in Hrun. inv_ok.
  match goal with H : set_cell _ _ _ _ = _ |- _ => rewrite (set_cell_length _ _ _ _ _ H) end.
  match goal with H : fill_cells _ _ _ = _ |- _ => rewrite (fill_cells_length _ _ _ _ H) end.
  match goal with H : new_cells _ _ = _ |- _ => unfold new_cells in H; rewrite decide_False in H by lia;
    simplify_eq end.
  by rewrite length_fmap, length_seq.
Qed.

Lemma cells_loop_one fuel hours :
  (length hours ≤ fuel)%nat → length (cells_loop fuel hours 1) = length hours.
Proof.
  revert hours. induction fuel as [|fuel IH]; intros [|h hours] Hl; try done; [simpl in Hl; lia|].
  cbn [cells_loop length] in *. rewrite decide_True by lia. cbn [length]. f_equal. apply IH. simpl. lia.
Qed.

Lemma row_is_sound now t w rl w' : row now t 90 w = (Ok rl, w') → row_sound rl.1.
Proof.
  intros Hrun. unfold row in Hrun. apply bind_ok in Hrun as (cs & w1 & _ & Hrun).
  apply bind_ok in Hrun as (up & w2 & _ & Hrun). rewrite decide_True in Hrun by done.
  apply bind_ok in Hrun as (h & w3 & Hh & Hrun). unfold ret in Hrun. simplify_eq/=.
  apply Hours_length in Hh; [|done]. split_and!; simpl.
  - unfold cells. by rewrite cells_loop_one.
  - done.
  - unfold row_state, row_latency. repeat case_match; naive_solver.
  - unfold row_players. intros [p Hp]. apply bind_Some in Hp as (c & _ & Hp). by case_decide.
Qed.

Lemma status_rows_sound now ts at_ acc w r w' :
  Forall row_sound acc → status_rows now ts at_ acc w = (Ok r, w') → Forall row_sound r.2.
Proof.
  revert at_ acc w. induction ts as [|t ts IH]; intros at_ acc w Hacc Hrun; simpl in Hrun.
  { unfold ret in Hrun. by simplify_eq/=. }
  apply bind_ok in Hrun as (rl & w1 & Hr & Hrun). eapply IH, Hrun.
  apply Forall_app. split; [done|]. constructor; [by eapply row_is_sound|constructor].
Qed.

Lemma incidentRows_sound now l : Forall (incident_sound now) (incidentRows l now false).
Proof.
  unfold incidentRows. apply Forall_fmap, list.Forall_forall. intros i _. unfold compose, incident_view.
  by destruct (Open i).
Qed.

Lemma status_page_sound now lang w p w' : status_page now lang w = (Ok p, w') → status_sound now p.
Proof.
  intros Hrun. unfold status_page in Hrun. apply bind_ok in Hrun as (ts & w1 & _ & Hrun).
  apply bind_ok in Hrun as (rows & w2 & Hr & Hrun). apply bind_ok in Hrun as (inc & w3 & _ & Hrun).
  unfold ret in Hrun. simplify_eq/=. split_and!; simpl; [done| |apply incidentRows_sound].
  by eapply status_rows_sound.
Qed.

(** *** The preview's are, but one *)

Section Demo.
Context `{!Sine, !NetLib}.
Variable now : Time.

Lemma demoHours_length n step state : length (demoHours now n step state) = n.
Proof. unfold demoHours. by rewrite length_fmap, length_seq. Qed.

Lemma with_hours_sound step state t :
  (r_State t = StateDown ∨ r_State t = StateUnknown → r_LatencyMs t = 0) →
  (is_Some (r_Players t) → r_Kind t = KindFiveM) →
  row_sound (with_hours (demoHours now 90 step state) t).
Proof. intros Hl Hp. split_and!; [apply demoHours_length|done..]. Qed.

Lemma demo_rows_sound lang path : Forall row_sound (sp_Targets (demoStatus now lang path)).
Proof.
  apply Forall_fmap. unfold compose. unfold demo_rows.
  repeat (constructor; [apply with_hours_sound; simpl; [by intros [?|?]|by try intros [? ?]]|]).
  constructor.
Qed.

Lemma Sub_back t d : 0 ≤ d ≤ int64_max → Sub t (Add t (- d)) = d.
Proof.
  intros Hd. unfold Sub, Add. rewrite sat64_id; [lia|]. unfold in_int64, int64_min, int64_max in *. lia.
Qed.

Lemma demo_incidents_sound : Forall (incident_sound now) (demo_incidents now).
Proof.
  unfold demo_incidents. rewrite !list.Forall_cons.
  split_and!; [..|constructor]; (split; [done|]); symmetry; by apply Sub_back.
Qed.
End Demo.

Section Sound.
Context `{!Sine, !NetLib}.
Variable now : Time.

(** The status page of a reply. *)
Definition shown_status (o : preply) : option StatusPage :=
  match o with PShow _ _ (DStatus _ s) => Some s | _ => None end.

Lemma demoStatus_sound lang path : status_sound now (demoStatus now lang path).
Proof.
  split_and!; [by vm_compute|apply demo_rows_sound|apply demo_incidents_sound].
Qed.

Lemma empty_page_sound path : status_sound now (empty_page now path).
Proof. split_and!; [done|constructor|constructor]. Qed.

Lemma fresh_page_sound path : status_sound now (fresh_page now path).
Proof.
  split_and!; [by vm_compute| |constructor].
  apply Forall_fmap, list.Forall_forall. intros t _. unfold compose, fresh_row.
  apply with_hours_sound; [done|by intros [? ?]].
Qed.

Lemma detail_no_status lang path v rng : shown_status (preview_detail now lang path v rng) = None.
Proof.
  unfold preview_detail. destruct (filter _ _); [done|]. by repeat case_decide.
Qed.

Lemma edit_no_status path v : shown_status (edit_form now path v) = None.
Proof. unfold edit_form. by destruct (filter _ _). Qed.

Lemma preview_status method path r fehler s :
  shown_status (Preview now method path r fehler) = Some s →
  s = quiet_page now path ∧ segments path = ["ruhig"] ∨
  (∃ lang, s = demoStatus now lang path) ∨ s = empty_page now path ∨ s = fresh_page now path.
Proof.
  unfold Preview. cbv zeta.
  repeat (case_decide; [try done; try (intros [= <-]; by eauto 10)|]).
  - unfold demo_login. by repeat case_decide.
  - destruct (match_id ["ziel"] _ _); [by rewrite detail_no_status|].
    destruct (match_id ["en"; "ziel"] _ _); [by rewrite detail_no_status|].
    destruct (match_id ["admin"; "ziel"] _ _); [by rewrite edit_no_status|done].
Qed.
End Sound.

(** ** Properties *)

(** Every status page the preview shows, except the one
    under /ruhig, could be one of the server's: as on every page the server
    builds from its store, the overall state is the one of the rows, each row
    has its ninety hours and their chart, a service that is down or unknown
    has no latency, and an incident has no cause and the duration of its two
    instants. *)
Theorem preview_shows_pages `{!Sine, !NetLib} now :
  (∀ lang w p w', status_page now lang w = (Ok p, w') → status_sound now p) ∧
  (∀ method path r fehler s, shown_status (Preview now method path r fehler) = Some s →
    segments path ≠ ["ruhig"] → status_sound now s).
Proof.
  split; [intros lang w p w'; apply status_page_sound|].
  intros method path r fehler s [[_ ?]|[[lang ->]|[-> | ->]]]%preview_status Hne; [done|..].
  - apply demoStatus_sound.
  - apply empty_page_sound.
  - apply fresh_page_sound.
Qed.

(** Under /ruhig the preview says that all services are up above a row that
    says that one is not: no page of the server does. *)
Theorem quiet_page_contradicts `{!Sine, !NetLib} now r fehler :
  ∃ s, shown_status (Preview now "GET" "/ruhig" r fehler) = Some s ∧ sp_Overall s = StateUp ∧
    StateDown ∈ r_State <$> sp_Targets s ∧
    ∀ lang w p w', status_page now lang w = (Ok p, w') →
      (sp_Overall p, r_State <$> sp_Targets p) ≠ (sp_Overall s, r_State <$> sp_Targets s).
Proof.
  exists (quiet_page now "/ruhig"). assert (StateDown ∈ r_State <$> sp_Targets (quiet_page now "/ruhig")).
  { right. left. }
  split_and!; [done..|]. intros lang w p w' (Ho & _)%status_page_sound [= E1 E2].
  destruct (overall_state (sp_Targets p)) as [[_ Hd] _]. rewrite E1 in Ho.
  rewrite Hd in Ho; [done|]. by rewrite E2.
Qed.
