(* ===== verification/Mail.v ===== *)
(** * The text of a mail (internal/alert/mail.go)

    Subjects and bodies of the notifications, and the message as it goes over
    the wire: eight header fields and a quoted-printable body.  Proved is that
    a mail program reads the fields, the subject and the body that were meant,
    whatever the name of the service and the cause contain. *)

From S2P Require Import Prelude Text Netip GoTime Sql Schema Validate Dial Checker Format Quoted.

(** ** Texts *)

(** [strings.Map] dropping the hidden characters. *)
Definition clean (s : string) : string := of_runes (filter (λ r, hidden r.1 = false) (runes s)).

(** Whole units of a duration: the incidents' instants are whole seconds, for
    which [int(d.Hours())] and its like are exact. *)
Definition dauer (d : Duration) : string :=
  if decide (d < Minute) then itoa (Z.quot d Second) +:+ " Sek."
  else if decide (d < Hour) then itoa (Z.quot d Minute) +:+ " Min."
  else if decide (d < 24 * Hour)
  then itoa (Z.quot d Hour) +:+ " Std. " +:+ itoa (Z.rem (Z.quot d Minute) 60) +:+ " Min."
  else
    let days := Z.quot (Z.quot d Hour) 24 in
    itoa days +:+ " " +:+ (if decide (days = 1) then "Tag" else "Tage") +:+ " " +:+
    itoa (Z.rem (Z.quot d Hour) 24) +:+ " Std.".

(** A line break. *)
Definition nl : string := of_bytes [10].

(** [from.Address[strings.LastIndexByte(from.Address, '@')+1:]]. *)
Definition domain_of (address : string) : string :=
  match last_index 64 (bytes address) with
  | Some i => of_bytes (drop (S i) (bytes address))
  | None => address
  end.

(** The fields of [struct Mailer] that are set once. *)
Record Account : Type := mkAccount {
  ac_Host : string;
  ac_User : string;
  ac_Pass : string;
  ac_From : string;
  ac_To : list string;
  ac_BaseURL : string
}.

(** [mail.Address.String]: of the address [mail.ParseAddress] reads, and of a
    bare one. *)
Class AddressText : Type := {
  FromText : string → string;
  BareText : string → string
}.

Section Mail.
Context `{!Berlin, !AddressText}.

(** The layout 02.01.2006, 15:04 Uhr. *)
Definition clock (t : Time) : string :=
  let c := date t in
  two (cv_day c) +:+ "." +:+ two (cv_month c) +:+ "." +:+ year_text (cv_year c) +:+ ", " +:+
  Format.clock t +:+ " Uhr".

(** The layout of RFC 1123 with a numeric zone: Mon, 02 Jan 2006 15:04:05 -0700. *)
Definition weekday (days : Z) : string :=
  default "" (["Thu"; "Fri"; "Sat"; "Sun"; "Mon"; "Tue"; "Wed"] !! Z.to_nat (days mod 7)).

Definition zone_text (seconds : Z) : string :=
  let minutes := Z.quot seconds 60 in
  (if decide (minutes < 0) then "-" else "+") +:+
  two (Z.abs minutes / 60) +:+ two (Z.abs minutes mod 60).

Definition RFC1123Z (t : Time) : string :=
  let c := date t in
  weekday (local t / 86400) +:+ ", " +:+ two (cv_day c) +:+ " " +:+ month_name (cv_month c) +:+ " " +:+
  year_text (cv_year c) +:+ " " +:+ Format.clock t +:+ ":" +:+ two (local t mod 60) +:+ " " +:+
  zone_text (offset t).

Variable ac : Account.

Definition link : string :=
  if decide (ac_BaseURL ac = "") then "" else nl +:+ ac_BaseURL ac +:+ "/admin/" +:+ nl.

Definition downText (name cause : string) (since : Time) : string * string :=
  let name := clean name in
  ("[dmn-status] nicht erreichbar: " +:+ name,
   name +:+ " ist nicht erreichbar." +:+ nl +:+ nl +:+ "Seit:    " +:+ clock since +:+ nl +:+
   "Ursache: " +:+ clean cause +:+ nl +:+ link).

Definition upText (name : string) (from to : Time) : string * string :=
  let name := clean name in
  let d := dauer (Sub to from) in
  ("[dmn-status] wieder erreichbar: " +:+ name +:+ " nach " +:+ d,
   name +:+ " ist wieder erreichbar." +:+ nl +:+ nl +:+ "Ausfall: " +:+ clock from +:+ " bis " +:+
   clock to +:+ nl +:+ "Dauer:   " +:+ d +:+ nl +:+ link).

(** ** The message *)

(** The end of a line, and [fmt.Fprintf] of one field. *)
Definition eol : list Z := [13; 10].

Definition field (name : string) (value : list Z) : list Z := bytes name ++ [58; 32] ++ value ++ eol.

Definition joined (to : list string) : string := String.concat ", " to.

(** [from] is the address of the sender. *)
Definition message (from subject body id : string) (now : Time) : list Z :=
  field "From" (bytes (FromText (ac_From ac))) ++
  field "To" (bytes (joined (BareText <$> ac_To ac))) ++
  field "Subject" (QEncode (clean subject)) ++
  field "Date" (bytes (RFC1123Z now)) ++
  field "Message-ID" (bytes ("<" +:+ id +:+ "@" +:+ domain_of from +:+ ">")) ++
  field "MIME-Version" (bytes "1.0") ++
  field "Content-Type" (bytes "text/plain; charset=utf-8") ++
  field "Content-Transfer-Encoding" (bytes "quoted-printable") ++ eol ++
  quoted (bytes body).
End Mail.

(** ** The golden files of the tests *)

(** Berlin in September. *)
Definition summer : Berlin := {| offset := λ _, 7200 |}.

Definition golden_text : AddressText :=
  {| FromText := λ s, of_bytes [34] +:+ "dmn-status" +:+ of_bytes [34] +:+
                      " <noreply@dmn-software.example>";
     BareText := λ a, "<" +:+ a +:+ ">" |}.

Definition golden_account : Account :=
  mkAccount "" "" "" "dmn-status <noreply@dmn-software.example>" ["admin@example.test"]
    "https://status.example.test".

(** 17 September 2026, 12:03 UTC, and 26 hours and five minutes later. *)
Definition golden_start : Time := fromUnix 1789646580.
Definition golden_end : Time := Add golden_start (26 * Hour + 5 * Minute).

Definition lines (l : list string) : list Z := l ≫= λ s, bytes s ++ eol.

Definition golden_name : string := "Bewerbungsportal (Gr" +:+ of_bytes [195; 182; 195; 159] +:+ "e)".

Example down_golden :
  let '(subject, body) := @downText summer golden_account golden_name "verbindung abgelehnt"
                            golden_start in
  @message summer golden_text golden_account "noreply@dmn-software.example" subject body
    "FESTEID" golden_end =
  lines ["From: " +:+ @FromText golden_text "";
         "To: <admin@example.test>";
         "Subject: =?utf-8?q?[dmn-status]_nicht_erreichbar:_Bewerbungsportal_(Gr=C3=B6=C3=9F?= =?utf-8?q?e)?=";
         "Date: Fri, 18 Sep 2026 16:08:00 +0200";
         "Message-ID: <FESTEID@dmn-software.example>";
         "MIME-Version: 1.0";
         "Content-Type: text/plain; charset=utf-8";
         "Content-Transfer-Encoding: quoted-printable";
         "";
         "Bewerbungsportal (Gr=C3=B6=C3=9Fe) ist nicht erreichbar.";
         "";
         "Seit:    17.09.2026, 14:03 Uhr";
         "Ursache: verbindung abgelehnt";
         "";
         "https://status.example.test/admin/"].
Proof. by vm_compute. Qed.

Example up_golden :
  let '(subject, body) := @upText summer golden_account golden_name golden_start golden_end in
  @message summer golden_text golden_account "noreply@dmn-software.example" subject body
    "FESTEID" golden_end =
  lines ["From: " +:+ @FromText golden_text "";
         "To: <admin@example.test>";
         "Subject: =?utf-8?q?[dmn-status]_wieder_erreichbar:_Bewerbungsportal_(Gr=C3=B6?= =?utf-8?q?=C3=9Fe)_nach_1_Tag_2_Std.?=";
         "Date: Fri, 18 Sep 2026 16:08:00 +0200";
         "Message-ID: <FESTEID@dmn-software.example>";
         "MIME-Version: 1.0";
         "Content-Type: text/plain; charset=utf-8";
         "Content-Transfer-Encoding: quoted-printable";
         "";
         "Bewerbungsportal (Gr=C3=B6=C3=9Fe) ist wieder erreichbar.";
         "";
         "Ausfall: 17.09.2026, 14:03 Uhr bis 18.09.2026, 16:08 Uhr";
         "Dauer:   1 Tag 2 Std.";
         "";
         "https://status.example.test/admin/"].
Proof. by vm_compute. Qed.

(** ** Reading a message (RFC 5322)

    Lines up to the first break; the header fields up to the empty line. *)

Fixpoint cut_line (l : list Z) : option (list Z * list Z) :=
  match l with
  | b :: (c :: l2) as l1 =>
      if decide (b = 13 ∧ c = 10) then Some ([], l2) else prod_map (cons b) id <$> cut_line l1
  | _ => None
  end.

Definition read_field (line : list Z) : option (list Z * list Z) :=
  match cut_at 58 line with
  | (name, Some (32 :: value)) => Some (name, value)
  | _ => None
  end.

Fixpoint read_message (fuel : nat) (l : list Z) : option (list (list Z * list Z) * list Z) :=
  match fuel with
  | O => None
  | S fuel =>
      match cut_line l with
      | None => None
      | Some ([], body) => Some ([], body)
      | Some (line, rest) =>
          f ← read_field line; m ← read_message fuel rest; Some (f :: m.1, m.2)
      end
  end.

(** Text without a line break. *)
Definition unbroken (l : list Z) : Prop := (13 ∉ l) ∧ (10 ∉ l).
Definition one_line (s : string) : Prop := unbroken (bytes s).

Lemma cut_line_eol l rest : unbroken l → cut_line (l ++ eol ++ rest) = Some (l, rest).
Proof.
  induction l as [|b l IH]; intros [Hr Hn]; [done|].
  assert (Hb : b ≠ 13) by set_solver.
  assert (IH' : cut_line (l ++ eol ++ rest) = Some (l, rest)) by (apply IH; split; set_solver).
  cbn [app]. destruct (l ++ eol ++ rest) as [|c l'] eqn:Hl; [by destruct l|].
  change (cut_line (b :: c :: l')) with (if decide (b = 13 ∧ c = 10) then Some ([], l')
    else prod_map (cons b) id <$> cut_line (c :: l')).
  rewrite decide_False by tauto. by rewrite IH'.
Qed.

Lemma cut_at_sep sep p l : sep ∉ p → cut_at sep (p ++ sep :: l) = (p, Some l).
Proof.
  induction p as [|b p IH]; intros Hn; simpl; [by rewrite decide_True|].
  rewrite decide_False by set_solver. by rewrite IH by set_solver.
Qed.

(** Reading one field and the rest. *)
Lemma read_message_field name value fuel rest :
  unbroken (bytes name) → 58 ∉ bytes name → bytes name ≠ [] → unbroken value →
  read_message (S fuel) (field name value ++ rest) =
    (λ m, ((bytes name, value) :: m.1, m.2)) <$> read_message fuel rest.
Proof.
  intros Hn Hcolon Hne Hv. cbn [read_message]. unfold field.
  replace ((bytes name ++ [58; 32] ++ value ++ eol) ++ rest)
    with ((bytes name ++ [58; 32] ++ value) ++ eol ++ rest) by (by rewrite <-!app_assoc).
  rewrite cut_line_eol.
  2: { destruct Hn, Hv. split; rewrite !elem_of_app, !elem_of_cons, elem_of_nil; naive_solver lia. }
  destruct (bytes name ++ [58; 32] ++ value) as [|b line] eqn:Hl; [by destruct (bytes name)|].
  rewrite <-Hl. unfold read_field. change ([58; 32] ++ value) with (58 :: (32 :: value)).
  rewrite cut_at_sep by done. simpl. by destruct (read_message fuel rest).
Qed.

(** ** Text that cannot break a line *)

Lemma one_line_app s s' : one_line s → one_line s' → one_line (s +:+ s').
Proof.
  unfold one_line, unbroken. change (s +:+ s') with (String.append s s'). rewrite bytes_app.
  rewrite !elem_of_app. tauto.
Qed.

#[export] Instance unbroken_dec l : Decision (unbroken l).
Proof. unfold unbroken. apply _. Defined.

#[export] Instance one_line_dec s : Decision (one_line s).
Proof. unfold one_line. apply _. Defined.

Ltac one_line_lit := by apply (bool_decide_eq_true_1 (one_line _)).

Lemma unbroken_ge l : Forall (λ b, 32 ≤ b) l → unbroken l.
Proof. rewrite list.Forall_forall. intros H. split; intros Hin%H; lia. Qed.

(** Visible bytes: what the figures are made of. *)
Lemma visible_unbroken l : Forall visible l → unbroken l.
Proof. intros Hl. apply unbroken_ge. apply (Forall_impl _ _ _ Hl). unfold visible. lia. Qed.

Lemma one_line_digits fuel n : 0 ≤ n → one_line (String.string_of_list_ascii (digits fuel n)).
Proof.
  intros Hn. apply visible_unbroken. unfold bytes. rewrite String.list_ascii_of_string_of_list_ascii.
  by apply Forall_fmap, digits_visible.
Qed.

Lemma one_line_itoa n : one_line (itoa n).
Proof. apply visible_unbroken, itoa_visible. Qed.

Lemma one_line_padded k n : 0 ≤ n → one_line (pad_zeros k (decimal n)).
Proof.
  intros Hn. assert (H : one_line (decimal n)) by by apply one_line_digits.
  revert H. generalize (decimal n). induction k as [|k IH]; intros s Hs; [done|]. cbn [pad_zeros].
  case_decide; [|done]. apply one_line_app; [one_line_lit|by apply IH].
Qed.

Lemma one_line_two n : 0 ≤ n → one_line (two n).
Proof. apply one_line_padded. Qed.

Lemma one_line_year y : one_line (year_text y).
Proof.
  unfold year_text. apply one_line_app; [|apply one_line_padded; lia].
  by case_bool_decide; apply (bool_decide_eq_true_1 (one_line _)).
Qed.

(** One of a list of literals. *)
Lemma one_line_lookup (l : list string) i : Forall one_line l → one_line (default "" (l !! i)).
Proof.
  intros Hl. destruct (l !! i) as [s|] eqn:Hs; [|by apply (bool_decide_eq_true_1 (one_line _))].
  rewrite list.Forall_forall in Hl. by eapply Hl, list_elem_of_lookup_2.
Qed.

Lemma civil_positive days : 1 ≤ cv_day (civil_of_days days) ∧ 1 ≤ cv_month (civil_of_days days).
Proof.
  unfold civil_of_days. simpl. set (doe := (days + 719468) mod 146097).
  assert (Hdoe : 0 ≤ doe < 146097) by (apply Z.mod_pos_bound; lia). clearbody doe.
  set (yoe := (doe - doe / 1460 + doe / 36524 - doe / 146096) / 365).
  assert (Hdoy : 0 ≤ doe - (365 * yoe + yoe / 4 - yoe / 100)).
  { unfold yoe. Z.to_euclidean_division_equations. lia. }
  revert Hdoy. generalize (doe - (365 * yoe + yoe / 4 - yoe / 100)). clear. intros doy Hdoy.
  split; [|case_decide]; Z.to_euclidean_division_equations; lia.
Qed.

Section OneLine.
Context `{!Berlin}.

Lemma one_line_hours t : one_line (Format.clock t).
Proof.
  unfold Format.clock. pose proof (Z.mod_pos_bound (local t) 86400 ltac:(lia)) as Hmod.
  repeat apply one_line_app; [apply one_line_two|one_line_lit|apply one_line_two];
    Z.to_euclidean_division_equations; lia.
Qed.

(** The parts of a date, put together. *)
Ltac one_line_parts :=
  repeat first
    [ one_line_lit | apply one_line_hours | apply one_line_year
    | apply one_line_two; first [lia | apply Z.mod_pos_bound; lia | apply Z.div_pos; lia]
    | apply one_line_lookup; by apply (bool_decide_eq_true_1 (Forall one_line _))
    | apply one_line_app | case_decide ].

Lemma one_line_clock t : one_line (clock t).
Proof.
  unfold clock. destruct (civil_positive (local t / 86400)) as [Hd Hm]. fold (date t) in Hd, Hm.
  one_line_parts.
Qed.

Lemma one_line_RFC1123Z t : one_line (RFC1123Z t).
Proof.
  unfold RFC1123Z, weekday, month_name, zone_text.
  destruct (civil_positive (local t / 86400)) as [Hd Hm]. fold (date t) in Hd, Hm.
  one_line_parts.
Qed.
End OneLine.

Lemma one_line_dauer d : one_line (dauer d).
Proof.
  unfold dauer. repeat case_decide; repeat apply one_line_app; auto using one_line_itoa; one_line_lit.
Qed.

(** What [clean] leaves has no line break. *)
Lemma one_line_clean s : one_line (clean s).
Proof.
  assert (H : ∀ b, b ∈ bytes (clean s) → b = 13 ∨ b = 10 → False).
  2: { split; intros Hin; eapply H; eauto. }
  intros b Hb Hbad. unfold clean, of_runes in Hb. rewrite bytes_of_bytes in Hb.
  - apply list_elem_of_In, in_concat in Hb as (bs & Hbs & Hin).
    apply list_elem_of_In, list_elem_of_fmap in Hbs as (r & -> & [Hh Hr]%list_elem_of_filter).
    apply runes_elem in Hr as (_ & _ & _ & Hlow). apply list_elem_of_In in Hin.
    unfold rune_bytes in Hin. case_decide; [|apply Hlow in Hin; [|lia]].
    + rewrite !elem_of_cons, elem_of_nil in Hin. lia.
    + rewrite Hin in Hh. by destruct Hbad as [-> | ->].
  - apply Forall_concat, Forall_fmap, list.Forall_forall. intros r [_ Hr]%list_elem_of_filter.
    apply runes_elem in Hr as (Hbytes & _). unfold compose, rune_bytes.
    case_decide; [|done]. rewrite !list.Forall_cons. unfold is_byte. split_and!; [lia..|constructor].
Qed.

Lemma elem_of_drop_bytes n s : one_line s → one_line (of_bytes (drop n (bytes s))).
Proof.
  unfold one_line. rewrite bytes_of_bytes by (apply Forall_drop, bytes_are_bytes).
  intros [Hr Hn]. split; intros Hin; [apply Hr|apply Hn];
    rewrite <-(take_drop n (bytes s)); apply elem_of_app; by right.
Qed.

Lemma one_line_domain s : one_line s → one_line (domain_of s).
Proof. intros Hs. unfold domain_of. case_match; [by apply elem_of_drop_bytes|done]. Qed.

Lemma one_line_joined l : Forall one_line l → one_line (joined l).
Proof.
  unfold joined. induction 1 as [|s l Hs Hl IH]; [one_line_lit|]. simpl.
  destruct l as [|s' l]; [done|]. apply one_line_app; [done|]. apply one_line_app; [one_line_lit|done].
Qed.

(** The mails there are, and their texts. *)
Inductive mail_op : Type :=
  | MDown (name cause : string) (since : Time)
  | MUp (name : string) (from to : Time)
  | MTest.

(** The subject and the body of a mail. *)
Definition mail_text `{!Berlin} (ac : Account) (m : mail_op) : string * string :=
  match m with
  | MDown name cause since => downText ac name cause since
  | MUp name from to => upText ac name from to
  | MTest => ("[dmn-status] Testmail", "Mailversand von dmn-status funktioniert." +:+ nl)
  end.

(** What [mail.ParseAddress] and [mail.Address.String] promise: an address and
    its text are one line. *)
Class AddressLaws `{!NetLib, !AddressText} : Prop := {
  parsed_one_line s a : ParseMail s = Some a → one_line a;
  from_one_line s a : ParseMail s = Some a → one_line (FromText s);
  bare_one_line a : one_line a → one_line (BareText a)
}.

(** The settings the mailer is given: its recipients were parsed, the base
    address is a URL. *)
Definition account_ok (ac : Account) : Prop := Forall one_line (ac_To ac) ∧ one_line (ac_BaseURL ac).

(** No carriage return: the encoder of the body keeps to the lines of the text. *)
Definition no_return (s : string) : Prop := 13 ∉ bytes s.

Lemma no_return_app s s' : no_return s → no_return s' → no_return (s +:+ s').
Proof.
  unfold no_return. change (s +:+ s') with (String.append s s'). rewrite bytes_app, elem_of_app. tauto.
Qed.

Lemma no_return_line s : one_line s → no_return s.
Proof. by intros []. Qed.

#[export] Instance no_return_dec s : Decision (no_return s).
Proof. unfold no_return. apply _. Defined.

Section Reading.
Context `{!Berlin, !NetLib, !AddressText, !AddressLaws}.
Variable ac : Account.
Hypothesis Hac : account_ok ac.

Ltac no_return_lit := by apply (bool_decide_eq_true_1 (no_return _)).

Ltac no_return_parts :=
  repeat first
    [ no_return_lit
    | apply no_return_line, one_line_clean | apply no_return_line, one_line_clock
    | apply no_return_line, one_line_dauer
    | apply no_return_line; by destruct Hac
    | apply no_return_app | case_decide ].

Lemma mail_text_no_return m : no_return (mail_text ac m).2.
Proof.
  destruct m as [name cause since|name from to|]; cbn [mail_text downText upText snd]; unfold link;
    no_return_parts.
Qed.

(** The fields a mail program reads. *)
Definition mail_fields (from subject id : string) (now : Time) : list (string * list Z) :=
  [("From", bytes (FromText (ac_From ac)));
   ("To", bytes (joined (BareText <$> ac_To ac)));
   ("Subject", QEncode (clean subject));
   ("Date", bytes (RFC1123Z now));
   ("Message-ID", bytes ("<" +:+ id +:+ "@" +:+ domain_of from +:+ ">"));
   ("MIME-Version", bytes "1.0");
   ("Content-Type", bytes "text/plain; charset=utf-8");
   ("Content-Transfer-Encoding", bytes "quoted-printable")].

Lemma message_fields from subject body id now :
  message ac from subject body id now =
    (mail_fields from subject id now ≫= λ f, field f.1 f.2) ++ eol ++ quoted (bytes body).
Proof. unfold message, mail_fields. cbn [mbind list_bind fst snd]. by rewrite app_nil_r, <-!app_assoc. Qed.

Lemma QEncode_unbroken s : unbroken (QEncode s).
Proof.
  pose proof (QEncode_chars s) as Hc. rewrite list.Forall_forall in Hc. unfold line_char in Hc.
  split; intros Hin%Hc; lia.
Qed.

Ltac unbroken_lit := by apply (bool_decide_eq_true_1 (unbroken _)).

(** A field that is one line with a name. *)
Definition field_ok (f : string * list Z) : Prop :=
  unbroken (bytes f.1) ∧ (58 ∉ bytes f.1) ∧ bytes f.1 ≠ [] ∧ unbroken f.2.

Lemma mail_fields_ok from subject id now :
  ParseMail (ac_From ac) = Some from → one_line id →
  Forall field_ok (mail_fields from subject id now).
Proof.
  intros Hfrom Hid. destruct Hac as [Hto _].
  assert (Hdom : one_line (domain_of from)) by (eapply one_line_domain, parsed_one_line; done).
  assert (Hbare : one_line (joined (BareText <$> ac_To ac))).
  { apply one_line_joined, Forall_fmap. apply (Forall_impl _ _ _ Hto). intros a. apply bare_one_line. }
  assert (Hmid : one_line ("<" +:+ id +:+ "@" +:+ domain_of from +:+ ">")).
  { repeat first [done|one_line_lit|apply one_line_app]. }
  pose proof (one_line_RFC1123Z now) as Hdate. pose proof (from_one_line _ _ Hfrom) as Hname.
  unfold mail_fields. repeat (apply list.Forall_cons; split); [..|constructor]; unfold field_ok; cbn [fst snd];
    (split_and!; [unbroken_lit|by apply (bool_decide_eq_true_1 _)|done|
      first [unbroken_lit|apply QEncode_unbroken|done]]).
Qed.

(** Reading fields that are as they should be. *)
Lemma read_fields fs body :
  Forall field_ok fs →
  read_message (S (length fs)) ((fs ≫= λ f, field f.1 f.2) ++ eol ++ body) =
    Some (prod_map bytes (λ v, v) <$> fs, body).
Proof.
  induction 1 as [|[name value] fs (Hn & Hc & Hne & Hv) _ IH]; [done|].
  cbn [mbind list_bind fst snd]. rewrite <-app_assoc.
  change (length ((name, value) :: fs)) with (S (length fs)). cbn [fst snd] in *.
  rewrite read_message_field by done. by rewrite IH.
Qed.
End Reading.

(** ** The lines of a message *)

(** The text ends its last line. *)
Definition ends_line (s : string) : Prop := ∃ l, bytes s = l ++ [10].

Lemma ends_line_app s s' : ends_line s' → ends_line (s +:+ s').
Proof.
  intros [l Hl]. exists (bytes s ++ l). change (s +:+ s') with (String.append s s').
  by rewrite bytes_app, Hl, app_assoc.
Qed.

Lemma ends_line_nl : ends_line nl.
Proof. by exists []. Qed.

Lemma mail_text_ends `{!Berlin} ac m : ends_line (mail_text ac m).2.
Proof.
  destruct m as [name cause since|name from to|]; cbn [mail_text downText upText snd];
    unfold link; try case_decide; repeat first [by apply ends_line_nl|apply ends_line_app];
    by exists [].
Qed.

Lemma good_line_unbroken l : good_line l → unbroken l.
Proof.
  intros [Hl _]. rewrite list.Forall_forall in Hl. unfold line_char in Hl.
  split; intros Hin%Hl; lia.
Qed.

Lemma field_line name value : field name value = lines_text [bytes name ++ [58; 32] ++ value].
Proof. unfold field, lines_text. csimpl. by rewrite app_nil_r, <-!app_assoc. Qed.

Lemma lines_text_app ls ls' : lines_text (ls ++ ls') = lines_text ls ++ lines_text ls'.
Proof. apply bind_app. Qed.

(** A message consists of whole lines. *)
Lemma message_lines `{!Berlin, !NetLib, !AddressText, !AddressLaws} ac m from id now :
  account_ok ac → ParseMail (ac_From ac) = Some from → one_line id →
  ∃ ls, message ac from (mail_text ac m).1 (mail_text ac m).2 id now = lines_text ls ∧
    Forall unbroken ls ∧ ls ≠ [].
Proof.
  intros Hac Hfrom Hid. pose proof (mail_text_no_return ac Hac m) as Hr.
  destruct (mail_text_ends ac m) as [l Hl]. unfold no_return in Hr. rewrite Hl in Hr.
  pose proof (bytes_are_bytes (mail_text ac m).2) as Hb. rewrite Hl in Hb.
  apply Forall_app in Hb as [Hb _]. rewrite elem_of_app in Hr.
  destruct (quoted_lines l Hb ltac:(tauto)) as (ls & Hq & Hls).
  exists (((λ f, bytes f.1 ++ [58; 32] ++ f.2) <$> mail_fields ac from (mail_text ac m).1 id now) ++ [] :: ls).
  split_and!.
  - by rewrite message_fields, Hl, Hq, lines_text_app.
  - pose proof (mail_fields_ok ac Hac from (mail_text ac m).1 id now Hfrom Hid) as Hfs.
    apply Forall_app. split; [|constructor; [by split; apply not_elem_of_nil|]].
    2: { apply (Forall_impl _ _ _ Hls), good_line_unbroken. }
    apply Forall_fmap. apply (Forall_impl _ _ _ Hfs). intros f ([Hr1 Hn1] & _ & _ & [Hr2 Hn2]).
    split; simpl; rewrite elem_of_app, !elem_of_cons; naive_solver lia.
  - by destruct (mail_fields _ _ _ _ _).
Qed.

(** ** Properties *)

(** C19: whatever a service is called and whatever the cause of an
    outage says, the message that goes out has exactly the eight header fields
    that were meant, none of them broken or added to, and a mail program that
    decodes it gets the body with the line breaks of mails and the subject
    without its hidden characters; only a subject that itself looks like an
    encoded word, all in ASCII, is outside the claim. *)
Theorem mail_reads_back `{!Berlin, !NetLib, !AddressText, !AddressLaws} ac m from id now :
  account_ok ac → ParseMail (ac_From ac) = Some from → one_line id →
  let subject := (mail_text ac m).1 in
  let body := (mail_text ac m).2 in
  ∃ text,
    read_message 9 (message ac from subject body id now) =
      Some (prod_map bytes (λ v, v) <$> mail_fields ac from subject id now, text) ∧
    unquote text = Some (crlf (bytes body)) ∧
    (needsEncoding (clean subject) = true ∨ no_words (clean subject) →
     read_header (QEncode (clean subject)) = Some (bytes (clean subject))).
Proof.
  intros Hac Hfrom Hid subject body. exists (quoted (bytes body)).
  split_and!; [| |apply QEncode_spec].
  { rewrite message_fields. apply read_fields. by apply mail_fields_ok. }
  apply quoted_spec; [apply bytes_are_bytes|by apply mail_text_no_return].
Qed.

(** ** An example: a name that tries to add a field *)

Definition mail_netlib : NetLib :=
  {|      url_Parse := λ _, None;
     ParseMail := λ s, if decide (one_line s) then Some s else None; ParseMailList := λ _, None |}.

Lemma golden_laws : @AddressLaws mail_netlib golden_text.
Proof.
  split.
  - intros s a. cbn. case_decide; intros; by simplify_eq.
  - intros s a _. one_line_lit.
  - intros a Ha. cbn. by repeat first [done|one_line_lit|apply one_line_app].
Qed.

Lemma mail_reads_back_witness :
  let name := "Web" +:+ of_bytes [13; 10] +:+ "Bcc: fremd@example.test" in
  let from := "dmn-status <noreply@dmn-software.example>" in
  let m := MUp name golden_start golden_end in
  let subject := (@mail_text summer golden_account m).1 in
  let body := (@mail_text summer golden_account m).2 in
  subject = "[dmn-status] wieder erreichbar: WebBcc: fremd@example.test nach 1 Tag 2 Std." ∧
  ∃ text,
    read_message 9 (@message summer golden_text golden_account from subject body "ID" golden_end) =
      Some (prod_map bytes (λ v, v) <$>
              @mail_fields summer golden_text golden_account from subject "ID" golden_end, text) ∧
    unquote text = Some (crlf (bytes body)).
Proof.
  intros name from m subject body. split; [by vm_compute|].
  destruct (@mail_reads_back summer mail_netlib golden_text golden_laws golden_account m
    from "ID" golden_end) as (text & Hm & Hu & _).
  - split; [by apply (bool_decide_eq_true_1 (Forall one_line _))|one_line_lit].
  - cbn. by rewrite decide_True by one_line_lit.
  - one_line_lit.
  - exists text. exact (conj Hm Hu).
Defined.
