(* ===== verification/Smtp.v ===== *)
(** * The session with the mail server (internal/alert/smtp.go, smtptest/server.go)

    What [send] says to the server through net/smtp and net/textproto, line by
    line, against a server that may answer anything or nothing; and the server
    of internal/alert/smtptest, a state machine over the lines it reads.
    Proved is that a mail counts as sent exactly when the server took it for
    all recipients, and that the test server stores exactly the message. *)

From S2P Require Import Prelude Text Netip GoTime Format Quoted Mail.

(** ** The wire *)

(** What the client does: open the connection, send a line, send a message
    with its end. *)
Inductive item : Type :=
  | Open
  | Line (l : string)
  | Dots (l : list Z).

(** The code and the lines of a reply; none when the connection fails or
    breaks, or its deadline passes. *)
Definition reply : Type := option (Z * list string).

(** A server: its reply to the last of the items it got. *)
Class Peer : Type := { answer : list item → reply }.

(** *** textproto.DotWriter *)

Inductive dot_wstate : Type := wBegin | wBeginLine | wCR | wData.

(** [dotWriter.Write] of one byte: the bytes written and the next state. *)
Definition dot_byte (s : dot_wstate) (c : Z) : list Z * dot_wstate :=
  match s with
  | wCR => ([c], if decide (c = 10) then wBeginLine else wData)
  | _ =>
      let stuffed := match s with
                     | wData => []
                     | _ => if decide (c = 46) then [46] else []
                     end in
      if decide (c = 13) then (stuffed ++ [c], wCR)
      else if decide (c = 10) then (stuffed ++ [13; c], wBeginLine)
      else (stuffed ++ [c], wData)
  end.

Fixpoint dot_write (s : dot_wstate) (l : list Z) : list Z * dot_wstate :=
  match l with
  | [] => ([], s)
  | c :: l => let '(out, s) := dot_byte s c in
              let '(rest, s) := dot_write s l in (out ++ rest, s)
  end.

(** [dotWriter.Close]. *)
Definition dot_close (s : dot_wstate) : list Z :=
  match s with
  | wBeginLine => [46; 13; 10]
  | wCR => [10; 46; 13; 10]
  | _ => [13; 10; 46; 13; 10]
  end.

Definition dots (l : list Z) : list Z := let '(out, s) := dot_write wBegin l in out ++ dot_close s.

(** *** textproto.Reader.DotReader *)

Inductive dot_rstate : Type := rBeginLine | rDot | rDotCR | rCR | rData.

(** [dotReader.Read] of one byte: what it emits and the next state, none at
    the end; a carriage return that ends no line is emitted and the byte after
    it read again, as data. *)
Definition data_byte (c : Z) : list Z * option dot_rstate :=
  if decide (c = 13) then ([], Some rCR)
  else if decide (c = 10) then ([c], Some rBeginLine)
  else ([c], Some rData).

Definition undot_byte (s : dot_rstate) (c : Z) : list Z * option dot_rstate :=
  match s with
  | rBeginLine =>
      if decide (c = 46) then ([], Some rDot)
      else if decide (c = 13) then ([], Some rCR)
      else ([c], Some rData)
  | rDot =>
      if decide (c = 13) then ([], Some rDotCR)
      else if decide (c = 10) then ([], None)
      else ([c], Some rData)
  | rDotCR =>
      if decide (c = 10) then ([], None) else let '(out, s) := data_byte c in (13 :: out, s)
  | rCR =>
      if decide (c = 10) then ([c], Some rBeginLine) else let '(out, s) := data_byte c in (13 :: out, s)
  | rData => data_byte c
  end.

(** [ReadDotBytes]: the message up to its end; none when the end is missing. *)
Fixpoint undot (s : dot_rstate) (l : list Z) : option (list Z) :=
  match l with
  | [] => None
  | c :: l =>
      match undot_byte s c with
      | (out, None) => Some out
      | (out, Some s) => app out <$> undot s l
      end
  end.

Definition ReadDotBytes (l : list Z) : option (list Z) := undot rBeginLine l.

(** ** net/smtp.Client *)

(** What was said, the outcome of the greeting [EHLO] or [HELO] once it
    happened with the server's extensions. *)
Record client : Type := mkClient {
  c_talk : list item;
  c_hello : option (res unit (list string))
}.

Definition C (A : Type) : Type := client → res unit A * client.

Definition c_ret {A} (a : A) : C A := λ c, (Ok a, c).
Definition c_fail {A} : C A := λ c, (Err (), c).
Definition c_bind {A B} (m : C A) (f : A → C B) : C B := λ c,
  match m c with
  | (Ok a, c) => f a c
  | (Err e, c) => (Err e, c)
  end.

Notation "'let*' x ':=' m 'in' k" := (c_bind m (λ x, k))
  (at level 10, x pattern, k at level 200).
Notation "'do*' m 'in' k" := (c_bind m (λ _, k))
  (at level 10, k at level 200).

Section Client.
Context {peer : Peer}.

(** [Reader.ReadResponse]: a code of one, two or three digits, or any. *)
Definition code_ok (expect code : Z) : bool :=
  if decide (1 ≤ expect < 10) then bool_decide (code / 100 = expect)
  else if decide (10 ≤ expect < 100) then bool_decide (code / 10 = expect)
  else if decide (100 ≤ expect < 1000) then bool_decide (code = expect)
  else true.

Definition accepted (expect : Z) (talk : list item) : Prop :=
  ∃ code lines, answer talk = Some (code, lines) ∧ code_ok expect code = true.

(** [Client.cmd], and its like for the connection and the message. *)
Definition cmd (expect : Z) (i : item) : C (Z * list string) := λ c,
  let c := mkClient (c_talk c ++ [i]) (c_hello c) in
  match answer (c_talk c) with
  | Some (code, lines) => if code_ok expect code then (Ok (code, lines), c) else (Err (), c)
  | None => (Err (), c)
  end.

(** The names of the extensions: the first words of the lines after the first. *)
Definition extensions (lines : list string) : list string := (λ l, (Cut l " ").1) <$> tail lines.

(** [Client.hello]: once, [EHLO] and if that fails [HELO]. *)
Definition hello : C (list string) := λ c,
  match c_hello c with
  | Some r => (r, c)
  | None =>
      let '(r, c) := cmd 250 (Line "EHLO localhost") c in
      let '(r, c) := match r with
                     | Ok (_, lines) => (Ok (extensions lines), c)
                     | Err _ =>
                         let '(r, c) := cmd 250 (Line "HELO localhost") c in
                         (match r with Ok _ => Ok [] | Err e => Err e end, c)
                     end in
      (r, mkClient (c_talk c) (Some r))
  end.

(** The line of [smtp.PlainAuth]: no identity, the name and the password. *)
Definition pad_base64 (l : list Z) : string :=
  base64_encode std_alphabet l +:+
  match (length l mod 3)%nat with O => "" | 1%nat => "==" | _ => "=" end.

Definition plain_response (user pass : string) : list Z := [0] ++ bytes user ++ [0] ++ bytes pass.

Definition auth_line (user pass : string) : string :=
  "AUTH PLAIN " +:+ pad_base64 (plain_response user pass).

(** [Client.Quit]. *)
Definition Quit : C unit := do* hello in do* cmd 221 (Line "QUIT") in c_ret ().

(** [Client.Auth] of [smtp.PlainAuth]: one reply decides; a challenge is more
    than the mechanism expects, and any failure but a broken connection ends
    the exchange and the session. *)
Definition Auth (user pass : string) : C unit :=
  do* hello in
  let* reply := cmd 0 (Line (auth_line user pass)) in
  if decide (reply.1 = 235) then c_ret ()
  else λ c, (Err (), (Quit (cmd 501 (Line "*") c).2).2).

(** [validateLine]. *)
Definition validateLine (s : string) : bool := bool_decide (one_line s).

Definition mail_line (ext : list string) (from : string) : string :=
  "MAIL FROM:<" +:+ from +:+ ">" +:+
  (if decide ("8BITMIME" ∈ ext) then " BODY=8BITMIME" else "") +:+
  (if decide ("SMTPUTF8" ∈ ext) then " SMTPUTF8" else "").

Definition CMail (from : string) : C unit :=
  if validateLine from then
    let* ext := hello in do* cmd 250 (Line (mail_line ext from)) in c_ret ()
  else c_fail.

Definition rcpt_line (to : string) : string := "RCPT TO:<" +:+ to +:+ ">".

Definition CRcpt (to : string) : C unit :=
  if validateLine to then do* cmd 25 (Line (rcpt_line to)) in c_ret () else c_fail.

Fixpoint each_rcpt (to : list string) : C unit :=
  match to with
  | [] => c_ret ()
  | a :: to => do* CRcpt a in each_rcpt to
  end.

(** [Client.Data], writing the message, and closing the writer. *)
Definition CData (msg : list Z) : C unit :=
  do* cmd 354 (Line "DATA") in do* cmd 250 (Dots (dots msg)) in c_ret ().

(** The part of [Mailer.send] from the connection on: up to the recipients, and
    the whole, where how [Quit] ends does not matter. *)
Definition envelope (ac : Account) (from : string) : C unit :=
  do* cmd 220 Open in
  do* (if decide (ac_User ac = "") then c_ret () else Auth (ac_User ac) (ac_Pass ac)) in
  do* CMail from in
  each_rcpt (ac_To ac).

Definition session (ac : Account) (from : string) (msg : list Z) : C unit :=
  do* envelope ac from in
  do* CData msg in
  λ c, (Ok (), (Quit c).2).

Definition new_client : client := mkClient [] None.
End Client.

(** ** The test server (internal/alert/smtptest/server.go) *)

(** [struct Message]. *)
Record stored : Type := mkStored { st_From : string; st_To : list string; st_Data : list Z }.

(** What the goroutine of a connection waits for. *)
Inductive waiting : Type := WCommand | WResponse | WData | WClosed.

(** The fields of [Server] a connection uses, and the variables of [serve]. *)
Record server : Type := mkServer {
  se_failData : Z;
  se_msgs : list stored;
  se_authed : bool;
  se_msg : option stored;
  se_wait : waiting
}.

(** [base64.StdEncoding.DecodeString]: a whole number of groups of four, of
    which the last may end in one or two padding signs. *)
Definition pad_sign (c : ascii) : bool := bool_decide (c = "="%char).

Definition pad_base64_decode (s : string) : option (list Z) :=
  let l := filter (λ c, is_newline c = false) (String.list_ascii_of_string s) in
  let pads := match reverse l with
              | c :: c' :: _ => if pad_sign c then if pad_sign c' then 2%nat else 1%nat else O
              | _ => O
              end in
  if decide (length l mod 4 = 0)%nat
  then base64_decode std_alphabet false (String.string_of_list_ascii (take (length l - pads) l))
  else None.

(** [strings.ToUpper], as far as a comparison with ASCII letters can tell: the
    dotless i and the long s are the other runes whose upper case is one. *)
Definition upper_rune (r : Z) : Z :=
  if decide (97 ≤ r ≤ 122) then r - 32 else if decide (r = 305) then 73
  else if decide (r = 383) then 83 else r.

Definition is_verb (verb : string) (name : string) : bool :=
  bool_decide (upper_rune <$> (runes verb).*1 = bytes name).

(** [strings.EqualFold] with PLAIN, whose letters have no other forms. *)
Definition ascii_upper (b : Z) : Z := if decide (97 ≤ b ≤ 122) then b - 32 else b.

Definition is_plain (mech : string) : bool := bool_decide (ascii_upper <$> bytes mech = bytes "PLAIN").

(** [strings.Cut] without its flag. *)
Definition Cut2 (s : string) (sep : ascii) : string * string :=
  let '(a, b) := Cut s sep in (a, default "" b).

(** [addr]. *)
Definition addr (arg : string) : string := (Cut2 (Cut2 arg "<").2 ">").1.

Section Server.
Variables user pass : string.

(** [Server.checkPlain]. *)
Definition checkPlain (resp : string) : bool :=
  match pad_base64_decode resp with
  | Some raw =>
      match split_at 0 raw with
      | [_; u; p] => bool_decide (of_bytes u = user) && bool_decide (of_bytes p = pass)
      | _ => false
      end
  | None => false
  end.

Definition say (code : Z) (l : string) : reply := Some (code, [l]).

Definition with_wait (w : waiting) (s : server) : server :=
  mkServer (se_failData s) (se_msgs s) (se_authed s) (se_msg s) w.
Definition with_msg (m : option stored) (s : server) : server :=
  mkServer (se_failData s) (se_msgs s) (se_authed s) m WCommand.

(** The end of the case AUTH: the response is there. *)
Definition on_response (resp : string) (s : server) : reply * server :=
  let s := with_wait WCommand s in
  if checkPlain resp
  then (say 235 "ok", mkServer (se_failData s) (se_msgs s) true (se_msg s) WCommand)
  else (say 535 "falsche zugangsdaten", s).

(** [Server.store]. *)
Definition store (m : stored) (s : server) : bool * server :=
  if decide (0 < se_failData s)
  then (false, mkServer (se_failData s - 1) (se_msgs s) (se_authed s) (se_msg s) (se_wait s))
  else (true, mkServer (se_failData s) (se_msgs s ++ [m]) (se_authed s) (se_msg s) (se_wait s)).

(** One turn of the loop of [serve]. *)
Definition on_verb (verb arg : string) (s : server) : reply * server :=
  if is_verb verb "EHLO" then (Some (250, ["smtptest"; "AUTH PLAIN"]), s)
  else if is_verb verb "HELO" then (say 250 "smtptest", s)
  else if is_verb verb "AUTH" then
    let '(mech, resp) := Cut2 arg " " in
    if is_plain mech then
      if decide (resp = "") then (say 334 "", with_wait WResponse s) else on_response resp s
    else (say 504 "nur PLAIN", s)
  else if is_verb verb "MAIL" then
    if se_authed s then (say 250 "ok", with_msg (Some (mkStored (addr arg) [] [])) s)
    else (say 530 "erst anmelden", s)
  else if is_verb verb "RCPT" then
    match se_msg s with
    | None => (say 503 "erst MAIL", s)
    | Some m => (say 250 "ok", with_msg (Some (mkStored (st_From m) (st_To m ++ [addr arg]) (st_Data m))) s)
    end
  else if is_verb verb "DATA" then
    match se_msg s with
    | Some (mkStored _ (_ :: _) _) => (say 354 "ende mit <CRLF>.<CRLF>", with_wait WData s)
    | _ => (say 503 "erst MAIL und RCPT", s)
    end
  else if is_verb verb "RSET" then (say 250 "ok", with_msg None s)
  else if is_verb verb "NOOP" then (say 250 "ok", s)
  else if is_verb verb "QUIT" then (say 221 "bye", with_wait WClosed s)
  else (say 502 "unbekannt", s).

Definition on_line (l : string) (s : server) : reply * server :=
  let '(verb, arg) := Cut2 l " " in on_verb verb arg s.

(** The message after DATA. *)
Definition on_data (l : list Z) (s : server) : reply * server :=
  match ReadDotBytes l, se_msg s with
  | Some data, Some m =>
      let '(ok, s) := store (mkStored (st_From m) (st_To m) data) s in
      (if ok then say 250 "ok" else say 451 "voruebergehend nicht moeglich", with_msg None s)
  | _, _ => (None, with_wait WClosed s)
  end.

(** What the server makes of the next item; the client never sends a message
    the server does not wait for, nor a line while it does. *)
Definition on_item (s : server) (i : item) : reply * server :=
  match se_wait s, i with
  | WCommand, Open => (say 220 "smtptest ESMTP", s)
  | WCommand, Line l => on_line l s
  | WResponse, Line l => on_response l s
  | WData, Dots l => on_data l s
  | _, _ => (None, with_wait WClosed s)
  end.

Variable failData : Z.

Definition fresh_server : server := mkServer failData [] false None WCommand.

Definition server_after (talk : list item) : server :=
  foldl (λ s i, (on_item s i).2) fresh_server talk.

(** The test server as the client's peer. *)
#[export] Instance test_peer : Peer := {|
  answer talk :=
    match reverse talk with
    | i :: before => (on_item (server_after (reverse before)) i).1
    | [] => None
    end
|}.

Lemma answer_snoc talk i : answer (talk ++ [i]) = (on_item (server_after talk) i).1.
Proof. unfold answer, test_peer. by rewrite reverse_snoc, reverse_involutive. Qed.

Lemma server_after_snoc talk i : server_after (talk ++ [i]) = (on_item (server_after talk) i).2.
Proof. unfold server_after. by rewrite foldl_app. Qed.
End Server.

(** ** What an operation says *)

(** No message among the items. *)
Definition quiet (l : list item) : Prop := ∀ d, Dots d ∉ l.

Section Says.
Context {peer : Peer}.

(** The operation only appends items without a message; when it succeeds, [Q]
    holds of what was said before, its result and what it said. *)
Definition says {A} (m : C A) (Q : list item → A → list item → Prop) : Prop :=
  ∀ c, ∃ new, c_talk (m c).2 = c_talk c ++ new ∧ quiet new ∧
    match (m c).1 with Ok a => Q (c_talk c) a new | Err _ => True end.

Lemma quiet_nil : quiet [].
Proof. intros d Hd. by apply not_elem_of_nil in Hd. Qed.

Lemma quiet_app l l' : quiet l → quiet l' → quiet (l ++ l').
Proof. intros H H' d [Hd|Hd]%elem_of_app; [by apply (H d)|by apply (H' d)]. Qed.

Lemma quiet_line l : quiet [Line l].
Proof. intros d Hd. by apply list_elem_of_singleton in Hd. Qed.

Lemma says_ret {A} (a : A) : says (c_ret a) (λ _ b new, b = a ∧ new = []).
Proof. intros c. exists []. rewrite app_nil_r. by split_and!; [|apply quiet_nil|]. Qed.

Lemma says_fail {A} Q : says (A := A) c_fail Q.
Proof. intros c. exists []. rewrite app_nil_r. by split_and!; [|apply quiet_nil|]. Qed.

Lemma says_bind {A B} (m : C A) (f : A → C B) Q Q' :
  says m Q → (∀ a, says (f a) (Q' a)) →
  says (c_bind m f) (λ t b new, ∃ a n1 n2, new = n1 ++ n2 ∧ Q t a n1 ∧ Q' a (t ++ n1) b n2).
Proof.
  intros Hm Hf c. unfold c_bind. destruct (Hm c) as (n1 & Hn1 & Hq1 & HQ).
  destruct (m c) as [[a|e] c1]; simpl in *; [|by exists n1].
  destruct (Hf a c1) as (n2 & Hn2 & Hq2 & HQ'). exists (n1 ++ n2).
  rewrite Hn2, Hn1, <-app_assoc. split_and!; [done|by apply quiet_app|].
  destruct (f a c1).1; [|done]. rewrite Hn1 in HQ'. by exists a, n1, n2.
Qed.

Lemma says_mono {A} (m : C A) (Q Q' : list item → A → list item → Prop) :
  says m Q → (∀ t a new, Q t a new → Q' t a new) → says m Q'.
Proof.
  intros Hm HQ c. destruct (Hm c) as (new & Ht & Hq & H). exists new. split_and!; [done..|].
  destruct (m c).1; [by apply HQ|done].
Qed.

Lemma says_cmd expect i :
  quiet [i] →
  says (cmd expect i) (λ t r new, new = [i] ∧ answer (t ++ [i]) = Some r ∧ code_ok expect r.1 = true).
Proof.
  intros Hi c. exists [i]. unfold cmd. simpl.
  destruct (answer (c_talk c ++ [i])) as [[code lines]|]; [|done].
  destruct (code_ok expect code) eqn:He; done.
Qed.

(** An accepted line. *)
Lemma says_line {A} expect l (a : A) :
  says (do* cmd expect (Line l) in c_ret a)
    (λ t b new, b = a ∧ new = [Line l] ∧ accepted expect (t ++ new)).
Proof.
  eapply says_mono; [apply says_bind; [apply says_cmd, quiet_line|intros; apply says_ret]|].
  intros t b new ([code lines] & n1 & n2 & -> & (-> & Ha & Hc) & -> & ->). rewrite app_nil_r.
  split_and!; [done..|]. by exists code, lines.
Qed.

(** The greeting, which happens at most once. *)
Lemma says_hello : says hello (λ _ _ _, True).
Proof.
  intros c. unfold hello. destruct (c_hello c) as [r|].
  { exists []. rewrite app_nil_r. split_and!; [done|apply quiet_nil|by destruct r]. }
  destruct (says_cmd 250 (Line "EHLO localhost") (quiet_line _) c) as (n1 & H1 & Hq1 & _).
  destruct (cmd 250 (Line "EHLO localhost") c) as [[[code lines]|e] c1]; simpl in *.
  { by exists n1. }
  destruct (says_cmd 250 (Line "HELO localhost") (quiet_line _) c1) as (n2 & H2 & Hq2 & _).
  destruct (cmd 250 (Line "HELO localhost") c1) as [r2 c2]; simpl in *.
  exists (n1 ++ n2). rewrite H2, H1, app_assoc. split_and!; [done|by apply quiet_app|by destruct r2].
Qed.

Lemma says_quit : says Quit (λ _ _ _, True).
Proof.
  eapply says_mono; [apply says_bind; [apply says_hello|intros; apply says_line]|done].
Qed.

(** The password was accepted. *)
Lemma says_auth user pass :
  says (Auth user pass) (λ t _ new, ∃ before lines, new = before ++ [Line (auth_line user pass)] ∧
    answer (t ++ new) = Some (235, lines)).
Proof.
  eapply says_mono.
  - apply says_bind; [apply says_hello|intros ext].
    apply says_bind; [apply says_cmd, quiet_line|intros r].
    instantiate (1 := λ r _ _ new, new = [] ∧ r.1 = 235). cbv beta.
    case_decide as Hr; [eapply says_mono; [apply says_ret|naive_solver]|].
    intros c. destruct (says_cmd 501 (Line "*") (quiet_line _) c) as (n1 & H1 & Hq1 & _).
    destruct (says_quit (cmd 501 (Line "*") c).2) as (n2 & H2 & Hq2 & _).
    exists (n1 ++ n2). simpl. rewrite H2, H1, app_assoc. by split_and!; [|apply quiet_app|].
  - intros t a new (ext & n1 & n2 & -> & _ & (r & n3 & n4 & -> & (-> & Ha & _) & -> & Hr)).
    exists n1, r.2. rewrite app_nil_r. split; [done|]. rewrite app_assoc, Ha. destruct r. simpl in *. by subst.
Qed.

Lemma says_mail from :
  says (CMail from) (λ t _ new, ∃ before ext, new = before ++ [Line (mail_line ext from)] ∧
    accepted 250 (t ++ new)).
Proof.
  unfold CMail. destruct (validateLine from); [|apply says_fail].
  eapply says_mono; [apply says_bind; [apply says_hello|intros ext; apply says_line]|].
  intros t a new (ext & n1 & n2 & -> & _ & _ & -> & Ha). exists n1, ext. by rewrite app_assoc.
Qed.

(** All recipients were accepted, in their order. *)
Definition recipients_ok (t : list item) (to : list string) (new : list item) : Prop :=
  new = (λ a, Line (rcpt_line a)) <$> to ∧
  ∀ k, (k < length to)%nat → accepted 25 (t ++ take (S k) new).

Lemma says_rcpts to : says (each_rcpt to) (λ t _ new, recipients_ok t to new).
Proof.
  induction to as [|a to IH]; cbn [each_rcpt].
  - eapply says_mono; [apply says_ret|]. intros t b new [_ ->]. split; [done|]. simpl. lia.
  - eapply says_mono.
    + apply says_bind; [|intros; apply IH]. unfold CRcpt.
      instantiate (1 := λ t _ new, new = [Line (rcpt_line a)] ∧ accepted 25 (t ++ new)).
      destruct (validateLine a); [|apply says_fail].
      eapply says_mono; [apply says_line|]. naive_solver.
    + intros t b new (u & n1 & n2 & -> & [-> Ha] & [-> Hk]). split; [done|].
      intros [|k] Hlt; [done|]. simpl in Hlt. specialize (Hk k ltac:(lia)).
      rewrite <-app_assoc in Hk. done.
Qed.
(** What was said up to the recipients: the connection was accepted, the
    password if there is one, the sender, and every recipient. *)
Definition envelope_ok (ac : Account) (from : string) (pre : list item) : Prop :=
  ∃ start ext rcpts,
    pre = start ++ [Line (mail_line ext from)] ++ rcpts ∧ quiet pre ∧
    accepted 220 [Open] ∧
    (ac_User ac ≠ "" → ∃ p q lines,
       start = p ++ [Line (auth_line (ac_User ac) (ac_Pass ac))] ++ q ∧
       answer (p ++ [Line (auth_line (ac_User ac) (ac_Pass ac))]) = Some (235, lines)) ∧
    accepted 250 (start ++ [Line (mail_line ext from)]) ∧
    recipients_ok (start ++ [Line (mail_line ext from)]) (ac_To ac) rcpts.

Lemma quiet_open : quiet [Open].
Proof. intros d Hd. by apply list_elem_of_singleton in Hd. Qed.

Lemma says_envelope ac from :
  says (envelope ac from) (λ t _ new, t = [] → quiet new → envelope_ok ac from new).
Proof.
  unfold envelope. eapply says_mono.
  - apply says_bind; [apply says_cmd, quiet_open|intros ?].
    apply says_bind; [|intros ?; apply says_bind; [apply says_mail|intros ?; apply says_rcpts]].
    instantiate (1 := λ t _ new, ac_User ac ≠ "" → ∃ before lines,
      new = before ++ [Line (auth_line (ac_User ac) (ac_Pass ac))] ∧
      answer (t ++ new) = Some (235, lines)).
    case_decide as Hu; [eapply says_mono; [apply says_ret|naive_solver]|].
    eapply says_mono; [apply says_auth|naive_solver].
  - intros t u new ([code lines] & n1 & n2 & -> & (-> & Ho & Hc) & (u2 & n3 & n4 & -> & Hauth &
      (u4 & n5 & n6 & -> & (before & ext & -> & Hmail) & Hrcpt))) Ht Hq. subst t.
    simpl app in Hauth, Hmail, Hrcpt, Ho.
    exists (Open :: n3 ++ before), ext, n6. split_and!.
    + simpl. by rewrite <-!app_assoc.
    + done.
    + by exists code, lines.
    + intros Hu. destruct (Hauth Hu) as (b & l & -> & Ha). exists (Open :: b), before, l.
      split; [simpl; by rewrite <-!app_assoc|done].
    + simpl. by rewrite <-app_assoc.
    + simpl. by rewrite <-app_assoc.
Qed.

(** The rest: the message goes out at most once. *)
Lemma data_spec msg c :
  let '(r, c') := CData msg c in
  (∃ new, c_talk c' = c_talk c ++ new ∧ quiet new ∧ r = Err ()) ∨
  (c_talk c' = c_talk c ++ [Line "DATA"; Dots (dots msg)] ∧
   accepted 354 (c_talk c ++ [Line "DATA"]) ∧
   (r = Ok () ↔ accepted 250 (c_talk c'))).
Proof.
  unfold CData, c_bind at 1. pose proof (says_cmd 354 (Line "DATA") (quiet_line _) c) as (n1 & H1 & Hq & Hr).
  destruct (cmd 354 (Line "DATA") c) as [[[code lines]|e] c1]; simpl in *.
  2: { left. exists n1. by destruct e. }
  destruct Hr as (-> & Ha & Hc). unfold c_bind, cmd. simpl. rewrite H1, <-app_assoc. simpl.
  assert (Hd : accepted 354 (c_talk c ++ [Line "DATA"])) by by exists code, lines.
  destruct (answer (c_talk c ++ [Line "DATA"; Dots (dots msg)])) as [[code2 lines2]|] eqn:Ha2.
  - destruct (code_ok 250 code2) eqn:Hc2; right; split_and!; try done; simpl.
    + split; [|done]. by exists code2, lines2.
    + split; [done|]. intros (? & ? & ? & ?). congruence.
  - right. split_and!; try done. simpl. split; [done|]. intros (? & ? & ? & ?). congruence.
Qed.

Lemma quiet_split l pre d post : quiet l → l ≠ pre ++ Dots d :: post.
Proof. intros Hq ->. apply (Hq d), elem_of_app. right. left. Qed.

Lemma split_quiet l d l' pre d' post :
  quiet l → quiet l' → l ++ Dots d :: l' = pre ++ Dots d' :: post → pre = l ∧ d' = d ∧ post = l'.
Proof.
  intros Hl Hl'. revert pre. induction l as [|i l IH]; intros [|j pre]; cbn [app]; intros He.
  - by injection He as -> ->.
  - injection He as _ He. exfalso. apply (Hl' d'). rewrite He. apply elem_of_app. right. left.
  - injection He as -> _. exfalso. by apply (Hl d'); left.
  - injection He as -> He. destruct (IH ltac:(intros e He'; apply (Hl e); by right) _ He) as (-> & -> & ->).
    done.
Qed.
End Says.

(** ** The dots *)

Section DotLines.

(** Within a line, and at its start. *)
Lemma write_data l rest :
  unbroken l → dot_write wData (l ++ eol ++ rest) =
    (l ++ eol ++ (dot_write wBeginLine rest).1, (dot_write wBeginLine rest).2).
Proof.
  intros [Hr Hn]. induction l as [|c l IH].
  - simpl. by destruct (dot_write wBeginLine rest).
  - cbn [app dot_write]. unfold dot_byte. rewrite !decide_False by set_solver.
    rewrite IH by set_solver. done.
Qed.

Lemma read_data l rest :
  unbroken l → undot rData (l ++ eol ++ rest) = app (l ++ [10]) <$> undot rBeginLine rest.
Proof.
  intros [Hr Hn]. induction l as [|c l IH].
  - simpl. by destruct (undot rBeginLine rest).
  - cbn [app undot undot_byte]. unfold data_byte. rewrite !decide_False by set_solver.
    rewrite IH by set_solver. by destruct (undot rBeginLine rest).
Qed.

(** A line with its first dot doubled. *)
Definition stuffed (l : list Z) : list Z :=
  match l with c :: _ => if decide (c = 46) then 46 :: l else l | [] => [] end.

Lemma write_line s l rest :
  s = wBegin ∨ s = wBeginLine → unbroken l →
  dot_write s (l ++ eol ++ rest) =
    (stuffed l ++ eol ++ (dot_write wBeginLine rest).1, (dot_write wBeginLine rest).2).
Proof.
  intros Hs Hl. destruct l as [|c l].
  - destruct Hs as [-> | ->]; simpl; by destruct (dot_write wBeginLine rest).
  - assert (Hl' : unbroken l) by (destruct Hl; split; set_solver).
    assert (c ≠ 13 ∧ c ≠ 10) as [Hr Hn] by (destruct Hl; split; set_solver).
    cbn [app dot_write]. unfold dot_byte, stuffed.
    destruct Hs as [-> | ->]; rewrite !(decide_False (P := c = 13)), !(decide_False (P := c = 10)) by done;
      rewrite write_data by done; by case_decide.
Qed.

Lemma read_line l rest :
  unbroken l → undot rBeginLine (stuffed l ++ eol ++ rest) = app (l ++ [10]) <$> undot rBeginLine rest.
Proof.
  intros Hl. destruct l as [|c l].
  - simpl. by destruct (undot rBeginLine rest).
  - assert (Hl' : unbroken l) by (destruct Hl; split; set_solver).
    assert (c ≠ 13 ∧ c ≠ 10) as [Hr Hn] by (destruct Hl; split; set_solver).
    unfold stuffed. destruct (decide (c = 46)) as [->|Hd]; cbn [app].
    + change (undot rBeginLine (46 :: 46 :: l ++ eol ++ rest))
        with (app [] <$> (app [46] <$> undot rData (l ++ eol ++ rest))).
      rewrite read_data by done. by destruct (undot rBeginLine rest).
    + cbn [undot undot_byte]. rewrite !decide_False by done. rewrite read_data by done. by destruct (undot rBeginLine rest).
Qed.

(** Lines as the server stores them. *)
Definition unix_lines (ls : list (list Z)) : list Z := ls ≫= λ l, l ++ [10].

Lemma write_lines s ls :
  s = wBegin ∨ s = wBeginLine → Forall unbroken ls → ls ≠ [] →
  dot_write s (lines_text ls) = ((ls ≫= λ l, stuffed l ++ eol), wBeginLine).
Proof.
  intros Hs Hls. revert s Hs. induction Hls as [|l ls Hl Hls IH]; intros s Hs Hne; [done|].
  unfold lines_text. csimpl. fold (lines_text ls). rewrite <-app_assoc.
  change [13; 10] with eol. rewrite write_line by done. destruct ls as [|l' ls].
  - simpl. by rewrite app_nil_r.
  - rewrite (IH wBeginLine) by (auto || done). cbn [fst snd]. by rewrite <-app_assoc.
Qed.

(** What is written with dots reads as the lines. *)
Lemma dots_read ls :
  Forall unbroken ls → ls ≠ [] → ReadDotBytes (dots (lines_text ls)) = Some (unix_lines ls).
Proof.
  intros Hls Hne. unfold ReadDotBytes, dots. rewrite write_lines by (auto || done). cbn [dot_close].
  clear Hne. induction Hls as [|l ls Hl Hls IH]; [done|].
  unfold unix_lines. csimpl. rewrite <-!app_assoc, read_line by done.
  rewrite IH. simpl. by rewrite <-app_assoc.
Qed.
End DotLines.

(** ** The pieces of the session with the test server *)

(** *** Cutting lines *)

Lemma Cut2_at (sep : ascii) a b :
  Z.of_nat (nat_of_ascii sep) ∉ bytes a → Cut2 (a +:+ String sep b) sep = (a, b).
Proof.
  intros Hn. unfold Cut2, Cut. change (a +:+ String sep b) with (String.append a (String sep b)).
  rewrite bytes_app. change (bytes (String sep b)) with (Z.of_nat (nat_of_ascii sep) :: bytes b).
  rewrite cut_at_sep by done. simpl. by rewrite !of_bytes_bytes.
Qed.

(** [addr] of what follows MAIL and RCPT. *)
Lemma addr_angle (w a rest : string) :
  60 ∉ bytes w → 62 ∉ bytes a → addr (w +:+ "<" +:+ a +:+ ">" +:+ rest) = a.
Proof.
  intros Hw Ha. unfold addr.
  change (w +:+ "<" +:+ a +:+ ">" +:+ rest) with (w +:+ String "<" (a +:+ String ">" rest)).
  rewrite Cut2_at by done. cbn [snd]. by rewrite Cut2_at.
Qed.

(** *** The response of AUTH PLAIN *)

Lemma char_not_pad v : is_sextet v → pad_sign (char_of std_alphabet v) = false.
Proof. revert v. apply sextet_cases. apply Forall_fmap. repeat constructor. Qed.

Lemma length_sextets l :
  length (to_sextets l) = (length l / 3 * 4 + match length l mod 3 with O => 0 | 1 => 2 | _ => 3 end)%nat.
Proof.
  induction l as [|x|x y|x y z l IH] using list_ind3; [done..|].
  cbn [to_sextets length]. rewrite length_app, IH. cbn [length].
  replace (S (S (S (length l)))) with (length l + 1 * 3)%nat by lia.
  rewrite Nat.div_add, Nat.Div0.mod_add by lia. lia.
Qed.

Lemma pad_round_trip l : Forall is_byte l → pad_base64_decode (pad_base64 l) = Some l.
Proof.
  intros Hl. pose proof (to_sextets_range l Hl) as Hs. pose proof (length_sextets l) as Hlen.
  pose proof (base64_roundtrip std_alphabet false l Hl) as Hround. unfold base64_encode in Hround.
  set (pads := match (length l mod 3)%nat with O => [] | 1%nat => ["="; "="]%char | _ => ["="]%char end).
  set (cs := char_of std_alphabet <$> to_sextets l) in *.
  assert (Hcs : String.list_ascii_of_string (pad_base64 l) = cs ++ pads).
  { unfold pad_base64, base64_encode. fold cs. unfold pads.
    assert (Happ : ∀ s s', String.list_ascii_of_string (String.append s s') =
      String.list_ascii_of_string s ++ String.list_ascii_of_string s').
    { intros s s'. induction s as [|a s IH]; [done|]. apply (f_equal (cons a) IH). }
    rewrite Happ, String.list_ascii_of_string_of_list_ascii. by destruct (length l mod 3)%nat as [|[|]]. }
  assert (Hf : filter (λ c, is_newline c = false) (cs ++ pads) = cs ++ pads).
  { rewrite filter_app. f_equal; [|unfold pads; by destruct (length l mod 3)%nat as [|[|]]].
    unfold cs. clear -Hs. induction Hs as [|v vs Hv _ IH]; csimpl; [done|].
    rewrite filter_cons, IH. by rewrite char_not_newline. }
  assert (Hlast : ∀ c cs', reverse cs = c :: cs' → pad_sign c = false).
  { intros c cs' Hr. assert (Hin : c ∈ cs).
    { rewrite <-(reverse_involutive cs), Hr, elem_of_reverse. left. }
    unfold cs in Hin. apply list_elem_of_fmap in Hin as (v & -> & Hv).
    rewrite list.Forall_forall in Hs. by apply char_not_pad, Hs. }
  assert (Hn : length cs = length (to_sextets l)) by apply length_fmap.
  unfold pad_base64_decode. rewrite Hcs, Hf. unfold pads.
  pose proof (Nat.div_mod_eq (length l) 3) as Hdm.
  pose proof (Nat.mod_upper_bound (length l) 3 ltac:(lia)) as Hub.
  destruct (length l mod 3)%nat as [|[|[|]]] eqn:Hmod; [| | |lia].
  - rewrite app_nil_r. rewrite decide_True by (rewrite Hn, Hlen, Nat.add_0_r; apply Nat.Div0.mod_mul).
    destruct (reverse cs) as [|c [|c' cs']] eqn:Hr; rewrite ?(Hlast _ _ eq_refl);
      by rewrite Nat.sub_0_r, take_ge.
  - rewrite length_app. cbn [length]. rewrite decide_True.
    2: { rewrite Hn, Hlen. replace (length l / 3 * 4 + 2 + 2)%nat with ((length l / 3 + 1) * 4)%nat by lia.
         apply Nat.Div0.mod_mul. }
    change ["="; "="]%char with (["="] ++ ["="])%char. rewrite app_assoc, !reverse_snoc. cbn.
    rewrite Nat.add_sub, <-app_assoc. by rewrite take_app_length.
  - rewrite length_app. cbn [length]. rewrite decide_True.
    2: { rewrite Hn, Hlen. replace (length l / 3 * 4 + 3 + 1)%nat with ((length l / 3 + 1) * 4)%nat by lia.
         apply Nat.Div0.mod_mul. }
    rewrite reverse_snoc. destruct (reverse cs) as [|c cs'] eqn:Hr.
    { exfalso. assert (cs = []) as He by (by rewrite <-(reverse_involutive cs), Hr).
      rewrite He in Hn. simpl in Hn. lia. }
    cbn. rewrite (Hlast _ _ eq_refl), Nat.add_sub. by rewrite take_app_length.
Qed.

Lemma plain_bytes u p : Forall is_byte (plain_response u p).
Proof.
  unfold plain_response. repeat (apply Forall_app; split); try apply bytes_are_bytes; by constructor.
Qed.

Lemma plain_nonempty u p : pad_base64 (plain_response u p) ≠ "".
Proof. intros He. pose proof (pad_round_trip _ (plain_bytes u p)) as Hr. by rewrite He in Hr. Qed.

Lemma checkPlain_plain user pass u p :
  0 ∉ bytes u → 0 ∉ bytes p →
  checkPlain user pass (pad_base64 (plain_response u p)) =
    bool_decide (u = user) && bool_decide (p = pass).
Proof.
  intros Hu Hp. unfold checkPlain. rewrite pad_round_trip by apply plain_bytes.
  unfold plain_response. simpl. rewrite split_at_sep, split_at_last by done.
  by rewrite !of_bytes_bytes.
Qed.

(** *** Steps of the client against the server *)

Section Steps.
Variables (user pass : string) (failData : Z).

(** The server got what the client said and is in this state. *)
Definition at_state (s : server) (c : client) : Prop :=
  server_after user pass failData (c_talk c) = s.

Lemma run_cmd expect i c s code lines s' :
  at_state s c → on_item user pass s i = (Some (code, lines), s') →
  ∃ c', at_state s' c' ∧ c_hello c' = c_hello c ∧
    @cmd (test_peer user pass failData) expect i c =
      (if code_ok expect code then Ok (code, lines) else Err (), c').
Proof.
  intros Hs Hi. exists (mkClient (c_talk c ++ [i]) (c_hello c)). split_and!.
  - unfold at_state. cbn [c_talk]. by rewrite server_after_snoc, Hs, Hi.
  - done.
  - unfold cmd. cbn [c_talk]. rewrite answer_snoc, Hs, Hi. cbn [fst]. by destruct (code_ok expect code).
Qed.

(** The states the server goes through. *)
Definition ready (authed : bool) (m : option stored) : server :=
  mkServer failData [] authed m WCommand.

Lemma run_hello c :
  at_state (ready false None) c → c_hello c = None →
  ∃ c', at_state (ready false None) c' ∧ c_hello c' = Some (Ok ["AUTH"]) ∧
    @hello (test_peer user pass failData) c = (Ok ["AUTH"], c').
Proof.
  intros Hs Hh.
  destruct (run_cmd 250 (Line "EHLO localhost") c _ 250 ["smtptest"; "AUTH PLAIN"] _ Hs eq_refl)
    as (c' & Hs' & Hh' & Hc).
  exists (mkClient (c_talk c') (Some (Ok ["AUTH"]))). split_and!; [done|done|].
  unfold hello. rewrite Hh, Hc. reflexivity.
Qed.

Lemma run_auth c u p :
  at_state (ready false None) c → c_hello c = None → 0 ∉ bytes u → 0 ∉ bytes p →
  let ok := bool_decide (u = user) && bool_decide (p = pass) in
  ∃ c', c_hello c' = Some (Ok ["AUTH"]) ∧
    (ok = true → at_state (ready true None) c') ∧
    (ok = false → se_msgs (server_after user pass failData (c_talk c')) = []) ∧
    @Auth (test_peer user pass failData) u p c = (if ok then Ok () else Err (), c').
Proof.
  intros Hs Hh Hu Hp ok. destruct (run_hello c Hs Hh) as (c1 & Hs1 & Hh1 & Hr1).
  unfold Auth, c_bind at 1. rewrite Hr1.
  assert (Hi : on_item user pass (ready false None) (Line (auth_line u p)) =
    (Some (if ok then (235, ["ok"]) else (535, ["falsche zugangsdaten"])), ready ok None)).
  { cbn [on_item se_wait ready]. unfold on_line, auth_line.
    change ("AUTH PLAIN " +:+ pad_base64 (plain_response u p))
      with ("AUTH" +:+ String " " ("PLAIN" +:+ String " " (pad_base64 (plain_response u p)))).
    rewrite Cut2_at by (by apply (bool_decide_eq_true_1 _)). unfold on_verb.
    change (is_verb "AUTH" "EHLO") with false. change (is_verb "AUTH" "HELO") with false.
    change (is_verb "AUTH" "AUTH") with true. cbv iota.
    rewrite Cut2_at by (by apply (bool_decide_eq_true_1 _)).
    change (is_plain "PLAIN") with true. cbv iota.
    rewrite decide_False by apply plain_nonempty.
    unfold on_response. rewrite checkPlain_plain by done. fold ok. by destruct ok. }
  destruct ok eqn:Hok.
  - destruct (run_cmd 0 _ c1 _ _ _ _ Hs1 Hi) as (c2 & Hs2 & Hh2 & Hc2).
    exists c2. split_and!; [by rewrite Hh2|done|done|].
    unfold c_bind. rewrite Hc2. reflexivity.
  - destruct (run_cmd 0 _ c1 _ _ _ _ Hs1 Hi) as (c2 & Hs2 & Hh2 & Hc2).
    destruct (run_cmd 501 (Line "*") c2 _ 502 ["unbekannt"] (ready false None) Hs2 eq_refl)
      as (c3 & Hs3 & Hh3 & Hc3).
    destruct (run_cmd 221 (Line "QUIT") c3 _ 221 ["bye"] (with_wait WClosed (ready false None)) Hs3 eq_refl)
      as (c4 & Hs4 & Hh4 & Hc4).
    exists c4. split_and!; [by rewrite Hh4, Hh3, Hh2|done|by rewrite Hs4|].
    unfold c_bind at 1. rewrite Hc2. cbn [code_ok]. change (code_ok 0 535) with true. cbv iota.
    cbn [fst]. rewrite decide_False by done. rewrite Hc3. cbn [snd].
    unfold Quit, c_bind. assert (Hello : @hello (test_peer user pass failData) c3 = (Ok ["AUTH"], c3)).
    { unfold hello. by rewrite Hh3, Hh2, Hh1. }
    rewrite Hello, Hc4. reflexivity.
Qed.
Lemma run_mail c from :
  at_state (ready true None) c → c_hello c = Some (Ok ["AUTH"]) → one_line from → 62 ∉ bytes from →
  ∃ c', at_state (ready true (Some (mkStored from [] []))) c' ∧ c_hello c' = c_hello c ∧
    @CMail (test_peer user pass failData) from c = (Ok (), c').
Proof.
  intros Hs Hh Hone Ha.
  assert (Hi : on_item user pass (ready true None) (Line (mail_line ["AUTH"] from)) =
    (Some (250, ["ok"]), ready true (Some (mkStored from [] [])))).
  { cbn [on_item se_wait ready]. unfold on_line, mail_line.
    rewrite !decide_False by (by apply (bool_decide_eq_false_1 _)).
    change ("MAIL FROM:<" +:+ from +:+ ">" +:+ "" +:+ "")
      with ("MAIL" +:+ String " " ("FROM:" +:+ "<" +:+ from +:+ ">" +:+ "")).
    rewrite Cut2_at by (by apply (bool_decide_eq_true_1 _)).
    change (on_verb user pass "MAIL" ?a ?s) with (say 250 "ok", with_msg (Some (mkStored (addr a) [] [])) s).
    rewrite addr_angle by (done || by apply (bool_decide_eq_true_1 _)). done. }
  destruct (run_cmd 250 _ c _ _ _ _ Hs Hi) as (c' & Hs' & Hh' & Hc).
  exists c'. split_and!; [done|done|]. unfold CMail, validateLine. rewrite bool_decide_eq_true_2 by done.
  unfold c_bind. assert (Hello : @hello (test_peer user pass failData) c = (Ok ["AUTH"], c)).
  { unfold hello. by rewrite Hh. }
  rewrite Hello, Hc. reflexivity.
Qed.

Lemma run_rcpts to : ∀ c from done_,
  at_state (ready true (Some (mkStored from done_ []))) c → Forall one_line to →
  Forall (λ a, 62 ∉ bytes a) to →
  ∃ c', at_state (ready true (Some (mkStored from (done_ ++ to) []))) c' ∧ c_hello c' = c_hello c ∧
    @each_rcpt (test_peer user pass failData) to c = (Ok (), c').
Proof.
  induction to as [|a to IH]; intros c from done_ Hs Hone Hno.
  { exists c. by rewrite app_nil_r. }
  apply list.Forall_cons in Hone as [Ha Hone]. apply list.Forall_cons in Hno as [Hna Hno].
  assert (Hi : on_item user pass (ready true (Some (mkStored from done_ []))) (Line (rcpt_line a)) =
    (Some (250, ["ok"]), ready true (Some (mkStored from (done_ ++ [a]) [])))).
  { cbn [on_item se_wait ready]. unfold on_line, rcpt_line.
    change ("RCPT TO:<" +:+ a +:+ ">") with ("RCPT" +:+ String " " ("TO:" +:+ "<" +:+ a +:+ ">" +:+ "")).
    rewrite Cut2_at by (by apply (bool_decide_eq_true_1 _)).
    change (on_verb user pass "RCPT" ?b (ready true (Some ?m)))
      with (say 250 "ok", with_msg (Some (mkStored (st_From m) (st_To m ++ [addr b]) (st_Data m)))
              (ready true (Some m))).
    rewrite addr_angle by (done || by apply (bool_decide_eq_true_1 _)). done. }
  destruct (run_cmd 25 _ c _ _ _ _ Hs Hi) as (c1 & Hs1 & Hh1 & Hc1).
  destruct (IH c1 from (done_ ++ [a]) Hs1 Hone Hno) as (c2 & Hs2 & Hh2 & Hc2).
  exists c2. rewrite <-app_assoc in Hs2. split_and!; [done|congruence|].
  cbn [each_rcpt]. unfold CRcpt, validateLine. rewrite bool_decide_eq_true_2 by done.
  unfold c_bind. rewrite Hc1. exact Hc2.
Qed.

(** The end: the message is stored, or refused for now. *)
Lemma run_data c from to ls :
  to ≠ [] → Forall unbroken ls → ls ≠ [] →
  at_state (ready true (Some (mkStored from to []))) c →
  ∃ c', c_hello c' = c_hello c ∧
    se_wait (server_after user pass failData (c_talk c')) = WCommand ∧
    se_msgs (server_after user pass failData (c_talk c')) =
      (if decide (0 < failData) then [] else [mkStored from to (unix_lines ls)]) ∧
    @CData (test_peer user pass failData) (lines_text ls) c =
      (if decide (0 < failData) then Err () else Ok (), c').
Proof.
  intros Hto Hls Hne Hs.
  assert (Hi : on_item user pass (ready true (Some (mkStored from to []))) (Line "DATA") =
    (Some (354, ["ende mit <CRLF>.<CRLF>"]), with_wait WData (ready true (Some (mkStored from to []))))).
  { by destruct to. }
  destruct (run_cmd 354 _ c _ _ _ _ Hs Hi) as (c1 & Hs1 & Hh1 & Hc1).
  set (s2 := with_msg None (store (mkStored from to (unix_lines ls))
    (with_wait WData (ready true (Some (mkStored from to []))))).2).
  assert (Hd : on_item user pass (with_wait WData (ready true (Some (mkStored from to []))))
      (Dots (dots (lines_text ls))) =
    (Some (if decide (0 < failData) then (451, ["voruebergehend nicht moeglich"]) else (250, ["ok"])), s2)).
  { cbn [on_item se_wait with_wait]. unfold on_data. rewrite dots_read by done.
    unfold s2, store. cbn [se_failData ready with_wait se_msg st_From st_To]. by case_decide. }
  unfold store in s2. cbn [se_failData ready with_wait] in s2.
  unfold CData, c_bind. rewrite Hc1. change (code_ok 354 354) with true. cbv iota.
  destruct (decide (0 < failData)).
  - destruct (run_cmd 250 _ c1 _ _ _ _ Hs1 Hd) as (c2 & Hs2 & Hh2 & Hc2).
    exists c2. rewrite Hs2, Hc2. split_and!; [congruence|done|done|reflexivity].
  - destruct (run_cmd 250 _ c1 _ _ _ _ Hs1 Hd) as (c2 & Hs2 & Hh2 & Hc2).
    exists c2. rewrite Hs2, Hc2. split_and!; [congruence|done|done|reflexivity].
Qed.

Lemma run_quit c :
  c_hello c = Some (Ok ["AUTH"]) → se_wait (server_after user pass failData (c_talk c)) = WCommand →
  se_msgs (server_after user pass failData (c_talk (@Quit (test_peer user pass failData) c).2)) =
  se_msgs (server_after user pass failData (c_talk c)).
Proof.
  intros Hh Hw. remember (server_after user pass failData (c_talk c)) as s eqn:Hs.
  assert (Hi : on_item user pass s (Line "QUIT") = (Some (221, ["bye"]), with_wait WClosed s)).
  { unfold on_item. rewrite Hw. reflexivity. }
  destruct (run_cmd 221 _ c s _ _ _ (eq_sym Hs) Hi) as (c' & Hs' & _ & Hc).
  unfold Quit, c_bind. assert (Hello : @hello (test_peer user pass failData) c = (Ok ["AUTH"], c)).
  { unfold hello. by rewrite Hh. }
  rewrite Hello, Hc. change (code_ok 221 221) with true. cbn. by rewrite Hs'.
Qed.
End Steps.

(** ** Properties *)

(** C18: whatever the server answers, and wherever it breaks off, a mail counts
    as sent exactly when the server took the message; the message goes out at
    most once, and only after the server accepted the connection, the password
    if one is configured, the sender and every one of the recipients. *)
Theorem sent_exactly `{!Peer} ac from msg :
  let '(r, c) := session ac from msg new_client in
  (r = Ok () ↔ ∃ pre post, c_talk c = pre ++ Dots (dots msg) :: post ∧
     accepted 250 (pre ++ [Dots (dots msg)])) ∧
  (∀ pre d post, c_talk c = pre ++ Dots d :: post →
     d = dots msg ∧ quiet post ∧ ∃ env, pre = env ++ [Line "DATA"] ∧
     envelope_ok ac from env ∧ accepted 354 pre).
Proof.
  unfold session, c_bind at 1. destruct (says_envelope ac from new_client) as (env & Henv & Hq & Hok).
  simpl in Henv. destruct (envelope ac from new_client) as [[u|e] c1]; simpl in *.
  2: { rewrite Henv. split; [split; [done|]|].
       - intros (pre & post & Ht & _). by apply quiet_split in Ht.
       - intros pre d post Ht. by apply quiet_split in Ht. }
  specialize (Hok eq_refl Hq). unfold c_bind. pose proof (data_spec msg c1) as Hd.
  destruct (CData msg c1) as [r c2]. rewrite Henv in Hd.
  destruct Hd as [(new & Ht & Hqn & ->)|(Ht & Hdata & Hr)].
  { simpl. rewrite Ht. assert (Hall : quiet (env ++ new)) by by apply quiet_app.
    split; [split; [done|]|]; [intros (pre & post & Hs & _)|intros pre d post Hs];
      by apply quiet_split in Hs. }
  assert (Hqd : quiet (env ++ [Line "DATA"])) by (apply quiet_app; [done|apply quiet_line]).
  rewrite (app_assoc _ [_] [_] : env ++ [Line "DATA"; Dots (dots msg)] =
    (env ++ [Line "DATA"]) ++ [Dots (dots msg)]) in Ht.
  destruct r as [[]|e].
  - destruct (says_quit c2) as (post & Hpost & Hqp & _). destruct (Quit c2) as [rq c3]. simpl in *.
    rewrite Hpost, Ht, <-(app_assoc _ [_]). split.
    + split; [intros _|done]. exists (env ++ [Line "DATA"]), post. split; [done|].
      rewrite <-Ht. by apply Hr.
    + intros pre d post' Hs. apply split_quiet in Hs as (-> & -> & ->); [|done|done].
      split_and!; [done|done|]. by exists env.
  - simpl. rewrite Ht. split.
    + split; [done|]. intros (pre & post & Hs & Ha).
      apply split_quiet in Hs as (-> & _ & ->); [|done|apply quiet_nil].
      rewrite <-Ht in Ha. by apply Hr in Ha.
    + intros pre d post' Hs. apply split_quiet in Hs as (-> & -> & ->); [|done|apply quiet_nil].
      split_and!; [done|apply quiet_nil|]. by exists env.
Qed.

(** C17: the client and the test server agree on the protocol.  With the right
    name and password the server stores the sender, all the recipients and the
    message, line for line, and the mail counts as sent; when the server is
    told to fail, or with a wrong name or password, the mail counts as not sent
    and nothing is stored. *)
Theorem mail_stored `{!Berlin, !NetLib, !AddressText, !AddressLaws} user pass failData ac m from id now :
  account_ok ac → ParseMail (ac_From ac) = Some from → one_line id →
  ac_User ac ≠ "" → 0 ∉ bytes (ac_User ac) → 0 ∉ bytes (ac_Pass ac) →
  ac_To ac ≠ [] → Forall (λ a, 62 ∉ bytes a) (from :: ac_To ac) →
  let msg := message ac from (mail_text ac m).1 (mail_text ac m).2 id now in
  let '(r, c) := @session (test_peer user pass failData) ac from msg new_client in
  let stored := se_msgs (server_after user pass failData (c_talk c)) in
  if decide (ac_User ac = user ∧ ac_Pass ac = pass ∧ ¬ 0 < failData)
  then r = Ok () ∧ ∃ ls, msg = lines_text ls ∧ stored = [mkStored from (ac_To ac) (unix_lines ls)]
  else r = Err () ∧ stored = [].
Proof.
  intros Hac Hfrom Hid Hu Hu0 Hp0 Hto Hno msg.
  destruct (message_lines ac m from id now Hac Hfrom Hid) as (ls & Hls & Hun & Hne). fold msg in Hls.
  apply list.Forall_cons in Hno as [Hnf Hno]. destruct Hac as [Hone _].
  destruct (run_cmd user pass failData 220 Open new_client (ready failData false None) 220
    ["smtptest ESMTP"] (ready failData false None) eq_refl eq_refl) as (c0 & Hs0 & Hh0 & Hc0).
  unfold session, c_bind at 1, envelope, c_bind at 1. rewrite Hc0. change (code_ok 220 220) with true.
  cbv iota. unfold c_bind at 1. rewrite decide_False by done.
  destruct (run_auth user pass failData c0 _ _ Hs0 Hh0 Hu0 Hp0) as (c1 & Hh1 & Hok & Hbad & Ha).
  rewrite Ha. destruct (bool_decide (ac_User ac = user) && bool_decide (ac_Pass ac = pass)) eqn:Hcred.
  2: { rewrite decide_False; [by split; [|apply Hbad]|]. intros (Hcu & Hcp & _).
       by rewrite Hcu, Hcp, !bool_decide_eq_true_2 in Hcred. }
  apply andb_true_iff in Hcred as [Hcu%bool_decide_eq_true Hcp%bool_decide_eq_true].
  destruct (run_mail user pass failData c1 from (Hok eq_refl) Hh1) as (c2 & Hs2 & Hh2 & Hc2);
    [by eapply parsed_one_line|done|].
  unfold c_bind at 1. rewrite Hc2.
  destruct (run_rcpts user pass failData (ac_To ac) c2 from [] Hs2 Hone Hno) as (c3 & Hs3 & Hh3 & Hc3).
  rewrite Hc3. destruct (run_data user pass failData c3 from (ac_To ac) ls Hto Hun Hne Hs3)
    as (c4 & Hh4 & Hw4 & Hm4 & Hc4).
  unfold c_bind. rewrite Hls, Hc4. destruct (decide (0 < failData)) as [Hfd|Hfd].
  - rewrite decide_False by tauto. done.
  - rewrite decide_True by done. split; [done|]. exists ls. split; [done|].
    rewrite run_quit; [done| |done]. congruence.
Qed.

Lemma mail_stored_witness :
  let ac := mkAccount "" "resend" "key" "noreply@example.test"
              ["admin@example.test"; "zweit@example.test"] "https://status.example.test" in
  let m := MDown "Web" "timeout" golden_start in
  let msg := @message summer golden_text ac "noreply@example.test"
               (@mail_text summer ac m).1 (@mail_text summer ac m).2 "ID" golden_end in
  let c := (@session (test_peer "resend" "key" 0) ac "noreply@example.test" msg new_client).2 in
  ∃ ls, msg = lines_text ls ∧
    se_msgs (server_after "resend" "key" 0 (c_talk c)) =
      [mkStored "noreply@example.test" ["admin@example.test"; "zweit@example.test"] (unix_lines ls)].
Proof.
  intros ac m msg.
  pose proof (@mail_stored summer mail_netlib golden_text golden_laws "resend" "key" 0 ac m
    "noreply@example.test" "ID" golden_end) as H.
  do 8 (specialize (H ltac:(first [by apply (bool_decide_eq_true_1 _) | split; by apply (bool_decide_eq_true_1 _)]))).
  fold msg in H. cbv zeta in H.
  destruct (@session (test_peer "resend" "key" 0) ac "noreply@example.test" msg new_client) as [r c].
  rewrite decide_True in H by (by apply (bool_decide_eq_true_1 _)). apply H.
Defined.
