(* ===== verification/TestSupport.v ===== *)
(** * Test support (internal/testutil/clock.go, internal/alert/smtptest/server.go)

    The clock tests advance, and the goroutines of the mail server tests
    deliver to: one that accepts connections, one per connection running the
    session of [Smtp], and a test that waits for messages.  Proved is that no
    wakeup is lost: once the messages are there, Wait returns them. *)

From S2P Require Import Prelude GoTime Text Smtp.

(** ** The clock

    Every method holds the mutex from start to end, so they are atomic. *)

Record Clock : Type := mkClock { ck_now : Time }.

Definition NewClock (t : Time) : Clock := mkClock t.
Definition Now (c : Clock) : Time := ck_now c.
Definition Advance (d : Duration) (c : Clock) : Clock := mkClock (Add (ck_now c) d).
Definition Set_ (t : Time) (c : Clock) : Clock := mkClock t.

(** ** The mail server *)

(** A session without what it shares with the others. *)
Record local : Type := mkLocal { lo_authed : bool; lo_msg : option stored; lo_wait : waiting }.

Definition local0 : local := mkLocal false None WCommand.

(** The accepting goroutine: in Accept, between Accept and [s.conns], ended. *)
Inductive acceptor : Type := AAccept | AHave (c : nat) | AEnded.

(** A test in [Wait]: before it, about to look, in the select, returned. *)
Inductive waiter : Type :=
  | WIdle
  | WLook (n : nat)
  | WSelect (n : nat)
  | WReturned (msgs : list stored)
  | WFatal.

(** The cleanup: not begun, listener closed, connections closed, done. *)
Inductive cleaner : Type := KIdle | KListener | KConns | KDone.

(** [Server]: [ts_conns] is the map of the struct, [ts_running] has the
    goroutines of connections with their sessions, [ts_closed] the connections
    that are closed, [ts_changed] is whether the channel's buffer is full. *)
Record tserver : Type := mkTserver {
  ts_failData : Z;
  ts_msgs : list stored;
  ts_changed : bool;
  ts_listening : bool;
  ts_acceptor : acceptor;
  ts_conns : gset nat;
  ts_running : gmap nat local;
  ts_closed : gset nat;
  ts_wg : Z;
  ts_waiter : waiter;
  ts_cleaner : cleaner
}.

(** [Start]. *)
Definition Start : tserver := mkTserver 0 [] false true AAccept ∅ ∅ ∅ 1 WIdle KIdle.

Definition put_waiter (w : waiter) (s : tserver) : tserver :=
  mkTserver (ts_failData s) (ts_msgs s) (ts_changed s) (ts_listening s) (ts_acceptor s) (ts_conns s)
    (ts_running s) (ts_closed s) (ts_wg s) w (ts_cleaner s).

Definition put_acceptor (a : acceptor) (wg : Z) (s : tserver) : tserver :=
  mkTserver (ts_failData s) (ts_msgs s) (ts_changed s) (ts_listening s) a (ts_conns s)
    (ts_running s) (ts_closed s) wg (ts_waiter s) (ts_cleaner s).

Definition put_cleaner (k : cleaner) (listening : bool) (closed : gset nat) (s : tserver) : tserver :=
  mkTserver (ts_failData s) (ts_msgs s) (ts_changed s) listening (ts_acceptor s) (ts_conns s)
    (ts_running s) closed (ts_wg s) (ts_waiter s) k.

Definition FailData (n : Z) (s : tserver) : tserver :=
  mkTserver n (ts_msgs s) (ts_changed s) (ts_listening s) (ts_acceptor s) (ts_conns s)
    (ts_running s) (ts_closed s) (ts_wg s) (ts_waiter s) (ts_cleaner s).

(** The result is a copy, which later messages do not change. *)
Definition Messages (s : tserver) : list stored := ts_msgs s.

(** The session as [Smtp] has it, and back. *)
Definition session_of (s : tserver) (l : local) : server :=
  mkServer (ts_failData s) (ts_msgs s) (lo_authed l) (lo_msg l) (lo_wait l).

(** One item on a connection; [store] signals a message without waiting. *)
Definition serve_item (user pass : string) (c : nat) (l : local) (i : item) (s : tserver) : reply * tserver :=
  let '(r, se) := on_item user pass (session_of s l) i in
  let stored := bool_decide (length (ts_msgs s) < length (se_msgs se))%nat in
  (r, mkTserver (se_failData se) (se_msgs se) (ts_changed s || stored) (ts_listening s) (ts_acceptor s)
        (ts_conns s) (<[c := mkLocal (se_authed se) (se_msg se) (se_wait se)]> (ts_running s)) (ts_closed s)
        (ts_wg s) (ts_waiter s) (ts_cleaner s)).

(** [accept] after Accept returned a connection: into the map, and a goroutine. *)
Definition accept_conn (c : nat) (s : tserver) : tserver :=
  mkTserver (ts_failData s) (ts_msgs s) (ts_changed s) (ts_listening s) AAccept ({[c]} ∪ ts_conns s)
    (<[c := local0]> (ts_running s)) (ts_closed s) (ts_wg s + 1) (ts_waiter s) (ts_cleaner s).

(** The goroutine of a connection after [serve]. *)
Definition end_conn (c : nat) (s : tserver) : tserver :=
  mkTserver (ts_failData s) (ts_msgs s) (ts_changed s) (ts_listening s) (ts_acceptor s) (ts_conns s ∖ {[c]})
    (delete c (ts_running s)) ({[c]} ∪ ts_closed s) (ts_wg s - 1) (ts_waiter s) (ts_cleaner s).

Definition take_signal (n : nat) (s : tserver) : tserver :=
  mkTserver (ts_failData s) (ts_msgs s) false (ts_listening s) (ts_acceptor s) (ts_conns s)
    (ts_running s) (ts_closed s) (ts_wg s) (WLook n) (ts_cleaner s).

(** Who takes a step. *)
Inductive actor : Type := ByClient | ByServer | ByTest | ByTimer.

Section Steps.
Variables user pass : string.

Inductive tstep : tserver → actor → tserver → Prop :=
  (* a client connects *)
  | ts_accept s c :
      ts_acceptor s = AAccept → ts_listening s = true → ts_running s !! c = None → c ∉ ts_closed s →
      tstep s ByClient (put_acceptor (AHave c) (ts_wg s) s)
  | ts_accepted s c : ts_acceptor s = AHave c → tstep s ByServer (accept_conn c s)
  | ts_accept_ends s :
      ts_acceptor s = AAccept → ts_listening s = false → tstep s ByServer (put_acceptor AEnded (ts_wg s - 1) s)
  (* what a client sends; or it goes away, the connection is closed, or QUIT *)
  | ts_item s c l i :
      ts_running s !! c = Some l → c ∉ ts_closed s → lo_wait l ≠ WClosed → i ≠ Open →
      tstep s ByClient (serve_item user pass c l i s).2
  | ts_gone s c l : ts_running s !! c = Some l → lo_wait l ≠ WClosed → tstep s ByClient (end_conn c s)
  | ts_ends s c l :
      ts_running s !! c = Some l → lo_wait l = WClosed ∨ c ∈ ts_closed s → tstep s ByServer (end_conn c s)
  (* the test *)
  | ts_fail s n : tstep s ByTest (FailData n s)
  | ts_wait s n : ts_waiter s = WIdle → tstep s ByTest (put_waiter (WLook n) s)
  | ts_enough s n :
      ts_waiter s = WLook n → (n ≤ length (Messages s))%nat → tstep s ByTest (put_waiter (WReturned (Messages s)) s)
  | ts_too_few s n :
      ts_waiter s = WLook n → (length (Messages s) < n)%nat → tstep s ByTest (put_waiter (WSelect n) s)
  | ts_signal s n : ts_waiter s = WSelect n → ts_changed s = true → tstep s ByTest (take_signal n s)
  | ts_deadline s n : ts_waiter s = WSelect n → tstep s ByTimer (put_waiter WFatal s)
  | ts_again s msgs : ts_waiter s = WReturned msgs → tstep s ByTest (put_waiter WIdle s)
  (* the cleanup *)
  | ts_close s : ts_cleaner s = KIdle → tstep s ByTest (put_cleaner KListener false (ts_closed s) s)
  | ts_close_conns s :
      ts_cleaner s = KListener → tstep s ByTest (put_cleaner KConns false (ts_closed s ∪ ts_conns s) s)
  | ts_done s : ts_cleaner s = KConns → ts_wg s = 0 → tstep s ByTest (put_cleaner KDone false (ts_closed s) s).

Inductive reaches : tserver → Prop :=
  | re_start : reaches Start
  | re_step s a s' : reaches s → tstep s a s' → reaches s'.
End Steps.

(** ** Invariants *)

(** A session has a message only after a login, and reads one only with
    recipients. *)
Definition session_ok (authed : bool) (m : option stored) (w : waiting) : Prop :=
  (is_Some m → authed = true) ∧ (w = WData → ∃ x, m = Some x ∧ st_To x ≠ []).

Definition server_ok (s : server) : Prop := session_ok (se_authed s) (se_msg s) (se_wait s).

(** What an item does to the messages: nothing, or one more, with recipients,
    from a session with a login. *)
Definition grows (s s' : server) : Prop :=
  se_msgs s' = se_msgs s ∨ ∃ m, se_msgs s' = se_msgs s ++ [m] ∧ st_To m ≠ [] ∧ se_authed s = true.

Lemma response_ok user pass resp s :
  server_ok s → server_ok (on_response user pass resp s).2 ∧ grows s (on_response user pass resp s).2.
Proof.
  intros [H1 H2]. unfold on_response. case_match; (split; [|by left]); by split.
Qed.

Lemma verb_ok user pass verb arg s :
  server_ok s → se_wait s = WCommand →
  server_ok (on_verb user pass verb arg s).2 ∧ grows s (on_verb user pass verb arg s).2.
Proof.
  intros Hs Hw. pose proof Hs as [H1 H2]. unfold on_verb.
  repeat match goal with |- context [if ?b then _ else _] => destruct b eqn:? end;
    repeat case_match; subst; try (split; [done|by left]); try (by apply response_ok);
    (split; [split; simpl; try done; eauto|by left]).
Qed.

Lemma data_ok l s :
  server_ok s → se_wait s = WData → server_ok (on_data l s).2 ∧ grows s (on_data l s).2.
Proof.
  intros [H1 H2] Hw. destruct (H2 Hw) as (m & Em & Hto). unfold on_data. rewrite Em.
  destruct (ReadDotBytes l) as [data|]; [|split; [split; simpl; [intros; apply H1; by rewrite Em|done]|by left]].
  unfold store. case_decide; simpl.
  - split; [split; simpl; [intros [? ?]|]; done|by left].
  - split; [split; simpl; [intros [? ?]|]; done|]. right. eexists. split_and!; [done|done|].
    apply H1. by rewrite Em.
Qed.

Lemma item_ok user pass i s :
  server_ok s → server_ok (on_item user pass s i).2 ∧ grows s (on_item user pass s i).2.
Proof.
  intros Hs. unfold on_item.
  assert (server_ok (with_wait WClosed s) ∧ grows s (with_wait WClosed s)) as Hclosed.
  { split; [|by left]. split; simpl; [apply Hs|done]. }
  destruct (se_wait s) eqn:Hw, i; try done.
  - split; [done|by left].
  - unfold on_line. destruct (Cut2 l " "). by apply verb_ok.
  - by apply response_ok.
  - by apply data_ok.
Qed.

Definition accepting (a : acceptor) : Z := match a with AEnded => 0 | _ => 1 end.

Record tinv (s : tserver) : Prop := mkTinv {
  ti_wg : ts_wg s = Z.of_nat (size (ts_running s)) + accepting (ts_acceptor s);
  ti_have : ∀ c, ts_acceptor s = AHave c → ts_running s !! c = None;
  ti_sessions : ∀ c l, ts_running s !! c = Some l → session_ok (lo_authed l) (lo_msg l) (lo_wait l);
  ti_msgs : Forall (λ m, st_To m ≠ []) (ts_msgs s);
  ti_signal : ∀ n, ts_waiter s = WSelect n → (n ≤ length (ts_msgs s))%nat → ts_changed s = true;
  ti_done : ts_cleaner s = KDone → ts_running s = ∅ ∧ ts_acceptor s = AEnded
}.

Lemma tinv_item user pass c l i s :
  tinv s → ts_running s !! c = Some l → tinv (serve_item user pass c l i s).2.
Proof.
  intros [H1 H2 H3 H4 H5 H6] Hc. unfold serve_item.
  pose proof (item_ok user pass i (session_of s l) (H3 c l Hc)) as [Hok Hg].
  destruct (on_item user pass (session_of s l) i) as [r se] eqn:E. cbn [snd] in *.
  assert (ts_running s !! c ≠ None) as Hne by congruence.
  split; cbn [ts_wg ts_running ts_acceptor ts_msgs ts_waiter ts_changed ts_cleaner].
  - rewrite H1, map_size_insert_Some by done. done.
  - intros d Hd. apply H2 in Hd. rewrite lookup_insert_ne; [done|]. by intros ->.
  - intros d ld. rewrite lookup_insert_Some. intros [[-> <-]|[_ Hd]]; [done|by eapply H3].
  - destruct Hg as [->|(m & -> & Hm & _)]; [done|]. by apply Forall_app_2, Forall_singleton.
  - intros n Hw Hn. destruct (ts_changed s) eqn:Ech; [done|]. simpl. apply bool_decide_eq_true.
    destruct (decide (n ≤ length (ts_msgs s))%nat) as [Hle|]; [by specialize (H5 n Hw Hle); congruence|lia].
  - intros Hk. destruct (H6 Hk) as [He _]. by rewrite He, lookup_empty in Hc.
Qed.

Lemma tinv_end c l s : tinv s → ts_running s !! c = Some l → tinv (end_conn c s).
Proof.
  intros [H1 H2 H3 H4 H5 H6] Hc.
  split; cbn [end_conn ts_wg ts_running ts_acceptor ts_msgs ts_waiter ts_changed ts_cleaner]; try done.
  - rewrite H1. rewrite (map_size_delete_Some c) by eauto.
    assert (size (ts_running s) ≠ 0%nat) by (eapply map_size_ne_0_lookup_2; eauto). lia.
  - intros d Hd. rewrite lookup_delete_None. right. by apply H2.
  - intros d ld. rewrite lookup_delete_Some. intros [_ Hd]. by eapply H3.
  - intros Hk. destruct (H6 Hk) as [He _]. by rewrite He, lookup_empty in Hc.
Qed.

Lemma tinv_reaches user pass s : reaches user pass s → tinv s.
Proof.
  induction 1 as [|s a s' _ IH Hst]; [by split|].
  destruct Hst; try (by eapply tinv_item); try (by eapply tinv_end); destruct IH as [I1 I2 I3 I4 I5 I6].
  all: try match goal with E : ts_acceptor _ = _ |- _ => rewrite E in I1 end.
  all: split; cbn [put_waiter put_acceptor put_cleaner accept_conn take_signal FailData ts_wg ts_running
    ts_acceptor ts_msgs ts_waiter ts_changed ts_cleaner] in *; try done.
  - by intros d [= <-].
  - intros [_ Ha]%I6. congruence.
  - rewrite I1, map_size_insert_None by (by apply I2). simpl. lia.
  - intros d ld. rewrite lookup_insert_Some. intros [[<- <-]|[_ Hd]]; [|by eapply I3].
    split; [by intros [? ?]|done].
  - intros [_ Ha]%I6. congruence.
  - rewrite I1. simpl. lia.
  - by intros [? _]%I6.
  - intros k [= <-] Hk. unfold Messages in *. lia.
  - intros _. assert (0 ≤ accepting (ts_acceptor s)) by (by destruct (ts_acceptor s)). split.
    + apply map_size_empty_inv. lia.
    + destruct (ts_acceptor s); [simpl in *; lia..|done].
Qed.

(** Once the messages a test waits for are stored, its goroutine alone goes on
    to return them: the signal of the last one cannot have been lost. *)
Theorem wait_returns user pass s n :
  reaches user pass s → (n ≤ length (Messages s))%nat →
  ts_waiter s = WLook n ∨ ts_waiter s = WSelect n →
  ∃ s1 s2, rtc (λ s s', tstep user pass s ByTest s') s s1 ∧ tstep user pass s1 ByTest s2 ∧
    ts_waiter s2 = WReturned (Messages s).
Proof.
  intros Hr Hn Hw. pose proof (ti_signal _ (tinv_reaches _ _ _ Hr)) as Hsig. destruct Hw as [Hw|Hw].
  - exists s. eexists. split; [done|]. split; [by eapply ts_enough|done].
  - exists (take_signal n s). eexists. split; [by apply rtc_once, ts_signal; [|apply (Hsig n)]|].
    split; [by eapply ts_enough|done].
Qed.

Lemma wait_returns_witness :
  let s := put_waiter (WLook 0) Start in
  ∃ s1 s2, rtc (λ s s', tstep "u" "p" s ByTest s') s s1 ∧ tstep "u" "p" s1 ByTest s2 ∧ ts_waiter s2 = WReturned [].
Proof.
  intros s. apply (wait_returns "u" "p" s 0); [|simpl; lia|by left].
  eapply re_step; [apply re_start|by apply ts_wait].
Defined.

(** What is stored has recipients, and when the cleanup is over no goroutine
    of the server is left. *)
Theorem test_server_ends user pass s :
  reaches user pass s →
  Forall (λ m, st_To m ≠ []) (Messages s) ∧
  (ts_cleaner s = KDone → ts_running s = ∅ ∧ ts_acceptor s = AEnded).
Proof. intros Hr. destruct (tinv_reaches _ _ _ Hr). done. Qed.
