(* ===== verification/Alert.v ===== *)
(** * The mailer (internal/alert/smtp.go)

    [send] with the limit per hour: the message of [Mail] goes over a session
    of [Smtp] with the server.  The result is an instance of the interface
    [Mailer] the monitor is written against. *)

From S2P Require Import Prelude Text Netip GoTime Sql Schema Runner Validate Dial Checker.
From S2P Require Import Format Quoted Mail Smtp.

(** ** The mailer (smtp.go) *)

Definition perHour : Z := 20.
Definition perHourTest : Z := 3.

(** What a call meets outside: the server behind a connection made at an
    instant, and what [rand.Text] draws then. *)
Class Outside : Type := {
  server_at : Time → Peer;
  rand_Text : Time → string
}.

(** The fields of [struct Mailer] that change. *)
Record Outbox : Type := mkOutbox { sent : list Time; sentTest : list Time }.

Definition no_mail : Outbox := mkOutbox [] [].

(** The loop that cuts off what is an hour old. *)
Fixpoint cut_old (now : Time) (l : list Time) : list Time :=
  match l with
  | [] => []
  | t :: l' => if After t (Add now (- Hour)) then l else cut_old now l'
  end.

Definition reserve_in (limit : Z) (now : Time) (l : list Time) : bool * list Time :=
  let l := cut_old now l in
  if decide (limit ≤ Z.of_nat (length l)) then (false, l) else (true, l ++ [now]).

Definition reserve (test : bool) (now : Time) (o : Outbox) : bool * Outbox :=
  if test then
    let '(ok, l) := reserve_in perHourTest now (sentTest o) in (ok, mkOutbox (sent o) l)
  else
    let '(ok, l) := reserve_in perHour now (sent o) in (ok, mkOutbox l (sentTest o)).

Section Mailer.
Context `{!NetLib, !Berlin, !AddressText, !Outside}.
Variable ac : Account.

(** [send]: the sender's address, the message, the limit, then the server. *)
Definition send (now : Time) (test : bool) (subject body : string) (o : Outbox) :
    res mailerr unit * Outbox :=
  match ParseMail (ac_From ac) with
  | None => (Err ErrMail, o)
  | Some from =>
      let msg := message ac from subject body (rand_Text now) now in
      let '(ok, o) := reserve test now o in
      if ok then
        (match (session (peer := server_at now) ac from msg new_client).1 with
         | Ok _ => Ok ()
         | Err _ => Err ErrMail
         end, o)
      else (Err ErrLimit, o)
  end.

Definition MailDown (now : Time) (name cause : string) (since : Time) (o : Outbox) :
    res mailerr unit * Outbox :=
  let '(subject, body) := downText ac name cause since in send now false subject body o.

Definition MailUp (now : Time) (name : string) (from to : Time) (o : Outbox) :
    res mailerr unit * Outbox :=
  let '(subject, body) := upText ac name from to in send now false subject body o.

(** The mailer the monitor is given. *)
#[export] Instance smtp_mailer : Mailer Outbox := {| Down := MailDown; Up := MailUp |}.

Definition MailTest (now : Time) (o : Outbox) : res mailerr unit * Outbox :=
  send now true "[dmn-status] Testmail" ("Mailversand von dmn-status funktioniert." +:+ nl) o.

(** ** Sequences of calls *)

Definition is_test (m : mail_op) : bool := match m with MTest => true | _ => false end.

Definition mail_call (now : Time) (m : mail_op) (o : Outbox) : res mailerr unit * Outbox :=
  match m with
  | MDown name cause since => Down now name cause since o
  | MUp name from to => Up now name from to o
  | MTest => MailTest now o
  end.

(** A call reached the server unless it failed before: the instants and kinds
    of those that did, oldest first. *)
Definition mail_step (s : Outbox * list (Time * bool)) (c : Time * mail_op) :
    Outbox * list (Time * bool) :=
  let '(r, o) := mail_call c.1 c.2 s.1 in
  (o, match r with
      | Err ErrLimit => s.2
      | _ => if decide (ParseMail (ac_From ac) = None) then s.2 else s.2 ++ [(c.1, is_test c.2)]
      end).

Definition mail_run (cs : list (Time * mail_op)) : Outbox * list (Time * bool) :=
  foldl mail_step (no_mail, []) cs.

Definition limit_of (test : bool) : Z := if test then perHourTest else perHour.
Definition sent_of (test : bool) (o : Outbox) : list Time := if test then sentTest o else sent o.

(** The instants of one kind. *)
Definition times_of (test : bool) (log : list (Time * bool)) : list Time :=
  (filter (λ e, e.2 = test) log).*1.

(** ** Lemmas *)

(** The mails of one hour: after [a], up to [a + Hour]. *)
Definition in_hour (a t : Time) : bool := bool_decide (a < t ≤ a + Hour).

Definition rate_ok (limit : Z) (l : list Time) : Prop := ∀ a, count (in_hour a) l ≤ limit.

Lemma cut_old_spec now l :
  StronglySorted Z.le l →
  ∃ old, l = old ++ cut_old now l ∧ (∀ t, t ∈ old → t ≤ now - Hour) ∧
    (∀ t, t ∈ cut_old now l → now - Hour < t) ∧ StronglySorted Z.le (cut_old now l).
Proof.
  induction 1 as [|t l Hs IH Ht]; simpl.
  { exists []. split_and!; [done|..|constructor]; intros t Hin; by apply not_elem_of_nil in Hin. }
  unfold After, Add. case_bool_decide as Ha.
  - exists []. split_and!; [done| | |by constructor].
    + intros u Hu. by apply not_elem_of_nil in Hu.
    + rewrite list.Forall_forall in Ht. intros u [->|Hu%Ht]%elem_of_cons; lia.
  - destruct IH as (old & Hl & Hold & Hnew & Hsort). exists (t :: old).
    split_and!; [simpl; by f_equal| |done|done].
    intros u [->|Hu]%elem_of_cons; [lia|by apply Hold].
Qed.

(** The state of one kind at an instant: what was cut off is an hour old. *)
Definition outbox_inv (limit : Z) (now : Time) (log l : list Time) : Prop :=
  (∃ old, log = old ++ l ∧ ∀ t, t ∈ old → t ≤ now - Hour) ∧
  StronglySorted Z.le l ∧ (∀ t, t ∈ l → t ≤ now) ∧ rate_ok limit log.

Lemma outbox_inv_later limit now now' log l :
  now ≤ now' → outbox_inv limit now log l → outbox_inv limit now' log l.
Proof.
  intros Hle ((old & Hl & Hold) & Hs & Ht & Hr). split_and!; [|done| |done].
  - exists old. split; [done|]. intros t Hin%Hold. lia.
  - intros t Hin%Ht. lia.
Qed.

Lemma sorted_snoc (l : list Time) x :
  StronglySorted Z.le l → (∀ t, t ∈ l → t ≤ x) → StronglySorted Z.le (l ++ [x]).
Proof.
  induction 1 as [|y l Hs IH Hy]; intros Hx; simpl; [by repeat constructor|].
  constructor; [apply IH; intros; apply Hx; by right|].
  apply Forall_app. split; [done|]. constructor; [|constructor]. apply Hx. left.
Qed.

(** [reserve_in] grants exactly below the limit, and keeps the invariant. *)
Lemma reserve_in_spec limit now log l :
  0 ≤ limit → outbox_inv limit now log l →
  let '(ok, l') := reserve_in limit now l in
  outbox_inv limit now (if ok then log ++ [now] else log) l' ∧
  (ok = false ↔ limit ≤ count (in_hour (now - Hour)) log).
Proof.
  intros Hlim ((old & -> & Hold) & Hs & Ht & Hr). unfold reserve_in.
  destruct (cut_old_spec now l Hs) as (old2 & Hl & Hold2 & Hnew & Hsort).
  set (k := cut_old now l) in *.
  assert (Hk : ∀ t, t ∈ k → now - Hour < t ≤ now).
  { intros t Hin. split; [by apply Hnew|]. apply Ht. rewrite Hl. apply elem_of_app. by right. }
  assert (Hcut : ∀ t, t ∈ old ++ old2 → t ≤ now - Hour).
  { intros t [?%Hold|?%Hold2]%elem_of_app; done. }
  assert (Hlog : old ++ l = (old ++ old2) ++ k) by (rewrite Hl at 1; by rewrite <-app_assoc).
  assert (Hcount : count (in_hour (now - Hour)) (old ++ l) = Z.of_nat (length k)).
  { rewrite Hlog, count_app, count_none, count_all; [done| |]; unfold in_hour.
    - intros t Hin%Hk. apply bool_decide_eq_true. lia.
    - intros t Hin%Hcut. apply bool_decide_eq_false. lia. }
  case_decide as Hd.
  - split; [|rewrite Hcount; by split]. split_and!; [|done| |done].
    + exists (old ++ old2). by rewrite Hlog.
    + intros t Hin%Hk. lia.
  - split; [|rewrite Hcount; by split]. split_and!.
    + exists (old ++ old2). rewrite Hlog, <-app_assoc. done.
    + apply sorted_snoc; [done|]. intros t Hin%Hk. lia.
    + intros t [Hin%Hk| ->%list_elem_of_singleton]%elem_of_app; lia.
    + intros a. rewrite count_app. specialize (Hr a). unfold count at 2. simpl.
      unfold in_hour at 2. case_bool_decide as Ha; [|lia].
      assert (count (in_hour a) (old ++ l) ≤ Z.of_nat (length k)); [|lia].
      rewrite Hlog, count_app, count_none.
      * pose proof (count_bounds (in_hour a) k). lia.
      * intros t Hin%Hcut. apply bool_decide_eq_false. lia.
Qed.

(** Every call is a [send] of its text. *)
Lemma mail_call_send now m o :
  mail_call now m o = send now (is_test m) (mail_text ac m).1 (mail_text ac m).2 o.
Proof. by destruct m. Qed.

Lemma times_of_snoc test log t k :
  times_of test (log ++ [(t, k)]) = times_of test log ++ (if decide (k = test) then [t] else []).
Proof.
  unfold times_of. rewrite filter_app, fmap_app, filter_cons, filter_nil. simpl. by case_decide.
Qed.

Definition mail_inv (now : Time) (s : Outbox * list (Time * bool)) : Prop :=
  ∀ test, outbox_inv (limit_of test) now (times_of test s.2) (sent_of test s.1).

(** A refusal means that the last hour's mails of this kind are used up. *)
Definition refusal_exact (s : Outbox * list (Time * bool)) (now : Time) (m : mail_op) : Prop :=
  is_Some (ParseMail (ac_From ac)) →
  (mail_call now m s.1).1 = Err ErrLimit ↔
  limit_of (is_test m) ≤ count (in_hour (now - Hour)) (times_of (is_test m) s.2).

Lemma mail_step_inv s now m :
  mail_inv now s → mail_inv now (mail_step s (now, m)) ∧ refusal_exact s now m.
Proof.
  intros Hinv. unfold refusal_exact, mail_step. simpl.
  rewrite mail_call_send. unfold send.
  destruct (ParseMail (ac_From ac)) as [from|] eqn:Hf.
  2:{ split; [by rewrite decide_True|by intros [? ?]]. }
  pose proof (reserve_in_spec (limit_of (is_test m)) now _ _
    ltac:(by destruct (is_test m)) (Hinv (is_test m))) as Hr.
  unfold reserve. destruct (is_test m) eqn:Ht; simpl in Hr;
    destruct (reserve_in _ now _) as [[] l]; simpl.
  all: destruct Hr as [Hl Hex].
  all: split; [|intros _; try (destruct (session _ _ _ _).1); simpl; by rewrite <-Hex].
  all: try (destruct (session _ _ _ _).1); simpl; intros k; specialize (Hinv k); simpl.
  all: rewrite ?decide_False by (by rewrite Hf); simpl; rewrite ?times_of_snoc.
  all: destruct k; simpl in *; rewrite ?app_nil_r; done.
Qed.

Lemma mail_inv_later now now' s : now ≤ now' → mail_inv now s → mail_inv now' s.
Proof. intros Hle Hinv test. by apply (outbox_inv_later _ now). Qed.

Lemma mail_inv_start now : mail_inv now (no_mail, []).
Proof.
  intros test. destruct test; (split_and!; [|constructor| |]); simpl.
  all: try (intros t Hin; by apply not_elem_of_nil in Hin).
  all: try (exists []; split; [done|]; intros t Hin; by apply not_elem_of_nil in Hin).
  all: intros a; done.
Qed.

(** The clock of the last call. *)
Lemma mail_run_inv cs now :
  StronglySorted Z.le (cs.*1 ++ [now]) → mail_inv now (mail_run cs).
Proof.
  revert now. induction cs as [|[t m] cs IH] using rev_ind; intros now Hs; [apply mail_inv_start|].
  unfold mail_run. rewrite foldl_app. simpl. fold (mail_run cs).
  rewrite fmap_app in Hs. simpl in Hs. rewrite <-app_assoc in Hs.
  assert (Hle : t ≤ now).
  { apply StronglySorted_app in Hs as (_ & _ & Hs). inversion Hs as [|? ? _ Hall]; subst.
    by inversion Hall. }
  assert (Hcs : StronglySorted Z.le (cs.*1 ++ [t])).
  { change ([t] ++ [now]) with ([t] ++ [now]) in Hs. rewrite app_assoc in Hs.
    by apply StronglySorted_app in Hs as (_ & Hs & _). }
  apply (mail_inv_later t); [done|]. apply mail_step_inv. by apply IH.
Qed.
End Mailer.

(** ** Properties *)

(** C30: whatever calls the monitor and the admin make, as long as the
    clock does not go back: within any hour at most twenty notifications and at
    most three test mails reach the mail server, and a mail is refused for the
    limit exactly when that many of its kind went out in the last hour. *)
Theorem mail_rate `{!NetLib, !Berlin, !AddressText, !Outside} ac cs now m :
  StronglySorted Z.le (cs.*1 ++ [now]) →
  let s := mail_run ac cs in
  (∀ a, count (in_hour a) (times_of false s.2) ≤ 20 ∧ count (in_hour a) (times_of true s.2) ≤ 3) ∧
  refusal_exact ac s now m.
Proof.
  intros Hs s. pose proof (mail_run_inv ac cs now Hs) as Hinv. split.
  - intros a. split; [apply (Hinv false)|apply (Hinv true)].
  - by apply mail_step_inv.
Qed.

Definition test_outside : Outside :=
  {| server_at := λ _, test_peer "resend" "key" 0; rand_Text := λ _, "ID" |}.

Definition test_account : Account :=
  mkAccount "" "resend" "key" "status@example.org" ["admin@example.org"] "".

Lemma mail_rate_witness :
  let call := @mail_call mail_netlib summer golden_text test_outside test_account in
  let run := @mail_run mail_netlib summer golden_text test_outside test_account in
  let cs := [(0, MTest); (Minute, MTest); (Minute, MTest)] in
  (call (2 * Minute) MTest (run cs).1).1 = Err ErrLimit ∧
  (call Hour MTest (run cs).1).1 = Ok () ∧
  count (in_hour (-1)) (times_of true (run cs).2) = 3.
Proof.
  intros call run cs. split; [|split; by vm_compute].
  apply (@mail_rate mail_netlib summer golden_text test_outside test_account cs (2 * Minute) MTest).
  - repeat constructor; by vm_compute.
  - by eexists.
  - by vm_compute.
Defined.
