(* ===== verification/Main.v ===== *)
(** * The commands (cmd/dmn-status/main.go)

    What [serve] does before it listens: the first account, the program's own
    addresses; and setting the password from the command line. *)

From S2P Require Import Prelude Text Netip GoTime Sql Schema WellFormed Crypto Sessions Password.
From S2P Require Import Dial Validate Config.

Section Main.
Context `{!Crypto, !NetLib, !Network}.

(** [bootstrap]; [salt] is what [rand.Read] supplies to [auth.Hash]. *)
Definition bootstrap (now : Time) (salt : list Z) (user password : string) : M Db unit :=
  let! a := catch Admin in
  match a with
  | Err ErrNotFound =>
      if decide (user = "") then ret () else SetAdmin now user (Hash password salt)
  | Err e => throw e
  | Ok _ => ret ()
  end.

(** [strings.TrimSuffix] of one byte. *)
Definition trim_suffix (b : Z) (l : list Z) : list Z :=
  match reverse l with
  | x :: l' => if decide (x = b) then reverse l' else l
  | [] => []
  end.

(** [ReadString] up to a line feed: the line with it, or what there is. *)
Fixpoint read_line (l : list Z) : list Z :=
  match l with
  | [] => []
  | b :: l => if decide (b = 10) then [10] else b :: read_line l
  end.

(** The password on the standard input, without the end of its line. *)
Definition read_password (input : list Z) : string :=
  of_bytes (trim_suffix 13 (trim_suffix 10 (read_line input))).

Inductive pwerr : Type := BadName | BadPassword | StoreError (e : sqlerr).

(** [setPassword], with an input that can be read. *)
Definition setPassword (now : Time) (salt : list Z) (name : string) (input : list Z)
    (w : World Db) : res pwerr unit * World Db :=
  if bool_decide (name = "") || negb (name_ok name) then (Err BadName, w) else
  let password := read_password input in
  if decide (RuneCount password < 12) then (Err BadPassword, w) else
  match SetAdmin now name (Hash password salt) w with
  | (Ok _, w) => (Ok (), w)
  | (Err e, w) => (Err (StoreError e), w)
  end.

(** [selfAddrs]: the public addresses behind the base URL, which checks must
    not contact. *)
Definition own_public (ip : Addr) : bool :=
  negb (IsPrivate ip) && negb (IsLoopback ip) && negb (Contains cgnat ip).

Definition selfAddrs (baseURL : string) : list Addr :=
  if decide (baseURL = "") then [] else
  match url_Parse baseURL with
  | None => []
  | Some u =>
      match LookupNetIP (u_Hostname u) with
      | None => []
      | Some ips => filter (λ ip, own_public ip = true) ((λ ip, Unmap (WithoutZone ip)) <$> ips)
      end
  end.

(** ** Lemmas *)

(** An account that exists is never replaced at the start. *)
Lemma bootstrap_keeps_account now salt user password w a :
  admin (w_db w) = Some a → w_db (bootstrap now salt user password w).2 = w_db w.
Proof.
  intros Ha. unfold bootstrap, catch, Admin, found, bind, query, stmt.
  pose proof (tick_db w) as Ht. destruct (tick w) as [[] w1]; simpl in *; [done|].
  by rewrite Ht, Ha.
Qed.
End Main.
