(* ===== verification/Commands.v ===== *)
(** * The program (cmd/dmn-status/main.go)

    The command line, what serve does in which order, the health check, and
    what a new password from the command line leaves behind. *)

From S2P Require Import Prelude Text Netip GoTime Sql Schema WellFormed Crypto Sessions Password.
From S2P Require Import Dial Validate Config Runner Scheduler Mail Main.

(** ** The command line *)

Inductive command : Type :=
  | CmdServe
  | CmdSetPassword (name : string)
  | CmdHealthcheck
  | CmdBackup (file : string)
  | CmdVersion
  | CmdUsage.

(** [os.Args]: the program, the command and its arguments. *)
Definition parse_args (args : list string) : command :=
  match args with
  | [] | [_] => CmdUsage
  | _ :: cmd :: args =>
      if decide (cmd = "serve") then CmdServe
      else if decide (cmd = "admin") then
        match args with
        | [sub; name] => if decide (sub = "set-password") then CmdSetPassword name else CmdUsage
        | _ => CmdUsage
        end
      else if decide (cmd = "healthcheck") then CmdHealthcheck
      else if decide (cmd = "backup") then
        match args with [file] => CmdBackup file | _ => CmdUsage end
      else if decide (cmd = "version") then CmdVersion
      else CmdUsage
  end.

(** The exit status: 2 for the usage, 1 when the command failed. *)
Definition exit_code (c : command) (failed : bool) : Z :=
  match c with
  | CmdUsage => 2
  | CmdVersion => 0
  | _ => if failed then 1 else 0
  end.

(** ** Errors *)

Inductive runerr : Type :=
  | ErrConfig
  | ErrOpen (e : sqlerr)
  | ErrStore (e : sqlerr)
  | ErrPassword (e : pwerr)
  | ErrListen
  | ErrAddr
  | ErrProbe
  | ErrStatus (code : Z)
  (** [errors.Join]: the close failed, beside what failed before *)
  | ErrClose (before : option runerr).

(** [errors.Join(err, st.Close())]. *)
Definition join_close (err : option runerr) (close_failed : bool) : option runerr :=
  if close_failed then Some (ErrClose err) else err.

Section Commands.
Context `{!Crypto, !NetLib, !Network}.
Variable get : string → string.

(** What [store.Open] returned: [Migrations] has what it does to the file. *)
Variable opened : option sqlerr.

(** [withStore]. *)
Definition withStore (fn : World Db → option runerr * World Db) (close_failed : bool) (w : World Db) :
    option runerr * World Db :=
  match Load get with
  | None => (Some ErrConfig, w)
  | Some _ =>
      match opened with
      | Some e => (Some (ErrOpen e), w)
      | None => let '(err, w) := fn w in (join_close err close_failed, w)
      end
  end.

(** The command admin set-password. *)
Definition admin_set_password (now : Time) (salt : list Z) (name : string) (input : list Z) :
    bool → World Db → option runerr * World Db :=
  withStore (λ w, let '(r, w) := setPassword now salt name input w in
                  (match r with Ok _ => None | Err e => Some (ErrPassword e) end, w)).

(** ** healthcheck *)

(** [net.JoinHostPort]: brackets around a host with a colon. *)
Definition JoinHostPort (host port : string) : string :=
  match index_byte colon (bytes host) with
  | Some _ => "[" +:+ host +:+ "]:" +:+ port
  | None => host +:+ ":" +:+ port
  end.

(** [probe]; [http_get] is the status of the response, if there is one. *)
Definition probe (http_get : string → option Z) (url : string) : option runerr :=
  match http_get url with
  | None => Some ErrProbe
  | Some code => if decide (code = 200) then None else Some (ErrStatus code)
  end.

Definition healthcheck (http_get : string → option Z) : option runerr :=
  match Load get with
  | None => Some ErrConfig
  | Some cfg =>
      match SplitHostPort (cf_Addr cfg) with
      | None => Some ErrAddr
      | Some (_, port) => probe http_get ("http://" +:+ JoinHostPort "127.0.0.1" port +:+ "/healthz")
      end
  end.

(** ** serve *)

(** What serve does, as far as others can tell. *)
Inductive event : Type :=
  | EvOpen | EvBootstrap | EvStart | EvMaintain | EvListen | EvShutdown | EvWait | EvClose.

#[export] Instance event_eq_dec : EqDecision event.
Proof. solve_decision. Defined.

(** How the server ended: ListenAndServe returned, or a signal came. *)
Inductive ended : Type := Listened (closed : bool) | Signalled.

(** [alert.Mailer] when mails are configured. *)
Definition mailer_of (cfg : Config) : option Account :=
  if MailEnabled cfg
  then Some (mkAccount (cf_SMTPHost cfg) (cf_SMTPUser cfg) (cf_SMTPPass cfg) (cf_MailFrom cfg)
               (cf_MailTo cfg) (cf_BaseURL cfg))
  else None.

(** What checks may reach: [check.Checker{PrivateAllow, Block}]. *)
Record checks_limits : Type := mkLimits { cl_allow : list string; cl_block : list Addr }.

Definition checker_of (cfg : Config) : checks_limits :=
  mkLimits (cf_PrivateAllow cfg) (selfAddrs (cf_BaseURL cfg)).

Definition stopped : Mgr := mkMgr ∅ ∅ false.

Record served : Type := mkServed {
  se_events : list event;
  se_err : option runerr;
  (** what [monitor.New] was given *)
  se_monitor : option (checks_limits * option Account);
  se_world : World Db;
  se_mgr : Mgr;
}.

Definition serve (now : Time) (salt : list Z) (how : ended) (w : World Db) : served :=
  match Load get with
  | None => mkServed [] (Some ErrConfig) None w stopped
  | Some cfg =>
      match opened with
      | Some e => mkServed [EvOpen] (Some (ErrOpen e)) None w stopped
      | None =>
          let '(r, w) := bootstrap now salt (cf_AdminUser cfg) (cf_AdminPassword cfg) w in
          match r with
          | Err e => mkServed [EvOpen; EvBootstrap; EvClose] (Some (ErrStore e)) None w stopped
          | Ok _ =>
              let given := Some (checker_of cfg, mailer_of cfg) in
              let '(r, (w, m)) := Start w stopped in
              match r with
              | Err e =>
                  mkServed [EvOpen; EvBootstrap; EvStart; EvClose] (Some (ErrStore e)) given w m
              | Ok _ =>
                  mkServed
                    [EvOpen; EvBootstrap; EvStart; EvMaintain; EvListen; EvShutdown; EvWait; EvClose]
                    (match how with
                     | Listened closed => if closed then None else Some ErrListen
                     | Signalled => None
                     end) given w m
              end
          end
      end
  end.

(** ** Lemmas *)

Lemma withStore_effect fn c w r w' :
  withStore fn c w = (r, w') → w' = w ∨ ∃ err, fn w = (err, w') ∧ r = join_close err c.
Proof.
  unfold withStore. repeat case_match; intros; simplify_eq; eauto.
Qed.

Lemma keeps_bootstrap now salt user password : keeps Wf (bootstrap now salt user password).
Proof.
  unfold bootstrap, Admin. apply keeps_bind; [auto with sql|]. intros [a|e]; [auto with sql|].
  destruct e; auto with sql. case_decide; auto with sql.
Qed.

Lemma bootstrap_effect now salt user password w :
  match bootstrap now salt user password w with
  | (Ok _, w') =>
      match admin (w_db w) with
      | Some a => w_db w' = w_db w
      | None =>
          if decide (user = "") then w_db w' = w_db w
          else admin (w_db w') = Some (mkAdminRow user (Hash password salt) (Unix now))
      end
  | (Err _, w') => w_db w' = w_db w
  end.
Proof.
  unfold bootstrap, catch, Admin, found, query, bind, stmt.
  pose proof (tick_db w) as Ht. destruct (tick w) as [[] w1]; simpl in *; [done|].
  rewrite Ht. destruct (admin (w_db w)) as [a|] eqn:Ha; simpl; [by rewrite ?Ht|].
  case_decide; simpl; [by rewrite ?Ht|].
  pose proof (SetAdmin_cases now user (Hash password salt) (mkWorld (w_db w) (w_faults w1))) as Hs.
  destruct (SetAdmin _ _ _ _) as [[u|e] w']; simpl in *; by rewrite Hs.
Qed.

Lemma setPassword_effect now salt name input w :
  match setPassword now salt name input w with
  | (Ok _, w') =>
      w_db w' = mkDb (targets (w_db w)) (checks (w_db w)) (hourly (w_db w)) (incidents (w_db w))
        (Some (mkAdminRow name (Hash (read_password input) salt) (Unix now))) ∅ ∅ ∧
      name ≠ "" ∧ name_ok name = true ∧ 12 ≤ RuneCount (read_password input)
  | (Err _, w') => w_db w' = w_db w
  end.
Proof.
  unfold setPassword. destruct (bool_decide (name = "") || negb (name_ok name)) eqn:Hn; [done|].
  apply orb_false_iff in Hn as [Hn Hok]. apply bool_decide_eq_false in Hn.
  apply negb_false_iff in Hok. case_decide; [done|].
  pose proof (SetAdmin_cases now name (Hash (read_password input) salt) w) as Hs.
  destruct (SetAdmin _ _ _ _) as [[u|e] w']; [|done]. split_and!; try done. lia.
Qed.
End Commands.

(** The steps of a complete run of serve. *)
Definition full_run : list event :=
  [EvOpen; EvBootstrap; EvStart; EvMaintain; EvListen; EvShutdown; EvWait; EvClose].

Ltac sublists := repeat first [apply sublist_skip | apply sublist_cons | apply sublist_nil_l].

(** ** Properties *)

(** Serve listens only when the configuration is valid, the
    database is open, the configured account exists and exactly the stored,
    unpaused targets are monitored; its steps come in their order, and once
    the database was opened it is closed last, after every goroutine. *)
Theorem serve_order `{!Crypto, !NetLib, !Network} get opened now salt how w :
  Wf (w_db w) →
  let s := serve get opened now salt how w in
  sublist (se_events s) full_run ∧
  (opened = None → se_events s ≠ [] → last (se_events s) = Some EvClose) ∧
  (EvListen ∈ se_events s → EvWait ∈ se_events s ∧ ∃ cfg, Load get = Some cfg ∧ opened = None ∧
    se_monitor s = Some (checker_of cfg, mailer_of cfg) ∧
    (cf_AdminUser cfg ≠ "" → is_Some (admin (w_db (se_world s)))) ∧
    in_step (w_db (se_world s)) (se_mgr s) ∧ mg_alive (se_mgr s) = true).
Proof.
  intros Hwf s. subst s. unfold serve.
  destruct (Load get) as [cfg|] eqn:Hcfg; [|split_and!; [apply sublist_nil_l|done|set_solver]].
  destruct opened as [e|]; [split_and!; [sublists|done|set_solver]|].
  pose proof (bootstrap_effect now salt (cf_AdminUser cfg) (cf_AdminPassword cfg) w) as Hb.
  pose proof (keeps_bootstrap now salt (cf_AdminUser cfg) (cf_AdminPassword cfg) w Hwf) as Hwf1.
  destruct (bootstrap _ _ _ _ w) as [[u|e] w1]; [|split_and!; [sublists|done|set_solver]].
  simpl in Hwf1.
  destruct (Start w1 stopped) as [[u'|e] [w2 m]] eqn:Hs;
    [|split_and!; [sublists|done|set_solver]].
  destruct u'. destruct (Start_in_step w1 stopped w2 m Hwf1 eq_refl Hs) as (Hdb & Hin & Ha).
  split_and!; [sublists|done|]. intros _. split; [simpl; set_solver|]. exists cfg. simpl.
  rewrite Hdb. split_and!; try done. intros Hu. destruct (admin (w_db w)) eqn:E; [by rewrite Hb, E|].
  rewrite decide_False in Hb by done. rewrite Hb. by eexists.
Qed.

Lemma serve_order_witness :
  let s := @serve toy_crypto plain_netlib toy_network (λ _, "") None 0 [] Signalled (quiet empty_db) in
  EvListen ∈ se_events s ∧ in_step (w_db (se_world s)) (se_mgr s).
Proof.
  intros s. assert (EvListen ∈ se_events s) as Hl.
  { assert (se_events s = full_run) as -> by by vm_compute. unfold full_run. set_solver. }
  split; [exact Hl|].
  destruct (@serve_order toy_crypto plain_netlib toy_network (λ _, "") None 0 [] Signalled
    (quiet empty_db) Wf_empty) as (_ & _ & H).
  by destruct (H Hl) as (_ & cfg & _ & _ & _ & _ & Hin & _).
Defined.
